(** * Balancer module of rotki: event synchronisation and profit/loss

    A shallow embedding of
    [rotkehlchen/chain/ethereum/modules/balancer/balancer.py] and the
    properties of its event pipeline: paginated fetching from the subgraph,
    de-duplication, aggregation of invest and BPT events into
    [BalancerEvent]s, the used-query-range ledger, price resolution and the
    per-pool profit/loss computation.

    Conventions of the embedding.
    - [FVal] (arbitrary precision decimals) is modelled by [Z]: amounts, prices
      and USD values are exact numbers counted in a fixed smallest unit, and
      only [+], [-], [*] and comparison with zero are used by the code.
    - A Python [dict] whose iteration order is observable is an insertion
      ordered association list ([PyDict]); the table of used query ranges,
      only ever accessed by key, is a [gmap].
    - Exceptions are the [Raise] outcome; [while True] loops take fuel and
      report [Diverge] when it runs out.
    - The records of [.types] are declared from the fields that [balancer.py]
      reads and writes. *)

From Stdlib Require Import ZArith Lia.
From stdpp Require Import base tactics option list strings gmap sorting.

Local Open Scope Z_scope.

(** ** Exceptions and outcomes *)

Inductive exn : Type :=
| RemoteError
| DeserializationError
| KeyError
| IndexError
| UnboundLocalError
| AttributeError.

#[global] Instance exn_eq_dec : EqDecision exn.
Proof. solve_decision. Defined.

Inductive outcome (A : Type) : Type :=
| Ok (a : A)
| Raise (e : exn)
| Diverge.

Arguments Ok {A} a.
Arguments Raise {A} e.
Arguments Diverge {A}.

#[global] Instance outcome_ret : MRet outcome := fun A a => Ok a.
#[global] Instance outcome_bind : MBind outcome := fun A B k m =>
  match m with
  | Ok a => k a
  | Raise e => Raise e
  | Diverge => Diverge
  end.

Definition is_ok {A} (m : outcome A) : bool :=
  match m with Ok _ => true | _ => false end.

(** How a computation ends when it does not return: with an exception, or
    never ([None]). *)
Definition failure {A} (m : outcome A) : option (option exn) :=
  match m with
  | Ok _ => None
  | Raise e => Some (Some e)
  | Diverge => Some None
  end.

(** Left fold of a fallible loop body over a list: a Python [for] whose body
    may raise. *)
Fixpoint for_each {A S} (body : S -> A -> outcome S) (xs : list A) (s : S)
  : outcome S :=
  match xs with
  | [] => Ok s
  | x :: xs' => s' ← body s x; for_each body xs' s'
  end.

Definition Zsum (l : list Z) : Z := foldr Z.add 0 l.

(** ** Tactics *)

(** Fold [list_fmap] back into [<$>] after a simplification. *)
Ltac refold_fmap :=
  repeat match goal with
  | |- context [list_fmap ?A ?B ?f ?l] => change (list_fmap A B f l) with (f <$> l)
  end.

(** Decide a closed decidable proposition by evaluation. *)
Ltac by_decide :=
  match goal with
  | |- ?P => apply (@bool_decide_unpack P _); vm_compute; exact I
  end.

(** ** Python dictionaries with observable insertion order *)

Module PyDict.
Section defs.
Context {K V : Type} `{EqDecision K}.

Fixpoint get (d : list (K * V)) (k : K) : option V :=
  match d with
  | [] => None
  | (k', v) :: d' => if decide (k' = k) then Some v else get d' k
  end.

(** [d[k] = v]: an existing key keeps its position, a new one goes last. *)
Fixpoint set (d : list (K * V)) (k : K) (v : V) : list (K * V) :=
  match d with
  | [] => [(k, v)]
  | (k', v') :: d' =>
      if decide (k' = k) then (k', v) :: d' else (k', v') :: set d' k v
  end.

(** [d[k]] on a [defaultdict]: a missing key is inserted with the default. *)
Definition getitem_default (dflt : V) (d : list (K * V)) (k : K)
  : V * list (K * V) :=
  match get d k with
  | Some v => (v, d)
  | None => (dflt, set d k dflt)
  end.

(** [d.get(k, dflt)] *)
Definition get_or (dflt : V) (d : list (K * V)) (k : K) : V :=
  default dflt (get d k).

Definition keys (d : list (K * V)) : list K := d.*1.

End defs.
End PyDict.

(** ** Data model *)

Abbreviation ChecksumEvmAddress := string (only parsing).
Abbreviation Timestamp := Z (only parsing).
Abbreviation FVal := Z (only parsing).
Abbreviation Price := Z (only parsing).
(** A transaction hash is 32 bytes; [bytes] of one length compare as the
    big-endian numbers they spell. *)
Abbreviation EVMTxHash := N (only parsing).

Definition ZERO : FVal := 0.
Definition ZERO_PRICE : Price := 0.

Module EvmToken.
Record t : Type := mk {
  evm_address : ChecksumEvmAddress;
  (** addresses of the underlying tokens, in pool order *)
  underlying_tokens : list ChecksumEvmAddress;
}.
#[global] Instance eq_dec : EqDecision t.
Proof. solve_decision. Defined.
End EvmToken.

Module Balance.
Record t : Type := mk { amount : FVal; usd_value : FVal }.
#[global] Instance eq_dec : EqDecision t.
Proof. solve_decision. Defined.
End Balance.

Inductive BalancerBPTEventType : Type := MINT | BURN.
Inductive BalancerInvestEventType : Type := ADD_LIQUIDITY | REMOVE_LIQUIDITY.

#[global] Instance BalancerBPTEventType_eq_dec : EqDecision BalancerBPTEventType.
Proof. solve_decision. Defined.
#[global] Instance BalancerInvestEventType_eq_dec :
  EqDecision BalancerInvestEventType.
Proof. solve_decision. Defined.

Module BalancerInvestEvent.
Record t : Type := mk {
  tx_hash : EVMTxHash;
  log_index : Z;
  address : ChecksumEvmAddress;
  timestamp : Timestamp;
  event_type : BalancerInvestEventType;
  pool_address_token : EvmToken.t;
  token_address : ChecksumEvmAddress;
  amount : FVal;
}.
#[global] Instance eq_dec : EqDecision t.
Proof. solve_decision. Defined.
End BalancerInvestEvent.

Module BalancerBPTEvent.
Record t : Type := mk {
  tx_hash : EVMTxHash;
  log_index : Z;
  address : ChecksumEvmAddress;
  event_type : BalancerBPTEventType;
  pool_address_token : EvmToken.t;
  amount : FVal;
}.
#[global] Instance eq_dec : EqDecision t.
Proof. solve_decision. Defined.
End BalancerBPTEvent.

Module BalancerEvent.
Record t : Type := mk {
  tx_hash : EVMTxHash;
  log_index : Z;
  address : ChecksumEvmAddress;
  timestamp : Timestamp;
  event_type : BalancerBPTEventType;
  pool_address_token : EvmToken.t;
  lp_balance : Balance.t;
  amounts : list FVal;
}.
#[global] Instance eq_dec : EqDecision t.
Proof. solve_decision. Defined.
End BalancerEvent.

Module BalancerPoolTokenBalance.
Record t : Type := mk {
  token : EvmToken.t;
  user_balance : Balance.t;
  usd_price : Price;
}.
End BalancerPoolTokenBalance.

Module BalancerPoolBalance.
Record t : Type := mk {
  pool_token : EvmToken.t;
  underlying_tokens_balance : list BalancerPoolTokenBalance.t;
  user_balance : Balance.t;
}.
End BalancerPoolBalance.

Module BalancerPoolEventsBalance.
Record t : Type := mk {
  address : ChecksumEvmAddress;
  pool_address_token : EvmToken.t;
  events : list BalancerEvent.t;
  profit_loss_amounts : list FVal;
  usd_profit_loss : FVal;
}.
End BalancerPoolEventsBalance.

Module BalancerEventsData.
Record t : Type := mk {
  add_liquidities : list BalancerInvestEvent.t;
  remove_liquidities : list BalancerInvestEvent.t;
  mints : list BalancerBPTEvent.t;
  burns : list BalancerBPTEvent.t;
}.
End BalancerEventsData.

(** ** BalanceAggregator: [_calculate_pool_events_balances] *)

Module BalanceAggregator.
Section calculate.
(** [POOL_MAX_NUMBER_TOKENS] is a constant of [.types]. *)
Variable POOL_MAX_NUMBER_TOKENS : nat.

(** The three [defaultdict]s of the function. *)
Record dicts : Type := mk_dicts {
  pool_addr_to_events : list (EvmToken.t * list BalancerEvent.t);
  pool_addr_to_profit_loss_amounts : list (EvmToken.t * list FVal);
  pool_addr_to_usd_value : list (EvmToken.t * FVal);
}.

Definition zero_amounts : list FVal := replicate POOL_MAX_NUMBER_TOKENS ZERO.

(** [operator = sub if event.event_type == MINT else add] *)
Definition operator (ty : BalancerBPTEventType) : FVal -> FVal -> FVal :=
  if decide (ty = MINT) then Z.sub else Z.add.

Definition event_amounts (event : BalancerEvent.t) : list FVal :=
  BalancerEvent.amounts event
    ++ replicate (POOL_MAX_NUMBER_TOKENS - length (BalancerEvent.amounts event))%nat ZERO.

(** Body of [for event in events]. *)
Definition event_step (d : dicts) (event : BalancerEvent.t) : dicts :=
  let pool := BalancerEvent.pool_address_token event in
  let '(pool_events, d_events) :=
    PyDict.getitem_default [] (pool_addr_to_events d) pool in
  let d_events := PyDict.set d_events pool (pool_events ++ [event]) in
  let op := operator (BalancerEvent.event_type event) in
  let '(profit_loss_amounts, d_pl) :=
    PyDict.getitem_default zero_amounts (pool_addr_to_profit_loss_amounts d) pool in
  let d_pl :=
    PyDict.set d_pl pool (zip_with op profit_loss_amounts (event_amounts event)) in
  let '(usd_value, d_usd) :=
    PyDict.getitem_default ZERO (pool_addr_to_usd_value d) pool in
  let d_usd :=
    PyDict.set d_usd pool
      (op usd_value (Balance.usd_value (BalancerEvent.lp_balance event))) in
  mk_dicts d_events d_pl d_usd.

(** [enumerate] *)
Definition enumerate {A} (l : list A) : list (nat * A) :=
  zip (seq 0 (length l)) l.

(** Body of [for idx, underlying_token_balance in enumerate(...)]: the
    list [profit_loss_amounts] is the object stored in the dictionary, so
    the item assignment is seen through it; an index past its end raises. *)
Definition token_balance_step (pool : EvmToken.t)
    (st : list (EvmToken.t * list FVal) * list (EvmToken.t * FVal))
    (x : nat * BalancerPoolTokenBalance.t)
  : outcome (list (EvmToken.t * list FVal) * list (EvmToken.t * FVal)) :=
  let '(d_pl, d_usd) := st in
  let '(idx, underlying_token_balance) := x in
  let ub := BalancerPoolTokenBalance.user_balance underlying_token_balance in
  let profit_loss_amounts := PyDict.get_or zero_amounts d_pl pool in
  match profit_loss_amounts !! idx with
  | None => Raise IndexError
  | Some old =>
      let d_pl :=
        PyDict.set d_pl pool (<[idx := old + Balance.amount ub]> profit_loss_amounts) in
      let '(usd_value, d_usd) := PyDict.getitem_default ZERO d_usd pool in
      let d_usd := PyDict.set d_usd pool (usd_value + Balance.usd_value ub) in
      Ok (d_pl, d_usd)
  end.

(** Body of [for pool_balance in pool_balances]. *)
Definition balance_step (d : dicts) (pool_balance : BalancerPoolBalance.t)
  : outcome dicts :=
  let pool := BalancerPoolBalance.pool_token pool_balance in
  let '(_, d_pl) :=
    PyDict.getitem_default zero_amounts (pool_addr_to_profit_loss_amounts d) pool in
  '(d_pl, d_usd) ←
    for_each (token_balance_step pool)
      (enumerate (BalancerPoolBalance.underlying_tokens_balance pool_balance))
      (d_pl, pool_addr_to_usd_value d);
  Ok (mk_dicts (pool_addr_to_events d) d_pl d_usd).

(** Body of [for pool_address_token, pool_events in pool_addr_to_events.items()]. *)
Definition pool_events_balance (address : ChecksumEvmAddress) (d : dicts)
    (item : EvmToken.t * list BalancerEvent.t) : BalancerPoolEventsBalance.t :=
  let '(pool_address_token, pool_events) := item in
  let pool_tokens := EvmToken.underlying_tokens pool_address_token in
  let profit_loss_amounts :=
    take (length pool_tokens)
      (PyDict.get_or zero_amounts (pool_addr_to_profit_loss_amounts d)
         pool_address_token) in
  BalancerPoolEventsBalance.mk address pool_address_token pool_events
    profit_loss_amounts
    (PyDict.get_or ZERO (pool_addr_to_usd_value d) pool_address_token).

Definition _calculate_pool_events_balances (address : ChecksumEvmAddress)
    (events : list BalancerEvent.t) (pool_balances : list BalancerPoolBalance.t)
  : outcome (list BalancerPoolEventsBalance.t) :=
  let d := foldl event_step (mk_dicts [] [] []) events in
  d ← for_each balance_step pool_balances d;
  Ok (pool_events_balance address d <$> pool_addr_to_events d).

(** *** What the claim of the spec would compute *)

(** The accumulation in the words of the spec: [+amount] for a MINT,
    [-amount] for a BURN. *)
Definition spec_sign (ty : BalancerBPTEventType) : Z :=
  match ty with MINT => 1 | BURN => -1 end.

(** The accumulation of the code. *)
Definition sign (ty : BalancerBPTEventType) : Z :=
  match ty with MINT => -1 | BURN => 1 end.

Definition events_of (pool : EvmToken.t) (events : list BalancerEvent.t)
  : list BalancerEvent.t :=
  filter (fun e => BalancerEvent.pool_address_token e = pool) events.

Definition balances_of (pool : EvmToken.t) (bs : list BalancerPoolBalance.t)
  : list BalancerPoolBalance.t :=
  filter (fun b => BalancerPoolBalance.pool_token b = pool) bs.

Definition live_amount (i : nat) (b : BalancerPoolBalance.t) : FVal :=
  nth i ((fun t => Balance.amount (BalancerPoolTokenBalance.user_balance t))
           <$> BalancerPoolBalance.underlying_tokens_balance b) 0.

Definition live_usd (b : BalancerPoolBalance.t) : FVal :=
  Zsum ((fun t => Balance.usd_value (BalancerPoolTokenBalance.user_balance t))
          <$> BalancerPoolBalance.underlying_tokens_balance b).

(** Signed sum, over the events of a pool, of the amount of token [i],
    plus the live balances of that token. *)
Definition profit_loss_at (sgn : BalancerBPTEventType -> Z)
    (events : list BalancerEvent.t) (pool_balances : list BalancerPoolBalance.t)
    (pool : EvmToken.t) (i : nat) : FVal :=
  Zsum ((fun e => sgn (BalancerEvent.event_type e) * nth i (BalancerEvent.amounts e) 0)
          <$> events_of pool events)
  + Zsum (live_amount i <$> balances_of pool pool_balances).

Definition usd_profit_loss_of (sgn : BalancerBPTEventType -> Z)
    (events : list BalancerEvent.t) (pool_balances : list BalancerPoolBalance.t)
    (pool : EvmToken.t) : FVal :=
  Zsum ((fun e => sgn (BalancerEvent.event_type e)
                  * Balance.usd_value (BalancerEvent.lp_balance e))
          <$> events_of pool events)
  + Zsum (live_usd <$> balances_of pool pool_balances).

(** Every profit/loss vector of the dictionary, present or yet to be
    created, has [POOL_MAX_NUMBER_TOKENS] items. *)
Definition lengths_ok (d : dicts) : Prop :=
  forall p,
    length (PyDict.get_or zero_amounts (pool_addr_to_profit_loss_amounts d) p)
    = POOL_MAX_NUMBER_TOKENS.
End calculate.
End BalanceAggregator.

(** ** Messages to the user ([msg_aggregator.add_error]) *)

Inductive message : Type :=
| SUBGRAPH_REMOTE_ERROR_MSG
| UNISWAP_REMOTE_ERROR_MSG
(** "Failed to request the USD price of <token> at timestamp <ts>. The USD
    price of the Balancer <event type> for the pool <pool> at transaction
    <tx> can't be calculated and it will be set to zero." *)
| MissingPriceAt (token : ChecksumEvmAddress) (timestamp : Timestamp)
    (event_type : BalancerBPTEventType) (pool : ChecksumEvmAddress)
    (tx_hash : EVMTxHash)
(** "Failed to request the USD price of <token>. Balances of the balancer
    pools that have this token won't be accurate." *)
| MissingPrice (token : ChecksumEvmAddress).

(** ** EventAggregator: [_get_balancer_aggregated_events_data] *)

Module EventAggregator.
Section aggregate.
(** [EvmToken(ethaddress_to_identifier(address))]: the token of the asset
    database with that address. *)
Variable token_of_address : ChecksumEvmAddress -> EvmToken.t.
(** A call of [self._get_token_price_at_timestamp_zero_if_error] (line 687):
    the messages it leaves on [msg_aggregator], and the price it returns or
    the way it fails. *)
Variable token_price_at :
  EvmToken.t -> Timestamp -> list message * outcome Price.
(** [GlobalDBHandler().get_evm_tokens(chain_id=ETHEREUM, protocol='balancer')] *)
Variable db_pools : list EvmToken.t.

(** The objects the caller passes in and the function mutates, and the
    message aggregator. *)
Record state : Type := mk_state {
  balancer_pools : list EvmToken.t;
  balancer_events : list BalancerEvent.t;
  pool_addr_to_token_addr_to_index :
    list (EvmToken.t * list (ChecksumEvmAddress * nat));
  msgs : list message;
}.

(** [{token.address: idx for idx, token in enumerate(pool.underlying_tokens)}] *)
Definition token_addr_to_index (pool : EvmToken.t)
  : list (ChecksumEvmAddress * nat) :=
  foldl (fun d '(idx, a) => PyDict.set d a idx) []
    (BalanceAggregator.enumerate (EvmToken.underlying_tokens pool)).

(** Local state of the loop over the invest events of one BPT event. *)
Record group_state : Type := mk_group_state {
  g_amounts : list FVal;
  g_usd_value : FVal;
  is_missing_token_price : bool;
  g_msgs : list message;
}.

(** Body of [for invest_event in invest_events] (lines 680-700). *)
Definition invest_step
    (tokenaddr_to_index : option (list (ChecksumEvmAddress * nat)))
    (event_type : BalancerBPTEventType) (bpt_event : BalancerBPTEvent.t)
    (g : group_state) (invest_event : BalancerInvestEvent.t)
  : outcome group_state :=
  match tokenaddr_to_index with
  | None => Raise KeyError
  | Some tokenaddr_to_index =>
  match PyDict.get tokenaddr_to_index (BalancerInvestEvent.token_address invest_event) with
  | None => Raise KeyError
  | Some token_idx =>
  match g_amounts g !! token_idx with
  | None => Raise IndexError
  | Some old =>
      let amounts :=
        <[token_idx := old + BalancerInvestEvent.amount invest_event]> (g_amounts g) in
      let token := token_of_address (BalancerInvestEvent.token_address invest_event) in
      if is_missing_token_price g then
        Ok (mk_group_state amounts (g_usd_value g) true (g_msgs g))
      else
        let lookup :=
          token_price_at token (BalancerInvestEvent.timestamp invest_event) in
        usd_price ← lookup.2;
        let usd_value :=
          g_usd_value g + usd_price * BalancerInvestEvent.amount invest_event in
        if decide (usd_price = ZERO) then
          Ok (mk_group_state amounts usd_value true
                (g_msgs g ++ lookup.1 ++
                   [MissingPriceAt (EvmToken.evm_address token)
                      (BalancerInvestEvent.timestamp invest_event) event_type
                      (EvmToken.evm_address (BalancerBPTEvent.pool_address_token bpt_event))
                      (BalancerBPTEvent.tx_hash bpt_event)]))
        else Ok (mk_group_state amounts usd_value false (g_msgs g ++ lookup.1))
  end end end.

(** Body of [for bpt_event in getattr(events, attr_bpt_events)]
    (lines 639-715). *)
Definition bpt_step (event_type : BalancerBPTEventType)
    (tx_hash_and_pool_addr_to_invest_events :
       list ((EVMTxHash * EvmToken.t) * list BalancerInvestEvent.t))
    (st : state) (bpt_event : BalancerBPTEvent.t) : outcome state :=
  let pool := BalancerBPTEvent.pool_address_token bpt_event in
  let key := (BalancerBPTEvent.tx_hash bpt_event, pool) in
  let invest_events := PyDict.get_or [] tx_hash_and_pool_addr_to_invest_events key in
  match invest_events with
  | [] => Raise RemoteError
  | first :: _ =>
      let '(index_map, pools) :=
        match PyDict.get (pool_addr_to_token_addr_to_index st) pool with
        | Some _ => (pool_addr_to_token_addr_to_index st, balancer_pools st)
        | None =>
            (PyDict.set (pool_addr_to_token_addr_to_index st) pool
               (token_addr_to_index pool),
             balancer_pools st ++ [pool])
        end in
      let amounts := replicate (length (EvmToken.underlying_tokens pool)) ZERO in
      g ← for_each (invest_step (PyDict.get index_map pool) event_type bpt_event)
            invest_events (mk_group_state amounts ZERO false (msgs st));
      let usd_value := if is_missing_token_price g then ZERO else g_usd_value g in
      let balancer_event :=
        BalancerEvent.mk (BalancerBPTEvent.tx_hash bpt_event)
          (BalancerBPTEvent.log_index bpt_event)
          (BalancerBPTEvent.address bpt_event)
          (BalancerInvestEvent.timestamp first)
          event_type pool
          (Balance.mk (BalancerBPTEvent.amount bpt_event) usd_value)
          (g_amounts g) in
      Ok (mk_state pools (balancer_events st ++ [balancer_event]) index_map (g_msgs g))
  end.

Definition attr_invest_events (event_type : BalancerBPTEventType)
    (events : BalancerEventsData.t) : list BalancerInvestEvent.t :=
  match event_type with
  | MINT => BalancerEventsData.add_liquidities events
  | BURN => BalancerEventsData.remove_liquidities events
  end.

Definition attr_bpt_events (event_type : BalancerBPTEventType)
    (events : BalancerEventsData.t) : list BalancerBPTEvent.t :=
  match event_type with
  | MINT => BalancerEventsData.mints events
  | BURN => BalancerEventsData.burns events
  end.

(** The [defaultdict(list)] from (tx_hash, pool) to invest events
    (lines 630-633). *)
Definition group_invest_events (invest_events : list BalancerInvestEvent.t)
  : list ((EVMTxHash * EvmToken.t) * list BalancerInvestEvent.t) :=
  foldl (fun d invest_event =>
           let key := (BalancerInvestEvent.tx_hash invest_event,
                       BalancerInvestEvent.pool_address_token invest_event) in
           let '(l, d) := PyDict.getitem_default [] d key in
           PyDict.set d key (l ++ [invest_event]))
    [] invest_events.

(** Body of [for events in address_to_events_data.values()]. *)
Definition address_step (event_type : BalancerBPTEventType) (st : state)
    (events : BalancerEventsData.t) : outcome state :=
  for_each (bpt_step event_type
              (group_invest_events (attr_invest_events event_type events)))
    (attr_bpt_events event_type events) st.

Definition _get_balancer_aggregated_events_data_by_event_type
    (address_to_events_data : list (ChecksumEvmAddress * BalancerEventsData.t))
    (event_type : BalancerBPTEventType) (st : state) : outcome state :=
  for_each (address_step event_type) address_to_events_data.*2 st.

(** [for event_type in BalancerBPTEventType]: the members in definition
    order, MINT then BURN.  The function returns [balancer_events]; the
    final state is kept here for the messages. *)
Definition aggregated_state
    (address_to_events_data : list (ChecksumEvmAddress * BalancerEventsData.t))
  : outcome state :=
  let pool_addr_to_token_addr_to_index :=
    foldl (fun d db_pool => PyDict.set d db_pool (token_addr_to_index db_pool))
      [] db_pools in
  for_each
    (fun st event_type =>
       _get_balancer_aggregated_events_data_by_event_type
         address_to_events_data event_type st)
    [MINT; BURN]
    (mk_state [] [] pool_addr_to_token_addr_to_index []).

Definition _get_balancer_aggregated_events_data
    (address_to_events_data : list (ChecksumEvmAddress * BalancerEventsData.t))
  : outcome (list BalancerEvent.t) :=
  st ← aggregated_state address_to_events_data;
  Ok (balancer_events st).

(** *** Reference description of one aggregated event *)

Definition invest_group (event_type : BalancerBPTEventType)
    (events : BalancerEventsData.t) (bpt_event : BalancerBPTEvent.t)
  : list BalancerInvestEvent.t :=
  filter (fun i => BalancerInvestEvent.tx_hash i = BalancerBPTEvent.tx_hash bpt_event
                   /\ BalancerInvestEvent.pool_address_token i
                      = BalancerBPTEvent.pool_address_token bpt_event)
    (attr_invest_events event_type events).

(** The price lookup for an invest event. *)
Definition invest_lookup (i : BalancerInvestEvent.t)
  : list message * outcome Price :=
  token_price_at (token_of_address (BalancerInvestEvent.token_address i))
    (BalancerInvestEvent.timestamp i).

(** The price that the lookup for an invest event returns.  It is zero for
    a lookup that does not return: an aggregation that makes such a lookup
    returns no event. *)
Definition invest_price (i : BalancerInvestEvent.t) : Price :=
  match (invest_lookup i).2 with
  | Ok usd_price => usd_price
  | _ => ZERO
  end.

(** The USD value of a group: the sum of price times amount, or zero as soon
    as one price of the group is zero. *)
Definition group_usd_value (group : list BalancerInvestEvent.t) : FVal :=
  if decide (Exists (fun i => invest_price i = ZERO) group) then ZERO
  else Zsum ((fun i => invest_price i * BalancerInvestEvent.amount i) <$> group).

(** The pairs (event type, BPT event) in the order the aggregation visits
    them. *)
Definition bpt_events_in_order
    (address_to_events_data : list (ChecksumEvmAddress * BalancerEventsData.t))
  : list (BalancerBPTEventType * BalancerEventsData.t * BalancerBPTEvent.t) :=
  ty ← [MINT; BURN];
  events ← address_to_events_data.*2;
  bpt_event ← attr_bpt_events ty events;
  [(ty, events, bpt_event)].
(** What one aggregated event holds, given the BPT event and its group. *)
Definition aggregates (event_type : BalancerBPTEventType)
    (events : BalancerEventsData.t) (bpt_event : BalancerBPTEvent.t)
    (ev : BalancerEvent.t) : Prop :=
  let group := invest_group event_type events bpt_event in
  BalancerEvent.tx_hash ev = BalancerBPTEvent.tx_hash bpt_event
  /\ BalancerEvent.log_index ev = BalancerBPTEvent.log_index bpt_event
  /\ BalancerEvent.address ev = BalancerBPTEvent.address bpt_event
  /\ BalancerEvent.event_type ev = event_type
  /\ BalancerEvent.pool_address_token ev = BalancerBPTEvent.pool_address_token bpt_event
  /\ Balance.amount (BalancerEvent.lp_balance ev) = BalancerBPTEvent.amount bpt_event
  /\ Balance.usd_value (BalancerEvent.lp_balance ev) = group_usd_value group
  /\ head (BalancerInvestEvent.timestamp <$> group) = Some (BalancerEvent.timestamp ev)
  /\ length (BalancerEvent.amounts ev)
     = length (EvmToken.underlying_tokens (BalancerBPTEvent.pool_address_token bpt_event)).

(** Every invest event of the group of a BPT event moves a token of the pool. *)
Definition tokens_in_pool (event_type : BalancerBPTEventType)
    (events : BalancerEventsData.t) (bpt_event : BalancerBPTEvent.t) : Prop :=
  Forall (fun i => BalancerInvestEvent.token_address i
                   ∈ EvmToken.underlying_tokens
                       (BalancerBPTEvent.pool_address_token bpt_event))
    (invest_group event_type events bpt_event).

(** An invest event is matched when some BPT event of the list has its
    transaction and pool. *)
Definition matched (bpt_events : list BalancerBPTEvent.t)
    (i : BalancerInvestEvent.t) : Prop :=
  Exists (fun b => BalancerInvestEvent.tx_hash i = BalancerBPTEvent.tx_hash b
                   /\ BalancerInvestEvent.pool_address_token i
                      = BalancerBPTEvent.pool_address_token b) bpt_events.

(** The events data without the invest events that no BPT event matches. *)
Definition drop_unmatched (events : BalancerEventsData.t) : BalancerEventsData.t :=
  BalancerEventsData.mk
    (filter (matched (BalancerEventsData.mints events))
       (BalancerEventsData.add_liquidities events))
    (filter (matched (BalancerEventsData.burns events))
       (BalancerEventsData.remove_liquidities events))
    (BalancerEventsData.mints events)
    (BalancerEventsData.burns events).

(** Every entry of the index dictionary is the enumeration of its pool. *)
Definition index_ok (st : state) : Prop :=
  forall p tm, PyDict.get (pool_addr_to_token_addr_to_index st) p = Some tm ->
               tm = token_addr_to_index p.

(** The BPT events of one address and one type, as [bpt_events_in_order]
    lists them. *)
Definition in_order_of (ty : BalancerBPTEventType) (events : BalancerEventsData.t)
  : list (BalancerBPTEventType * BalancerEventsData.t * BalancerBPTEvent.t) :=
  b ← attr_bpt_events ty events; [(ty, events, b)].

(** Every BPT event has at least one invest event of its transaction and
    pool, under its address. *)
Definition well_paired
    (data : list (ChecksumEvmAddress * BalancerEventsData.t)) : Prop :=
  Forall (fun x => invest_group x.1.1 x.1.2 x.2 ≠ []) (bpt_events_in_order data).

(** Some BPT event has no invest event of its transaction and pool. *)
Definition has_orphan
    (data : list (ChecksumEvmAddress * BalancerEventsData.t)) : Prop :=
  Exists (fun x => invest_group x.1.1 x.1.2 x.2 = []) (bpt_events_in_order data).

Definition tokens_known
    (data : list (ChecksumEvmAddress * BalancerEventsData.t)) : Prop :=
  Forall (fun x => tokens_in_pool x.1.1 x.1.2 x.2) (bpt_events_in_order data).

(** The price lookup of every invest event of a group returns. *)
Definition lookups_return
    (data : list (ChecksumEvmAddress * BalancerEventsData.t)) : Prop :=
  Forall (fun x => Forall (fun i => failure (invest_lookup i).2 = None)
                     (invest_group x.1.1 x.1.2 x.2))
    (bpt_events_in_order data).

(** The price lookup of some invest event of a group fails, and fails the
    way [f] says. *)
Definition lookup_fails
    (data : list (ChecksumEvmAddress * BalancerEventsData.t))
    (f : option exn) : Prop :=
  Exists (fun x => Exists (fun i => failure (invest_lookup i).2 = Some f)
                     (invest_group x.1.1 x.1.2 x.2))
    (bpt_events_in_order data).

(** The identity of an aggregated event is that of its BPT event. *)
Definition same_identity
    (x : BalancerBPTEventType * BalancerEventsData.t * BalancerBPTEvent.t)
    (ev : BalancerEvent.t) : Prop :=
  BalancerEvent.tx_hash ev = BalancerBPTEvent.tx_hash x.2
  /\ BalancerEvent.log_index ev = BalancerBPTEvent.log_index x.2
  /\ BalancerEvent.address ev = BalancerBPTEvent.address x.2
  /\ BalancerEvent.event_type ev = x.1.1
  /\ BalancerEvent.pool_address_token ev = BalancerBPTEvent.pool_address_token x.2.

(** The USD value in the words of the spec. *)
Definition poisoned_usd_value
    (x : BalancerBPTEventType * BalancerEventsData.t * BalancerBPTEvent.t)
    (ev : BalancerEvent.t) : Prop :=
  let group := invest_group x.1.1 x.1.2 x.2 in
  (Exists (fun i => invest_price i = ZERO) group ->
     Balance.usd_value (BalancerEvent.lp_balance ev) = ZERO)
  /\ (Forall (fun i => invest_price i ≠ ZERO) group ->
       Balance.usd_value (BalancerEvent.lp_balance ev)
       = Zsum ((fun i => invest_price i * BalancerInvestEvent.amount i) <$> group)).
End aggregate.
End EventAggregator.

(** ** The subgraphs: queries, their log and the paginated fetches *)

Module Graph.
(** What [Graph.query] can do: raise [RemoteError], return a result without
    the expected key, or return the rows under that key. *)
Inductive response (R : Type) : Type :=
| QueryFailed
| MissingKey
| Rows (rows : list R).
Arguments QueryFailed {R}.
Arguments MissingKey {R}.
Arguments Rows {R} rows.

(** The ['id'] parameter of the BPT queries: ['0'] or
    ['<tx_hash hex>-<log_index>']. *)
Inductive query_id : Type :=
| IdZero
| IdOf (tx_hash : EVMTxHash) (log_index : Z).

Module bpt_params.
Record t : Type := mk {
  limit : nat;
  offset : nat;
  id : query_id;
  addresses : list ChecksumEvmAddress;
  transactions : list EVMTxHash;
}.
End bpt_params.

Module invest_params.
Record t : Type := mk {
  limit : nat;
  offset : nat;
  addresses : list ChecksumEvmAddress;
  start_ts : Timestamp;
  end_ts : Timestamp;
}.
End invest_params.

Module pool_share_params.
Record t : Type := mk {
  limit : nat;
  offset : nat;
  addresses : list ChecksumEvmAddress;
  (** ['balance': '0'] *)
  balance : Z;
}.
End pool_share_params.

Module token_price_params.
Record t : Type := mk {
  limit : nat;
  offset : nat;
  token_ids : list ChecksumEvmAddress;
}.
End token_price_params.

Module token_day_params.
Record t : Type := mk {
  limit : nat;
  offset : nat;
  token_ids : list ChecksumEvmAddress;
  datetime : Z;
}.
End token_day_params.

(** What a fetch does to the outside, in order: the queries it sends and
    the messages it leaves for the user. *)
Inductive effect : Type :=
| QueryBPT (event_type : BalancerBPTEventType) (pv : bpt_params.t)
| QueryInvest (event_type : BalancerInvestEventType) (pv : invest_params.t)
| QueryPoolShares (pv : pool_share_params.t)
| QueryTokenPrices (pv : token_price_params.t)
| QueryTokenDayDatas (pv : token_day_params.t)
| AddError (m : message).

(** A computation that logs its effects and ends in an outcome. *)
Record fetch (A : Type) : Type := Fetch {
  log : list effect;
  result : outcome A;
}.
Arguments Fetch {A} log result.
Arguments log {A} f.
Arguments result {A} f.

#[global] Instance fetch_ret : MRet fetch := fun A a => Fetch [] (Ok a).
#[global] Instance fetch_bind : MBind fetch := fun A B k m =>
  match result m with
  | Ok a => let r := k a in Fetch (log m ++ log r) (result r)
  | Raise e => Fetch (log m) (Raise e)
  | Diverge => Fetch (log m) Diverge
  end.

Definition tell (e : effect) : fetch unit := Fetch [e] (Ok tt).
Definition raise {A} (e : exn) : fetch A := Fetch [] (Raise e).
Definition diverge {A} : fetch A := Fetch [] Diverge.
Definition lift {A} (o : outcome A) : fetch A := Fetch [] o.

(** [with suppress(RemoteError)] / [except RemoteError]: the block is left
    with the given value. *)
Definition suppress_RemoteError {A} (m : fetch A) (dflt : A) : fetch A :=
  match result m with
  | Raise RemoteError => Fetch (log m) (Ok dflt)
  | _ => m
  end.

(** A Python [set] whose elements are equal when their keys are: adding an
    element that is already there changes nothing.  The order of the list is
    the order of insertion; Python leaves the iteration order open. *)
Definition set_add {A K} `{EqDecision K} (key : A -> K) (s : list A) (x : A)
  : list A :=
  if decide (Exists (fun y => key y = key x) s) then s else s ++ [x].

(** The queries of one kind in a log, in order. *)
Definition bpt_queries (l : list effect) : list bpt_params.t :=
  omap (fun e => match e with QueryBPT _ pv => Some pv | _ => None end) l.
Definition invest_queries (l : list effect) : list invest_params.t :=
  omap (fun e => match e with QueryInvest _ pv => Some pv | _ => None end) l.
Definition pool_share_queries (l : list effect) : list pool_share_params.t :=
  omap (fun e => match e with QueryPoolShares pv => Some pv | _ => None end) l.
Definition token_day_queries (l : list effect) : list token_day_params.t :=
  omap (fun e => match e with QueryTokenDayDatas pv => Some pv | _ => None end) l.
Definition token_price_queries (l : list effect) : list token_price_params.t :=
  omap (fun e => match e with QueryTokenPrices pv => Some pv | _ => None end) l.
Definition messages (l : list effect) : list message :=
  omap (fun e => match e with AddError m => Some m | _ => None end) l.

(** An entry of a dictionary of sets is in order when no two events of its
    set have the same key and all are events of its address. *)
Definition entry_ok {E K} (addr : E -> ChecksumEvmAddress) (key : E -> K)
    (entry : ChecksumEvmAddress * list E) : Prop :=
  NoDup (key <$> entry.2) /\ Forall (fun e => addr e = entry.1) entry.2.

(** The dictionary holds, under the address of [e], an event with the key
    of [e]. *)
Definition covered {E K} (addr : E -> ChecksumEvmAddress) (key : E -> K)
    (d : list (ChecksumEvmAddress * list E)) (e : E) : Prop :=
  exists events, PyDict.get d (addr e) = Some events
                 /\ Exists (fun y => key y = key e) events.

Section fetches.
(** The rows of a result, before deserialization. *)
Variable Raw : Type.
(** Constants of [rotkehlchen.chain.ethereum.graph]. *)
Variable GRAPH_QUERY_LIMIT : nat.
Variable GRAPH_QUERY_SKIP_LIMIT : nat.
(** [self.graph_events.query] with the mints, burns, addLiquidities and
    removeLiquidities queries. *)
Variable graph_events_bpt : BalancerBPTEventType -> bpt_params.t -> response Raw.
Variable graph_events_invest :
  BalancerInvestEventType -> invest_params.t -> response Raw.
(** The deserializers of [.utils]; [None] is [DeserializationError]. *)
Variable deserialize_bpt_event :
  Raw -> BalancerBPTEventType -> option BalancerBPTEvent.t.
Variable deserialize_invest_event :
  Raw -> BalancerInvestEventType -> option BalancerInvestEvent.t.
(** [x['id']] on a row: the value under the key, [None] for [KeyError]. *)
Variable getitem_id : Raw -> option Raw.
Variable deserialize_transaction_id : Raw -> option (EVMTxHash * Z).
(** [__hash__] and [__eq__] of the event classes of [.types]. *)
Context {KB KI : Type} `{EqDecision KB} `{EqDecision KI}.
Variable bpt_key : BalancerBPTEvent.t -> KB.
Variable invest_key : BalancerInvestEvent.t -> KI.
(** [str.lower] *)
Variable lower : ChecksumEvmAddress -> ChecksumEvmAddress.

(** The order of [sorted(..., key=lambda event: (event.tx_hash, event.log_index))]. *)
Definition bpt_le (x y : BalancerBPTEvent.t) : Prop :=
  (BalancerBPTEvent.tx_hash x < BalancerBPTEvent.tx_hash y)%N
  \/ (BalancerBPTEvent.tx_hash x = BalancerBPTEvent.tx_hash y
      /\ BalancerBPTEvent.log_index x <= BalancerBPTEvent.log_index y).

Definition invest_le (x y : BalancerInvestEvent.t) : Prop :=
  (BalancerInvestEvent.tx_hash x < BalancerInvestEvent.tx_hash y)%N
  \/ (BalancerInvestEvent.tx_hash x = BalancerInvestEvent.tx_hash y
      /\ BalancerInvestEvent.log_index x <= BalancerInvestEvent.log_index y).

#[global] Instance bpt_le_dec : RelDecision bpt_le.
Proof. intros x y. unfold bpt_le. apply _. Defined.
#[global] Instance invest_le_dec : RelDecision invest_le.
Proof. intros x y. unfold invest_le. apply _. Defined.
#[global] Instance bpt_le_total : Total bpt_le.
Proof. intros x y. unfold bpt_le. lia. Qed.
#[global] Instance invest_le_total : Total invest_le.
Proof. intros x y. unfold invest_le. lia. Qed.

(** *** [_get_address_to_bpt_events_graph] *)

(** The [try] around [self.graph_events.query] and around [result[schema]]. *)
Definition query_bpt (event_type : BalancerBPTEventType) (pv : bpt_params.t)
  : fetch (list Raw) :=
  _ ← tell (QueryBPT event_type pv);
  match graph_events_bpt event_type pv with
  | QueryFailed =>
      _ ← tell (AddError SUBGRAPH_REMOTE_ERROR_MSG); raise RemoteError
  | MissingKey => raise RemoteError
  | Rows raw_events => mret raw_events
  end.

(** Body of [for raw_event in raw_events]: the dictionary of sets and the
    loop variable [bpt_event], which outlives the loop. *)
Definition add_bpt_event (event_type : BalancerBPTEventType)
    (st : list (ChecksumEvmAddress * list BalancerBPTEvent.t)
          * option BalancerBPTEvent.t)
    (raw_event : Raw)
  : outcome (list (ChecksumEvmAddress * list BalancerBPTEvent.t)
             * option BalancerBPTEvent.t) :=
  match deserialize_bpt_event raw_event event_type with
  | None => Raise RemoteError
  | Some bpt_event =>
      let '(events, d) :=
        PyDict.getitem_default [] st.1 (BalancerBPTEvent.address bpt_event) in
      Ok (PyDict.set d (BalancerBPTEvent.address bpt_event)
            (set_add bpt_key events bpt_event),
          Some bpt_event)
  end.

(** Lines 257-270: stop on a short page, else move the offset or, at the
    skip limit, the id. *)
Definition bpt_next (pv : bpt_params.t) (bpt_event : option BalancerBPTEvent.t)
  : outcome bpt_params.t :=
  if decide (bpt_params.offset pv = GRAPH_QUERY_SKIP_LIMIT) then
    match bpt_event with
    | None => Raise UnboundLocalError
    | Some e =>
        Ok (bpt_params.mk (bpt_params.limit pv) 0
              (IdOf (BalancerBPTEvent.tx_hash e) (BalancerBPTEvent.log_index e))
              (bpt_params.addresses pv) (bpt_params.transactions pv))
    end
  else
    Ok (bpt_params.mk (bpt_params.limit pv)
          (bpt_params.offset pv + GRAPH_QUERY_LIMIT)
          (bpt_params.id pv) (bpt_params.addresses pv) (bpt_params.transactions pv)).

(** The paging rule between a query [p] and the query [q] that follows it:
    the page of [p] was full; below the skip limit the offset grows by the
    page size and the id stays; at the skip limit the offset is back to 0
    and the id is taken from the last row of the page. *)
Definition bpt_turn (event_type : BalancerBPTEventType) (p q : bpt_params.t)
  : Prop :=
  exists rows,
    graph_events_bpt event_type p = Rows rows
    /\ (GRAPH_QUERY_LIMIT <= length rows)%nat
    /\ (bpt_params.offset p ≠ GRAPH_QUERY_SKIP_LIMIT ->
          bpt_params.offset q = (bpt_params.offset p + GRAPH_QUERY_LIMIT)%nat
          /\ bpt_params.id q = bpt_params.id p)
    /\ (bpt_params.offset p = GRAPH_QUERY_SKIP_LIMIT ->
          bpt_params.offset q = 0%nat
          /\ forall raw, last rows = Some raw ->
               exists e, deserialize_bpt_event raw event_type = Some e
                         /\ bpt_params.id q
                            = IdOf (BalancerBPTEvent.tx_hash e)
                                (BalancerBPTEvent.log_index e)).

(** The [while True] loop, with fuel. *)
Fixpoint bpt_loop (fuel : nat) (event_type : BalancerBPTEventType)
    (pv : bpt_params.t)
    (address_to_unique_bpt_events :
       list (ChecksumEvmAddress * list BalancerBPTEvent.t))
    (bpt_event : option BalancerBPTEvent.t)
  : fetch (list (ChecksumEvmAddress * list BalancerBPTEvent.t)) :=
  match fuel with
  | O => diverge
  | S fuel =>
      raw_events ← query_bpt event_type pv;
      st ← lift (for_each (add_bpt_event event_type) raw_events
                   (address_to_unique_bpt_events, bpt_event));
      if decide (length raw_events < GRAPH_QUERY_LIMIT)%nat then mret st.1
      else
        pv' ← lift (bpt_next pv st.2);
        bpt_loop fuel event_type pv' st.1 st.2
  end.

(** Lines 272-277: every set as a list sorted by (tx_hash, log_index). *)
Definition sorted_bpt_events
    (address_to_unique_bpt_events :
       list (ChecksumEvmAddress * list BalancerBPTEvent.t))
  : list (ChecksumEvmAddress * list BalancerBPTEvent.t) :=
  prod_map id (merge_sort bpt_le) <$> address_to_unique_bpt_events.

Definition _get_address_to_bpt_events_graph (fuel : nat)
    (addresses : list ChecksumEvmAddress) (transactions : list EVMTxHash)
    (event_type : BalancerBPTEventType)
  : fetch (list (ChecksumEvmAddress * list BalancerBPTEvent.t)) :=
  let param_values :=
    bpt_params.mk GRAPH_QUERY_LIMIT 0 IdZero (lower <$> addresses) transactions in
  address_to_unique_bpt_events ← bpt_loop fuel event_type param_values [] None;
  mret (sorted_bpt_events address_to_unique_bpt_events).

(** *** [_get_address_to_invest_events_graph] *)

Definition mint_or_burn_type (event_type : BalancerInvestEventType)
  : BalancerBPTEventType :=
  match event_type with
  | ADD_LIQUIDITY => MINT
  | REMOVE_LIQUIDITY => BURN
  end.

Definition query_invest (event_type : BalancerInvestEventType)
    (pv : invest_params.t) : fetch (list Raw) :=
  _ ← tell (QueryInvest event_type pv);
  match graph_events_invest event_type pv with
  | QueryFailed =>
      _ ← tell (AddError SUBGRAPH_REMOTE_ERROR_MSG); raise RemoteError
  | MissingKey => raise RemoteError
  | Rows raw_events => mret raw_events
  end.

(** [{deserialize_transaction_id(x['id'])[0].hex() for x in raw_events}]:
    outside any [try], a row without an id ends the fetch with [KeyError]
    and a malformed id with [DeserializationError]. *)
Definition transactions_of (raw_events : list Raw) : outcome (list EVMTxHash) :=
  for_each (fun txs raw_event =>
              match getitem_id raw_event with
              | None => Raise KeyError
              | Some raw_id =>
                  match deserialize_transaction_id raw_id with
                  | None => Raise DeserializationError
                  | Some (tx_hash, _) => Ok (set_add id txs tx_hash)
                  end
              end) raw_events [].

Definition add_invest_event (event_type : BalancerInvestEventType)
    (st : list (ChecksumEvmAddress * list BalancerInvestEvent.t)
          * option BalancerInvestEvent.t)
    (raw_event : Raw)
  : outcome (list (ChecksumEvmAddress * list BalancerInvestEvent.t)
             * option BalancerInvestEvent.t) :=
  match deserialize_invest_event raw_event event_type with
  | None => Raise RemoteError
  | Some invest_event =>
      let '(events, d) :=
        PyDict.getitem_default [] st.1 (BalancerInvestEvent.address invest_event) in
      Ok (PyDict.set d (BalancerInvestEvent.address invest_event)
            (set_add invest_key events invest_event),
          Some invest_event)
  end.

(** Lines 437-450: at the skip limit the window restarts at the timestamp of
    the last event. *)
Definition invest_next (pv : invest_params.t)
    (invest_event : option BalancerInvestEvent.t) : outcome invest_params.t :=
  if decide (invest_params.offset pv = GRAPH_QUERY_SKIP_LIMIT) then
    match invest_event with
    | None => Raise UnboundLocalError
    | Some e =>
        Ok (invest_params.mk (invest_params.limit pv) 0
              (invest_params.addresses pv) (BalancerInvestEvent.timestamp e)
              (invest_params.end_ts pv))
    end
  else
    Ok (invest_params.mk (invest_params.limit pv)
          (invest_params.offset pv + GRAPH_QUERY_LIMIT)
          (invest_params.addresses pv) (invest_params.start_ts pv)
          (invest_params.end_ts pv)).

(** The [while True] loop; [address_to_mint_events] is assigned anew on
    every page, so the loop leaves with the BPT events of its last page. *)
Fixpoint invest_loop (fuel fuel_bpt : nat) (event_type : BalancerInvestEventType)
    (addresses : list ChecksumEvmAddress) (pv : invest_params.t)
    (address_to_unique_invest_events :
       list (ChecksumEvmAddress * list BalancerInvestEvent.t))
    (invest_event : option BalancerInvestEvent.t)
  : fetch (list (ChecksumEvmAddress * list BalancerInvestEvent.t)
           * list (ChecksumEvmAddress * list BalancerBPTEvent.t)) :=
  match fuel with
  | O => diverge
  | S fuel =>
      raw_events ← query_invest event_type pv;
      mint_or_burn_transactions ← lift (transactions_of raw_events);
      address_to_mint_events ←
        _get_address_to_bpt_events_graph fuel_bpt addresses
          mint_or_burn_transactions (mint_or_burn_type event_type);
      st ← lift (for_each (add_invest_event event_type) raw_events
                   (address_to_unique_invest_events, invest_event));
      if decide (length raw_events < GRAPH_QUERY_LIMIT)%nat
      then mret (st.1, address_to_mint_events)
      else
        pv' ← lift (invest_next pv st.2);
        invest_loop fuel fuel_bpt event_type addresses pv' st.1 st.2
  end.

Definition sorted_invest_events
    (address_to_unique_invest_events :
       list (ChecksumEvmAddress * list BalancerInvestEvent.t))
  : list (ChecksumEvmAddress * list BalancerInvestEvent.t) :=
  prod_map id (merge_sort invest_le) <$> address_to_unique_invest_events.

Definition _get_address_to_invest_events_graph (fuel fuel_bpt : nat)
    (addresses : list ChecksumEvmAddress) (event_type : BalancerInvestEventType)
    (start_ts end_ts : Timestamp)
  : fetch (list (ChecksumEvmAddress * list BalancerInvestEvent.t)
           * list (ChecksumEvmAddress * list BalancerBPTEvent.t)) :=
  let param_values :=
    invest_params.mk GRAPH_QUERY_LIMIT 0 (lower <$> addresses) start_ts end_ts in
  r ← invest_loop fuel fuel_bpt event_type addresses param_values [] None;
  mret (sorted_invest_events r.1, r.2).
End fetches.
End Graph.

(** ** Live balances and prices *)

Module ProtocolBalance.
Record t : Type := mk {
  address_to_pool_balances :
    list (ChecksumEvmAddress * list BalancerPoolBalance.t);
  known_tokens : list EvmToken.t;
  unknown_tokens : list EvmToken.t;
}.
End ProtocolBalance.

Module Prices.
Import Graph.
Section prices.
Variable Raw : Type.
Variable GRAPH_QUERY_LIMIT : nat.
(** [self.graph.query] with the poolShares and tokenPrices queries. *)
Variable graph_pool_shares : pool_share_params.t -> response Raw.
Variable graph_token_prices : token_price_params.t -> response Raw.
(** [self.graph_uniswap], [None] when its subgraph could not be reached at
    start-up; the tokenDayDatas query. *)
Variable graph_uniswap : option (token_day_params.t -> response Raw).
(** The deserializers of [.utils]; [None] is [DeserializationError]. *)
Variable deserialize_pool_share :
  Raw -> option (ChecksumEvmAddress * BalancerPoolBalance.t).
Variable deserialize_token_price : Raw -> option (ChecksumEvmAddress * Price).
Variable deserialize_token_day_data : Raw -> option (ChecksumEvmAddress * Price).
(** [EvmToken.has_oracle] *)
Variable has_oracle : EvmToken.t -> bool.
Variable token_of_address : ChecksumEvmAddress -> EvmToken.t.
(** [Inquirer().find_usd_price] *)
Variable find_usd_price : EvmToken.t -> Price.
(** [query_usd_price_or_use_default(asset, time, default_value, location)] *)
Variable query_usd_price_or_use_default : EvmToken.t -> Timestamp -> FVal -> Price.
(** [ts_now()] *)
Variable now : Timestamp.
(** The epoch of the midnight of the day of a timestamp, as lines 964-969
    compute it. *)
Variable midnight_epoch_of : Timestamp -> Z.
Variable lower : ChecksumEvmAddress -> ChecksumEvmAddress.

(** *** [_get_protocol_balance_graph] *)

Definition query_pool_shares (pv : pool_share_params.t) : fetch (list Raw) :=
  _ ← tell (QueryPoolShares pv);
  match graph_pool_shares pv with
  | QueryFailed =>
      _ ← tell (AddError SUBGRAPH_REMOTE_ERROR_MSG); raise RemoteError
  | MissingKey => raise RemoteError
  | Rows raw_pool_shares => mret raw_pool_shares
  end.

(** Body of [for pool_token in balancer_pool.pool_token.underlying_tokens]. *)
Definition classify_token (sets : list EvmToken.t * list EvmToken.t)
    (pool_token : ChecksumEvmAddress) : list EvmToken.t * list EvmToken.t :=
  let token := token_of_address pool_token in
  if has_oracle token then (set_add id sets.1 token, sets.2)
  else (sets.1, set_add id sets.2 token).

(** Body of [for raw_pool_share in raw_pool_shares]. *)
Definition add_pool_share (pb : ProtocolBalance.t) (raw_pool_share : Raw)
  : outcome ProtocolBalance.t :=
  match deserialize_pool_share raw_pool_share with
  | None => Raise RemoteError
  | Some (address, balancer_pool) =>
      let sets :=
        foldl classify_token
          (ProtocolBalance.known_tokens pb, ProtocolBalance.unknown_tokens pb)
          (EvmToken.underlying_tokens (BalancerPoolBalance.pool_token balancer_pool)) in
      let '(pools, d) :=
        PyDict.getitem_default [] (ProtocolBalance.address_to_pool_balances pb) address in
      Ok (ProtocolBalance.mk (PyDict.set d address (pools ++ [balancer_pool]))
            sets.1 sets.2)
  end.

(** The [while True] loop of lines 758-809: the offset only ever grows. *)
Fixpoint pool_shares_loop (fuel : nat) (pv : pool_share_params.t)
    (pb : ProtocolBalance.t) : fetch ProtocolBalance.t :=
  match fuel with
  | O => diverge
  | S fuel =>
      raw_pool_shares ← query_pool_shares pv;
      pb ← lift (for_each add_pool_share raw_pool_shares pb);
      if decide (length raw_pool_shares < GRAPH_QUERY_LIMIT)%nat then mret pb
      else
        pool_shares_loop fuel
          (pool_share_params.mk (pool_share_params.limit pv)
             (pool_share_params.offset pv + GRAPH_QUERY_LIMIT)
             (pool_share_params.addresses pv) (pool_share_params.balance pv))
          pb
  end.

Definition _get_protocol_balance_graph (fuel : nat)
    (addresses : list ChecksumEvmAddress) : fetch ProtocolBalance.t :=
  pool_shares_loop fuel
    (pool_share_params.mk GRAPH_QUERY_LIMIT 0 (lower <$> addresses) 0)
    (ProtocolBalance.mk [] [] []).

(** *** [_get_known_token_to_prices] *)

Definition _get_known_token_to_prices (known_tokens : list EvmToken.t)
  : fetch (list (ChecksumEvmAddress * Price)) :=
  foldl (fun (acc : fetch (list (ChecksumEvmAddress * Price))) token =>
           token_to_prices ← acc;
           let usd_price := find_usd_price token in
           if decide (usd_price = ZERO_PRICE) then
             _ ← tell (AddError (MissingPrice (EvmToken.evm_address token)));
             mret token_to_prices
           else mret (PyDict.set token_to_prices (EvmToken.evm_address token) usd_price))
    (mret []) known_tokens.

(** *** [_get_unknown_token_to_prices_balancer_graph] *)

Definition query_token_prices (pv : token_price_params.t) : fetch (list Raw) :=
  _ ← tell (QueryTokenPrices pv);
  match graph_token_prices pv with
  | QueryFailed =>
      _ ← tell (AddError SUBGRAPH_REMOTE_ERROR_MSG); raise RemoteError
  | MissingKey => raise RemoteError
  | Rows raw_token_prices => mret raw_token_prices
  end.

(** Bodies of the loops over the rows: a row that does not deserialize is
    skipped ([continue]). *)
Definition add_price (deserialize : Raw -> option (ChecksumEvmAddress * Price))
    (token_to_prices : list (ChecksumEvmAddress * Price)) (raw : Raw)
  : list (ChecksumEvmAddress * Price) :=
  match deserialize raw with
  | None => token_to_prices
  | Some (token_address, usd_price) =>
      PyDict.set token_to_prices token_address usd_price
  end.

Fixpoint token_prices_loop (fuel : nat) (pv : token_price_params.t)
    (token_to_prices : list (ChecksumEvmAddress * Price))
  : fetch (list (ChecksumEvmAddress * Price)) :=
  match fuel with
  | O => diverge
  | S fuel =>
      raw_token_prices ← query_token_prices pv;
      let token_to_prices :=
        foldl (add_price deserialize_token_price) token_to_prices raw_token_prices in
      if decide (length raw_token_prices < GRAPH_QUERY_LIMIT)%nat
      then mret token_to_prices
      else
        token_prices_loop fuel
          (token_price_params.mk (token_price_params.limit pv)
             (token_price_params.offset pv + GRAPH_QUERY_LIMIT)
             (token_price_params.token_ids pv))
          token_to_prices
  end.

Definition _get_unknown_token_to_prices_balancer_graph (fuel : nat)
    (unknown_token_addresses : list ChecksumEvmAddress)
  : fetch (list (ChecksumEvmAddress * Price)) :=
  token_prices_loop fuel
    (token_price_params.mk GRAPH_QUERY_LIMIT 0 (lower <$> unknown_token_addresses))
    [].

(** *** [_get_unknown_token_to_prices_uniswap_graph] *)

(** [self.graph_uniswap.query]: on [None] the attribute access fails. *)
Definition query_token_day_datas (pv : token_day_params.t) : fetch (list Raw) :=
  match graph_uniswap with
  | None => raise AttributeError
  | Some query =>
      _ ← tell (QueryTokenDayDatas pv);
      match query pv with
      | QueryFailed =>
          _ ← tell (AddError UNISWAP_REMOTE_ERROR_MSG); raise RemoteError
      | MissingKey => raise RemoteError
      | Rows raw_token_day_datas => mret raw_token_day_datas
      end
  end.

Fixpoint token_day_datas_loop (fuel : nat) (pv : token_day_params.t)
    (token_to_prices : list (ChecksumEvmAddress * Price))
  : fetch (list (ChecksumEvmAddress * Price)) :=
  match fuel with
  | O => diverge
  | S fuel =>
      raw_token_day_datas ← query_token_day_datas pv;
      let token_to_prices :=
        foldl (add_price deserialize_token_day_data) token_to_prices
          raw_token_day_datas in
      if decide (length raw_token_day_datas < GRAPH_QUERY_LIMIT)%nat
      then mret token_to_prices
      else
        token_day_datas_loop fuel
          (token_day_params.mk (token_day_params.limit pv)
             (token_day_params.offset pv + GRAPH_QUERY_LIMIT)
             (token_day_params.token_ids pv) (token_day_params.datetime pv))
          token_to_prices
  end.

Definition _get_unknown_token_to_prices_uniswap_graph (fuel : nat)
    (unknown_token_addresses : list ChecksumEvmAddress)
    (timestamp : option Timestamp)
  : fetch (list (ChecksumEvmAddress * Price)) :=
  let from_timestamp := default now timestamp in
  token_day_datas_loop fuel
    (token_day_params.mk GRAPH_QUERY_LIMIT 0 (lower <$> unknown_token_addresses)
       (midnight_epoch_of from_timestamp))
    [].

(** *** [_get_unknown_token_to_prices_graph] *)

(** [{**a, **b}] *)
Definition dict_merge (a b : list (ChecksumEvmAddress * Price))
  : list (ChecksumEvmAddress * Price) :=
  foldl (fun d kv => PyDict.set d kv.1 kv.2) a b.

(** Lines 944-949: one message per token that is still without a price. *)
Definition missing_price_messages (unknown_tokens : list EvmToken.t)
    (token_to_prices : list (ChecksumEvmAddress * Price)) : list effect :=
  (fun t => AddError (MissingPrice (EvmToken.evm_address t)))
    <$> filter (fun t => PyDict.get token_to_prices (EvmToken.evm_address t) = None)
          unknown_tokens.

Definition _get_unknown_token_to_prices_graph (fuel : nat)
    (unknown_tokens : list EvmToken.t)
  : fetch (list (ChecksumEvmAddress * Price)) :=
  let unknown_token_addresses :=
    foldl (set_add id) [] (EvmToken.evm_address <$> unknown_tokens) in
  token_to_prices_bal ←
    _get_unknown_token_to_prices_balancer_graph fuel unknown_token_addresses;
  let still_unknown_token_addresses :=
    filter (fun a => PyDict.get token_to_prices_bal a = None)
      unknown_token_addresses in
  token_to_prices ←
    match graph_uniswap with
    | None => mret token_to_prices_bal
    | Some _ =>
        token_to_prices_uni ←
          suppress_RemoteError
            (_get_unknown_token_to_prices_uniswap_graph fuel
               still_unknown_token_addresses None) [];
        mret (dict_merge token_to_prices_bal token_to_prices_uni)
    end;
  Fetch (missing_price_messages unknown_tokens token_to_prices) (Ok token_to_prices).

(** *** [_get_token_price_at_timestamp_zero_if_error] *)

Definition _get_token_price_at_timestamp_zero_if_error (fuel : nat)
    (token : EvmToken.t) (timestamp : Timestamp) : fetch Price :=
  if has_oracle token then
    mret (query_usd_price_or_use_default token timestamp ZERO)
  else
    token_to_prices ←
      suppress_RemoteError
        (_get_unknown_token_to_prices_uniswap_graph fuel
           [EvmToken.evm_address token] (Some timestamp)) [];
    mret (PyDict.get_or ZERO_PRICE token_to_prices (EvmToken.evm_address token)).

(** *** [_update_tokens_prices_in_address_to_pool_balances] *)

Definition update_token_balance
    (known_token_to_prices unknown_token_to_prices : list (ChecksumEvmAddress * Price))
    (pool_token_balance : BalancerPoolTokenBalance.t) : BalancerPoolTokenBalance.t :=
  let token_ethereum_address :=
    EvmToken.evm_address (BalancerPoolTokenBalance.token pool_token_balance) in
  let usd_price :=
    PyDict.get_or
      (PyDict.get_or ZERO_PRICE unknown_token_to_prices token_ethereum_address)
      known_token_to_prices token_ethereum_address in
  if decide (usd_price ≠ ZERO_PRICE) then
    let ub := BalancerPoolTokenBalance.user_balance pool_token_balance in
    BalancerPoolTokenBalance.mk (BalancerPoolTokenBalance.token pool_token_balance)
      (Balance.mk (Balance.amount ub) (Balance.amount ub * usd_price)) usd_price
  else pool_token_balance.

Definition update_pool_balance
    (known_token_to_prices unknown_token_to_prices : list (ChecksumEvmAddress * Price))
    (pool_balance : BalancerPoolBalance.t) : BalancerPoolBalance.t :=
  let tokens :=
    update_token_balance known_token_to_prices unknown_token_to_prices
      <$> BalancerPoolBalance.underlying_tokens_balance pool_balance in
  let total_usd_value :=
    foldl (fun total t =>
             total + Balance.usd_value (BalancerPoolTokenBalance.user_balance t))
      ZERO tokens in
  BalancerPoolBalance.mk (BalancerPoolBalance.pool_token pool_balance) tokens
    (Balance.mk (Balance.amount (BalancerPoolBalance.user_balance pool_balance))
       total_usd_value).

Definition _update_tokens_prices_in_address_to_pool_balances
    (address_to_pool_balances :
       list (ChecksumEvmAddress * list BalancerPoolBalance.t))
    (known_token_to_prices unknown_token_to_prices : list (ChecksumEvmAddress * Price))
  : list (ChecksumEvmAddress * list BalancerPoolBalance.t) :=
  prod_map id
    (fmap (M := list)
       (update_pool_balance known_token_to_prices unknown_token_to_prices))
    <$> address_to_pool_balances.

(** *** [get_balances] *)

Definition get_balances (fuel : nat) (addresses : list ChecksumEvmAddress)
  : fetch (list (ChecksumEvmAddress * list BalancerPoolBalance.t)) :=
  protocol_balance ← _get_protocol_balance_graph fuel addresses;
  known_token_to_prices ←
    _get_known_token_to_prices (ProtocolBalance.known_tokens protocol_balance);
  unknown_token_to_prices ←
    _get_unknown_token_to_prices_graph fuel
      (ProtocolBalance.unknown_tokens protocol_balance);
  mret (_update_tokens_prices_in_address_to_pool_balances
          (ProtocolBalance.address_to_pool_balances protocol_balance)
          known_token_to_prices unknown_token_to_prices).

(** *** The resolver in the words of the spec *)

(** The chain of the spec for a historical price: the oracle when the token
    has one, else the price of the protocol's own price query, else the
    secondary AMM's daily price, else zero. *)
Definition spec_price (fuel : nat) (token : EvmToken.t) (timestamp : Timestamp)
  : Price :=
  if has_oracle token then query_usd_price_or_use_default token timestamp ZERO
  else
    let a := EvmToken.evm_address token in
    match result (_get_unknown_token_to_prices_balancer_graph fuel [a]) with
    | Ok prices =>
        match PyDict.get prices a with
        | Some p => p
        | None =>
            match result (_get_unknown_token_to_prices_uniswap_graph fuel [a]
                            (Some timestamp)) with
            | Ok prices => PyDict.get_or ZERO_PRICE prices a
            | _ => ZERO_PRICE
            end
        end
    | _ =>
        match result (_get_unknown_token_to_prices_uniswap_graph fuel [a]
                        (Some timestamp)) with
        | Ok prices => PyDict.get_or ZERO_PRICE prices a
        | _ => ZERO_PRICE
        end
    end.
End prices.
End Prices.

(** ** Synchronization: [get_events_history] *)

Module Sync.
(** The user database, as far as the module uses it. *)
Record DB : Type := mk_db {
  used_query_ranges : gmap string (Timestamp * Timestamp);
  balancer_events : list BalancerEvent.t;
}.

(** Modelled from the spec: [readQueryRange(address, category)], the range
    recorded under a name, if any ([DBHandler.get_used_query_range]). *)
Definition get_used_query_range (db : DB) (name : string)
  : option (Timestamp * Timestamp) :=
  used_query_ranges db !! name.

(** Modelled from the spec: [updateQueryRange], which records the range
    under the name, replacing an older one
    ([DBHandler.update_used_query_range]). *)
Definition update_used_query_range (db : DB) (name : string)
    (start_ts end_ts : Timestamp) : DB :=
  mk_db (<[name := (start_ts, end_ts)]> (used_query_ranges db)) (balancer_events db).

(** Modelled from the spec: [writeEvents(events)] ([add_balancer_events] of
    [.db]). *)
Definition add_balancer_events (db : DB) (events : list BalancerEvent.t) : DB :=
  mk_db (used_query_ranges db) (balancer_events db ++ events).

(** Modelled from the spec: [readEvents(address, from, to)], the persisted
    events of an address in a time window ([get_balancer_events] of [.db]). *)
Definition get_balancer_events (db : DB) (from_timestamp to_timestamp : Timestamp)
    (address : ChecksumEvmAddress) : list BalancerEvent.t :=
  filter (fun e => BalancerEvent.address e = address
                   /\ from_timestamp <= BalancerEvent.timestamp e <= to_timestamp)
    (balancer_events db).

(** Modelled from the spec: the scoped write transaction
    ([with self.database.user_write() as write_cursor]) commits when its
    block is left and keeps nothing when the block raises. *)
Definition user_write {A} (block : DB -> outcome (DB * A)) (db : DB)
  : DB * outcome A :=
  match block db with
  | Ok (db', a) => (db', Ok a)
  | Raise e => (db, Raise e)
  | Diverge => (db, Diverge)
  end.

(** A call of [_get_address_to_invest_events_graph]. *)
Record request : Type := mk_request {
  req_addresses : list ChecksumEvmAddress;
  req_event_type : BalancerInvestEventType;
  req_start_ts : Timestamp;
  req_end_ts : Timestamp;
}.

(** The database and the history of the fetches requested so far; both
    survive an exception. *)
Record world : Type := mk_world {
  db : DB;
  requested : list request;
}.

Record sync (A : Type) : Type := Sync { run : world -> world * outcome A }.
Arguments Sync {A} run.
Arguments run {A} s w.

#[global] Instance sync_ret : MRet sync := fun A a => Sync (fun w => (w, Ok a)).
#[global] Instance sync_bind : MBind sync := fun A B k m =>
  Sync (fun w =>
          match run m w with
          | (w', Ok a) => run (k a) w'
          | (w', Raise e) => (w', Raise e)
          | (w', Diverge) => (w', Diverge)
          end).

Definition read_db : sync DB := Sync (fun w => (w, Ok (db w))).
Definition lift_outcome {A} (o : outcome A) : sync A := Sync (fun w => (w, o)).
Definition transaction {A} (block : DB -> outcome (DB * A)) : sync A :=
  Sync (fun w =>
          let '(db', o) := user_write block (db w) in
          (mk_world db' (requested w), o)).

(** [sort(key=...)] of a list: stable. *)
Fixpoint insert_sorted {A} (R : A -> A -> Prop) `{!RelDecision R} (x : A)
    (l : list A) : list A :=
  match l with
  | [] => [x]
  | y :: l' => if decide (R x y) then x :: l else y :: insert_sorted R x l'
  end.

Definition stable_sort {A} (R : A -> A -> Prop) `{!RelDecision R} (l : list A)
  : list A :=
  foldr (insert_sorted R) [] l.

(** The order of [key=lambda event: (event.timestamp, event.log_index)]. *)
Definition event_le (x y : BalancerEvent.t) : Prop :=
  BalancerEvent.timestamp x < BalancerEvent.timestamp y
  \/ (BalancerEvent.timestamp x = BalancerEvent.timestamp y
      /\ BalancerEvent.log_index x <= BalancerEvent.log_index y).

#[global] Instance event_le_dec : RelDecision event_le.
Proof. intros x y. unfold event_le. apply _. Defined.

Section sync.
(** Constants of [.types]. *)
Variable POOL_MAX_NUMBER_TOKENS : nat.
Variable BALANCER_EVENTS_PREFIX : string.
(** [DBHandler.delete_balancer_events_data] *)
Variable delete_balancer_events_data : DB -> DB.
(** The outcome of [_get_address_to_invest_events_graph] on the given
    arguments. *)
Variable fetch_invest_events :
  list ChecksumEvmAddress -> BalancerInvestEventType -> Timestamp -> Timestamp ->
  outcome (list (ChecksumEvmAddress * list BalancerInvestEvent.t)
           * list (ChecksumEvmAddress * list BalancerBPTEvent.t)).
(** The outcome of [_get_balancer_aggregated_events_data]. *)
Variable aggregate :
  list (ChecksumEvmAddress * BalancerEventsData.t) -> outcome (list BalancerEvent.t).
(** The outcome of [get_balances]. *)
Variable get_balances :
  list ChecksumEvmAddress ->
  outcome (list (ChecksumEvmAddress * list BalancerPoolBalance.t)).

Definition _get_address_to_invest_events_graph
    (addresses : list ChecksumEvmAddress) (event_type : BalancerInvestEventType)
    (start_ts end_ts : Timestamp)
  : sync (list (ChecksumEvmAddress * list BalancerInvestEvent.t)
          * list (ChecksumEvmAddress * list BalancerBPTEvent.t)) :=
  Sync (fun w =>
          (mk_world (db w)
             (requested w ++ [mk_request addresses event_type start_ts end_ts]),
           fetch_invest_events addresses event_type start_ts end_ts)).

(** [f'{prefix}_{address}'] *)
Definition entry_name (prefix : string) (address : ChecksumEvmAddress) : string :=
  prefix +:+ "_" +:+ address.

Definition _update_used_query_range (db : DB)
    (addresses : list ChecksumEvmAddress) (prefix : string)
    (from_timestamp to_timestamp : Timestamp) : DB :=
  foldl (fun db address =>
           update_used_query_range db (entry_name prefix address)
             from_timestamp to_timestamp)
    db addresses.

(** Lines 329-340; the addresses with events are a set, listed here with
    those of the add-liquidity events first. *)
Definition events_data_of
    (address_to_add_liquidity_events address_to_remove_liquidity_events :
       list (ChecksumEvmAddress * list BalancerInvestEvent.t))
    (address_to_mint_events address_to_burn_events :
       list (ChecksumEvmAddress * list BalancerBPTEvent.t))
  : list (ChecksumEvmAddress * BalancerEventsData.t) :=
  let addresses_with_events :=
    foldl (Graph.set_add id) []
      (PyDict.keys address_to_add_liquidity_events
         ++ PyDict.keys address_to_remove_liquidity_events) in
  foldl (fun d address =>
           PyDict.set d address
             (BalancerEventsData.mk
                (PyDict.get_or [] address_to_add_liquidity_events address)
                (PyDict.get_or [] address_to_remove_liquidity_events address)
                (PyDict.get_or [] address_to_mint_events address)
                (PyDict.get_or [] address_to_burn_events address)))
    [] addresses_with_events.

Definition _get_address_to_events_data (addresses : list ChecksumEvmAddress)
    (from_timestamp to_timestamp : Timestamp)
  : sync (list (ChecksumEvmAddress * BalancerEventsData.t)) :=
  adds ← _get_address_to_invest_events_graph addresses ADD_LIQUIDITY
            from_timestamp to_timestamp;
  removes ← _get_address_to_invest_events_graph addresses REMOVE_LIQUIDITY
               from_timestamp to_timestamp;
  _ ← transaction (fun db =>
         Ok (_update_used_query_range db addresses "balancer_events"
               from_timestamp to_timestamp, tt));
  mret (events_data_of adds.1 removes.1 adds.2 removes.2).

(** Lines 471-485: the addresses without and with a recorded range, and the
    least recorded upper bound, capped by [to_timestamp]. *)
Definition split_addresses (db : DB) (addresses : list ChecksumEvmAddress)
    (to_timestamp : Timestamp)
  : list ChecksumEvmAddress * list ChecksumEvmAddress * Timestamp :=
  foldl (fun '(new_addresses, existing_addresses, min_to_timestamp) address =>
           match get_used_query_range db
                   (entry_name BALANCER_EVENTS_PREFIX address) with
           | None => (new_addresses ++ [address], existing_addresses, min_to_timestamp)
           | Some trades_range =>
               (new_addresses, existing_addresses ++ [address],
                min_to_timestamp `min` trades_range.2)
           end)
    ([], [], to_timestamp) addresses.

(** [dict.update] *)
Definition dict_update {V} (d d' : list (ChecksumEvmAddress * V))
  : list (ChecksumEvmAddress * V) :=
  foldl (fun d kv => PyDict.set d kv.1 kv.2) d d'.

(** Lines 516-530: the persisted events of the window, per address. *)
Definition read_db_events (db : DB) (addresses : list ChecksumEvmAddress)
    (from_timestamp to_timestamp : Timestamp)
  : list (ChecksumEvmAddress * list BalancerEvent.t) :=
  foldl (fun d address =>
           match get_balancer_events db from_timestamp to_timestamp address with
           | [] => d
           | db_events => PyDict.set d address (stable_sort event_le db_events)
           end)
    [] addresses.

(** Lines 542-549. *)
Definition calculate_all
    (db_address_to_events : list (ChecksumEvmAddress * list BalancerEvent.t))
    (address_to_pool_balances :
       list (ChecksumEvmAddress * list BalancerPoolBalance.t))
  : outcome (list (ChecksumEvmAddress * list BalancerPoolEventsBalance.t)) :=
  for_each (fun d '(address, db_events) =>
              pool_events_balances ←
                BalanceAggregator._calculate_pool_events_balances
                  POOL_MAX_NUMBER_TOKENS address db_events
                  (PyDict.get_or [] address_to_pool_balances address);
              Ok (PyDict.set d address pool_events_balances))
    db_address_to_events [].

Definition _get_address_to_pool_events_balances
    (addresses : list ChecksumEvmAddress) (from_timestamp to_timestamp : Timestamp)
  : sync (list (ChecksumEvmAddress * list BalancerPoolEventsBalance.t)) :=
  db0 ← read_db;
  let '(new_addresses, existing_addresses, min_to_timestamp) :=
    split_addresses db0 addresses to_timestamp in
  data_new ←
    match new_addresses with
    | [] => mret []
    | _ => _get_address_to_events_data new_addresses 0 to_timestamp
    end;
  data_existing ←
    (if decide (existing_addresses ≠ [] /\ to_timestamp > min_to_timestamp)
     then _get_address_to_events_data existing_addresses min_to_timestamp to_timestamp
     else mret []);
  let address_to_events_data := dict_update (dict_update [] data_new) data_existing in
  _ ← (match address_to_events_data with
       | [] => mret tt
       | _ =>
           balancer_events ← lift_outcome (aggregate address_to_events_data);
           transaction (fun db => Ok (add_balancer_events db balancer_events, tt))
       end);
  db1 ← read_db;
  let db_address_to_events :=
    read_db_events db1 addresses from_timestamp to_timestamp in
  match db_address_to_events with
  | [] => mret []
  | _ =>
      address_to_pool_balances ←
        (if decide (from_timestamp = 0) then lift_outcome (get_balances addresses)
         else mret []);
      lift_outcome (calculate_all db_address_to_events address_to_pool_balances)
  end.

Definition get_events_history (addresses : list ChecksumEvmAddress)
    (reset_db_data : bool) (from_timestamp to_timestamp : Timestamp)
  : sync (list (ChecksumEvmAddress * list BalancerPoolEventsBalance.t)) :=
  _ ← (if reset_db_data
       then transaction (fun db => Ok (delete_balancer_events_data db, tt))
       else mret tt);
  _get_address_to_pool_events_balances addresses from_timestamp to_timestamp.
End sync.
End Sync.

(** ** Sample data *)

Module Sample.
Definition pool : EvmToken.t := EvmToken.mk "0xP001" ["0xDA1"; "0xE7H"].
Definition other_pool : EvmToken.t := EvmToken.mk "0xP002" ["0xDA1"].

Definition add_dai : BalancerInvestEvent.t :=
  BalancerInvestEvent.mk 1%N 1 "0xA11CE" 100 ADD_LIQUIDITY pool "0xDA1" 60.
Definition add_eth : BalancerInvestEvent.t :=
  BalancerInvestEvent.mk 1%N 2 "0xA11CE" 100 ADD_LIQUIDITY pool "0xE7H" 40.
(** An add-liquidity event of a token that the pool does not hold. *)
Definition add_unknown : BalancerInvestEvent.t :=
  BalancerInvestEvent.mk 1%N 2 "0xA11CE" 100 ADD_LIQUIDITY pool "0xBAD" 40.
Definition mint : BalancerBPTEvent.t :=
  BalancerBPTEvent.mk 1%N 3 "0xA11CE" MINT pool 100.
(** A mint of another pool in the same transaction. *)
Definition mint_other : BalancerBPTEvent.t :=
  BalancerBPTEvent.mk 1%N 3 "0xA11CE" MINT other_pool 100.

Definition token_of_address (a : ChecksumEvmAddress) : EvmToken.t :=
  EvmToken.mk a [].
Definition price_one (t : EvmToken.t) (ts : Timestamp)
  : list message * outcome Price := ([], Ok 1).
(** No price for the second token. *)
Definition price_no_eth (t : EvmToken.t) (ts : Timestamp)
  : list message * outcome Price :=
  ([], Ok (if decide (EvmToken.evm_address t = "0xE7H") then 0 else 1)).

Definition paired : list (ChecksumEvmAddress * BalancerEventsData.t) :=
  [("0xA11CE", BalancerEventsData.mk [add_dai; add_eth] [] [mint] [])].
Definition unknown_token : list (ChecksumEvmAddress * BalancerEventsData.t) :=
  [("0xA11CE", BalancerEventsData.mk [add_dai; add_unknown] [] [mint] [])].
Definition invest_only : list (ChecksumEvmAddress * BalancerEventsData.t) :=
  [("0xA11CE", BalancerEventsData.mk [add_dai; add_eth] [] [] [])].
Definition orphan_mint : list (ChecksumEvmAddress * BalancerEventsData.t) :=
  [("0xA11CE", BalancerEventsData.mk [add_dai; add_eth] [] [mint_other] [])].

Definition mint_event : BalancerEvent.t :=
  BalancerEvent.mk 1%N 0 "0xA11CE" 100 MINT pool (Balance.mk 10 7) [5; 0].

(** *** A small subgraph

    Rows are numbered; the page size is 2 and the skip limit 2.  The
    add-liquidity query answers rows 1 and 2 at offset 0, rows 2 and 3 at
    offset 2 and, once the window starts at the timestamp of row 3, row 3
    alone: row 2 and row 3 come twice. *)

Definition add_later : BalancerInvestEvent.t :=
  BalancerInvestEvent.mk 2%N 1 "0xA11CE" 200 ADD_LIQUIDITY pool "0xDA1" 5.
Definition mint_later : BalancerBPTEvent.t :=
  BalancerBPTEvent.mk 2%N 2 "0xA11CE" MINT pool 5.

Definition invest_row (n : nat) : option BalancerInvestEvent.t :=
  match n with
  | 1%nat => Some add_dai
  | 2%nat => Some add_eth
  | 3%nat => Some add_later
  | _ => None
  end.

Definition bpt_row (n : nat) : option BalancerBPTEvent.t :=
  match n with
  | 10%nat => Some mint
  | 11%nat => Some mint_later
  | 12%nat => Some mint_other
  | _ => None
  end.

Definition deserialize_invest_event (n : nat) (ty : BalancerInvestEventType)
  : option BalancerInvestEvent.t :=
  e ← invest_row n;
  if decide (BalancerInvestEvent.event_type e = ty) then Some e else None.

Definition deserialize_bpt_event (n : nat) (ty : BalancerBPTEventType)
  : option BalancerBPTEvent.t :=
  e ← bpt_row n;
  if decide (BalancerBPTEvent.event_type e = ty) then Some e else None.

(** The id of a row is the row number; row 4 has none. *)
Definition getitem_id (n : nat) : option nat :=
  if decide (n = 4%nat) then None else Some n.

Definition deserialize_transaction_id (n : nat) : option (EVMTxHash * Z) :=
  e ← invest_row n;
  Some (BalancerInvestEvent.tx_hash e, BalancerInvestEvent.log_index e).

Definition graph_events_invest (ty : BalancerInvestEventType)
    (pv : Graph.invest_params.t) : Graph.response nat :=
  match ty with
  | ADD_LIQUIDITY =>
      if decide (Graph.invest_params.start_ts pv = 0) then
        match Graph.invest_params.offset pv with
        | 0%nat => Graph.Rows [1; 2]%nat
        | 2%nat => Graph.Rows [2; 3]%nat
        | _ => Graph.Rows []
        end
      else Graph.Rows [3%nat]
  | REMOVE_LIQUIDITY => Graph.Rows []
  end.

(** The mints of the transactions asked for, all on the first page. *)
Definition graph_events_bpt (ty : BalancerBPTEventType)
    (pv : Graph.bpt_params.t) : Graph.response nat :=
  match ty, Graph.bpt_params.offset pv with
  | MINT, 0%nat =>
      Graph.Rows
        ((if decide (1%N ∈ Graph.bpt_params.transactions pv) then [10%nat] else [])
           ++ (if decide (2%N ∈ Graph.bpt_params.transactions pv)
               then [11%nat] else []))
  | _, _ => Graph.Rows []
  end.

(** A subgraph whose mints belong to another pool than the add-liquidity
    events of their transaction. *)
Definition graph_events_bpt_other (ty : BalancerBPTEventType)
    (pv : Graph.bpt_params.t) : Graph.response nat :=
  match ty, Graph.bpt_params.offset pv with
  | MINT, 0%nat => Graph.Rows [12%nat]
  | _, _ => Graph.Rows []
  end.

(** The keys of the spec: transaction, log index and, for an invest event,
    token address. *)
Definition bpt_key (e : BalancerBPTEvent.t) : EVMTxHash * Z :=
  (BalancerBPTEvent.tx_hash e, BalancerBPTEvent.log_index e).
Definition invest_key (e : BalancerInvestEvent.t)
  : EVMTxHash * Z * ChecksumEvmAddress :=
  (BalancerInvestEvent.tx_hash e, BalancerInvestEvent.log_index e,
   BalancerInvestEvent.token_address e).

Definition fetch_invest (bpt_graph : BalancerBPTEventType -> Graph.bpt_params.t ->
                                     Graph.response nat)
    (addresses : list ChecksumEvmAddress) (ty : BalancerInvestEventType)
    (start_ts end_ts : Timestamp) :=
  Graph._get_address_to_invest_events_graph nat 2 2 bpt_graph graph_events_invest
    deserialize_bpt_event deserialize_invest_event getitem_id
    deserialize_transaction_id bpt_key invest_key id 5 5 addresses ty start_ts end_ts.

(** *** A long list of pool shares

    6500 pool shares of one address, served in pages of 1000. *)

Definition empty_pool : EvmToken.t := EvmToken.mk "0xP003" [].
Definition graph_pool_shares (pv : Graph.pool_share_params.t)
  : Graph.response nat :=
  Graph.Rows
    (replicate (1000 `min` (6500 - Graph.pool_share_params.offset pv))%nat 0%nat).
Definition deserialize_pool_share (n : nat)
  : option (ChecksumEvmAddress * BalancerPoolBalance.t) :=
  Some ("0xA11CE", BalancerPoolBalance.mk empty_pool [] (Balance.mk 1 0)).

(** *** Price sources

    No token has an oracle; the protocol's own price query knows the price
    5 of one token, the secondary AMM knows none. *)

Definition weth : EvmToken.t := EvmToken.mk "0xE7H" [].
Definition graph_token_prices (pv : Graph.token_price_params.t)
  : Graph.response nat := Graph.Rows [0%nat].
Definition graph_token_prices_down (pv : Graph.token_price_params.t)
  : Graph.response nat := Graph.QueryFailed.
Definition graph_uniswap_empty (pv : Graph.token_day_params.t)
  : Graph.response nat := Graph.Rows [].
Definition graph_uniswap_down (pv : Graph.token_day_params.t)
  : Graph.response nat := Graph.QueryFailed.
Definition deserialize_token_price (n : nat) : option (ChecksumEvmAddress * Price) :=
  Some ("0xE7H", 5).
(** A secondary AMM that knows the price 3 of another token. *)
Definition graph_uniswap_dai (pv : Graph.token_day_params.t)
  : Graph.response nat := Graph.Rows [0%nat].
Definition deserialize_token_day_data (n : nat)
  : option (ChecksumEvmAddress * Price) := Some ("0xDA1", 3).
Definition no_oracle (t : EvmToken.t) : bool := false.
Definition oracle_price (t : EvmToken.t) (ts : Timestamp) (dflt : FVal) : Price := 7.
End Sample.

(** ** What an aggregated event holds, and what the aggregation leaves
    besides the events *)

Module Aggregated.
Import EventAggregator.
Section content.
Variable token_of_address : ChecksumEvmAddress -> EvmToken.t.
Variable token_price_at :
  EvmToken.t -> Timestamp -> list message * outcome Price.

(** What a group moves of the token that the pool lists under [idx]: the
    index of a token address is the one of the dictionary of lines 653-656. *)
Definition amount_at (pool : EvmToken.t) (group : list BalancerInvestEvent.t)
    (idx : nat) : FVal :=
  Zsum (BalancerInvestEvent.amount
          <$> filter (fun i => PyDict.get (token_addr_to_index pool)
                                 (BalancerInvestEvent.token_address i) = Some idx)
                group).

Definition amounts_of (pool : EvmToken.t) (group : list BalancerInvestEvent.t)
  : list FVal :=
  amount_at pool group <$> seq 0 (length (EvmToken.underlying_tokens pool)).

(** The amounts, the LP amount and the timestamp of the event built for a
    BPT event. *)
Definition content
    (x : BalancerBPTEventType * BalancerEventsData.t * BalancerBPTEvent.t)
    (ev : BalancerEvent.t) : Prop :=
  let group := invest_group x.1.1 x.1.2 x.2 in
  BalancerEvent.amounts ev
  = amounts_of (BalancerBPTEvent.pool_address_token x.2) group
  /\ Balance.amount (BalancerEvent.lp_balance ev) = BalancerBPTEvent.amount x.2
  /\ head (BalancerInvestEvent.timestamp <$> group)
     = Some (BalancerEvent.timestamp ev).

(** The message of lines 694-700 about an invest event without a price. *)
Definition missing_price_message (event_type : BalancerBPTEventType)
    (bpt_event : BalancerBPTEvent.t) (invest_event : BalancerInvestEvent.t)
  : message :=
  MissingPriceAt
    (EvmToken.evm_address
       (token_of_address (BalancerInvestEvent.token_address invest_event)))
    (BalancerInvestEvent.timestamp invest_event) event_type
    (EvmToken.evm_address (BalancerBPTEvent.pool_address_token bpt_event))
    (BalancerBPTEvent.tx_hash bpt_event).

(** The message a group leaves: that of its first invest event without a
    price, if it has one. *)
Definition group_message
    (x : BalancerBPTEventType * BalancerEventsData.t * BalancerBPTEvent.t)
  : option message :=
  missing_price_message x.1.1 x.2
    <$> head (filter (fun i => invest_price token_of_address token_price_at i = ZERO)
                (invest_group x.1.1 x.1.2 x.2)).

(** The invest events of a group whose price is looked up: those up to and
    including the first without a price (lines 686-693). *)
Fixpoint lookups_made (group : list BalancerInvestEvent.t)
  : list BalancerInvestEvent.t :=
  match group with
  | [] => []
  | i :: group =>
      i :: if decide (invest_price token_of_address token_price_at i = ZERO)
           then [] else lookups_made group
  end.

(** The messages a group leaves: those of the price lookups it makes, in
    order, and then the message about its first invest event without a
    price, if it has one. *)
Definition group_messages
    (x : BalancerBPTEventType * BalancerEventsData.t * BalancerBPTEvent.t)
  : list message :=
  (lookups_made (invest_group x.1.1 x.1.2 x.2)
     ≫= fun i => (invest_lookup token_of_address token_price_at i).1)
  ++ option_list (group_message x).

(** [GlobalDBHandler().get_evm_tokens(chain_id=ETHEREUM, protocol='balancer')] *)
Variable db_pools : list EvmToken.t.

(** The state in which the aggregation starts (lines 562-572). *)
Definition initial_state : state :=
  mk_state [] []
    (foldl (fun d db_pool => PyDict.set d db_pool (token_addr_to_index db_pool))
       [] db_pools) [].

(** The pools entered so far are pairwise different and none of them is a
    pool of the database; the index dictionary holds the pools of the
    database and the pools entered, and the pool of every event built. *)
Definition pools_ok (st : state) : Prop :=
  index_ok st
  /\ NoDup (balancer_pools st)
  /\ (forall p, p ∈ PyDict.keys (pool_addr_to_token_addr_to_index st)
        <-> p ∈ db_pools \/ p ∈ balancer_pools st)
  /\ (forall p, p ∈ balancer_pools st ->
        (p ∉ db_pools)
        /\ exists ev, ev ∈ balancer_events st
                      /\ BalancerEvent.pool_address_token ev = p)
  /\ (forall ev, ev ∈ balancer_events st ->
        BalancerEvent.pool_address_token ev
          ∈ PyDict.keys (pool_addr_to_token_addr_to_index st)).
End content.
End Aggregated.

(** ** The paginated fetches: the paging rule of the investment events and
    where the events of a result come from *)

Module Paging.
Import Graph.

(** The dictionary holds the event [e] under some address. *)
Definition holds {E} (d : list (ChecksumEvmAddress * list E)) (e : E) : Prop :=
  exists a events, PyDict.get d a = Some events /\ e ∈ events.

Section paging.
Variable Raw : Type.
Variable GRAPH_QUERY_LIMIT : nat.
Variable GRAPH_QUERY_SKIP_LIMIT : nat.
Variable graph_events_invest :
  BalancerInvestEventType -> invest_params.t -> response Raw.
Variable deserialize_invest_event :
  Raw -> BalancerInvestEventType -> option BalancerInvestEvent.t.

(** The paging rule between a query [p] for investment events and the query
    [q] that follows it (lines 437-450): the page of [p] was full; the
    addresses, the end of the window and the limit stay; below the skip
    limit the offset grows by the page size and the start of the window
    stays; at the skip limit the offset is back to 0 and the window starts
    at the timestamp of the last row of the page. *)
Definition invest_turn (event_type : BalancerInvestEventType)
    (p q : invest_params.t) : Prop :=
  exists rows,
    graph_events_invest event_type p = Rows rows
    /\ (GRAPH_QUERY_LIMIT <= length rows)%nat
    /\ invest_params.limit q = invest_params.limit p
    /\ invest_params.addresses q = invest_params.addresses p
    /\ invest_params.end_ts q = invest_params.end_ts p
    /\ (invest_params.offset p ≠ GRAPH_QUERY_SKIP_LIMIT ->
          invest_params.offset q = (invest_params.offset p + GRAPH_QUERY_LIMIT)%nat
          /\ invest_params.start_ts q = invest_params.start_ts p)
    /\ (invest_params.offset p = GRAPH_QUERY_SKIP_LIMIT ->
          invest_params.offset q = 0%nat
          /\ forall raw, last rows = Some raw ->
               exists e, deserialize_invest_event raw event_type = Some e
                         /\ invest_params.start_ts q
                            = BalancerInvestEvent.timestamp e).
End paging.
End Paging.

(** ** The rows behind the live balances and the prices *)

Module Pages.
Import Graph.

(** The rows of the pages that a list of queries is answered with, in
    order. *)
Definition rows_of {P R} (graph : P -> response R) (queries : list P) : list R :=
  queries ≫= (fun pv => match graph pv with Rows rows => rows | _ => [] end).

Section shares.
Variable Raw : Type.
Variable deserialize_pool_share :
  Raw -> option (ChecksumEvmAddress * BalancerPoolBalance.t).
Variable token_of_address : ChecksumEvmAddress -> EvmToken.t.

(** The pool balances that a list of rows holds for an address, in order. *)
Definition pool_shares_of (address : ChecksumEvmAddress) (rows : list Raw)
  : list BalancerPoolBalance.t :=
  omap (fun raw =>
          match deserialize_pool_share raw with
          | Some (a, balancer_pool) =>
              if decide (a = address) then Some balancer_pool else None
          | None => None
          end) rows.

(** The underlying tokens of the pools of a list of rows. *)
Definition share_tokens (rows : list Raw) : list EvmToken.t :=
  rows ≫= (fun raw =>
    match deserialize_pool_share raw with
    | Some (_, balancer_pool) =>
        token_of_address
          <$> EvmToken.underlying_tokens (BalancerPoolBalance.pool_token balancer_pool)
    | None => []
    end).
End shares.

(** The USD price that [_update_tokens_prices_in_address_to_pool_balances]
    finds for a token address: the known price first, then the unknown one,
    then zero. *)
Definition price_of_token
    (known_token_to_prices unknown_token_to_prices : list (ChecksumEvmAddress * Price))
    (a : ChecksumEvmAddress) : Price :=
  PyDict.get_or (PyDict.get_or ZERO_PRICE unknown_token_to_prices a)
    known_token_to_prices a.

(** A pool balance whose USD value is the sum of the USD values of its
    token balances. *)
Definition adds_up (b : BalancerPoolBalance.t) : Prop :=
  Balance.usd_value (BalancerPoolBalance.user_balance b)
  = Zsum ((fun t => Balance.usd_value (BalancerPoolTokenBalance.user_balance t))
            <$> BalancerPoolBalance.underlying_tokens_balance b).
End Pages.

(** ** The order of the stored events *)

Module EventOrder.
Import Sync.
#[global] Instance event_le_total : Total event_le.
Proof. intros x y. unfold event_le. lia. Qed.
#[global] Instance event_le_trans : Transitive event_le.
Proof. intros x y z. unfold event_le. lia. Qed.
End EventOrder.

(** ** The life of the module: [__init__], the account hooks and
    [deactivate] *)

Module Lifecycle.
Import Graph Sync.

Definition BALANCER_SUBGRAPH : string :=
  "https://api.thegraph.com/subgraphs/name/balancer-labs/balancer".
Definition BALANCER_EVENTS_SUBGRAPH : string :=
  "https://api.thegraph.com/subgraphs/name/yurycooliq/balancer".
Definition UNISWAP_SUBGRAPH : string :=
  "https://api.thegraph.com/subgraphs/name/uniswap/uniswap-v2".

(** What [__init__] does to the outside: the subgraphs it connects to and
    the messages it leaves. *)
Inductive init_effect : Type :=
| Connect (url : string)
| InitError (m : message).

(** The attributes of the module that hold a subgraph. *)
Record t (G : Type) : Type := mk {
  graph : G;
  graph_events : G;
  graph_uniswap : option G;
}.
Arguments mk {G} graph graph_events graph_uniswap.
Arguments graph {G} t.
Arguments graph_events {G} t.
Arguments graph_uniswap {G} t.

(** [__init__] returns the module or raises [ModuleInitializationFailure]. *)
Inductive init_outcome (A : Type) : Type :=
| Initialized (a : A)
| ModuleInitializationFailure.
Arguments Initialized {A} a.
Arguments ModuleInitializationFailure {A}.

Section init.
Variable G : Type.
(** [Graph(url)]: the subgraph, or [None] for [RemoteError]. *)
Variable Graph : string -> option G.

(** Lines 110-130: the two subgraphs of the protocol are needed, the one of
    the secondary AMM is not. *)
Definition __init__ : list init_effect * init_outcome (t G) :=
  match Graph BALANCER_SUBGRAPH with
  | None =>
      ([Connect BALANCER_SUBGRAPH; InitError SUBGRAPH_REMOTE_ERROR_MSG],
       ModuleInitializationFailure)
  | Some graph =>
      match Graph BALANCER_EVENTS_SUBGRAPH with
      | None =>
          ([Connect BALANCER_SUBGRAPH; Connect BALANCER_EVENTS_SUBGRAPH;
            InitError SUBGRAPH_REMOTE_ERROR_MSG],
           ModuleInitializationFailure)
      | Some graph_events =>
          match Graph UNISWAP_SUBGRAPH with
          | None =>
              ([Connect BALANCER_SUBGRAPH; Connect BALANCER_EVENTS_SUBGRAPH;
                Connect UNISWAP_SUBGRAPH; InitError UNISWAP_REMOTE_ERROR_MSG],
               Initialized (mk graph graph_events None))
          | Some graph_uniswap =>
              ([Connect BALANCER_SUBGRAPH; Connect BALANCER_EVENTS_SUBGRAPH;
                Connect UNISWAP_SUBGRAPH],
               Initialized (mk graph graph_events (Some graph_uniswap)))
          end
      end
  end.
End init.

(** [on_account_addition] and [on_account_removal]: [pass]. *)
Definition on_account_addition (address : ChecksumEvmAddress) : sync unit :=
  mret tt.
Definition on_account_removal (address : ChecksumEvmAddress) : sync unit :=
  mret tt.

(** [deactivate]: the data of the module is deleted in a write transaction
    of its own. *)
Definition deactivate (delete_balancer_events_data : DB -> DB) : sync unit :=
  transaction (fun db => Ok (delete_balancer_events_data db, tt)).
End Lifecycle.

(** ** The price lookup of the aggregation *)

Module Lookup.
Import Graph Prices.
Section lookup.
Variable Raw : Type.
Variable GRAPH_QUERY_LIMIT : nat.
Variable graph_uniswap : option (token_day_params.t -> response Raw).
Variable deserialize_token_day_data : Raw -> option (ChecksumEvmAddress * Price).
Variable has_oracle : EvmToken.t -> bool.
Variable query_usd_price_or_use_default : EvmToken.t -> Timestamp -> FVal -> Price.
Variable now : Timestamp.
Variable midnight_epoch_of : Timestamp -> Z.
Variable lower : ChecksumEvmAddress -> ChecksumEvmAddress.

(** The call of line 687 as the aggregation sees it: the messages that
    [_get_token_price_at_timestamp_zero_if_error] leaves on
    [msg_aggregator], and its outcome. *)
Definition token_price_at (fuel : nat) (token : EvmToken.t)
    (timestamp : Timestamp) : list message * outcome Price :=
  let m :=
    _get_token_price_at_timestamp_zero_if_error Raw GRAPH_QUERY_LIMIT graph_uniswap
      deserialize_token_day_data has_oracle query_usd_price_or_use_default now
      midnight_epoch_of lower fuel token timestamp in
  (messages (log m), result m).
End lookup.
End Lookup.

(** ** A subgraph with several pages of pool-token events

    Pages of one row and a skip limit of 1: the first mint at offset 0, the
    second at offset 1, and nothing after the id of the second. *)

Module SamplePages.
Definition graph_events_bpt (ty : BalancerBPTEventType)
    (pv : Graph.bpt_params.t) : Graph.response nat :=
  match ty, Graph.bpt_params.id pv, Graph.bpt_params.offset pv with
  | MINT, Graph.IdZero, 0%nat => Graph.Rows [10%nat]
  | MINT, Graph.IdZero, 1%nat => Graph.Rows [11%nat]
  | _, _, _ => Graph.Rows []
  end.

(** One pool share of a pool of two tokens: the first has an oracle, the
    second has not. *)
Definition dai : EvmToken.t := EvmToken.mk "0xDA1" [].
Definition graph_pool_shares (pv : Graph.pool_share_params.t)
  : Graph.response nat := Graph.Rows [0%nat].
Definition deserialize_pool_share (n : nat)
  : option (ChecksumEvmAddress * BalancerPoolBalance.t) :=
  Some ("0xA11CE",
        BalancerPoolBalance.mk Sample.pool
          [BalancerPoolTokenBalance.mk dai (Balance.mk 3 0) 0;
           BalancerPoolTokenBalance.mk Sample.weth (Balance.mk 2 0) 0]
          (Balance.mk 1 0)).
Definition has_oracle (t : EvmToken.t) : bool :=
  bool_decide (EvmToken.evm_address t = "0xDA1").
Definition find_usd_price (t : EvmToken.t) : Price := 2.

(** The price lookup of a module whose secondary AMM fails every query, and
    that of a module started without the secondary AMM; the first token of
    the pool has an oracle, with the price 7. *)
Definition price_uniswap_down
  : EvmToken.t -> Timestamp -> list message * outcome Price :=
  Lookup.token_price_at nat 2 (Some Sample.graph_uniswap_down) (fun _ => None)
    has_oracle Sample.oracle_price 0 (fun ts => ts) id 5.
Definition price_without_uniswap
  : EvmToken.t -> Timestamp -> list message * outcome Price :=
  Lookup.token_price_at nat 2 None (fun _ => None)
    has_oracle Sample.oracle_price 0 (fun ts => ts) id 5.
End SamplePages.

(** * Part II: properties *)

(** ** Facts about [PyDict] *)

Module PyDictFacts.
Import PyDict.
Section facts.
Context {K V : Type} `{EqDecision K}.
Implicit Types (d : list (K * V)) (k : K) (v : V).

Lemma get_set_eq d k v : get (set d k v) k = Some v.
Proof.
induction d as [|[k' v'] d IH]; simpl.
- by rewrite decide_True.
- destruct (decide (k' = k)) as [->|Hne]; simpl.
  + by rewrite decide_True.
  + by rewrite decide_False.
Qed.

Lemma get_set_ne d k k' v : k ≠ k' -> get (set d k v) k' = get d k'.
Proof.
intros Hne. induction d as [|[k0 v0] d IH]; simpl.
- by rewrite decide_False.
- destruct (decide (k0 = k)) as [->|Hk]; simpl.
  + repeat case_decide; congruence.
  + destruct (decide (k0 = k')); [done | apply IH].
Qed.

Lemma get_set d k k' v :
get (set d k v) k' = if decide (k = k') then Some v else get d k'.
Proof.
destruct (decide (k = k')) as [->|Hne];
  [apply get_set_eq | by apply get_set_ne].
Qed.

Lemma get_None_keys d k : get d k = None <-> k ∉ keys d.
Proof.
unfold keys. induction d as [|[k' v'] d IH]; simpl.
- split; [intros _; apply not_elem_of_nil | done].
- rewrite not_elem_of_cons. destruct (decide (k' = k)) as [->|Hne].
  + split; [intros ?; discriminate | intros [Hk _]; by destruct Hk].
  + rewrite IH. split; [intros ?; split; [congruence | done] | tauto].
Qed.

Lemma keys_set_present d k v :
k ∈ keys d -> keys (set d k v) = keys d.
Proof.
unfold keys. induction d as [|[k' v'] d IH]; simpl.
- intros H. by apply elem_of_nil in H.
- intros H. destruct (decide (k' = k)) as [->|Hne]; simpl; [done|].
  f_equal. apply IH. apply elem_of_cons in H as [?|?]; [congruence | done].
Qed.

Lemma keys_set_absent d k v :
k ∉ keys d -> keys (set d k v) = keys d ++ [k].
Proof.
unfold keys. induction d as [|[k' v'] d IH]; simpl; [done|].
intros [Hne Hnin]%not_elem_of_cons.
rewrite decide_False by congruence. simpl. f_equal. by apply IH.
Qed.
Lemma getitem_default_fst dflt d k :
  (getitem_default dflt d k).1 = get_or dflt d k.
Proof. unfold getitem_default, get_or. by destruct (get d k). Qed.

Lemma getitem_default_snd_get_or dflt d k k' :
  get_or dflt (getitem_default dflt d k).2 k' = get_or dflt d k'.
Proof.
  unfold getitem_default, get_or. destruct (get d k) eqn:E; simpl; [done|].
  rewrite get_set. case_decide; subst; [by rewrite E | done].
Qed.

Lemma get_or_set dflt d k k' v :
  get_or dflt (set d k v) k' = if decide (k = k') then v else get_or dflt d k'.
Proof. unfold get_or. rewrite get_set. by case_decide. Qed.

Lemma keys_getitem_default_set dflt d k v :
  keys (set (getitem_default dflt d k).2 k v)
  = if decide (k ∈ keys d) then keys d else keys d ++ [k].
Proof.
  unfold getitem_default. destruct (get d k) eqn:E; simpl.
  - assert (k ∈ keys d) as Hin.
    { destruct (decide (k ∈ keys d)) as [|Hn]; [done|].
      apply get_None_keys in Hn. congruence. }
    rewrite decide_True by done. by apply keys_set_present.
  - apply get_None_keys in E. rewrite decide_False by done.
    rewrite keys_set_present; [by apply keys_set_absent|].
    rewrite keys_set_absent by done. apply elem_of_app. right. by left.
Qed.

Lemma keys_getitem_default dflt d k :
  keys (getitem_default dflt d k).2
  = if decide (k ∈ keys d) then keys d else keys d ++ [k].
Proof.
  unfold getitem_default. destruct (get d k) eqn:E; simpl.
  - rewrite decide_True; [done|].
    destruct (decide (k ∈ keys d)) as [|Hn]; [done|].
    apply get_None_keys in Hn. congruence.
  - apply get_None_keys in E. rewrite decide_False by done.
    by apply keys_set_absent.
Qed.

Lemma get_Some_elem_of d k v : get d k = Some v -> (k, v) ∈ d.
Proof.
  induction d as [|[k' v'] d IH]; simpl; [done|].
  case_decide; subst.
  - intros [= ->]. by left.
  - intros. right. by apply IH.
Qed.

Lemma elem_of_get d k v : NoDup (keys d) -> (k, v) ∈ d -> get d k = Some v.
Proof.
  unfold keys. induction d as [|[k' v'] d IH]; simpl.
  - intros _ Hin. by apply elem_of_nil in Hin.
  - intros [Hnin Hnd]%NoDup_cons [Heq|Hin]%elem_of_cons.
    + inversion Heq; subst. by rewrite decide_True.
    + case_decide; subst; [|by apply IH].
      exfalso. apply Hnin. apply list_elem_of_fmap. by exists (k, v).
Qed.
End facts.
End PyDictFacts.

(** ** BalanceAggregator: signed accumulation of [_calculate_pool_events_balances] *)

Module BalanceAggregatorFacts.
Import BalanceAggregator PyDictFacts.
Section facts.
Variable MAXT : nat.

Abbreviation pl_of d p :=
  (PyDict.get_or (zero_amounts MAXT) (pool_addr_to_profit_loss_amounts d) p).
Abbreviation usd_of d p := (PyDict.get_or ZERO (pool_addr_to_usd_value d) p).
Abbreviation ev_of d p := (PyDict.get_or [] (pool_addr_to_events d) p).
Abbreviation pool_of e := (BalancerEvent.pool_address_token e).

Lemma Zsum_cons x l : Zsum (x :: l) = x + Zsum l.
Proof. done. Qed.

Lemma Zsum_app l k : Zsum (l ++ k) = Zsum l + Zsum k.
Proof.
  induction l as [|x l IH]; [done|].
  rewrite <- app_comm_cons, !Zsum_cons, IH. lia.
Qed.

Lemma operator_sign ty a b : operator ty a b = a + sign ty * b.
Proof. unfold operator, sign. destruct ty; simpl; lia. Qed.

Lemma length_zero_amounts : length (zero_amounts MAXT) = MAXT.
Proof. apply length_replicate. Qed.

Lemma nth_zero_amounts i : nth i (zero_amounts MAXT) 0 = 0.
Proof.
  unfold zero_amounts. rewrite nth_lookup.
  destruct (replicate MAXT ZERO !! i) eqn:E; [|done].
  by apply lookup_replicate in E as [-> _].
Qed.

Lemma length_event_amounts e : (MAXT <= length (event_amounts MAXT e))%nat.
Proof. unfold event_amounts. rewrite length_app, length_replicate. lia. Qed.

Lemma nth_event_amounts e i :
  (i < MAXT)%nat ->
  nth i (event_amounts MAXT e) 0 = nth i (BalancerEvent.amounts e) 0.
Proof.
  intros Hi. unfold event_amounts. rewrite !nth_lookup.
  destruct (decide (i < length (BalancerEvent.amounts e))%nat) as [Hlt|Hge].
  - by rewrite lookup_app_l.
  - rewrite lookup_app_r by lia.
    rewrite (lookup_ge_None_2 (BalancerEvent.amounts e)) by lia. simpl.
    destruct (replicate _ ZERO !! _) eqn:E; [|done].
    by apply lookup_replicate in E as [-> _].
Qed.

Lemma nth_zip_with (f : Z -> Z -> Z) l k i :
  (i < length l)%nat -> (i < length k)%nat ->
  nth i (zip_with f l k) 0 = f (nth i l 0) (nth i k 0).
Proof.
  intros Hl Hk. rewrite !nth_lookup, lookup_zip_with.
  destruct (lookup_lt_is_Some_2 l i Hl) as [x ->].
  destruct (lookup_lt_is_Some_2 k i Hk) as [y ->]. done.
Qed.

(** *** The loop over the events *)

Lemma event_step_pl d e p :
  pl_of (event_step MAXT d e) p
  = if decide (pool_of e = p)
    then zip_with (operator (BalancerEvent.event_type e)) (pl_of d p)
           (event_amounts MAXT e)
    else pl_of d p.
Proof.
  unfold event_step.
  destruct (PyDict.getitem_default [] _ _) as [evs d_ev].
  destruct (PyDict.getitem_default (zero_amounts MAXT) _ _) as [pla d_pl] eqn:Epl.
  destruct (PyDict.getitem_default ZERO _ _) as [usd d_usd]. simpl.
  rewrite get_or_set.
  pose proof (getitem_default_fst (zero_amounts MAXT)
    (pool_addr_to_profit_loss_amounts d) (pool_of e)) as H1.
  pose proof (getitem_default_snd_get_or (zero_amounts MAXT)
    (pool_addr_to_profit_loss_amounts d) (pool_of e) p) as H2.
  rewrite Epl in H1, H2. simpl in H1, H2. subst pla.
  case_decide; subst; done.
Qed.

Lemma event_step_usd d e p :
  usd_of (event_step MAXT d e) p
  = if decide (pool_of e = p)
    then operator (BalancerEvent.event_type e) (usd_of d p)
           (Balance.usd_value (BalancerEvent.lp_balance e))
    else usd_of d p.
Proof.
  unfold event_step.
  destruct (PyDict.getitem_default [] _ _) as [evs d_ev].
  destruct (PyDict.getitem_default (zero_amounts MAXT) _ _) as [pla d_pl].
  destruct (PyDict.getitem_default ZERO _ _) as [usd d_usd] eqn:Eusd. simpl.
  rewrite get_or_set.
  pose proof (getitem_default_fst ZERO (pool_addr_to_usd_value d) (pool_of e)) as H1.
  pose proof (getitem_default_snd_get_or ZERO (pool_addr_to_usd_value d)
    (pool_of e) p) as H2.
  rewrite Eusd in H1, H2. simpl in H1, H2. subst usd.
  case_decide; subst; done.
Qed.

Lemma event_step_ev d e p :
  ev_of (event_step MAXT d e) p
  = if decide (pool_of e = p) then ev_of d p ++ [e] else ev_of d p.
Proof.
  unfold event_step.
  destruct (PyDict.getitem_default [] _ _) as [evs d_ev] eqn:Eev.
  destruct (PyDict.getitem_default (zero_amounts MAXT) _ _) as [pla d_pl].
  destruct (PyDict.getitem_default ZERO _ _) as [usd d_usd]. simpl.
  rewrite get_or_set.
  pose proof (getitem_default_fst [] (pool_addr_to_events d) (pool_of e)) as H1.
  pose proof (getitem_default_snd_get_or [] (pool_addr_to_events d)
    (pool_of e) p) as H2.
  rewrite Eev in H1, H2. simpl in H1, H2. subst evs.
  case_decide; subst; done.
Qed.

Lemma event_step_keys d e :
  PyDict.keys (pool_addr_to_events (event_step MAXT d e))
  = if decide (pool_of e ∈ PyDict.keys (pool_addr_to_events d))
    then PyDict.keys (pool_addr_to_events d)
    else PyDict.keys (pool_addr_to_events d) ++ [pool_of e].
Proof.
  unfold event_step.
  pose proof (keys_getitem_default_set [] (pool_addr_to_events d) (pool_of e)) as Hk.
  destruct (PyDict.getitem_default [] _ _) as [evs d_ev].
  destruct (PyDict.getitem_default (zero_amounts MAXT) _ _) as [pla d_pl].
  destruct (PyDict.getitem_default ZERO _ _) as [usd d_usd]. simpl in *.
  apply Hk.
Qed.

Lemma events_of_cons p e es :
  events_of p (e :: es)
  = if decide (pool_of e = p) then e :: events_of p es else events_of p es.
Proof. unfold events_of. rewrite filter_cons. by case_decide. Qed.

Lemma foldl_event_step_pl es : forall d p i,
  (i < MAXT)%nat ->
  length (pl_of d p) = MAXT ->
  length (pl_of (foldl (event_step MAXT) d es) p) = MAXT
  /\ nth i (pl_of (foldl (event_step MAXT) d es) p) 0
     = nth i (pl_of d p) 0
       + Zsum ((fun e => sign (BalancerEvent.event_type e)
                         * nth i (BalancerEvent.amounts e) 0)
                 <$> events_of p es).
Proof.
  induction es as [|e es IH]; intros d p i Hi Hlen; simpl.
  - split; [done | lia].
  - assert (length (pl_of (event_step MAXT d e) p) = MAXT) as Hlen'.
    { rewrite event_step_pl. case_decide; [|done].
      rewrite length_zip_with. pose proof (length_event_amounts e). lia. }
    destruct (IH (event_step MAXT d e) p i Hi Hlen') as [IH1 IH2].
    split; [done|]. rewrite IH2, events_of_cons, event_step_pl.
    case_decide; [|done]. rewrite fmap_cons, Zsum_cons.
    pose proof (length_event_amounts e).
    rewrite nth_zip_with by lia.
    rewrite operator_sign, nth_event_amounts by done. lia.
Qed.

Lemma foldl_event_step_usd es : forall d p,
  usd_of (foldl (event_step MAXT) d es) p
  = usd_of d p
    + Zsum ((fun e => sign (BalancerEvent.event_type e)
                      * Balance.usd_value (BalancerEvent.lp_balance e))
              <$> events_of p es).
Proof.
  induction es as [|e es IH]; intros d p; simpl; [lia|].
  rewrite IH, events_of_cons, event_step_usd.
  case_decide; [rewrite fmap_cons, Zsum_cons, operator_sign|]; lia.
Qed.

Lemma foldl_event_step_ev es : forall d p,
  ev_of (foldl (event_step MAXT) d es) p = ev_of d p ++ events_of p es.
Proof.
  induction es as [|e es IH]; intros d p; simpl; [by rewrite app_nil_r|].
  rewrite IH, events_of_cons, event_step_ev.
  case_decide; [by rewrite <- app_assoc | done].
Qed.

Lemma foldl_event_step_keys es : forall d,
  NoDup (PyDict.keys (pool_addr_to_events d)) ->
  NoDup (PyDict.keys (pool_addr_to_events (foldl (event_step MAXT) d es)))
  /\ forall p, p ∈ PyDict.keys (pool_addr_to_events (foldl (event_step MAXT) d es))
       <-> p ∈ PyDict.keys (pool_addr_to_events d) \/ exists e, e ∈ es /\ pool_of e = p.
Proof.
  induction es as [|e es IH]; intros d Hnd; simpl.
  - split; [done|]. intros p. split; [by left|].
    intros [?|(e & He & _)]; [done | by apply elem_of_nil in He].
  - assert (NoDup (PyDict.keys (pool_addr_to_events (event_step MAXT d e)))) as Hnd'.
    { rewrite event_step_keys. case_decide; [done|].
      apply NoDup_app. split_and!; [done | | apply NoDup_singleton].
      intros x Hx Hx'%list_elem_of_singleton. by subst x. }
    destruct (IH _ Hnd') as [IH1 IH2]. split; [done|].
    intros p. rewrite IH2, event_step_keys. split.
    + intros [Hin|(e' & He' & Hp)].
      * case_decide; [by left|].
        apply elem_of_app in Hin as [?|Hp%list_elem_of_singleton]; [by left|].
        subst p. right. exists e. split; [by left | done].
      * right. exists e'. split; [by right | done].
    + intros [Hin|(e' & He' & Hp)].
      * left. case_decide; [done|]. apply elem_of_app. by left.
      * apply elem_of_cons in He' as [->|He'].
        -- left. subst p. case_decide; [done|].
           apply elem_of_app. right. by left.
        -- right. by exists e'.
Qed.

(** *** The loop over the live pool balances *)

Abbreviation amount_of :=
  (fun t => Balance.amount (BalancerPoolTokenBalance.user_balance t)).
Abbreviation usd_value_of :=
  (fun t => Balance.usd_value (BalancerPoolTokenBalance.user_balance t)).

Lemma nth_insert (l : list Z) i j x :
  (j < length l)%nat ->
  nth i (<[j := x]> l) 0 = if decide (i = j) then x else nth i l 0.
Proof.
  intros Hj. rewrite !nth_lookup. case_decide; subst.
  - by rewrite list_lookup_insert_eq.
  - by rewrite list_lookup_insert_ne.
Qed.

Lemma token_loop pool l : forall s d_pl d_usd,
  length (PyDict.get_or (zero_amounts MAXT) d_pl pool) = MAXT ->
  (s + length l <= MAXT)%nat ->
  exists d_pl' d_usd',
    for_each (token_balance_step MAXT pool) (zip (seq s (length l)) l) (d_pl, d_usd)
    = Ok (d_pl', d_usd')
    /\ (forall p, p ≠ pool ->
          PyDict.get_or (zero_amounts MAXT) d_pl' p
          = PyDict.get_or (zero_amounts MAXT) d_pl p)
    /\ length (PyDict.get_or (zero_amounts MAXT) d_pl' pool) = MAXT
    /\ (forall i,
          nth i (PyDict.get_or (zero_amounts MAXT) d_pl' pool) 0
          = nth i (PyDict.get_or (zero_amounts MAXT) d_pl pool) 0
            + if decide (s <= i)%nat then nth (i - s) (amount_of <$> l) 0 else 0)
    /\ (forall p,
          PyDict.get_or ZERO d_usd' p
          = PyDict.get_or ZERO d_usd p
            + if decide (pool = p) then Zsum (usd_value_of <$> l) else 0).
Proof.
  induction l as [|t l IH]; intros s d_pl d_usd Hlen Hs.
  - exists d_pl, d_usd. simpl. split_and!; try done.
    + intros i. case_decide; [|lia]. destruct (i - s)%nat; simpl; lia.
    + intros p. case_decide; simpl; lia.
  - simpl in Hs. simpl.
    destruct (lookup_lt_is_Some_2 (PyDict.get_or (zero_amounts MAXT) d_pl pool) s)
      as [old Hold]; [lia|].
    rewrite Hold.
    destruct (PyDict.getitem_default ZERO d_usd pool) as [usd d_usd1] eqn:Eusd.
    pose proof (getitem_default_fst ZERO d_usd pool) as Hu1.
    pose proof (getitem_default_snd_get_or ZERO d_usd pool) as Hu2.
    rewrite Eusd in Hu1, Hu2. simpl in Hu1, Hu2. simpl.
    set (d_pl1 := PyDict.set d_pl pool _).
    set (d_usd2 := PyDict.set d_usd1 pool _).
    assert (PyDict.get_or (zero_amounts MAXT) d_pl1 pool
            = <[s := old + amount_of t]> (PyDict.get_or (zero_amounts MAXT) d_pl pool))
      as Hpl1.
    { unfold d_pl1. rewrite get_or_set. by rewrite decide_True. }
    destruct (IH (S s) d_pl1 d_usd2) as (d_pl' & d_usd' & Hrun & Hother & Hlen' & Hnth & Husd).
    { rewrite Hpl1. by rewrite length_insert. }
    { lia. }
    exists d_pl', d_usd'. split_and!; try done.
    + intros p Hp. rewrite Hother by done. unfold d_pl1.
      rewrite get_or_set. by rewrite decide_False.
    + intros i. rewrite Hnth, Hpl1, nth_insert by lia.
      apply nth_lookup_Some with (d := 0) in Hold.
      repeat case_decide; try lia.
      * subst i. replace (s - s)%nat with 0%nat by lia.
        rewrite ?fmap_cons. cbn [nth]. lia.
      * replace (i - s)%nat with (S (i - S s)) by lia.
        rewrite ?fmap_cons. cbn [nth]. refold_fmap. lia.
    + intros p. rewrite Husd. unfold d_usd2. rewrite get_or_set, Hu2.
      refold_fmap. case_decide; subst; lia.
Qed.

Abbreviation lengths_ok := (BalanceAggregator.lengths_ok MAXT).

Lemma balance_step_ok d b :
  lengths_ok d ->
  (length (BalancerPoolBalance.underlying_tokens_balance b) <= MAXT)%nat ->
  exists d',
    balance_step MAXT d b = Ok d'
    /\ lengths_ok d'
    /\ pool_addr_to_events d' = pool_addr_to_events d
    /\ (forall p i,
          nth i (pl_of d' p) 0
          = nth i (pl_of d p) 0
            + if decide (BalancerPoolBalance.pool_token b = p)
              then live_amount i b else 0)
    /\ (forall p,
          usd_of d' p
          = usd_of d p
            + if decide (BalancerPoolBalance.pool_token b = p)
              then live_usd b else 0).
Proof.
  intros Hok Hlen. unfold balance_step.
  set (pool := BalancerPoolBalance.pool_token b).
  destruct (PyDict.getitem_default (zero_amounts MAXT) _ pool) as [x d_pl0] eqn:E0.
  pose proof (getitem_default_snd_get_or (zero_amounts MAXT)
    (pool_addr_to_profit_loss_amounts d) pool) as H0.
  rewrite E0 in H0. simpl in H0.
  destruct (token_loop pool (BalancerPoolBalance.underlying_tokens_balance b)
    0%nat d_pl0 (pool_addr_to_usd_value d))
    as (d_pl' & d_usd' & Hrun & Hother & Hlen' & Hnth & Husd).
  { rewrite H0. apply Hok. }
  { lia. }
  unfold enumerate. rewrite Hrun. simpl.
  eexists. split; [done|]. simpl. split_and!; try done.
  - intros p. simpl. destruct (decide (p = pool)) as [->|Hne]; [done|].
    rewrite Hother, H0 by done. apply Hok.
  - intros p i. simpl. case_decide as Hp.
    + subst p. rewrite Hnth, H0. rewrite decide_True by lia.
      unfold live_amount. by rewrite Nat.sub_0_r.
    + rewrite Hother, H0 by done. lia.
Qed.

Lemma balances_of_cons p b bs :
  balances_of p (b :: bs)
  = if decide (BalancerPoolBalance.pool_token b = p)
    then b :: balances_of p bs else balances_of p bs.
Proof. unfold balances_of. rewrite filter_cons. by case_decide. Qed.

Lemma for_each_balance_step bs : forall d,
  lengths_ok d ->
  (forall b, b ∈ bs ->
     (length (BalancerPoolBalance.underlying_tokens_balance b) <= MAXT)%nat) ->
  exists d',
    for_each (balance_step MAXT) bs d = Ok d'
    /\ lengths_ok d'
    /\ pool_addr_to_events d' = pool_addr_to_events d
    /\ (forall p i,
          nth i (pl_of d' p) 0
          = nth i (pl_of d p) 0 + Zsum (live_amount i <$> balances_of p bs))
    /\ (forall p,
          usd_of d' p = usd_of d p + Zsum (live_usd <$> balances_of p bs)).
Proof.
  induction bs as [|b bs IH]; intros d Hok Hlen.
  - exists d. simpl. split_and!; try done; intros; lia.
  - destruct (balance_step_ok d b Hok) as (d1 & Hrun & Hok1 & Hev1 & Hpl1 & Husd1).
    { apply Hlen. by left. }
    destruct (IH d1 Hok1) as (d' & Hrun' & Hok' & Hev' & Hpl' & Husd').
    { intros b' Hb'. apply Hlen. by right. }
    exists d'. simpl. rewrite Hrun. simpl. split_and!; try done.
    + by rewrite Hev'.
    + intros p i. rewrite Hpl', Hpl1, balances_of_cons.
      case_decide; [rewrite fmap_cons, Zsum_cons|]; lia.
    + intros p. rewrite Husd', Husd1, balances_of_cons.
      case_decide; [rewrite fmap_cons, Zsum_cons|]; lia.
Qed.

(** A pool balance with more underlying tokens than [POOL_MAX_NUMBER_TOKENS]
    makes the item assignment fail. *)
Lemma token_loop_overflow pool l : forall s d_pl d_usd,
  length (PyDict.get_or (zero_amounts MAXT) d_pl pool) = MAXT ->
  (MAXT < s + length l)%nat -> (s <= MAXT)%nat ->
  for_each (token_balance_step MAXT pool) (zip (seq s (length l)) l) (d_pl, d_usd)
  = Raise IndexError.
Proof.
  induction l as [|t l IH]; intros s d_pl d_usd Hlen Hs Hs'; simpl in *; [lia|].
  destruct (PyDict.get_or (zero_amounts MAXT) d_pl pool !! s) as [old|] eqn:Hold; [|done].
  apply lookup_lt_Some in Hold.
  destruct (PyDict.getitem_default ZERO d_usd pool) as [usd d_usd1]. simpl.
  apply IH; [|lia|lia].
  rewrite get_or_set, decide_True by done. by rewrite length_insert.
Qed.

Lemma foldl_event_step_lengths es : forall d,
  lengths_ok d -> lengths_ok (foldl (event_step MAXT) d es).
Proof.
  induction es as [|e es IH]; intros d Hok; simpl; [done|].
  apply IH. intros p. rewrite event_step_pl. case_decide; [|apply Hok].
  rewrite length_zip_with, (Hok p). pose proof (length_event_amounts e). lia.
Qed.

Lemma lengths_ok_empty : lengths_ok (mk_dicts [] [] []).
Proof. intros p. apply length_zero_amounts. Qed.

(** C2 (amended).  For each pool of the events the call returns one entry
    with the events of the pool; its profit/loss vector holds, per
    underlying token, [-amount] for every MINT and [+amount] for every BURN
    of the pool, plus the amounts of the live balances of the pool as a
    terminal adjustment, cut to the number of underlying tokens of the pool;
    the USD profit/loss is accumulated with the same signs from the USD
    value of each event, plus the USD values of the live balances.  The call
    succeeds when no live balance has more than [POOL_MAX_NUMBER_TOKENS]
    underlying tokens. *)
Theorem calculate_pool_events_balances_signed address events pool_balances :
  Forall (fun b =>
     (length (BalancerPoolBalance.underlying_tokens_balance b) <= MAXT)%nat)
    pool_balances ->
  exists out,
    _calculate_pool_events_balances MAXT address events pool_balances = Ok out
    /\ NoDup (BalancerPoolEventsBalance.pool_address_token <$> out)
    /\ (forall p, p ∈ (BalancerPoolEventsBalance.pool_address_token <$> out)
          <-> exists e, e ∈ events /\ pool_of e = p)
    /\ forall r, r ∈ out ->
         let p := BalancerPoolEventsBalance.pool_address_token r in
         BalancerPoolEventsBalance.address r = address
         /\ BalancerPoolEventsBalance.events r = events_of p events
         /\ length (BalancerPoolEventsBalance.profit_loss_amounts r)
            = (length (EvmToken.underlying_tokens p) `min` MAXT)%nat
         /\ (forall i,
               (i < length (BalancerPoolEventsBalance.profit_loss_amounts r))%nat ->
               BalancerPoolEventsBalance.profit_loss_amounts r !! i
               = Some (profit_loss_at sign events pool_balances p i))
         /\ BalancerPoolEventsBalance.usd_profit_loss r
            = usd_profit_loss_of sign events pool_balances p.
Proof.
  rewrite Forall_forall. intros Hlen. unfold _calculate_pool_events_balances.
  set (d0 := foldl (event_step MAXT) (mk_dicts [] [] []) events).
  assert (lengths_ok d0) as Hok0
    by apply foldl_event_step_lengths, lengths_ok_empty.
  destruct (for_each_balance_step pool_balances d0 Hok0 Hlen)
    as (d' & Hrun & Hok' & Hev & Hpl & Husd).
  rewrite Hrun. simpl. eexists. split; [done|].
  destruct (foldl_event_step_keys events (mk_dicts [] [] [])) as [Hnd Hkeys];
    [apply NoDup_nil_2|]. fold d0 in Hnd, Hkeys.
  assert ((BalancerPoolEventsBalance.pool_address_token
             <$> (pool_events_balance MAXT address d' <$> pool_addr_to_events d'))
          = PyDict.keys (pool_addr_to_events d0)) as Hpools.
  { rewrite Hev. unfold PyDict.keys. rewrite <- list_fmap_compose.
    apply list_fmap_ext. by intros _ [p evs] _. }
  rewrite Hpools. split; [done|]. split.
  { intros p. rewrite Hkeys. split.
    - intros [Hin|?]; [by apply elem_of_nil in Hin | done].
    - by right. }
  intros r Hr. apply list_elem_of_fmap in Hr as ([p evs] & -> & Hin).
  rewrite Hev in Hin. simpl.
  apply (elem_of_get _ _ _ Hnd) in Hin.
  assert (evs = events_of p events) as ->.
  { pose proof (foldl_event_step_ev events (mk_dicts [] [] []) p) as Hevs.
    fold d0 in Hevs. unfold PyDict.get_or in Hevs at 1.
    rewrite Hin in Hevs. simpl in Hevs. done. }
  split_and!; try done.
  - rewrite length_take, (Hok' p). lia.
  - intros i Hi. rewrite length_take, (Hok' p) in Hi.
    rewrite lookup_take_lt by lia.
    destruct (lookup_lt_is_Some_2 (pl_of d' p) i) as [x Hx];
      [rewrite (Hok' p); lia|].
    rewrite Hx. f_equal. apply nth_lookup_Some with (d := 0) in Hx. subst x.
    rewrite Hpl. unfold profit_loss_at.
    destruct (foldl_event_step_pl events (mk_dicts [] [] []) p i) as [_ Hnth];
      [lia | apply length_zero_amounts |].
    fold d0 in Hnth. rewrite Hnth. simpl. rewrite nth_zero_amounts. lia.
  - rewrite Husd. unfold usd_profit_loss_of.
    pose proof (foldl_event_step_usd events (mk_dicts [] [] []) p) as Hu.
    fold d0 in Hu. rewrite Hu. unfold PyDict.get_or. simpl. unfold ZERO. lia.
Qed.
End facts.

Lemma calculate_pool_events_balances_signed_witness :
  let live :=
    BalancerPoolBalance.mk Sample.pool
      [BalancerPoolTokenBalance.mk (EvmToken.mk "0xDA1" []) (Balance.mk 3 4) 1;
       BalancerPoolTokenBalance.mk (EvmToken.mk "0xE7H" []) (Balance.mk 2 6) 3]
      (Balance.mk 1 10) in
  Forall (fun b =>
     (length (BalancerPoolBalance.underlying_tokens_balance b) <= 8)%nat) [live]
  /\ exists out,
       _calculate_pool_events_balances 8 "0xA11CE" [Sample.mint_event] [live] = Ok out
       /\ forall r, r ∈ out ->
            BalancerPoolEventsBalance.profit_loss_amounts r !! 0%nat
            = Some (profit_loss_at sign [Sample.mint_event] [live]
                      (BalancerPoolEventsBalance.pool_address_token r) 0).
Proof.
  intros live.
  assert (Forall (fun b =>
     (length (BalancerPoolBalance.underlying_tokens_balance b) <= 8)%nat) [live])
    as Hlen.
  { apply Forall_cons. split; [simpl; lia | apply Forall_nil_2]. }
  split; [exact Hlen|].
  destruct (calculate_pool_events_balances_signed 8 "0xA11CE"
              [Sample.mint_event] [live] Hlen)
    as (out & Hrun & _ & Hpools & Hall).
  exists out. split; [exact Hrun|]. intros r Hr.
  destruct (Hall r Hr) as (_ & _ & Hl & Hnth & _).
  apply Hnth. rewrite Hl.
  assert (BalancerPoolEventsBalance.pool_address_token r = Sample.pool) as ->.
  { assert (BalancerPoolEventsBalance.pool_address_token r
            ∈ BalancerPoolEventsBalance.pool_address_token <$> out) as Hin
      by (apply list_elem_of_fmap; by exists r).
    apply Hpools in Hin as (e & He & <-).
    apply list_elem_of_singleton in He. by subst e. }
  simpl. lia.
Defined.

(** A single MINT of 5 tokens worth 7 USD and no live balance: the code
    reports a profit/loss of -5 tokens and -7 USD, where the accumulation of
    the claim ([+amount] for a MINT) gives +5 and +7. *)
Lemma mint_is_subtracted_not_added :
  _calculate_pool_events_balances 8 "0xA11CE" [Sample.mint_event] []
  = Ok [BalancerPoolEventsBalance.mk "0xA11CE" Sample.pool [Sample.mint_event]
          [-5; 0] (-7)]
  /\ profit_loss_at spec_sign [Sample.mint_event] [] Sample.pool 0 = 5
  /\ usd_profit_loss_of spec_sign [Sample.mint_event] [] Sample.pool = 7.
Proof. by vm_compute. Qed.
End BalanceAggregatorFacts.

(** ** EventAggregator: pairing of BPT and invest events *)

Module EventAggregatorFacts.
Import EventAggregator PyDictFacts.
Import BalanceAggregatorFacts.

Lemma for_each_cons {A S} (body : S -> A -> outcome S) x xs s :
  for_each body (x :: xs) s = (s' ← body s x; for_each body xs s').
Proof. done. Qed.

Lemma for_each_app {A S} (body : S -> A -> outcome S) xs ys s :
  for_each body (xs ++ ys) s = (s' ← for_each body xs s; for_each body ys s').
Proof.
  revert s. induction xs as [|x xs IH]; intros s; simpl; [done|].
  destruct (body s x); simpl; [apply IH | done | done].
Qed.

Lemma for_each_Ok_inv {A S} (body : S -> A -> outcome S) x xs s s' :
  for_each body (x :: xs) s = Ok s' ->
  exists s1, body s x = Ok s1 /\ for_each body xs s1 = Ok s'.
Proof. simpl. destruct (body s x) as [s1| |]; [by exists s1 | done | done]. Qed.

(** A loop whose body appends to an output list. *)
Lemma for_each_appends {A B C S} (body : S -> A -> outcome S)
    (out : S -> list B) (I : S -> Prop) (f : A -> list C) (R : C -> B -> Prop) l :
  (forall s a s', a ∈ l -> I s -> body s a = Ok s' ->
     I s' /\ exists bs, out s' = out s ++ bs /\ Forall2 R (f a) bs) ->
  forall s s', I s -> for_each body l s = Ok s' ->
    I s' /\ exists bs, out s' = out s ++ bs /\ Forall2 R (l ≫= f) bs.
Proof.
  induction l as [|a l IH]; intros Hbody s s' HI Hrun.
  - inversion Hrun; subst. split; [done|]. exists []. by rewrite app_nil_r.
  - apply for_each_Ok_inv in Hrun as (s1 & Hstep & Hrun).
    destruct (Hbody s a s1) as (HI1 & bs1 & Hout1 & HR1); [by left | done | done |].
    destruct (IH (fun s a s' Ha => Hbody s a s' (list_elem_of_further _ _ _ Ha))
                s1 s' HI1 Hrun) as (HI' & bs & Hout & HR).
    split; [done|]. exists (bs1 ++ bs). split.
    + by rewrite Hout, Hout1, <- app_assoc.
    + rewrite bind_cons. by apply Forall2_app.
Qed.

Lemma failure_bind {A B} (m : outcome A) (k : A -> outcome B) f :
  failure m = Some f -> failure (m ≫= k) = Some f.
Proof. by destruct m. Qed.

Lemma failure_Raise {A} (m : outcome A) e : failure m = Some (Some e) -> m = Raise e.
Proof. destruct m; simpl; congruence. Qed.

Lemma failure_None {A} (m : outcome A) : failure m = None -> exists a, m = Ok a.
Proof. destruct m; [by eexists | done | done]. Qed.

(** A loop in which every step succeeds or fails in a way that [F] allows
    succeeds or fails in a way that [F] allows. *)
Lemma for_each_ok_or_fails {A S} (body : S -> A -> outcome S) (I : S -> Prop)
    (F : option exn -> Prop) l :
  (forall s a, a ∈ l -> I s ->
     (exists s', body s a = Ok s' /\ I s')
     \/ (exists f, failure (body s a) = Some f /\ F f)) ->
  forall s, I s ->
    (exists s', for_each body l s = Ok s' /\ I s')
    \/ (exists f, failure (for_each body l s) = Some f /\ F f).
Proof.
  induction l as [|a l IH]; intros Hbody s HI; [left; by exists s|].
  rewrite for_each_cons.
  destruct (Hbody s a) as [(s1 & Hstep & HI1)|(f & Hf & HF)]; [by left | done | |].
  - rewrite Hstep. simpl. apply IH; [|done]. intros ? ? ?. apply Hbody. by right.
  - right. exists f. split; [by apply failure_bind | done].
Qed.

Lemma for_each_ext {A S} (body1 body2 : S -> A -> outcome S) l s :
  (forall s a, a ∈ l -> body1 s a = body2 s a) ->
  for_each body1 l s = for_each body2 l s.
Proof.
  revert s. induction l as [|a l IH]; intros s Hext; [done|].
  rewrite !for_each_cons, Hext by (by left).
  destruct (body2 s a); simpl; [|done|done].
  apply IH. intros ? ? ?. apply Hext. by right.
Qed.

Section facts.
Variable token_of_address : ChecksumEvmAddress -> EvmToken.t.
Variable token_price_at :
  EvmToken.t -> Timestamp -> list message * outcome Price.
Variable db_pools : list EvmToken.t.

Abbreviation price_of := (invest_price token_of_address token_price_at).
Abbreviation lookup_of := (invest_lookup token_of_address token_price_at).
Abbreviation step := (invest_step token_of_address token_price_at).
Abbreviation amount_of := BalancerInvestEvent.amount.

(** *** The grouping dictionary *)

Lemma group_invest_events_get_or l tx pool :
  PyDict.get_or [] (group_invest_events l) (tx, pool)
  = filter (fun i => BalancerInvestEvent.tx_hash i = tx
                     /\ BalancerInvestEvent.pool_address_token i = pool) l.
Proof.
  unfold group_invest_events.
  set (body := fun d invest_event => _).
  assert (forall d, PyDict.get_or [] (foldl body d l) (tx, pool)
                    = PyDict.get_or [] d (tx, pool)
                      ++ filter (fun i => BalancerInvestEvent.tx_hash i = tx
                           /\ BalancerInvestEvent.pool_address_token i = pool) l)
    as Hgen; [|by rewrite Hgen].
  induction l as [|i l IH]; intros d; simpl; [by rewrite app_nil_r|].
  rewrite IH. unfold body.
  set (key := (BalancerInvestEvent.tx_hash i, BalancerInvestEvent.pool_address_token i)).
  pose proof (getitem_default_fst [] d key) as H1.
  pose proof (getitem_default_snd_get_or [] d key (tx, pool)) as H2.
  destruct (PyDict.getitem_default [] d key) as [old d1]. simpl in H1, H2.
  rewrite get_or_set, H2, filter_cons. subst old.
  destruct (decide (key = (tx, pool))) as [Hk|Hk].
  - inversion Hk; subst. rewrite decide_True by done.
    fold key. rewrite Hk. by rewrite <- app_assoc.
  - rewrite decide_False; [done|]. intros [? ?]. apply Hk. unfold key. congruence.
Qed.

(** *** The index of a token in its pool *)

Lemma token_addr_to_index_lookup pool a :
  match PyDict.get (token_addr_to_index pool) a with
  | Some idx => (idx < length (EvmToken.underlying_tokens pool))%nat
                /\ EvmToken.underlying_tokens pool !! idx = Some a
  | None => a ∉ EvmToken.underlying_tokens pool
  end.
Proof.
  unfold token_addr_to_index, BalanceAggregator.enumerate.
  set (l := EvmToken.underlying_tokens pool).
  assert (forall (k : list ChecksumEvmAddress) s d,
    match PyDict.get
            (foldl (fun d '(idx, a) => PyDict.set d a idx) d (zip (seq s (length k)) k)) a
    with
    | Some idx => (s <= idx < s + length k /\ k !! (idx - s)%nat = Some a)%nat
                  \/ (PyDict.get d a = Some idx)
    | None => (a ∉ k) /\ PyDict.get d a = None
    end) as Hgen.
  { induction k as [|x k IH]; intros s d; simpl.
    - destruct (PyDict.get d a) eqn:E; [by right|]. split; [apply not_elem_of_nil | done].
    - specialize (IH (S s) (PyDict.set d x s)).
      destruct (PyDict.get (foldl _ _ _) a) as [idx|] eqn:E.
      + destruct IH as [[Hr Hk]|Hd].
        * left. split; [lia|]. replace (idx - s)%nat with (S (idx - S s)) by lia. done.
        * rewrite get_set in Hd. case_decide; subst.
          -- inversion Hd; subst. left. split; [lia|].
             replace (idx - idx)%nat with 0%nat by lia. done.
          -- by right.
      + destruct IH as [Hnin Hd]. rewrite get_set in Hd.
        case_decide; [done|]. split; [|done].
        apply not_elem_of_cons. split; [congruence | done]. }
  specialize (Hgen l 0%nat []).
  destruct (PyDict.get (foldl _ _ _) a) as [idx|].
  - destruct Hgen as [[Hr Hk]|?]; [|done].
    rewrite Nat.sub_0_r in Hk. split; [lia | done].
  - by destruct Hgen.
Qed.

(** *** The loop over the invest events of one BPT event *)

Lemma invest_step_inv tm ty b g i g' :
  step tm ty b g i = Ok g' ->
  length (g_amounts g') = length (g_amounts g)
  /\ (is_missing_token_price g = true ->
        is_missing_token_price g' = true /\ g_usd_value g' = g_usd_value g)
  /\ (is_missing_token_price g = false ->
        (lookup_of i).2 = Ok (price_of i)
        /\ g_usd_value g' = g_usd_value g + price_of i * amount_of i
        /\ (is_missing_token_price g' = true <-> price_of i = ZERO)).
Proof.
  unfold invest_step, invest_price, invest_lookup. intros Hstep.
  destruct tm as [tm|]; [|done].
  destruct (PyDict.get tm _) as [idx|]; [|done].
  destruct (g_amounts g !! idx) as [old|] eqn:Hold; [|done].
  destruct (is_missing_token_price g) eqn:Hm.
  - inversion Hstep; subst; simpl. rewrite length_insert. by split_and!.
  - destruct (token_price_at _ _) as [ms [p| |]]; simpl in Hstep; [|done|done].
    simpl. case_decide as Hz; inversion Hstep; subst; simpl; rewrite length_insert.
    + by split_and!.
    + split; [done|]. split; [done|]. intros _. split; [done|]. split; [done|].
      by split.
Qed.

Lemma group_loop_inv tm ty b l : forall g g',
  for_each (step tm ty b) l g = Ok g' ->
  length (g_amounts g') = length (g_amounts g)
  /\ (is_missing_token_price g = true ->
        is_missing_token_price g' = true /\ g_usd_value g' = g_usd_value g)
  /\ (is_missing_token_price g = false ->
        (is_missing_token_price g' = true <-> Exists (fun i => price_of i = ZERO) l)
        /\ (is_missing_token_price g' = false ->
              g_usd_value g' = g_usd_value g
                + Zsum ((fun i => price_of i * amount_of i) <$> l))).
Proof.
  induction l as [|i l IH]; intros g g' Hrun.
  - inversion Hrun; subst. split_and!; try done. intros Hm. split.
    + rewrite Hm. split; [done | by intros ?%Exists_nil].
    + intros _. simpl; lia.
  - apply for_each_Ok_inv in Hrun as (g1 & Hstep & Hrun).
    apply invest_step_inv in Hstep as (Hlen1 & Hmiss1 & Hok1).
    apply IH in Hrun as (Hlen & Hmiss & Hok).
    split_and!.
    + congruence.
    + intros Hm. destruct (Hmiss1 Hm) as (Hm1 & Hu1).
      destruct (Hmiss Hm1) as (? & ?). split; congruence.
    + intros Hm. destruct (Hok1 Hm) as (_ & Husd1 & Hzero).
      destruct (decide (price_of i = ZERO)) as [Hz|Hz].
      * apply Hzero in Hz as Hm1.
        destruct (Hmiss Hm1) as (Hm' & Hu'). split.
        -- split; [intros _; by left | done].
        -- congruence.
      * assert (is_missing_token_price g1 = false) as Hm1.
        { destruct (is_missing_token_price g1); [|done]. by destruct Hz, Hzero as [-> _]. }
        destruct (Hok Hm1) as (Hex & Hsum). split.
        -- rewrite Hex. split; [by right|].
           intros [?|?]%Exists_cons; done.
        -- intros Hm'. rewrite (Hsum Hm').
           rewrite fmap_cons, Zsum_cons, Husd1. lia.
Qed.

(** With every token of the group inside the amounts vector, the loop
    succeeds unless a price lookup of the group fails, and then it fails as
    the lookup does. *)
Lemma group_loop_ok_or_fails tm ty b l : forall g,
  Forall (fun i => exists idx,
            PyDict.get tm (BalancerInvestEvent.token_address i) = Some idx
            /\ (idx < length (g_amounts g))%nat) l ->
  (exists g', for_each (step (Some tm) ty b) l g = Ok g')
  \/ (exists f, failure (for_each (step (Some tm) ty b) l g) = Some f
                /\ Exists (fun i => failure (lookup_of i).2 = Some f) l).
Proof.
  induction l as [|i l IH]; intros g Hall; [left; by eexists|].
  apply Forall_cons in Hall as [(idx & Hidx & Hlt) Hall].
  destruct (lookup_lt_is_Some_2 (g_amounts g) idx Hlt) as [old Hold].
  assert ((exists g1, step (Some tm) ty b g i = Ok g1
                      /\ length (g_amounts g1) = length (g_amounts g))
          \/ (exists f, failure (step (Some tm) ty b g i) = Some f
                        /\ failure (lookup_of i).2 = Some f)) as [(g1 & Hstep & Hlen1)|Hfail].
  { unfold invest_step, invest_lookup. rewrite Hidx, Hold.
    destruct (is_missing_token_price g).
    - left. eexists. split; [done|]. simpl. by rewrite length_insert.
    - destruct (token_price_at _ _) as [ms [p| |]]; simpl.
      + left. case_decide; eexists; (split; [done|]); simpl; by rewrite length_insert.
      + right. by eexists.
      + right. by eexists. }
  - rewrite for_each_cons, Hstep. simpl.
    destruct (IH g1) as [Hok|(f & Hf & Hex)]; [by rewrite Hlen1 | by left |].
    right. exists f. split; [done | by right].
  - destruct Hfail as (f & Hf & Hl). right. exists f. split.
    + rewrite for_each_cons. by apply failure_bind.
    + by left.
Qed.

(** *** One BPT event *)


Abbreviation group_of := (invest_group).
Abbreviation agg_step := (bpt_step token_of_address token_price_at).

Lemma bpt_step_group ty events b :
  PyDict.get_or [] (group_invest_events (attr_invest_events ty events))
    (BalancerBPTEvent.tx_hash b, BalancerBPTEvent.pool_address_token b)
  = invest_group ty events b.
Proof. apply group_invest_events_get_or. Qed.

(** The index dictionary consulted for the pool of [b], once the pool has
    been entered if it was new. *)
Lemma bpt_step_unfold ty events st b :
  index_ok st ->
  agg_step ty (group_invest_events (attr_invest_events ty events)) st b
  = match invest_group ty events b with
    | [] => Raise RemoteError
    | first :: _ =>
        let pool := BalancerBPTEvent.pool_address_token b in
        let '(index_map, pools) :=
          match PyDict.get (pool_addr_to_token_addr_to_index st) pool with
          | Some _ => (pool_addr_to_token_addr_to_index st, balancer_pools st)
          | None =>
              (PyDict.set (pool_addr_to_token_addr_to_index st) pool
                 (token_addr_to_index pool),
               balancer_pools st ++ [pool])
          end in
        g ← for_each (step (Some (token_addr_to_index pool)) ty b)
              (invest_group ty events b)
              (mk_group_state
                 (replicate (length (EvmToken.underlying_tokens pool)) ZERO)
                 ZERO false (msgs st));
        Ok (mk_state pools
              (balancer_events st ++
                 [BalancerEvent.mk (BalancerBPTEvent.tx_hash b)
                    (BalancerBPTEvent.log_index b) (BalancerBPTEvent.address b)
                    (BalancerInvestEvent.timestamp first) ty pool
                    (Balance.mk (BalancerBPTEvent.amount b)
                       (if is_missing_token_price g then ZERO else g_usd_value g))
                    (g_amounts g)])
              index_map (g_msgs g))
    end.
Proof.
  intros Hok. unfold bpt_step. rewrite bpt_step_group.
  destruct (invest_group ty events b) as [|first rest]; [done|].
  destruct (PyDict.get (pool_addr_to_token_addr_to_index st) _) as [tm|] eqn:E.
  - rewrite E. by rewrite (Hok _ _ E).
  - by rewrite get_set_eq.
Qed.

Lemma index_ok_step st pool pools evs ms :
  index_ok st ->
  index_ok
    (mk_state pools evs
       (match PyDict.get (pool_addr_to_token_addr_to_index st) pool with
        | Some _ => (pool_addr_to_token_addr_to_index st, balancer_pools st)
        | None =>
            (PyDict.set (pool_addr_to_token_addr_to_index st) pool
               (token_addr_to_index pool),
             balancer_pools st ++ [pool])
        end).1 ms).
Proof.
  intros Hok p tm. simpl.
  destruct (PyDict.get (pool_addr_to_token_addr_to_index st) pool) eqn:E; simpl.
  - apply Hok.
  - rewrite get_set. case_decide; subst; [congruence | apply Hok].
Qed.

Lemma bpt_step_inv ty events st b st' :
  index_ok st ->
  agg_step ty (group_invest_events (attr_invest_events ty events)) st b = Ok st' ->
  index_ok st'
  /\ exists ev, balancer_events st' = balancer_events st ++ [ev]
                /\ aggregates token_of_address token_price_at ty events b ev.
Proof.
  intros Hok. rewrite bpt_step_unfold by done. unfold aggregates.
  destruct (invest_group ty events b) as [|first rest] eqn:Egroup; [done|].
  cbv zeta. set (pool := BalancerBPTEvent.pool_address_token b).
  pose proof (index_ok_step st pool) as Hok1.
  destruct (match PyDict.get _ pool with Some _ => _ | None => _ end)
    as [index_map pools]. simpl in Hok1.
  destruct (for_each _ _ _) as [g| |] eqn:Hloop; [|done|done]. simpl.
  intros [= <-]. split; [by apply Hok1|]. eexists. split; [done|]. simpl.
  apply group_loop_inv in Hloop as (Hlen & _ & Hres). simpl in Hlen, Hres.
  destruct (Hres eq_refl) as (Hex & Hsum).
  split_and!; try done.
  - unfold group_usd_value.
    destruct (is_missing_token_price g) eqn:Hm.
    + rewrite decide_True; [done|]. by apply Hex.
    + rewrite decide_False; [|rewrite <- Hex; congruence].
      rewrite (Hsum eq_refl). exact (Z.add_0_l _).
  - by rewrite Hlen, length_replicate.
Qed.

(** One pool-token event whose investment events move tokens of its pool:
    the step builds its event; or the event has no investment event and the
    step raises [RemoteError]; or a price lookup of the group fails and the
    step fails as the lookup does. *)
Lemma bpt_step_ok_or_fails ty events st b :
  index_ok st -> tokens_in_pool ty events b ->
  (exists st',
     agg_step ty (group_invest_events (attr_invest_events ty events)) st b = Ok st'
     /\ index_ok st')
  \/ (exists f,
        failure (agg_step ty (group_invest_events (attr_invest_events ty events)) st b)
        = Some f
        /\ (f = Some RemoteError /\ invest_group ty events b = []
            \/ Exists (fun i => failure (lookup_of i).2 = Some f)
                 (invest_group ty events b))).
Proof.
  intros Hok Htok. rewrite bpt_step_unfold by done.
  destruct (invest_group ty events b) as [|first rest] eqn:Egroup.
  { right. exists (Some RemoteError). split; [done | by left]. }
  cbv zeta. set (pool := BalancerBPTEvent.pool_address_token b).
  pose proof (index_ok_step st pool) as Hok1.
  destruct (match PyDict.get _ pool with Some _ => _ | None => _ end)
    as [index_map pools]. simpl in Hok1.
  destruct (group_loop_ok_or_fails (token_addr_to_index pool) ty b (first :: rest)
    (mk_group_state (replicate (length (EvmToken.underlying_tokens pool)) ZERO)
       ZERO false (msgs st))) as [[g Hg]|(f & Hf & Hex)].
  { unfold tokens_in_pool in Htok. rewrite Egroup in Htok.
    eapply Forall_impl; [exact Htok|]. intros i Hi. cbv beta in Hi |- *.
    cbn [g_amounts].
    pose proof (token_addr_to_index_lookup pool (BalancerInvestEvent.token_address i)) as Hl.
    destruct (PyDict.get (token_addr_to_index pool) _) as [idx|];
      [|by destruct Hl].
    exists idx. split; [done|]. rewrite length_replicate. by destruct Hl. }
  - left. rewrite Hg. simpl. eexists. split; [done|]. by apply Hok1.
  - right. exists f. split; [by apply failure_bind | by right].
Qed.

Lemma bpt_step_orphan ty events st b :
  invest_group ty events b = [] ->
  agg_step ty (group_invest_events (attr_invest_events ty events)) st b
  = Raise RemoteError.
Proof. intros Hg. unfold bpt_step. by rewrite bpt_step_group, Hg. Qed.

(** *** The loops over BPT events, addresses and event types *)

Abbreviation addr_step := (address_step token_of_address token_price_at).
Abbreviation by_type :=
  (_get_balancer_aggregated_events_data_by_event_type token_of_address token_price_at).

Lemma index_ok_initial :
  index_ok
    (mk_state [] []
       (foldl (fun d db_pool => PyDict.set d db_pool (token_addr_to_index db_pool))
          [] db_pools) []).
Proof.
  unfold index_ok. simpl.
  assert (forall l d, (forall p tm, PyDict.get d p = Some tm -> tm = token_addr_to_index p) ->
    forall p tm,
      PyDict.get (foldl (fun d db_pool => PyDict.set d db_pool (token_addr_to_index db_pool))
                    d l) p = Some tm -> tm = token_addr_to_index p) as Hgen.
  { induction l as [|x l IH]; intros d Hd; simpl; [done|].
    apply IH. intros p tm. rewrite get_set. case_decide; subst; [congruence | apply Hd]. }
  apply Hgen. intros p tm. done.
Qed.


Abbreviation agg_rel :=
  (fun (x : BalancerBPTEventType * BalancerEventsData.t * BalancerBPTEvent.t) ev =>
     aggregates token_of_address token_price_at x.1.1 x.1.2 x.2 ev).

Lemma address_step_inv ty events st st' :
  index_ok st ->
  addr_step ty st events = Ok st' ->
  index_ok st'
  /\ exists evs, balancer_events st' = balancer_events st ++ evs
                 /\ Forall2 agg_rel (in_order_of ty events) evs.
Proof.
  intros Hok Hrun. unfold address_step in Hrun.
  eapply (for_each_appends _ balancer_events index_ok
            (fun b => [(ty, events, b)]) agg_rel) in Hrun; [done| |done].
  intros s b s' _ Hs Hstep.
  destruct (bpt_step_inv _ _ _ _ _ Hs Hstep) as (Hs' & ev & Hout & Hagg).
  split; [done|]. exists [ev]. split; [done|].
  apply Forall2_cons_2; [done | apply Forall2_nil_2].
Qed.

Lemma by_type_inv data ty st st' :
  index_ok st ->
  by_type data ty st = Ok st' ->
  index_ok st'
  /\ exists evs, balancer_events st' = balancer_events st ++ evs
                 /\ Forall2 agg_rel (data.*2 ≫= in_order_of ty) evs.
Proof.
  intros Hok Hrun. unfold _get_balancer_aggregated_events_data_by_event_type in Hrun.
  eapply (for_each_appends _ balancer_events index_ok (in_order_of ty) agg_rel)
    in Hrun; [done| |done].
  intros s events s' _ Hs Hstep. by apply address_step_inv.
Qed.

Lemma bpt_events_in_order_bind data :
  bpt_events_in_order data = [MINT; BURN] ≫= (fun ty => data.*2 ≫= in_order_of ty).
Proof. done. Qed.

(** A successful aggregation returns, for each BPT event in turn, the event
    that [aggregates] describes. *)
Lemma aggregated_inv data evs :
  _get_balancer_aggregated_events_data token_of_address token_price_at db_pools data
  = Ok evs ->
  Forall2 agg_rel (bpt_events_in_order data) evs.
Proof.
  unfold _get_balancer_aggregated_events_data, aggregated_state.
  destruct (for_each _ _ _) as [st| |] eqn:Hrun; [|done|done]. simpl.
  intros [= <-].
  eapply (for_each_appends _ balancer_events index_ok
            (fun ty => data.*2 ≫= in_order_of ty) agg_rel) in Hrun.
  - destruct Hrun as (_ & evs & Hout & HR). simpl in Hout. by rewrite Hout.
  - intros s ty s' _ Hs Hstep. by apply by_type_inv.
  - apply index_ok_initial.
Qed.

(** *** Success and failure of the whole aggregation *)

Lemma elem_of_in_order_of ty events x :
  x ∈ in_order_of ty events <-> exists b, x = (ty, events, b) /\ b ∈ attr_bpt_events ty events.
Proof.
  unfold in_order_of. rewrite list_elem_of_bind. split.
  - intros (b & Hx%list_elem_of_singleton & Hb). by exists b.
  - intros (b & -> & Hb). exists b. split; [by left | done].
Qed.

Lemma elem_of_bpt_events_in_order data ty events b :
  events ∈ data.*2 -> b ∈ attr_bpt_events ty events ->
  (ty, events, b) ∈ bpt_events_in_order data.
Proof.
  intros He Hb. rewrite bpt_events_in_order_bind.
  apply list_elem_of_bind. exists ty. split; [|destruct ty; set_solver].
  apply list_elem_of_bind. exists events. split; [|done].
  apply elem_of_in_order_of. by exists b.
Qed.

Lemma aggregated_state_unfold data :
  aggregated_state token_of_address token_price_at db_pools data
  = for_each (fun st ty => by_type data ty st) [MINT; BURN]
      (mk_state [] []
         (foldl (fun d db_pool => PyDict.set d db_pool (token_addr_to_index db_pool))
            [] db_pools) []).
Proof. done. Qed.

Abbreviation aggregate :=
  (_get_balancer_aggregated_events_data token_of_address token_price_at db_pools).
Abbreviation lookup_fails_in := (lookup_fails token_of_address token_price_at).
Abbreviation lookups_return_in := (lookups_return token_of_address token_price_at).

(** When the investment events of the groups move tokens of their pool,
    the aggregation returns; or it reaches a pool-token event without
    investment events and raises [RemoteError]; or a price lookup fails and
    the aggregation fails as the lookup does. *)
Lemma aggregated_ok_or_fails data :
  tokens_known data ->
  (exists evs, aggregate data = Ok evs)
  \/ (exists f, failure (aggregate data) = Some f
                /\ (f = Some RemoteError /\ has_orphan data \/ lookup_fails_in data f)).
Proof.
  unfold tokens_known. rewrite Forall_forall. intros Htok.
  unfold _get_balancer_aggregated_events_data. rewrite aggregated_state_unfold.
  set (F := fun f => f = Some RemoteError /\ has_orphan data \/ lookup_fails_in data f).
  destruct (for_each_ok_or_fails (fun st ty => by_type data ty st) index_ok F
              [MINT; BURN]) with (s := mk_state [] []
         (foldl (fun d db_pool => PyDict.set d db_pool (token_addr_to_index db_pool))
            [] db_pools) []) as [(st & Hrun & _)|(f & Hf & HF)];
    [|apply index_ok_initial| |].
  - intros s ty _ Hs.
    apply (for_each_ok_or_fails (addr_step ty) index_ok F); [|done].
    intros s1 events Hev Hs1.
    apply (for_each_ok_or_fails _ index_ok F); [|done].
    intros s2 b Hb Hs2.
    pose proof (elem_of_bpt_events_in_order data ty events b Hev Hb) as Hin.
    destruct (bpt_step_ok_or_fails ty events s2 b Hs2 (Htok _ Hin))
      as [?|(f & Hf & Hwhy)]; [by left|].
    right. exists f. split; [done|]. unfold F.
    destruct Hwhy as [[-> Hempty]|Hex].
    + left. split; [done|]. apply Exists_exists. by exists (ty, events, b).
    + right. apply Exists_exists. by exists (ty, events, b).
  - left. rewrite Hrun. by eexists.
  - right. exists f. split; [by apply failure_bind | done].
Qed.

Lemma lookups_return_inno_failure data f :
  lookups_return_in data -> lookup_fails_in data f -> False.
Proof.
  unfold lookups_return, lookup_fails. rewrite Forall_forall, Exists_exists.
  intros Hall (x & Hx & Hex). specialize (Hall x Hx).
  rewrite Forall_forall in Hall. apply Exists_exists in Hex as (i & Hi & Hf).
  specialize (Hall i Hi). congruence.
Qed.

Lemma well_paired_no_orphan data : well_paired data -> has_orphan data -> False.
Proof.
  unfold well_paired, has_orphan. rewrite Forall_forall, Exists_exists.
  intros Hall (x & Hx & Hempty). by apply (Hall x Hx).
Qed.

(** An aggregation that returns has found investment events for every
    pool-token event. *)
Lemma aggregated_well_paired data evs : aggregate data = Ok evs -> well_paired data.
Proof.
  intros Hevs. apply aggregated_inv in Hevs. unfold well_paired.
  induction Hevs as [|x ev l evs Hagg _ IH]; [done|].
  apply Forall_cons. split; [|done].
  destruct Hagg as (_ & _ & _ & _ & _ & _ & _ & Hhead & _).
  intros Hempty. by rewrite Hempty in Hhead.
Qed.

Lemma aggregated_total data :
  tokens_known data -> well_paired data -> lookups_return_in data ->
  exists evs, aggregate data = Ok evs.
Proof.
  intros Htok Hpair Hret.
  destruct (aggregated_ok_or_fails data Htok) as [?|(f & _ & [[_ Horph]|Hfail])];
    [done | |].
  - destruct (well_paired_no_orphan data Hpair Horph).
  - destruct (lookups_return_inno_failure data f Hret Hfail).
Qed.

Lemma aggregated_orphan data :
  tokens_known data -> lookups_return_in data -> has_orphan data ->
  aggregate data = Raise RemoteError.
Proof.
  intros Htok Hret Horph.
  destruct (aggregated_ok_or_fails data Htok)
    as [[evs Hevs]|(f & Hf & [[-> _]|Hfail])].
  - apply aggregated_well_paired in Hevs.
    destruct (well_paired_no_orphan data Hevs Horph).
  - by apply failure_Raise.
  - destruct (lookups_return_inno_failure data f Hret Hfail).
Qed.

(** *** Invest events that no BPT event matches *)

Lemma bpt_step_dict_ext ty d1 d2 st b :
  PyDict.get_or [] d1 (BalancerBPTEvent.tx_hash b, BalancerBPTEvent.pool_address_token b)
  = PyDict.get_or [] d2 (BalancerBPTEvent.tx_hash b, BalancerBPTEvent.pool_address_token b) ->
  agg_step ty d1 st b = agg_step ty d2 st b.
Proof. intros Heq. unfold bpt_step. by rewrite Heq. Qed.

Lemma attr_bpt_events_drop_unmatched ty events :
  attr_bpt_events ty (drop_unmatched events) = attr_bpt_events ty events.
Proof. by destruct ty. Qed.

Lemma attr_invest_events_drop_unmatched ty events :
  attr_invest_events ty (drop_unmatched events)
  = filter (matched (attr_bpt_events ty events)) (attr_invest_events ty events).
Proof. by destruct ty. Qed.

Lemma invest_group_drop_unmatched ty events b :
  b ∈ attr_bpt_events ty events ->
  invest_group ty (drop_unmatched events) b = invest_group ty events b.
Proof.
  intros Hb. unfold invest_group. rewrite attr_invest_events_drop_unmatched.
  apply list_filter_filter_l. intros i [Htx Hpool].
  apply Exists_exists. by exists b.
Qed.

Lemma address_step_drop_unmatched ty st events :
  addr_step ty st (drop_unmatched events) = addr_step ty st events.
Proof.
  unfold address_step. rewrite attr_bpt_events_drop_unmatched.
  apply for_each_ext. intros s b Hb. apply bpt_step_dict_ext.
  rewrite !bpt_step_group. by apply invest_group_drop_unmatched.
Qed.

Lemma by_type_drop_unmatched data ty st :
  by_type (prod_map id drop_unmatched <$> data) ty st = by_type data ty st.
Proof.
  unfold _get_balancer_aggregated_events_data_by_event_type.
  revert st. induction data as [|[a events] data IH]; intros st; [done|].
  rewrite !fmap_cons, !for_each_cons. simpl.
  rewrite address_step_drop_unmatched.
  destruct (addr_step ty st events); simpl; [apply IH | done | done].
Qed.
End facts.

(** *** The claims on the aggregation *)

Section claims.
Variable token_of_address : ChecksumEvmAddress -> EvmToken.t.
Variable token_price_at :
  EvmToken.t -> Timestamp -> list message * outcome Price.
Variable db_pools : list EvmToken.t.

Abbreviation aggregate :=
  (_get_balancer_aggregated_events_data token_of_address token_price_at db_pools).
Abbreviation lookup_fails := (EventAggregator.lookup_fails token_of_address token_price_at).
Abbreviation lookups_return :=
  (EventAggregator.lookups_return token_of_address token_price_at).

(** C3 (amended).  The check of the aggregation goes from the pool-token
    events to the investment events, not the other way round: investment
    events that no pool-token event of their address matches (same
    transaction and pool) are skipped, the result is what it is without
    them and no error is raised for them.  It is a pool-token event without
    any matching investment event that fails the synchronization: the
    aggregation then returns no event, and when the investment events of the
    groups move tokens of their pool it raises [RemoteError], unless a price
    lookup has failed before, in which case it fails as that lookup does;
    so it raises [RemoteError] when the price lookups return. *)
Theorem aggregation_skips_unmatched_invest_events data :
  aggregate (prod_map id drop_unmatched <$> data) = aggregate data
  /\ (has_orphan data -> is_ok (aggregate data) = false)
  /\ (tokens_known data -> has_orphan data ->
        aggregate data = Raise RemoteError
        \/ exists f, failure (aggregate data) = Some f /\ lookup_fails data f)
  /\ (tokens_known data -> lookups_return data -> has_orphan data ->
        aggregate data = Raise RemoteError).
Proof.
  split_and!.
  - unfold _get_balancer_aggregated_events_data, aggregated_state.
    f_equal. apply for_each_ext. intros s ty _. apply by_type_drop_unmatched.
  - intros Horph. destruct (aggregate data) as [evs| |] eqn:Hevs; [|done|done].
    apply aggregated_well_paired in Hevs.
    destruct (well_paired_no_orphan data Hevs Horph).
  - intros Htok Horph.
    destruct (aggregated_ok_or_fails token_of_address token_price_at db_pools
                data Htok) as [[evs Hevs]|(f & Hf & [[-> _]|Hfail])].
    + apply aggregated_well_paired in Hevs.
      destruct (well_paired_no_orphan data Hevs Horph).
    + left. by apply failure_Raise.
    + right. by exists f.
  - apply aggregated_orphan.
Qed.

(** C4 (amended).  When every investment event of a group moves a token of
    the pool: if every pool-token event has at least one investment event of
    its address, transaction and pool and the price lookups return, the
    aggregation returns exactly one [BalancerEvent] per pool-token event, in
    order and with its identity; if some pool-token event has none and the
    price lookups return, the aggregation raises [RemoteError] and returns
    no event.  Whenever the aggregation returns, every pool-token event had
    its investment events and has its [BalancerEvent]; and the aggregation
    fails only for a pool-token event without investment events, with
    [RemoteError], or when a price lookup fails, as the lookup does. *)
Theorem aggregation_pairing_completeness data :
  tokens_known data ->
  (well_paired data -> lookups_return data ->
     exists evs, aggregate data = Ok evs
                 /\ Forall2 same_identity (bpt_events_in_order data) evs)
  /\ (has_orphan data -> lookups_return data -> aggregate data = Raise RemoteError)
  /\ (forall evs, aggregate data = Ok evs ->
        well_paired data /\ Forall2 same_identity (bpt_events_in_order data) evs)
  /\ (is_ok (aggregate data) = false ->
        has_orphan data /\ aggregate data = Raise RemoteError
        \/ exists f, failure (aggregate data) = Some f /\ lookup_fails data f).
Proof.
  intros Htok.
  assert (forall evs, aggregate data = Ok evs ->
            Forall2 same_identity (bpt_events_in_order data) evs) as Hid.
  { intros evs Hevs. apply aggregated_inv in Hevs.
    eapply Forall2_impl; [exact Hevs|].
    intros [[ty events] b] ev Hagg. unfold aggregates in Hagg. simpl in Hagg.
    unfold same_identity. simpl. tauto. }
  split_and!.
  - intros Hpair Hret.
    destruct (aggregated_total token_of_address token_price_at db_pools data
                Htok Hpair Hret) as [evs Hevs].
    exists evs. split; [done | by apply Hid].
  - intros Horph Hret. by apply aggregated_orphan.
  - intros evs Hevs. split; [by eapply aggregated_well_paired | by apply Hid].
  - intros Hfail.
    destruct (aggregated_ok_or_fails token_of_address token_price_at db_pools
                data Htok) as [[evs Hevs]|(f & Hf & [[-> Horph]|Hlookup])].
    + by rewrite Hevs in Hfail.
    + left. split; [done | by apply failure_Raise].
    + right. by exists f.
Qed.

(** C5.  In every [BalancerEvent] produced, the USD value of the LP balance
    is zero as soon as the price of one investment event of the group is
    zero, and the sum of price times amount over the group when no price is
    zero. *)
Theorem aggregation_price_poisoning data evs :
  aggregate data = Ok evs ->
  Forall2 (poisoned_usd_value token_of_address token_price_at)
    (bpt_events_in_order data) evs.
Proof.
  intros Hevs. apply aggregated_inv in Hevs.
  eapply Forall2_impl; [exact Hevs|].
  intros [[ty events] b] ev Hagg. unfold aggregates in Hagg. simpl in Hagg.
  destruct Hagg as (_ & _ & _ & _ & _ & _ & Husd & _).
  unfold poisoned_usd_value. simpl. rewrite Husd. unfold group_usd_value. split.
  - intros Hex. by rewrite decide_True.
  - intros Hall. rewrite decide_False; [done|].
    intros Hex. apply Exists_exists in Hex as (i & Hi & Hz).
    rewrite Forall_forall in Hall. by apply (Hall i).
Qed.
End claims.

Lemma aggregation_skips_unmatched_invest_events_witness :
  EventAggregator.tokens_known Sample.orphan_mint
  /\ EventAggregator.lookups_return Sample.token_of_address Sample.price_one
       Sample.orphan_mint
  /\ EventAggregator.has_orphan Sample.orphan_mint
  /\ _get_balancer_aggregated_events_data Sample.token_of_address Sample.price_one []
       Sample.orphan_mint = Raise RemoteError.
Proof.
  assert (EventAggregator.tokens_known Sample.orphan_mint) as Htok.
  { unfold tokens_known, tokens_in_pool. by_decide. }
  assert (EventAggregator.lookups_return Sample.token_of_address Sample.price_one
            Sample.orphan_mint) as Hret.
  { unfold EventAggregator.lookups_return. by_decide. }
  assert (EventAggregator.has_orphan Sample.orphan_mint) as Horph.
  { unfold has_orphan. by_decide. }
  split; [exact Htok|]. split; [exact Hret|]. split; [exact Horph|].
  exact (proj2 (proj2 (proj2 (aggregation_skips_unmatched_invest_events
                  Sample.token_of_address Sample.price_one [] Sample.orphan_mint)))
           Htok Hret Horph).
Defined.

(** Invest events without any pool-token event: the claim asks for a
    [RemoteError], the aggregation returns no event and no error. *)
Lemma unmatched_invest_events_raise_nothing :
  ~ EventAggregator.has_orphan Sample.invest_only
  /\ Exists (fun x => BalancerEventsData.add_liquidities x.2 ≠ []
                      /\ BalancerEventsData.mints x.2 = []) Sample.invest_only
  /\ _get_balancer_aggregated_events_data Sample.token_of_address Sample.price_one []
       Sample.invest_only = Ok [].
Proof.
  split; [unfold has_orphan; by_decide|]. split; [|by vm_compute].
  apply Exists_cons_hd. by split.
Qed.

Lemma aggregation_pairing_completeness_witness :
  (EventAggregator.tokens_known Sample.paired
   /\ EventAggregator.well_paired Sample.paired
   /\ EventAggregator.lookups_return Sample.token_of_address Sample.price_one
        Sample.paired
   /\ exists evs,
        _get_balancer_aggregated_events_data Sample.token_of_address Sample.price_one []
          Sample.paired = Ok evs
        /\ Forall2 same_identity (bpt_events_in_order Sample.paired) evs)
  /\ (EventAggregator.tokens_known Sample.orphan_mint
      /\ EventAggregator.has_orphan Sample.orphan_mint
      /\ EventAggregator.lookups_return Sample.token_of_address Sample.price_one
           Sample.orphan_mint
      /\ _get_balancer_aggregated_events_data Sample.token_of_address Sample.price_one []
           Sample.orphan_mint = Raise RemoteError).
Proof.
  assert (EventAggregator.tokens_known Sample.paired) as Htok.
  { unfold tokens_known, tokens_in_pool. by_decide. }
  assert (EventAggregator.well_paired Sample.paired) as Hpair.
  { unfold well_paired. by_decide. }
  assert (EventAggregator.lookups_return Sample.token_of_address Sample.price_one
            Sample.paired) as Hret.
  { unfold EventAggregator.lookups_return. by_decide. }
  assert (EventAggregator.tokens_known Sample.orphan_mint) as Htok'.
  { unfold tokens_known, tokens_in_pool. by_decide. }
  assert (EventAggregator.has_orphan Sample.orphan_mint) as Horph.
  { unfold has_orphan. by_decide. }
  assert (EventAggregator.lookups_return Sample.token_of_address Sample.price_one
            Sample.orphan_mint) as Hret'.
  { unfold EventAggregator.lookups_return. by_decide. }
  split.
  - split; [exact Htok|]. split; [exact Hpair|]. split; [exact Hret|].
    exact (proj1 (aggregation_pairing_completeness
                    Sample.token_of_address Sample.price_one [] Sample.paired Htok)
             Hpair Hret).
  - split; [exact Htok'|]. split; [exact Horph|]. split; [exact Hret'|].
    exact (proj1 (proj2 (aggregation_pairing_completeness
                    Sample.token_of_address Sample.price_one [] Sample.orphan_mint
                    Htok')) Horph Hret').
Defined.

(** Every pool-token event has its investment events, yet one of them moves
    a token that is not in the pool: the aggregation stops with [KeyError]
    and produces no event. *)
Lemma paired_with_unknown_token_raises_KeyError :
  EventAggregator.well_paired Sample.unknown_token
  /\ _get_balancer_aggregated_events_data Sample.token_of_address Sample.price_one []
       Sample.unknown_token = Raise KeyError.
Proof. split; [unfold well_paired; by_decide | by vm_compute]. Qed.

Lemma aggregation_price_poisoning_witness :
  let ev := BalancerEvent.mk 1%N 3 "0xA11CE" 100 MINT Sample.pool
              (Balance.mk 100 0) [60; 40] in
  _get_balancer_aggregated_events_data Sample.token_of_address Sample.price_no_eth []
    Sample.paired = Ok [ev]
  /\ Forall2 (poisoned_usd_value Sample.token_of_address Sample.price_no_eth)
       (bpt_events_in_order Sample.paired) [ev].
Proof.
  intros ev.
  assert (_get_balancer_aggregated_events_data Sample.token_of_address
            Sample.price_no_eth [] Sample.paired = Ok [ev]) as Hrun
    by (vm_compute; reflexivity).
  split; [exact Hrun|].
  exact (aggregation_price_poisoning Sample.token_of_address Sample.price_no_eth []
           Sample.paired [ev] Hrun).
Defined.

(** Scenario C of the spec: amounts 60 and 40 at price 1 give 100. *)
Example aggregation_scenario_C :
  _get_balancer_aggregated_events_data Sample.token_of_address Sample.price_one []
    Sample.paired
  = Ok [BalancerEvent.mk 1%N 3 "0xA11CE" 100 MINT Sample.pool
          (Balance.mk 100 100) [60; 40]].
Proof. by vm_compute. Qed.
End EventAggregatorFacts.

(** ** The paginated fetches: de-duplication and order *)

Module GraphFacts.
Import Graph PyDictFacts EventAggregatorFacts.

Lemma fetch_bind_Ok_inv {A B} (m : fetch A) (k : A -> fetch B) b :
  result (m ≫= k) = Ok b ->
  exists a, result m = Ok a /\ result (k a) = Ok b.
Proof.
  unfold mbind, fetch_bind. destruct (result m) as [a| |]; simpl; [|done|done].
  intros H. by exists a.
Qed.

Lemma fetch_bind_log {A B} (m : fetch A) (k : A -> fetch B) :
  log (m ≫= k)
  = match result m with
    | Ok a => log m ++ log (k a)
    | _ => log m
    end.
Proof. unfold mbind, fetch_bind. by destruct (result m). Qed.

Lemma fetch_bind_result {A B} (m : fetch A) (k : A -> fetch B) :
  result (m ≫= k)
  = match result m with
    | Ok a => result (k a)
    | Raise e => Raise e
    | Diverge => Diverge
    end.
Proof. unfold mbind, fetch_bind. by destruct (result m). Qed.

(** *** Sets with a key *)

Section keyed_sets.
Context {A K : Type} `{EqDecision K} (key : A -> K).

Lemma set_add_NoDup s x : NoDup (key <$> s) -> NoDup (key <$> set_add key s x).
Proof.
  intros Hnd. unfold set_add. case_decide as Hex; [done|].
  rewrite fmap_app. apply NoDup_app. split_and!; [done| |apply NoDup_singleton].
  intros k Hk Hk'%list_elem_of_singleton. subst k. apply Hex.
  apply list_elem_of_fmap in Hk as (y & Hy & Hin).
  apply Exists_exists. by exists y.
Qed.

Lemma set_add_present s x :
  Exists (fun y => key y = key x) (set_add key s x).
Proof.
  unfold set_add. case_decide as Hex; [done|].
  apply Exists_app. right. by apply Exists_cons_hd.
Qed.

Lemma set_add_mono s x y : y ∈ s -> y ∈ set_add key s x.
Proof.
  intros Hy. unfold set_add. case_decide; [done|]. apply elem_of_app. by left.
Qed.

Lemma set_add_elem_of s x y : y ∈ set_add key s x -> y ∈ s \/ y = x.
Proof.
  unfold set_add. case_decide; [by left|].
  intros [?|?%list_elem_of_singleton]%elem_of_app; [by left | by right].
Qed.

(** Adding an element whose key is already there changes nothing. *)
Lemma set_add_again s x :
  Exists (fun y => key y = key x) s -> set_add key s x = s.
Proof. intros Hex. unfold set_add. by rewrite decide_True. Qed.
End keyed_sets.

Lemma PyDict_set_same {K V} `{EqDecision K} (d : list (K * V)) k v :
  PyDict.get d k = Some v -> PyDict.set d k v = d.
Proof.
  induction d as [|[k' v'] d IH]; simpl; [done|].
  case_decide; subst.
  - by intros [= ->].
  - intros Hget. by rewrite IH.
Qed.

Lemma getitem_default_present {K V} `{EqDecision K} dflt (d : list (K * V)) k v :
  PyDict.get d k = Some v -> PyDict.getitem_default dflt d k = (v, d).
Proof. intros Hget. unfold PyDict.getitem_default. by rewrite Hget. Qed.

(** *** A page fed into a dictionary of sets *)

Section pages.
Context {Raw E K : Type} `{EqDecision K}.
Variable deserialize : Raw -> option E.
Variable addr : E -> ChecksumEvmAddress.
Variable key : E -> K.
(** The body of the loop over the rows of a page, in the shape shared by
    [add_bpt_event] and [add_invest_event]. *)
Variable add :
  list (ChecksumEvmAddress * list E) * option E -> Raw ->
  outcome (list (ChecksumEvmAddress * list E) * option E).
Hypothesis add_eq : forall st raw,
  add st raw
  = match deserialize raw with
    | None => Raise RemoteError
    | Some e =>
        let '(events, d) := PyDict.getitem_default [] st.1 (addr e) in
        Ok (PyDict.set d (addr e) (set_add key events e), Some e)
    end.

Abbreviation ok := (entry_ok addr key).
Abbreviation cov := (covered addr key).

Lemma Forall_PyDict_set (P : ChecksumEvmAddress * list E -> Prop) d a v :
  Forall P d -> P (a, v) -> Forall P (PyDict.set d a v).
Proof.
  intros Hd Hv. induction d as [|[a' v'] d IH]; simpl.
  - by apply Forall_singleton.
  - apply Forall_cons in Hd as [H1 H2]. case_decide; subst.
    + by apply Forall_cons.
    + apply Forall_cons. split; [done | by apply IH].
Qed.

Lemma entry_ok_get d a events :
  Forall ok d -> PyDict.get d a = Some events -> ok (a, events).
Proof.
  intros Hd Hget. apply get_Some_elem_of in Hget.
  rewrite Forall_forall in Hd. by apply Hd.
Qed.

Lemma add_inv st raw st' :
  add st raw = Ok st' ->
  exists e, deserialize raw = Some e
    /\ st'.2 = Some e
    /\ st'.1 = PyDict.set st.1 (addr e)
                 (set_add key (PyDict.get_or [] st.1 (addr e)) e).
Proof.
  rewrite add_eq. destruct (deserialize raw) as [e|]; [|done].
  unfold PyDict.getitem_default, PyDict.get_or.
  destruct (PyDict.get st.1 (addr e)) as [events|] eqn:Hget; simpl.
  - intros [= <-]. exists e. by rewrite Hget.
  - intros [= <-]. exists e. rewrite Hget. split; [done|]. split; [done|]. simpl.
    clear. induction st.1 as [|[a v] d IH]; simpl.
    + by rewrite decide_True.
    + case_decide; simpl; [by rewrite decide_True|].
      rewrite decide_False by done. by rewrite IH.
Qed.

Lemma add_ok st raw st' :
  Forall ok st.1 -> add st raw = Ok st' -> Forall ok st'.1.
Proof.
  intros Hok (e & _ & _ & ->)%add_inv.
  apply Forall_PyDict_set; [done|]. split; simpl.
  - apply set_add_NoDup. unfold PyDict.get_or.
    destruct (PyDict.get st.1 (addr e)) eqn:Hget; simpl; [|apply NoDup_nil_2].
    by destruct (entry_ok_get _ _ _ Hok Hget).
  - apply Forall_forall. intros y [Hy| ->]%set_add_elem_of; [|done].
    unfold PyDict.get_or in Hy.
    destruct (PyDict.get st.1 (addr e)) eqn:Hget; simpl in Hy;
      [|by apply elem_of_nil in Hy].
    destruct (entry_ok_get _ _ _ Hok Hget) as [_ Hall]. simpl in Hall.
    rewrite Forall_forall in Hall. by apply Hall.
Qed.

Lemma add_covers st raw st' :
  add st raw = Ok st' ->
  exists e, deserialize raw = Some e /\ cov st'.1 e.
Proof.
  intros (e & He & _ & ->)%add_inv. exists e. split; [done|].
  eexists. split; [apply get_set_eq | apply set_add_present].
Qed.

Lemma add_keeps_covered st raw st' x :
  add st raw = Ok st' -> cov st.1 x -> cov st'.1 x.
Proof.
  intros (e & _ & _ & ->)%add_inv (events & Hget & Hex).
  unfold covered. rewrite get_set. case_decide as Heq; [|by exists events].
  eexists. split; [done|]. unfold PyDict.get_or. rewrite Heq, Hget. simpl.
  apply Exists_exists in Hex as (y & Hy & Hk).
  apply Exists_exists. exists y. split; [by apply set_add_mono | done].
Qed.

Lemma add_covered_again st raw e :
  deserialize raw = Some e -> cov st.1 e -> add st raw = Ok (st.1, Some e).
Proof.
  intros He (events & Hget & Hex). rewrite add_eq, He.
  rewrite (getitem_default_present _ _ _ _ Hget).
  rewrite set_add_again by done. by rewrite PyDict_set_same.
Qed.

(** The rows of a page, deserialized. *)
Lemma page_inv page : forall st st',
  for_each add page st = Ok st' ->
  (Forall ok st.1 -> Forall ok st'.1)
  /\ (forall x, cov st.1 x -> cov st'.1 x)
  /\ Forall (fun raw => exists e, deserialize raw = Some e /\ cov st'.1 e) page
  /\ st'.2 = match last page with
             | Some raw => deserialize raw
             | None => st.2
             end.
Proof.
  induction page as [|raw page IH]; intros st st' Hrun.
  - inversion Hrun; subst. by split_and!.
  - apply for_each_Ok_inv in Hrun as (st1 & Hstep & Hrun).
    destruct (IH _ _ Hrun) as (Hok & Hmono & Hcov & Hlast). split_and!.
    + intros H0. apply Hok. by eapply add_ok.
    + intros x Hx. apply Hmono. by eapply add_keeps_covered.
    + apply Forall_cons. split; [|done].
      destruct (add_covers _ _ _ Hstep) as (e & He & Hc).
      exists e. split; [done | by apply Hmono].
    + rewrite Hlast. destruct page as [|raw' page]; simpl.
      * by destruct (add_inv _ _ _ Hstep) as (e & -> & -> & _).
      * destruct (last (raw' :: page)) eqn:Hl; [done|].
        by apply last_None in Hl.
Qed.

(** Feeding a page a second time changes nothing. *)
Lemma page_idempotent page st st' :
  for_each add page st = Ok st' -> for_each add page st' = Ok st'.
Proof.
  intros Hrun. destruct (page_inv _ _ _ Hrun) as (_ & _ & Hcov & Hlast).
  assert (forall l prev,
    Forall (fun raw => exists e, deserialize raw = Some e /\ cov st'.1 e) l ->
    for_each add l (st'.1, prev)
    = Ok (st'.1, match last l with Some raw => deserialize raw | None => prev end))
    as Hgen.
  { induction l as [|raw l IH]; intros prev Hall; [done|].
    apply Forall_cons in Hall as [(e & He & Hc) Hall].
    rewrite for_each_cons, (add_covered_again (st'.1, prev) raw e He Hc). simpl.
    rewrite IH by done. rewrite last_cons.
    destruct (last l); [done | by rewrite He]. }
  destruct st' as [d prev]. simpl in *. rewrite (Hgen page prev Hcov).
  rewrite Hlast. by destruct (last page).
Qed.
End pages.

(** *** The loops *)

Section loops.
Variable Raw : Type.
Variable GRAPH_QUERY_LIMIT : nat.
Variable GRAPH_QUERY_SKIP_LIMIT : nat.
Variable graph_events_bpt : BalancerBPTEventType -> bpt_params.t -> response Raw.
Variable graph_events_invest :
  BalancerInvestEventType -> invest_params.t -> response Raw.
Variable deserialize_bpt_event :
  Raw -> BalancerBPTEventType -> option BalancerBPTEvent.t.
Variable deserialize_invest_event :
  Raw -> BalancerInvestEventType -> option BalancerInvestEvent.t.
Variable getitem_id : Raw -> option Raw.
Variable deserialize_transaction_id : Raw -> option (EVMTxHash * Z).
Context {KB KI : Type} `{EqDecision KB} `{EqDecision KI}.
Variable bpt_key : BalancerBPTEvent.t -> KB.
Variable invest_key : BalancerInvestEvent.t -> KI.
Variable lower : ChecksumEvmAddress -> ChecksumEvmAddress.

Abbreviation L := GRAPH_QUERY_LIMIT.
Abbreviation S_ := GRAPH_QUERY_SKIP_LIMIT.
Abbreviation add_bpt := (add_bpt_event Raw deserialize_bpt_event bpt_key).
Abbreviation add_invest :=
  (add_invest_event Raw deserialize_invest_event invest_key).
Abbreviation bloop :=
  (bpt_loop Raw L S_ graph_events_bpt deserialize_bpt_event bpt_key).
Abbreviation bnext := (bpt_next L S_).
Abbreviation bfetch :=
  (_get_address_to_bpt_events_graph Raw L S_ graph_events_bpt
     deserialize_bpt_event bpt_key lower).
Abbreviation iloop :=
  (invest_loop Raw L S_ graph_events_bpt graph_events_invest
     deserialize_bpt_event deserialize_invest_event getitem_id deserialize_transaction_id
     bpt_key invest_key lower).
Abbreviation inext := (invest_next L S_).
Abbreviation ifetch :=
  (_get_address_to_invest_events_graph Raw L S_ graph_events_bpt
     graph_events_invest deserialize_bpt_event deserialize_invest_event
     getitem_id deserialize_transaction_id bpt_key invest_key lower).
Abbreviation txs_of := (transactions_of Raw getitem_id deserialize_transaction_id).

(** One turn of the loop of [_get_address_to_bpt_events_graph]. *)
Lemma bpt_loop_result fuel ty pv acc last :
  result (bloop (S fuel) ty pv acc last)
  = match graph_events_bpt ty pv with
    | QueryFailed | MissingKey => Raise RemoteError
    | Rows rows =>
        match for_each (add_bpt ty) rows (acc, last) with
        | Ok st =>
            if decide (length rows < L)%nat then Ok st.1
            else match bnext pv st.2 with
                 | Ok pv' => result (bloop fuel ty pv' st.1 st.2)
                 | Raise e => Raise e
                 | Diverge => Diverge
                 end
        | Raise e => Raise e
        | Diverge => Diverge
        end
    end.
Proof.
  simpl. unfold query_bpt.
  destruct (graph_events_bpt ty pv) as [| |rows]; try done. simpl.
  rewrite !fetch_bind_result. simpl.
  destruct (for_each _ rows _) as [st| |]; simpl; try done.
  case_decide; [done|]. rewrite fetch_bind_result. simpl.
  by destruct (bpt_next _ _ _ _).
Qed.

Lemma bpt_loop_log fuel ty pv acc last :
  log (bloop (S fuel) ty pv acc last)
  = QueryBPT ty pv ::
    match graph_events_bpt ty pv with
    | QueryFailed => [AddError SUBGRAPH_REMOTE_ERROR_MSG]
    | MissingKey => []
    | Rows rows =>
        match for_each (add_bpt ty) rows (acc, last) with
        | Ok st =>
            if decide (length rows < L)%nat then []
            else match bnext pv st.2 with
                 | Ok pv' => log (bloop fuel ty pv' st.1 st.2)
                 | _ => []
                 end
        | _ => []
        end
    end.
Proof.
  simpl. unfold query_bpt.
  destruct (graph_events_bpt ty pv) as [| |rows]; try done. simpl.
  rewrite !fetch_bind_log. simpl.
  destruct (for_each _ rows _) as [st| |]; simpl; try done.
  case_decide; [done|]. rewrite fetch_bind_log. simpl.
  by destruct (bpt_next _ _ _ _).
Qed.

Abbreviation bpt_ok := (entry_ok BalancerBPTEvent.address bpt_key).
Abbreviation bpt_cov := (covered BalancerBPTEvent.address bpt_key).
Abbreviation invest_ok := (entry_ok BalancerInvestEvent.address invest_key).
Abbreviation invest_cov := (covered BalancerInvestEvent.address invest_key).

Lemma add_bpt_eq ty st raw :
  add_bpt ty st raw
  = match deserialize_bpt_event raw ty with
    | None => Raise RemoteError
    | Some e =>
        let '(events, d) :=
          PyDict.getitem_default [] st.1 (BalancerBPTEvent.address e) in
        Ok (PyDict.set d (BalancerBPTEvent.address e) (set_add bpt_key events e),
            Some e)
    end.
Proof. done. Qed.

Lemma add_invest_eq ty st raw :
  add_invest ty st raw
  = match deserialize_invest_event raw ty with
    | None => Raise RemoteError
    | Some e =>
        let '(events, d) :=
          PyDict.getitem_default [] st.1 (BalancerInvestEvent.address e) in
        Ok (PyDict.set d (BalancerInvestEvent.address e)
              (set_add invest_key events e),
            Some e)
    end.
Proof. done. Qed.

(** Every row of every page the loop asked for ends up in the dictionary,
    whose sets stay free of duplicates. *)
Lemma bpt_loop_inv fuel : forall ty pv acc last out,
  result (bloop fuel ty pv acc last) = Ok out ->
  (Forall bpt_ok acc -> Forall bpt_ok out)
  /\ (forall x, bpt_cov acc x -> bpt_cov out x)
  /\ (forall pv' rows raw,
        QueryBPT ty pv' ∈ log (bloop fuel ty pv acc last) ->
        graph_events_bpt ty pv' = Rows rows -> raw ∈ rows ->
        exists e, deserialize_bpt_event raw ty = Some e /\ bpt_cov out e).
Proof.
  induction fuel as [|fuel IH]; intros ty pv acc last out; [done|].
  rewrite bpt_loop_result, bpt_loop_log.
  destruct (graph_events_bpt ty pv) as [| |rows] eqn:Hq; try done.
  destruct (for_each _ rows _) as [st| |] eqn:Hpage; try done.
  destruct (page_inv (fun raw => deserialize_bpt_event raw ty)
              BalancerBPTEvent.address bpt_key (add_bpt ty) (add_bpt_eq ty)
              rows _ _ Hpage) as (Hok & Hmono & Hcov & _).
  simpl in Hok, Hmono.
  case_decide as Hshort.
  - intros [= <-]. split_and!; [done | done |].
    intros pv' rows' raw Hin Hq' Hraw.
    apply list_elem_of_singleton in Hin. inversion Hin; subst pv'.
    rewrite Hq in Hq'. inversion Hq'; subst rows'.
    rewrite Forall_forall in Hcov. by apply Hcov.
  - destruct (bpt_next _ _ _ _) as [pv1| |] eqn:Hnext; try done.
    intros Hrun. destruct (IH _ _ _ _ _ Hrun) as (Hok' & Hmono' & Hcov').
    split_and!.
    + intros H0. by apply Hok', Hok.
    + intros x Hx. by apply Hmono', Hmono.
    + intros pv' rows' raw [Hin|Hin]%elem_of_cons Hq' Hraw.
      * inversion Hin; subst pv'. rewrite Hq in Hq'. inversion Hq'; subst rows'.
        rewrite Forall_forall in Hcov.
        destruct (Hcov raw Hraw) as (e & He & Hc). exists e. split; [done|].
        by apply Hmono'.
      * by eapply Hcov'.
Qed.

(** *** Sorting the sets *)

Lemma sorted_entries_get {E} (R : E -> E -> Prop) `{!RelDecision R}
    (d : list (ChecksumEvmAddress * list E)) a :
  PyDict.get (prod_map id (merge_sort R) <$> d) a = merge_sort R <$> PyDict.get d a.
Proof.
  induction d as [|[a' v] d IH]; simpl; [done|].
  case_decide; [done | apply IH].
Qed.

Lemma sorted_entries_ok {E K} (addr : E -> ChecksumEvmAddress) (key : E -> K)
    (R : E -> E -> Prop) `{!RelDecision R} `{!Total R}
    (d : list (ChecksumEvmAddress * list E)) :
  Forall (entry_ok addr key) d ->
  Forall (fun entry => entry_ok addr key entry /\ Sorted R entry.2)
    (prod_map id (merge_sort R) <$> d).
Proof.
  intros Hd. apply Forall_fmap. eapply Forall_impl; [exact Hd|].
  intros [a evs] [Hnd Hall]. simpl in *. split; [split|]; simpl.
  - by rewrite merge_sort_Permutation.
  - by rewrite merge_sort_Permutation.
  - by apply Sorted_merge_sort.
Qed.

Lemma sorted_entries_covered {E K} (addr : E -> ChecksumEvmAddress) (key : E -> K)
    (R : E -> E -> Prop) `{!RelDecision R}
    (d : list (ChecksumEvmAddress * list E)) e :
  covered addr key d e -> covered addr key (prod_map id (merge_sort R) <$> d) e.
Proof.
  intros (evs & Hget & Hex). exists (merge_sort R evs). split.
  - by rewrite sorted_entries_get, Hget.
  - apply Exists_exists in Hex as (y & Hy & Hk). apply Exists_exists.
    exists y. split; [|done]. by rewrite merge_sort_Permutation.
Qed.
(** One turn of the loop of [_get_address_to_invest_events_graph]. *)
Lemma invest_loop_result fuel fuel_bpt ty addresses pv acc last :
  result (iloop (S fuel) fuel_bpt ty addresses pv acc last)
  = match graph_events_invest ty pv with
    | QueryFailed | MissingKey => Raise RemoteError
    | Rows rows =>
        match txs_of rows with
        | Ok txs =>
            match result (bfetch fuel_bpt addresses txs (mint_or_burn_type ty)) with
            | Ok mints =>
                match for_each (add_invest ty) rows (acc, last) with
                | Ok st =>
                    if decide (length rows < L)%nat then Ok (st.1, mints)
                    else match inext pv st.2 with
                         | Ok pv' =>
                             result (iloop fuel fuel_bpt ty addresses pv' st.1 st.2)
                         | Raise e => Raise e
                         | Diverge => Diverge
                         end
                | Raise e => Raise e
                | Diverge => Diverge
                end
            | Raise e => Raise e
            | Diverge => Diverge
            end
        | Raise e => Raise e
        | Diverge => Diverge
        end
    end.
Proof.
  simpl. unfold query_invest.
  destruct (graph_events_invest ty pv) as [| |rows]; try done. simpl.
  rewrite !fetch_bind_result. simpl.
  destruct (transactions_of _ _ _ rows) as [txs| |]; simpl; try done.
  rewrite !fetch_bind_result.
  destruct (result (_get_address_to_bpt_events_graph _ _ _ _ _ _ _ _ _ _ _))
    as [mints| |]; simpl; try done.
  rewrite !fetch_bind_result. simpl.
  destruct (for_each _ rows _) as [st| |]; simpl; try done.
  case_decide; [done|]. rewrite fetch_bind_result. simpl.
  by destruct (invest_next _ _ _ _).
Qed.

Lemma invest_loop_log fuel fuel_bpt ty addresses pv acc last :
  log (iloop (S fuel) fuel_bpt ty addresses pv acc last)
  = QueryInvest ty pv ::
    match graph_events_invest ty pv with
    | QueryFailed => [AddError SUBGRAPH_REMOTE_ERROR_MSG]
    | MissingKey => []
    | Rows rows =>
        match txs_of rows with
        | Ok txs =>
            log (bfetch fuel_bpt addresses txs (mint_or_burn_type ty)) ++
            match result (bfetch fuel_bpt addresses txs (mint_or_burn_type ty)) with
            | Ok mints =>
                match for_each (add_invest ty) rows (acc, last) with
                | Ok st =>
                    if decide (length rows < L)%nat then []
                    else match inext pv st.2 with
                         | Ok pv' =>
                             log (iloop fuel fuel_bpt ty addresses pv' st.1 st.2)
                         | _ => []
                         end
                | _ => []
                end
            | _ => []
            end
        | _ => []
        end
    end.
Proof.
  simpl. unfold query_invest.
  destruct (graph_events_invest ty pv) as [| |rows]; try done. simpl.
  rewrite !fetch_bind_log. simpl.
  destruct (transactions_of _ _ _ rows) as [txs| |]; simpl; try done.
  rewrite !fetch_bind_log, ?fetch_bind_result.
  destruct (result (_get_address_to_bpt_events_graph _ _ _ _ _ _ _ _ _ _ _))
    as [mints| |]; simpl; rewrite ?app_nil_r; try done.
  rewrite !fetch_bind_log. simpl.
  destruct (for_each _ rows _) as [st| |]; simpl; rewrite ?app_nil_r; try done.
  case_decide; [by rewrite ?app_nil_r|]. rewrite fetch_bind_log. simpl.
  by destruct (invest_next _ _ _ _); rewrite ?app_nil_r.
Qed.

(** The nested fetch of BPT events sends no invest query. *)
Lemma bpt_loop_log_no_invest fuel : forall ty pv acc last ity ipv,
  QueryInvest ity ipv ∉ log (bloop fuel ty pv acc last).
Proof.
  induction fuel as [|fuel IH]; intros ty pv acc last ity ipv.
  - simpl. apply not_elem_of_nil.
  - rewrite bpt_loop_log. apply not_elem_of_cons. split; [done|].
    destruct (graph_events_bpt ty pv) as [| |rows].
    + apply not_elem_of_cons. split; [done | apply not_elem_of_nil].
    + apply not_elem_of_nil.
    + destruct (for_each _ rows _) as [st| |]; try apply not_elem_of_nil.
      case_decide; [apply not_elem_of_nil|].
      destruct (bpt_next _ _ _ _); try apply not_elem_of_nil. apply IH.
Qed.

Lemma bpt_fetch_log fuel addresses txs ty :
  log (bfetch fuel addresses txs ty)
  = log (bloop fuel ty
           (bpt_params.mk L 0 IdZero (lower <$> addresses) txs) [] None).
Proof.
  unfold _get_address_to_bpt_events_graph. rewrite fetch_bind_log.
  destruct (result _); simpl; by rewrite ?app_nil_r.
Qed.

Lemma bpt_fetch_result fuel addresses txs ty :
  result (bfetch fuel addresses txs ty)
  = match result (bloop fuel ty
                    (bpt_params.mk L 0 IdZero (lower <$> addresses) txs) [] None) with
    | Ok d => Ok (sorted_bpt_events d)
    | Raise e => Raise e
    | Diverge => Diverge
    end.
Proof.
  unfold _get_address_to_bpt_events_graph. rewrite fetch_bind_result.
  by destruct (result _).
Qed.

Lemma invest_loop_inv fuel fuel_bpt addresses : forall ty pv acc last out,
  result (iloop fuel fuel_bpt ty addresses pv acc last) = Ok out ->
  (Forall invest_ok acc -> Forall invest_ok out.1)
  /\ (forall x, invest_cov acc x -> invest_cov out.1 x)
  /\ (forall pv' rows raw,
        QueryInvest ty pv' ∈ log (iloop fuel fuel_bpt ty addresses pv acc last) ->
        graph_events_invest ty pv' = Rows rows -> raw ∈ rows ->
        exists e, deserialize_invest_event raw ty = Some e /\ invest_cov out.1 e).
Proof.
  induction fuel as [|fuel IH]; intros ty pv acc last out; [done|].
  rewrite invest_loop_result, invest_loop_log.
  destruct (graph_events_invest ty pv) as [| |rows] eqn:Hq; try done.
  destruct (txs_of rows) as [txs| |]; try done.
  destruct (result (bfetch _ _ _ _)) as [mints| |]; try done.
  destruct (for_each _ rows _) as [st| |] eqn:Hpage; try done.
  destruct (page_inv (fun raw => deserialize_invest_event raw ty)
              BalancerInvestEvent.address invest_key (add_invest ty)
              (add_invest_eq ty) rows _ _ Hpage) as (Hok & Hmono & Hcov & _).
  simpl in Hok, Hmono.
  assert (forall pv', QueryInvest ty pv'
            ∉ log (bfetch fuel_bpt addresses txs (mint_or_burn_type ty))) as Hnested.
  { intros pv'. rewrite bpt_fetch_log. apply bpt_loop_log_no_invest. }
  case_decide as Hshort.
  - intros [= <-]. simpl. split_and!; [done | done |].
    intros pv' rows' raw Hin Hq' Hraw. rewrite app_nil_r in Hin.
    apply elem_of_cons in Hin as [Hin|Hin]; [|by apply Hnested in Hin].
    inversion Hin; subst pv'. rewrite Hq in Hq'. inversion Hq'; subst rows'.
    rewrite Forall_forall in Hcov. by apply Hcov.
  - destruct (invest_next _ _ _ _) as [pv1| |] eqn:Hnext; try done.
    intros Hrun. destruct (IH _ _ _ _ _ Hrun) as (Hok' & Hmono' & Hcov').
    split_and!.
    + intros H0. by apply Hok', Hok.
    + intros x Hx. by apply Hmono', Hmono.
    + intros pv' rows' raw Hin Hq' Hraw.
      apply elem_of_cons in Hin as [Hin|Hin].
      * inversion Hin; subst pv'. rewrite Hq in Hq'. inversion Hq'; subst rows'.
        rewrite Forall_forall in Hcov.
        destruct (Hcov raw Hraw) as (e & He & Hc). exists e. split; [done|].
        by apply Hmono'.
      * apply elem_of_app in Hin as [Hin|Hin]; [by apply Hnested in Hin|].
        by eapply Hcov'.
Qed.

Lemma invest_fetch_log fuel fuel_bpt addresses ty start_ts end_ts :
  log (ifetch fuel fuel_bpt addresses ty start_ts end_ts)
  = log (iloop fuel fuel_bpt ty addresses
           (invest_params.mk L 0 (lower <$> addresses) start_ts end_ts) [] None).
Proof.
  unfold _get_address_to_invest_events_graph. rewrite fetch_bind_log.
  destruct (result _); simpl; by rewrite ?app_nil_r.
Qed.

Lemma invest_fetch_result fuel fuel_bpt addresses ty start_ts end_ts :
  result (ifetch fuel fuel_bpt addresses ty start_ts end_ts)
  = match result (iloop fuel fuel_bpt ty addresses
                    (invest_params.mk L 0 (lower <$> addresses) start_ts end_ts)
                    [] None) with
    | Ok r => Ok (sorted_invest_events r.1, r.2)
    | Raise e => Raise e
    | Diverge => Diverge
    end.
Proof.
  unfold _get_address_to_invest_events_graph. rewrite fetch_bind_result.
  by destruct (result _).
Qed.
(** C7.  In the output of a fetch of pool-token events, and in the
    investment events of a fetch of investment events, the events of every
    address are pairwise different in their uniqueness key and sorted by
    (transaction, log index), and every row of every page the fetch asked
    for is there, under its address, by its key: a row returned on several
    pages appears exactly once.  Feeding a page a second time into the
    dictionary of sets changes nothing. *)
Theorem fetched_events_deduplicated_and_sorted
    fuel fuel_bpt addresses txs bty ity start_ts end_ts :
  (forall out,
     result (bfetch fuel addresses txs bty) = Ok out ->
     Forall (fun entry => bpt_ok entry /\ Sorted bpt_le entry.2) out
     /\ forall pv rows raw,
          QueryBPT bty pv ∈ log (bfetch fuel addresses txs bty) ->
          graph_events_bpt bty pv = Rows rows -> raw ∈ rows ->
          exists e, deserialize_bpt_event raw bty = Some e /\ bpt_cov out e)
  /\ (forall out,
        result (ifetch fuel fuel_bpt addresses ity start_ts end_ts) = Ok out ->
        Forall (fun entry => invest_ok entry /\ Sorted invest_le entry.2) out.1
        /\ forall pv rows raw,
             QueryInvest ity pv
               ∈ log (ifetch fuel fuel_bpt addresses ity start_ts end_ts) ->
             graph_events_invest ity pv = Rows rows -> raw ∈ rows ->
             exists e, deserialize_invest_event raw ity = Some e
                       /\ invest_cov out.1 e)
  /\ (forall page st st',
        for_each (add_bpt bty) page st = Ok st' ->
        for_each (add_bpt bty) page st' = Ok st')
  /\ (forall page st st',
        for_each (add_invest ity) page st = Ok st' ->
        for_each (add_invest ity) page st' = Ok st').
Proof.
  split_and!.
  - intros out. rewrite bpt_fetch_result, bpt_fetch_log.
    destruct (result (bloop _ _ _ _ _)) as [d| |] eqn:Hrun; try done.
    intros [= <-]. destruct (bpt_loop_inv _ _ _ _ _ _ Hrun) as (Hok & _ & Hcov).
    split.
    + apply sorted_entries_ok; [apply _|]. apply Hok, Forall_nil_2.
    + intros pv rows raw Hin Hq Hraw.
      destruct (Hcov pv rows raw Hin Hq Hraw) as (e & He & Hc).
      exists e. split; [done|]. by apply sorted_entries_covered.
  - intros out. rewrite invest_fetch_result, invest_fetch_log.
    destruct (result (iloop _ _ _ _ _ _ _)) as [r| |] eqn:Hrun; try done.
    intros [= <-].
    destruct (invest_loop_inv _ _ _ _ _ _ _ _ Hrun) as (Hok & _ & Hcov).
    split; simpl.
    + apply sorted_entries_ok; [apply _|]. apply Hok, Forall_nil_2.
    + intros pv rows raw Hin Hq Hraw.
      destruct (Hcov pv rows raw Hin Hq Hraw) as (e & He & Hc).
      exists e. split; [done|]. by apply sorted_entries_covered.
  - intros page st st'.
    apply (page_idempotent (fun raw => deserialize_bpt_event raw bty)
             BalancerBPTEvent.address bpt_key (add_bpt bty) (add_bpt_eq bty)).
  - intros page st st'.
    apply (page_idempotent (fun raw => deserialize_invest_event raw ity)
             BalancerInvestEvent.address invest_key (add_invest ity)
             (add_invest_eq ity)).
Qed.
End loops.

Lemma fetched_events_deduplicated_and_sorted_witness :
  let run := Sample.fetch_invest Sample.graph_events_bpt ["0xA11CE"]
               ADD_LIQUIDITY 0 1000 in
  let out := ([("0xA11CE", [Sample.add_dai; Sample.add_eth; Sample.add_later])],
              [("0xA11CE", [Sample.mint_later])]) in
  result run = Ok out
  /\ Forall (fun entry =>
               entry_ok BalancerInvestEvent.address Sample.invest_key entry
               /\ Sorted invest_le entry.2) out.1
  /\ for_each (add_bpt_event nat Sample.deserialize_bpt_event Sample.bpt_key MINT)
       [10%nat; 11%nat] ([("0xA11CE", [Sample.mint; Sample.mint_later])],
                         Some Sample.mint_later)
     = Ok ([("0xA11CE", [Sample.mint; Sample.mint_later])], Some Sample.mint_later).
Proof.
  intros run out.
  assert (result run = Ok out) as Hrun by (vm_compute; reflexivity).
  pose proof (fetched_events_deduplicated_and_sorted nat 2 2
    Sample.graph_events_bpt Sample.graph_events_invest
    Sample.deserialize_bpt_event Sample.deserialize_invest_event

    Sample.getitem_id Sample.deserialize_transaction_id Sample.bpt_key Sample.invest_key id
    5 5 ["0xA11CE"] [] MINT ADD_LIQUIDITY 0 1000) as (_ & Hinv & Hpage & _).
  split; [exact Hrun|]. split.
  - exact (proj1 (Hinv out Hrun)).
  - apply (Hpage [10%nat; 11%nat] ([], None)). vm_compute. reflexivity.
Defined.



(** *** The paging rule *)

Section paging.
Variable Raw : Type.
Variable GRAPH_QUERY_LIMIT : nat.
Variable GRAPH_QUERY_SKIP_LIMIT : nat.
Variable graph_events_bpt : BalancerBPTEventType -> bpt_params.t -> response Raw.
Variable deserialize_bpt_event :
  Raw -> BalancerBPTEventType -> option BalancerBPTEvent.t.
Context {KB : Type} `{EqDecision KB}.
Variable bpt_key : BalancerBPTEvent.t -> KB.

Abbreviation L := GRAPH_QUERY_LIMIT.
Abbreviation S_ := GRAPH_QUERY_SKIP_LIMIT.
Abbreviation add_bpt := (add_bpt_event Raw deserialize_bpt_event bpt_key).
Abbreviation bloop :=
  (bpt_loop Raw L S_ graph_events_bpt deserialize_bpt_event bpt_key).
Abbreviation turn := (bpt_turn Raw L S_ graph_events_bpt deserialize_bpt_event).

Lemma bpt_next_turn ty pv rows acc last st pv' :
  graph_events_bpt ty pv = Rows rows ->
  for_each (add_bpt ty) rows (acc, last) = Ok st ->
  ¬ (length rows < L)%nat ->
  bpt_next L S_ pv st.2 = Ok pv' ->
  turn ty pv pv'.
Proof.
  intros Hq Hpage Hfull Hnext. exists rows. split; [done|]. split; [lia|].
  destruct (page_inv (fun raw => deserialize_bpt_event raw ty)
              BalancerBPTEvent.address bpt_key (add_bpt ty)
              (fun st raw => eq_refl) rows _ _ Hpage) as (_ & _ & _ & Hlast).
  unfold bpt_next in Hnext. case_decide as Hoff.
  - destruct st.2 as [e|] eqn:He; [|done]. inversion Hnext; subst pv'. simpl.
    split; [done|]. intros _. split; [done|]. intros raw Hraw.
    rewrite Hraw in Hlast. exists e. by split.
  - inversion Hnext; subst pv'. simpl. by split.
Qed.

(** X11.  The queries of a fetch of pool-token events start at the given
    parameters; each next one follows the paging rule; a short page is the
    last one. *)
Lemma bpt_requests_follow_the_paging_rule fuel : forall ty pv acc last,
  let qs := bpt_queries (log (bloop fuel ty pv acc last)) in
  (forall p, head qs = Some p -> p = pv)
  /\ (forall i p q, qs !! i = Some p -> qs !! S i = Some q -> turn ty p q)
  /\ (forall i p rows,
        qs !! i = Some p -> graph_events_bpt ty p = Rows rows ->
        (length rows < L)%nat -> qs !! S i = None).
Proof.
  induction fuel as [|fuel IH]; intros ty pv acc last; [done|].
  rewrite bpt_loop_log. cbn [bpt_queries omap list_omap].
  change (list_omap ?f ?l) with (omap f l).
  destruct (graph_events_bpt ty pv) as [| |rows] eqn:Hq;
    [split_and!; [by intros p [= <-] | by intros [|[|i]] | by intros [|[|i]]]
    |split_and!; [by intros p [= <-] | by intros [|[|i]] | by intros [|[|i]]]|].
  destruct (for_each _ rows _) as [st| |] eqn:Hpage;
    [|split_and!; [by intros p [= <-] | by intros [|[|i]] | by intros [|[|i]]]
     |split_and!; [by intros p [= <-] | by intros [|[|i]] | by intros [|[|i]]]].
  case_decide as Hshort;
    [split_and!; [by intros p [= <-] | by intros [|[|i]] | by intros [|[|i]]]|].
  destruct (bpt_next _ _ _ _) as [pv'| |] eqn:Hnext;
    [|split_and!; [by intros p [= <-] | by intros [|[|i]] | by intros [|[|i]]]
     |split_and!; [by intros p [= <-] | by intros [|[|i]] | by intros [|[|i]]]].
  destruct (IH ty pv' st.1 st.2) as (Hhead & Hturn & Hend).
  fold (bpt_queries (log (bloop fuel ty pv' st.1 st.2))) in *.
  split_and!.
  - by intros p [= <-].
  - intros [|i] p q Hp Hq'; simpl in Hp, Hq'.
    + inversion Hp; subst p.
      assert (q = pv') as ->.
      { apply Hhead. by destruct (bpt_queries _). }
      by eapply bpt_next_turn.
    + by eapply Hturn.
  - intros [|i] p rows' Hp Hq' Hlen; simpl in Hp.
    + inversion Hp; subst p. rewrite Hq in Hq'. inversion Hq'; subst rows'. done.
    + simpl. by eapply Hend.
Qed.
End paging.

(** *** The fetch of the pool shares *)

Section pool_shares.
Variable Raw : Type.
Variable GRAPH_QUERY_LIMIT : nat.
Variable graph_pool_shares : pool_share_params.t -> response Raw.
Variable deserialize_pool_share :
  Raw -> option (ChecksumEvmAddress * BalancerPoolBalance.t).
Variable has_oracle : EvmToken.t -> bool.
Variable token_of_address : ChecksumEvmAddress -> EvmToken.t.

Abbreviation ploop :=
  (Prices.pool_shares_loop Raw GRAPH_QUERY_LIMIT graph_pool_shares
     deserialize_pool_share has_oracle token_of_address).

Lemma pool_shares_loop_log fuel pv pb :
  log (ploop (S fuel) pv pb)
  = QueryPoolShares pv ::
    match graph_pool_shares pv with
    | QueryFailed => [AddError SUBGRAPH_REMOTE_ERROR_MSG]
    | MissingKey => []
    | Rows rows =>
        match for_each (Prices.add_pool_share Raw deserialize_pool_share
                          has_oracle token_of_address) rows pb with
        | Ok pb' =>
            if decide (length rows < GRAPH_QUERY_LIMIT)%nat then []
            else log (ploop fuel
                        (pool_share_params.mk (pool_share_params.limit pv)
                           (pool_share_params.offset pv + GRAPH_QUERY_LIMIT)
                           (pool_share_params.addresses pv)
                           (pool_share_params.balance pv)) pb')
        | _ => []
        end
    end.
Proof.
  simpl. unfold Prices.query_pool_shares.
  destruct (graph_pool_shares pv) as [| |rows]; try done. simpl.
  rewrite !fetch_bind_log. simpl.
  destruct (for_each _ rows _) as [pb'| |]; simpl; try done.
  by case_decide.
Qed.

(** X12.  The queries of the fetch of the pool shares never go back to
    offset 0 and never change anything but the offset: whatever the skip
    limit is, each next query asks for the offset of the one before plus the
    page size. *)
Lemma pool_share_offsets_only_grow fuel : forall pv pb,
  let qs := pool_share_queries (log (ploop fuel pv pb)) in
  (forall p, head qs = Some p -> p = pv)
  /\ forall i p q, qs !! i = Some p -> qs !! S i = Some q ->
       pool_share_params.offset q
       = (pool_share_params.offset p + GRAPH_QUERY_LIMIT)%nat.
Proof.
  induction fuel as [|fuel IH]; intros pv pb; [done|].
  rewrite pool_shares_loop_log. cbn [pool_share_queries omap list_omap].
  change (list_omap ?f ?l) with (omap f l).
  destruct (graph_pool_shares pv) as [| |rows] eqn:Hq;
    [split; [by intros p [= <-] | by intros [|[|i]]]
    |split; [by intros p [= <-] | by intros [|[|i]]]|].
  destruct (for_each _ rows _) as [pb'| |];
    [|split; [by intros p [= <-] | by intros [|[|i]]]
     |split; [by intros p [= <-] | by intros [|[|i]]]].
  case_decide; [split; [by intros p [= <-] | by intros [|[|i]]]|].
  set (pv' := pool_share_params.mk _ _ _ _).
  destruct (IH pv' pb') as (Hhead & Hgrow).
  fold (pool_share_queries (log (ploop fuel pv' pb'))) in *.
  split; [by intros p [= <-]|].
  intros [|i] p q Hp Hq'; simpl in Hp, Hq'.
  - inversion Hp; subst p.
    assert (q = pv') as -> by (apply Hhead; by destruct (pool_share_queries _)).
    done.
  - by eapply Hgrow.
Qed.
End pool_shares.

(** C6.  On a list of 6500 pool shares, with pages of 1000 rows and a skip
    limit of 5000, [_get_protocol_balance_graph] asks for the offsets 0 to
    6000: after the page at the skip limit it asks for offset 6000 with the
    same parameters, where the claim switches to a continuation cursor and
    goes back to offset 0. *)
Theorem pool_share_offsets_pass_the_skip_limit :
  pool_share_params.offset
    <$> pool_share_queries
          (log (Prices._get_protocol_balance_graph nat 1000
                  Sample.graph_pool_shares Sample.deserialize_pool_share
                  (fun _ => true) Sample.token_of_address id 10 ["0xA11CE"]))
  = [0; 1000; 2000; 3000; 4000; 5000; 6000]%nat.
Proof. vm_compute. reflexivity. Qed.
End GraphFacts.

(** ** Synchronization: query ranges, transactions and live balances *)

Module SyncFacts.
Import Sync PyDictFacts.

Lemma run_bind {A B} (m : sync A) (k : A -> sync B) w :
  run (m ≫= k) w
  = match run m w with
    | (w', Ok a) => run (k a) w'
    | (w', Raise e) => (w', Raise e)
    | (w', Diverge) => (w', Diverge)
    end.
Proof. done. Qed.

Lemma entry_name_inj prefix a b : entry_name prefix a = entry_name prefix b -> a = b.
Proof.
  unfold entry_name. intros Heq.
  apply (inj (String.app prefix)) in Heq. by apply (inj (String.app "_")) in Heq.
Qed.

(** *** The ledger of query ranges *)

Lemma update_used_query_range_events db0 addresses prefix from_ts to_ts :
  balancer_events (_update_used_query_range db0 addresses prefix from_ts to_ts)
  = balancer_events db0.
Proof.
  revert db0. induction addresses as [|a l IH]; intros db0; simpl; [done|].
  by rewrite IH.
Qed.

Lemma update_used_query_range_lookup db0 addresses prefix from_ts to_ts name :
  used_query_ranges (_update_used_query_range db0 addresses prefix from_ts to_ts)
    !! name
  = if decide (name ∈ entry_name prefix <$> addresses) then Some (from_ts, to_ts)
    else used_query_ranges db0 !! name.
Proof.
  revert db0. induction addresses as [|a l IH]; intros db0; simpl; [done|].
  rewrite IH. simpl. rewrite lookup_insert.
  destruct (decide (name ∈ entry_name prefix <$> l)) as [Hin|Hnin].
  - rewrite decide_True; [done | by right].
  - destruct (decide (entry_name prefix a = name)) as [<-|Hne].
    + rewrite decide_True; [done | by left].
    + rewrite decide_False; [done|].
      intros [?|?]%elem_of_cons; [congruence | done].
Qed.

Section facts.
Variable POOL_MAX_NUMBER_TOKENS : nat.
Variable BALANCER_EVENTS_PREFIX : string.
Variable delete_balancer_events_data : DB -> DB.
Variable fetch_invest_events :
  list ChecksumEvmAddress -> BalancerInvestEventType -> Timestamp -> Timestamp ->
  outcome (list (ChecksumEvmAddress * list BalancerInvestEvent.t)
           * list (ChecksumEvmAddress * list BalancerBPTEvent.t)).
Variable aggregate :
  list (ChecksumEvmAddress * BalancerEventsData.t) -> outcome (list BalancerEvent.t).

Abbreviation events_data := (_get_address_to_events_data fetch_invest_events).
Abbreviation req := mk_request.

(** One batch: two fetches, then the ledger update in a transaction of its
    own. *)
Lemma events_data_run addresses from_ts to_ts w :
  run (events_data addresses from_ts to_ts) w
  = let r1 := requested w ++ [req addresses ADD_LIQUIDITY from_ts to_ts] in
    let r2 := r1 ++ [req addresses REMOVE_LIQUIDITY from_ts to_ts] in
    match fetch_invest_events addresses ADD_LIQUIDITY from_ts to_ts with
    | Ok adds =>
        match fetch_invest_events addresses REMOVE_LIQUIDITY from_ts to_ts with
        | Ok removes =>
            (mk_world
               (_update_used_query_range (db w) addresses "balancer_events"
                  from_ts to_ts) r2,
             Ok (events_data_of adds.1 removes.1 adds.2 removes.2))
        | Raise e => (mk_world (db w) r2, Raise e)
        | Diverge => (mk_world (db w) r2, Diverge)
        end
    | Raise e => (mk_world (db w) r1, Raise e)
    | Diverge => (mk_world (db w) r1, Diverge)
    end.
Proof.
  unfold _get_address_to_events_data. rewrite run_bind. simpl.
  by destruct (fetch_invest_events addresses ADD_LIQUIDITY from_ts to_ts).
Qed.

(** *** New and existing addresses *)

Abbreviation range_of db0 a :=
  (get_used_query_range db0 (entry_name BALANCER_EVENTS_PREFIX a)).
Abbreviation split := (split_addresses BALANCER_EVENTS_PREFIX).

Lemma split_addresses_spec db0 addresses to_ts :
  let '(new_addresses, existing_addresses, min_to) := split db0 addresses to_ts in
  new_addresses = filter (fun a => range_of db0 a = None) addresses
  /\ existing_addresses = filter (fun a => is_Some (range_of db0 a)) addresses
  /\ min_to <= to_ts
  /\ (forall a r, a ∈ existing_addresses -> range_of db0 a = Some r -> min_to <= r.2)
  /\ (min_to = to_ts
      \/ exists a r, a ∈ existing_addresses /\ range_of db0 a = Some r /\ min_to = r.2).
Proof.
  unfold split_addresses.
  set (step := fun '(new_addresses, existing_addresses, min_to_timestamp) address => _).
  assert (forall l n0 e0 m0,
    let '(n, e, m) := foldl step (n0, e0, m0) l in
    n = n0 ++ filter (fun a => range_of db0 a = None) l
    /\ e = e0 ++ filter (fun a => is_Some (range_of db0 a)) l
    /\ m <= m0
    /\ (forall a r, a ∈ filter (fun a => is_Some (range_of db0 a)) l ->
          range_of db0 a = Some r -> m <= r.2)
    /\ (m = m0
        \/ exists a r, a ∈ filter (fun a => is_Some (range_of db0 a)) l
                       /\ range_of db0 a = Some r /\ m = r.2)) as Hgen.
  { induction l as [|a l IH]; intros n0 e0 m0; simpl.
    - rewrite !app_nil_r. split_and!; [done | done | lia | | by left].
      intros a r Ha. by apply elem_of_nil in Ha.
    - rewrite !filter_cons.
      destruct (range_of db0 a) as [r|] eqn:Hr; simpl.
      + specialize (IH n0 (e0 ++ [a]) (m0 `min` r.2)).
        destruct (foldl step _ l) as [[n e] m].
        destruct IH as (Hn & He & Hm & Hle & Hex).
        split_and!.
        * done.
        * by rewrite He, <- app_assoc.
        * lia.
        * intros b rb [->|Hb]%elem_of_cons Hrb; [|by eapply Hle].
          rewrite Hr in Hrb. inversion Hrb; subst rb. lia.
        * destruct Hex as [Hm0|(b & rb & Hb & Hrb & Hm')].
          -- destruct (Z.min_spec m0 r.2) as [[_ Hmin]|[_ Hmin]].
             ++ left. lia.
             ++ right. exists a, r. split; [by left|]. split; [done | lia].
          -- right. exists b, rb. split; [by right | done].
      + specialize (IH (n0 ++ [a]) e0 m0).
        destruct (foldl step _ l) as [[n e] m].
        destruct IH as (Hn & He & Hm & Hle & Hex).
        split_and!; [by rewrite Hn, <- app_assoc | done | done | done | done]. }
  specialize (Hgen addresses [] [] to_ts).
  destruct (foldl step _ addresses) as [[n e] m].
  destruct Hgen as (-> & -> & Hm & Hle & Hex). simpl. by split_and!.
Qed.

(** *** The stages of a synchronization *)

Variable get_balances :
  list ChecksumEvmAddress ->
  outcome (list (ChecksumEvmAddress * list BalancerPoolBalance.t)).

Abbreviation balances :=
  (_get_address_to_pool_events_balances POOL_MAX_NUMBER_TOKENS
     BALANCER_EVENTS_PREFIX fetch_invest_events aggregate get_balances).
Abbreviation calc_all := (calculate_all POOL_MAX_NUMBER_TOKENS).

Lemma pool_events_balances_run addresses from_ts to_ts w :
  run (balances addresses from_ts to_ts) w
  = let '(new_addresses, existing_addresses, min_to) :=
      split (db w) addresses to_ts in
    let s1 :=
      match new_addresses with
      | [] => (w, Ok [])
      | _ => run (events_data new_addresses 0 to_ts) w
      end in
    match s1 with
    | (w1, Ok data_new) =>
        let s2 :=
          if decide (existing_addresses ≠ [] /\ to_ts > min_to)
          then run (events_data existing_addresses min_to to_ts) w1
          else (w1, Ok []) in
        match s2 with
        | (w2, Ok data_existing) =>
            let data := dict_update (dict_update [] data_new) data_existing in
            let s3 :=
              match data with
              | [] => (w2, Ok tt)
              | _ =>
                  match aggregate data with
                  | Ok evs =>
                      (mk_world (add_balancer_events (db w2) evs) (requested w2),
                       Ok tt)
                  | Raise e => (w2, Raise e)
                  | Diverge => (w2, Diverge)
                  end
              end in
            match s3 with
            | (w3, Ok _) =>
                (w3,
                 match read_db_events (db w3) addresses from_ts to_ts with
                 | [] => Ok []
                 | db_events =>
                     match (if decide (from_ts = 0) then get_balances addresses
                            else Ok []) with
                     | Ok address_to_pool_balances =>
                         calc_all db_events address_to_pool_balances
                     | Raise e => Raise e
                     | Diverge => Diverge
                     end
                 end)
            | (w3, Raise e) => (w3, Raise e)
            | (w3, Diverge) => (w3, Diverge)
            end
        | (w2, Raise e) => (w2, Raise e)
        | (w2, Diverge) => (w2, Diverge)
        end
    | (w1, Raise e) => (w1, Raise e)
    | (w1, Diverge) => (w1, Diverge)
    end.
Proof.
  unfold _get_address_to_pool_events_balances. rewrite run_bind.
  unfold read_db at 1. cbn [run].
  destruct (split (db w) addresses to_ts) as [[new_addresses existing_addresses] min_to].
  cbv zeta. rewrite run_bind.
  replace (run match new_addresses with [] => mret [] | _ => _ end w)
    with (match new_addresses with
          | [] => (w, Ok [])
          | _ => run (events_data new_addresses 0 to_ts) w
          end) by (by destruct new_addresses).
  destruct (match new_addresses with [] => (w, Ok []) | _ => _ end)
    as [w1 [data_new| |]]; try done.
  rewrite run_bind.
  replace (run (if decide (existing_addresses ≠ [] /\ to_ts > min_to)
                then events_data existing_addresses min_to to_ts else mret []) w1)
    with (if decide (existing_addresses ≠ [] /\ to_ts > min_to)
          then run (events_data existing_addresses min_to to_ts) w1
          else (w1, Ok [])) by (by case_decide).
  destruct (if decide (existing_addresses ≠ [] /\ to_ts > min_to)
            then run (events_data existing_addresses min_to to_ts) w1
            else (w1, Ok [])) as [w2 [data_existing| |]]; try done.
  rewrite run_bind.
  destruct (dict_update (dict_update [] data_new) data_existing) as [|d0 data'].
  - cbn [run mret sync_ret]. rewrite run_bind. unfold read_db at 1. cbn [run db].
    destruct (read_db_events _ _ _ _) as [|x l]; [done|].
    rewrite run_bind. case_decide; [|done].
    unfold lift_outcome. cbn [run]. by destruct (get_balances addresses).
  - rewrite run_bind. unfold lift_outcome at 1. cbn [run].
    destruct (aggregate (d0 :: data')) as [evs| |]; try done.
    unfold transaction, user_write. cbn [run].
    rewrite run_bind. unfold read_db at 1. cbn [run db].
    destruct (read_db_events _ _ _ _) as [|x l]; [done|].
    rewrite run_bind. case_decide; [|done].
    unfold lift_outcome. cbn [run]. by destruct (get_balances addresses).
Qed.

(** The database after a batch: untouched when a fetch of the batch fails,
    with the ranges of the batch recorded when both succeed; the events are
    never touched. *)
Lemma events_data_world addresses from_ts to_ts w w' o :
  run (events_data addresses from_ts to_ts) w = (w', o) ->
  (is_ok o = false -> db w' = db w)
  /\ (is_ok o = true ->
        db w' = _update_used_query_range (db w) addresses "balancer_events"
                  from_ts to_ts
        /\ requested w'
           = requested w ++ [req addresses ADD_LIQUIDITY from_ts to_ts;
                             req addresses REMOVE_LIQUIDITY from_ts to_ts]).
Proof.
  rewrite events_data_run. cbv zeta.
  destruct (fetch_invest_events addresses ADD_LIQUIDITY from_ts to_ts);
    [|by intros [= <- <-]|by intros [= <- <-]].
  destruct (fetch_invest_events addresses REMOVE_LIQUIDITY from_ts to_ts);
    intros [= <- <-]; simpl; split; try done.
  intros _. split; [done|]. by rewrite <- app_assoc.
Qed.

Lemma add_balancer_events_ranges db0 evs :
  used_query_ranges (add_balancer_events db0 evs) = used_query_ranges db0.
Proof. done. Qed.
End facts.

(** *** The claims on the synchronization *)

Section claims.
Variable POOL_MAX_NUMBER_TOKENS : nat.
Variable BALANCER_EVENTS_PREFIX : string.
Variable delete_balancer_events_data : DB -> DB.
Variable fetch_invest_events :
  list ChecksumEvmAddress -> BalancerInvestEventType -> Timestamp -> Timestamp ->
  outcome (list (ChecksumEvmAddress * list BalancerInvestEvent.t)
           * list (ChecksumEvmAddress * list BalancerBPTEvent.t)).
Variable aggregate :
  list (ChecksumEvmAddress * BalancerEventsData.t) -> outcome (list BalancerEvent.t).

Abbreviation history :=
  (get_events_history POOL_MAX_NUMBER_TOKENS BALANCER_EVENTS_PREFIX
     delete_balancer_events_data fetch_invest_events aggregate).
Abbreviation balances :=
  (_get_address_to_pool_events_balances POOL_MAX_NUMBER_TOKENS
     BALANCER_EVENTS_PREFIX fetch_invest_events aggregate).
Abbreviation events_data := (_get_address_to_events_data fetch_invest_events).
Abbreviation split := (split_addresses BALANCER_EVENTS_PREFIX).
Abbreviation range_of db0 a :=
  (get_used_query_range db0 (entry_name BALANCER_EVENTS_PREFIX a)).
Abbreviation req := mk_request.
Abbreviation reset_db reset_db_data w :=
  (mk_world (if reset_db_data : bool then delete_balancer_events_data (db w)
             else db w) (requested w)).

Lemma history_run get_balances addresses reset_db_data from_ts to_ts w :
  run (history get_balances addresses reset_db_data from_ts to_ts) w
  = run (balances get_balances addresses from_ts to_ts) (reset_db reset_db_data w).
Proof.
  unfold get_events_history. rewrite run_bind.
  destruct reset_db_data; [done|]. by destruct w.
Qed.

(** C1 (amended).  The ledger update of a batch and the insertion of the
    [BalancerEvent]s are two separate write transactions.  The ledger
    update of a batch commits as soon as both fetches of the batch have
    succeeded, and a batch whose fetch fails leaves the database as it was;
    the events are inserted later, all at once: the database that the call
    leaves is the database that the batches have left, with the events of
    the aggregation of the fetched data added when both batches were
    fetched, there were data and the aggregation has succeeded, and with
    nothing added otherwise. *)
Theorem ledger_and_events_in_separate_transactions
    get_balances addresses from_ts to_ts w w' o :
  run (balances get_balances addresses from_ts to_ts) w = (w', o) ->
  let '(new_addresses, existing_addresses, min_to) := split (db w) addresses to_ts in
  let batch_new :=
    match new_addresses with
    | [] => (w, Ok [])
    | _ => run (events_data new_addresses 0 to_ts) w
    end in
  let batch_existing :=
    if decide (existing_addresses ≠ [] /\ to_ts > min_to)
    then run (events_data existing_addresses min_to to_ts) batch_new.1
    else (batch_new.1, Ok []) in
  let after_batches := if is_ok batch_new.2 then batch_existing.1 else batch_new.1 in
  let inserted :=
    match batch_new.2, batch_existing.2 with
    | Ok data_new, Ok data_existing =>
        match dict_update (dict_update [] data_new) data_existing with
        | [] => []
        | data => match aggregate data with Ok evs => evs | _ => [] end
        end
    | _, _ => []
    end in
  db w' = add_balancer_events (db after_batches) inserted
  /\ balancer_events (db w') = balancer_events (db w) ++ inserted
  /\ forall batch batch_from v v' o',
       run (events_data batch batch_from to_ts) v = (v', o') ->
       balancer_events (db v') = balancer_events (db v)
       /\ (is_ok o' = false -> db v' = db v)
       /\ (is_ok o' = true ->
             db v' = _update_used_query_range (db v) batch "balancer_events"
                       batch_from to_ts).
Proof.
  intros Hrun.
  assert (forall batch batch_from v v' o',
    run (events_data batch batch_from to_ts) v = (v', o') ->
    balancer_events (db v') = balancer_events (db v)
    /\ (is_ok o' = false -> db v' = db v)
    /\ (is_ok o' = true ->
          db v' = _update_used_query_range (db v) batch "balancer_events"
                    batch_from to_ts)) as Hbatch.
  { intros batch batch_from v v' o' Hb.
    destruct (events_data_world _ _ _ _ _ _ _ Hb) as [Hfail Hok]. split_and!.
    - destruct (is_ok o') eqn:Ho.
      + destruct (Hok eq_refl) as [-> _]. apply update_used_query_range_events.
      + by rewrite (Hfail eq_refl).
    - done.
    - intros Ho. by destruct (Hok Ho). }
  assert (forall d : DB, add_balancer_events d [] = d) as Hnil.
  { intros [ranges events]. unfold add_balancer_events. simpl.
    by rewrite app_nil_r. }
  rewrite pool_events_balances_run in Hrun.
  destruct (split (db w) addresses to_ts) as [[new_addresses existing_addresses] min_to].
  cbv zeta in Hrun |- *.
  assert (balancer_events
            (db (match new_addresses with
                 | [] => (w, Ok [])
                 | _ => run (events_data new_addresses 0 to_ts) w
                 end).1) = balancer_events (db w)) as Hev1.
  { destruct new_addresses as [|a l]; [done|].
    destruct (run (events_data (a :: l) 0 to_ts) w) as [w1 o1] eqn:Hb.
    by destruct (Hbatch _ _ _ _ _ Hb). }
  destruct (match new_addresses with [] => (w, Ok []) | _ => _ end)
    as [w1 o1]. cbn [fst snd] in Hev1 |- *.
  destruct o1 as [data_new| |]; cbn [is_ok];
    [|inversion Hrun; subst; rewrite Hnil, app_nil_r; by split_and!..].
  assert (balancer_events
            (db (if decide (existing_addresses ≠ [] /\ to_ts > min_to)
                 then run (events_data existing_addresses min_to to_ts) w1
                 else (w1, Ok [])).1) = balancer_events (db w)) as Hev2.
  { rewrite <- Hev1. case_decide; [|done].
    destruct (run (events_data existing_addresses min_to to_ts) w1)
      as [w2 o2] eqn:Hb.
    by destruct (Hbatch _ _ _ _ _ Hb). }
  destruct (if decide (existing_addresses ≠ [] /\ to_ts > min_to)
            then run (events_data existing_addresses min_to to_ts) w1
            else (w1, Ok [])) as [w2 o2]. cbn [fst snd] in Hev2 |- *.
  destruct o2 as [data_existing| |];
    [|inversion Hrun; subst; rewrite Hnil, app_nil_r; by split_and!..].
  destruct (dict_update (dict_update [] data_new) data_existing) as [|d0 data'].
  - inversion Hrun; subst. rewrite Hnil, app_nil_r. by split_and!.
  - destruct (aggregate (d0 :: data')) as [evs| |] eqn:Hagg;
      inversion Hrun; subst; cbn [db];
      rewrite ?Hnil, ?app_nil_r; split_and!; try done.
    simpl. by rewrite Hev2.
Qed.

(** C10.  The live balances enter the computation only when
    [from_timestamp] is 0: for any other [from_timestamp] the call does not
    depend on [get_balances] at all, and what it returns is computed from
    the persisted events of the window with no live balance; for
    [from_timestamp = 0] the balances of [get_balances] are used. *)
Theorem live_balances_only_from_epoch
    get_balances addresses reset_db_data from_ts to_ts w :
  (from_ts ≠ 0 ->
     forall get_balances',
       run (history get_balances addresses reset_db_data from_ts to_ts) w
       = run (history get_balances' addresses reset_db_data from_ts to_ts) w)
  /\ (forall w' r,
        run (history get_balances addresses reset_db_data from_ts to_ts) w
        = (w', Ok r) ->
        let db_events := read_db_events (db w') addresses from_ts to_ts in
        (from_ts ≠ 0 ->
           calculate_all POOL_MAX_NUMBER_TOKENS db_events [] = Ok r)
        /\ (from_ts = 0 -> db_events ≠ [] ->
              exists address_to_pool_balances,
                get_balances addresses = Ok address_to_pool_balances
                /\ calculate_all POOL_MAX_NUMBER_TOKENS db_events
                     address_to_pool_balances = Ok r)).
Proof.
  split.
  - intros Hne get_balances'. rewrite !history_run, !pool_events_balances_run.
    destruct (split _ addresses to_ts) as [[new_addresses existing_addresses] min_to].
    cbv zeta. destruct (match new_addresses with [] => _ | _ => _ end)
      as [w1 [data_new| |]]; try done.
    destruct (if decide _ then _ else _) as [w2 [data_existing| |]]; try done.
    destruct (match dict_update _ _ with [] => _ | _ => _ end) as [w3 [[]| |]];
      try done.
    by rewrite !decide_False by done.
  - intros w' r. rewrite history_run, pool_events_balances_run.
    destruct (split _ addresses to_ts) as [[new_addresses existing_addresses] min_to].
    cbv zeta. destruct (match new_addresses with [] => _ | _ => _ end)
      as [w1 [data_new| |]]; try done.
    destruct (if decide _ then _ else _) as [w2 [data_existing| |]]; try done.
    destruct (match dict_update _ _ with [] => _ | _ => _ end) as [w3 [[]| |]];
      try done.
    intros [= <- Hr]. split.
    + intros Hne. rewrite decide_False in Hr by done.
      by destruct (read_db_events (db w3) addresses from_ts to_ts); inversion Hr.
    + intros Heq Hnonempty. rewrite decide_True in Hr by done.
      destruct (read_db_events (db w3) addresses from_ts to_ts) as [|x l] eqn:He;
        [done|].
      destruct (get_balances addresses) as [bal| |]; try done. by exists bal.
Qed.
(** C8.  A request that returns has classified every address without a
    recorded range as new and every address with one as existing, with
    [min_to] the least of [to_timestamp] and the recorded upper bounds of
    the existing addresses; it has requested the new addresses from 0 to
    [to_timestamp], the existing ones from [min_to] to [to_timestamp] and
    only when [to_timestamp > min_to], and nothing else; and the range
    recorded for every address it has fetched ends at [to_timestamp]. *)
Theorem query_range_tracking
    get_balances addresses reset_db_data from_ts to_ts w w' r :
  run (history get_balances addresses reset_db_data from_ts to_ts) w = (w', Ok r) ->
  let db0 := db (reset_db reset_db_data w) in
  let '(new_addresses, existing_addresses, min_to) := split db0 addresses to_ts in
  new_addresses = filter (fun a => range_of db0 a = None) addresses
  /\ existing_addresses = filter (fun a => is_Some (range_of db0 a)) addresses
  /\ min_to <= to_ts
  /\ (forall a r, a ∈ existing_addresses -> range_of db0 a = Some r -> min_to <= r.2)
  /\ (min_to = to_ts
      \/ exists a r, a ∈ existing_addresses /\ range_of db0 a = Some r /\ min_to = r.2)
  /\ requested w'
     = requested w
       ++ match new_addresses with
          | [] => []
          | _ => [req new_addresses ADD_LIQUIDITY 0 to_ts;
                  req new_addresses REMOVE_LIQUIDITY 0 to_ts]
          end
       ++ (if decide (existing_addresses ≠ [] /\ to_ts > min_to)
           then [req existing_addresses ADD_LIQUIDITY min_to to_ts;
                 req existing_addresses REMOVE_LIQUIDITY min_to to_ts]
           else [])
  /\ (forall a, a ∈ new_addresses ->
        used_query_ranges (db w') !! entry_name "balancer_events" a
        = Some (0, to_ts))
  /\ (to_ts > min_to -> forall a, a ∈ existing_addresses ->
        used_query_ranges (db w') !! entry_name "balancer_events" a
        = Some (min_to, to_ts)).
Proof.
  rewrite history_run, pool_events_balances_run. cbv zeta.
  set (w0 := reset_db reset_db_data w).
  pose proof (split_addresses_spec BALANCER_EVENTS_PREFIX (db w0) addresses to_ts)
    as Hsplit.
  destruct (split (db w0) addresses to_ts)
    as [[new_addresses existing_addresses] min_to].
  destruct Hsplit as (Hnew & Hex & Hmin & Hle & Hwit).
  intros Hrun.
  (* the batch of the new addresses *)
  assert (exists w1 data_new,
    match new_addresses with
    | [] => (w0, Ok [])
    | _ => run (events_data new_addresses 0 to_ts) w0
    end = (w1, Ok data_new)
    /\ requested w1
       = requested w0 ++ match new_addresses with
                         | [] => []
                         | _ => [req new_addresses ADD_LIQUIDITY 0 to_ts;
                                 req new_addresses REMOVE_LIQUIDITY 0 to_ts]
                         end
    /\ forall name,
         used_query_ranges (db w1) !! name
         = if decide (name ∈ entry_name "balancer_events" <$> new_addresses)
           then Some (0, to_ts) else used_query_ranges (db w0) !! name)
    as (w1 & data_new & Hs1 & Hreq1 & Hdb1).
  { destruct (match new_addresses with [] => _ | _ => _ end)
      as [w1 [data_new| |]] eqn:Hs1; try done.
    exists w1, data_new. split; [done|].
    destruct new_addresses as [|a l].
    - inversion Hs1; subst. split; [by rewrite app_nil_r|]. intros name.
      rewrite decide_False; [done|]. apply not_elem_of_nil.
    - destruct (events_data_world _ _ _ _ _ _ _ Hs1) as [_ Hok].
      destruct (Hok eq_refl) as [Hdb Hreq]. split; [done|]. intros name.
      rewrite Hdb. apply update_used_query_range_lookup. }
  rewrite Hs1 in Hrun.
  (* the batch of the existing addresses *)
  assert (exists w2 data_existing,
    (if decide (existing_addresses ≠ [] /\ to_ts > min_to)
     then run (events_data existing_addresses min_to to_ts) w1
     else (w1, Ok [])) = (w2, Ok data_existing)
    /\ requested w2
       = requested w1
         ++ (if decide (existing_addresses ≠ [] /\ to_ts > min_to)
             then [req existing_addresses ADD_LIQUIDITY min_to to_ts;
                   req existing_addresses REMOVE_LIQUIDITY min_to to_ts]
             else [])
    /\ forall name,
         used_query_ranges (db w2) !! name
         = if decide (existing_addresses ≠ [] /\ to_ts > min_to
                      /\ name ∈ entry_name "balancer_events" <$> existing_addresses)
           then Some (min_to, to_ts) else used_query_ranges (db w1) !! name)
    as (w2 & data_existing & Hs2 & Hreq2 & Hdb2).
  { destruct (if decide _ then _ else _) as [w2 [data_existing| |]] eqn:Hs2;
      try done.
    exists w2, data_existing. split; [done|].
    destruct (decide (existing_addresses ≠ [] /\ to_ts > min_to)) as [[Hne Hgt]|Hno].
    - destruct (events_data_world _ _ _ _ _ _ _ Hs2) as [_ Hok].
      destruct (Hok eq_refl) as [Hdb Hreq]. split; [done|]. intros name.
      rewrite Hdb, update_used_query_range_lookup.
      destruct (decide (name ∈ _)) as [Hin|Hnin].
      + by rewrite decide_True.
      + rewrite decide_False; [done | tauto].
    - inversion Hs2; subst. split; [by rewrite app_nil_r|]. intros name.
      rewrite decide_False; [done | tauto]. }
  rewrite Hs2 in Hrun.
  (* aggregation and insertion leave the ledger and the requests alone *)
  assert (requested w' = requested w2
          /\ used_query_ranges (db w') = used_query_ranges (db w2)) as [Hreq3 Hdb3].
  { destruct (dict_update (dict_update [] data_new) data_existing) as [|d0 data'].
    - by inversion Hrun; subst.
    - destruct (aggregate (d0 :: data')) as [evs| |]; inversion Hrun; by subst. }
  split_and!; try done.
  - rewrite Hreq3, Hreq2, Hreq1. by rewrite <- app_assoc.
  - intros a Ha. rewrite Hdb3, Hdb2.
    rewrite decide_False.
    + rewrite Hdb1. rewrite decide_True; [done|].
      apply list_elem_of_fmap. by exists a.
    + intros (_ & _ & Hin). apply list_elem_of_fmap in Hin as (b & Hab & Hb).
      apply entry_name_inj in Hab. subst b.
      rewrite Hnew in Ha. rewrite Hex in Hb.
      apply list_elem_of_filter in Ha as [Ha _].
      apply list_elem_of_filter in Hb as [[? Hb] _]. congruence.
  - intros Hgt a Ha. rewrite Hdb3, Hdb2. rewrite decide_True; [done|].
    split_and!; [|done|].
    + intros ->. by apply elem_of_nil in Ha.
    + apply list_elem_of_fmap. by exists a.
Qed.
End claims.

(** *** A synchronization on the small subgraph *)

Lemma ledger_and_events_in_separate_transactions_witness :
  let fetch := fun addresses ty start_ts end_ts =>
    Graph.result (Sample.fetch_invest Sample.graph_events_bpt addresses ty
                    start_ts end_ts) in
  let aggregate :=
    EventAggregator._get_balancer_aggregated_events_data Sample.token_of_address
      Sample.price_one [] in
  let w := mk_world (mk_db ∅ []) [] in
  let out :=
    run (_get_address_to_pool_events_balances 8 "balancer_events" fetch aggregate
           (fun _ => Ok []) ["0xA11CE"] 0 1000) w in
  is_ok out.2 = true
  /\ balancer_events (db out.1)
     = [] ++ [BalancerEvent.mk 2%N 2 "0xA11CE" 200 MINT Sample.pool
                (Balance.mk 5 5) [5; 0]]
  /\ get_used_query_range (db out.1) "balancer_events_0xA11CE" = Some (0, 1000).
Proof.
  intros fetch aggregate w out.
  pose proof (ledger_and_events_in_separate_transactions 8 "balancer_events"
                fetch aggregate (fun _ => Ok []) ["0xA11CE"] 0 1000 w out.1 out.2
                (surjective_pairing out)) as Hsep.
  assert (split_addresses "balancer_events" (db w) ["0xA11CE"] 1000
          = (["0xA11CE"], [], 1000)) as Hsplit by (vm_compute; reflexivity).
  rewrite Hsplit in Hsep. cbv zeta in Hsep. destruct Hsep as (_ & Hev & _).
  split; [vm_compute; reflexivity|]. split; [|vm_compute; reflexivity].
  rewrite Hev. vm_compute. reflexivity.
Defined.

(** The fetch succeeds and the ledger records the range [0, 1000] of the
    address; then the aggregation finds a mint without add-liquidity events
    and raises [RemoteError]: the call ends with the ledger advanced and no
    event persisted. *)
Lemma ledger_advanced_while_events_are_lost :
  let fetch := fun addresses ty start_ts end_ts =>
    Graph.result (Sample.fetch_invest Sample.graph_events_bpt_other addresses ty
                    start_ts end_ts) in
  let aggregate :=
    EventAggregator._get_balancer_aggregated_events_data Sample.token_of_address
      Sample.price_one [] in
  let w := mk_world (mk_db ∅ []) [] in
  let out :=
    run (get_events_history 8 "balancer_events" (fun d => d) fetch aggregate
           (fun _ => Ok []) ["0xA11CE"] false 0 1000) w in
  out.2 = Raise RemoteError
  /\ get_used_query_range (db out.1) "balancer_events_0xA11CE" = Some (0, 1000)
  /\ balancer_events (db out.1) = []
  /\ is_ok (fetch ["0xA11CE"] ADD_LIQUIDITY 0 1000) = true
  /\ is_ok (fetch ["0xA11CE"] REMOVE_LIQUIDITY 0 1000) = true.
Proof. vm_compute. by split_and!. Qed.

Lemma query_range_tracking_witness :
  let fetch := fun addresses ty start_ts end_ts =>
    Graph.result (Sample.fetch_invest Sample.graph_events_bpt addresses ty
                    start_ts end_ts) in
  let aggregate :=
    EventAggregator._get_balancer_aggregated_events_data Sample.token_of_address
      Sample.price_one [] in
  let w := mk_world (mk_db {["balancer_events_0xB0B" := (0, 400)]} []) [] in
  let out :=
    run (get_events_history 8 "balancer_events" (fun d => d) fetch aggregate
           (fun _ => Ok []) ["0xA11CE"; "0xB0B"] false 0 1000) w in
  is_ok out.2 = true
  /\ requested out.1
     = [mk_request ["0xA11CE"] ADD_LIQUIDITY 0 1000;
        mk_request ["0xA11CE"] REMOVE_LIQUIDITY 0 1000;
        mk_request ["0xB0B"] ADD_LIQUIDITY 400 1000;
        mk_request ["0xB0B"] REMOVE_LIQUIDITY 400 1000]
  /\ used_query_ranges (db out.1) !! entry_name "balancer_events" "0xA11CE"
     = Some (0, 1000)
  /\ used_query_ranges (db out.1) !! entry_name "balancer_events" "0xB0B"
     = Some (400, 1000).
Proof.
  intros fetch aggregate w out.
  destruct out.2 as [r| |] eqn:Hres; [|by vm_compute in Hres|by vm_compute in Hres].
  assert (out = (out.1, Ok r)) as Hrun by (rewrite <- Hres; apply surjective_pairing).
  pose proof (query_range_tracking 8 "balancer_events" (fun d => d) fetch aggregate
                (fun _ => Ok []) ["0xA11CE"; "0xB0B"] false 0 1000 w out.1 r Hrun)
    as Htrack.
  assert (split_addresses "balancer_events" (db w) ["0xA11CE"; "0xB0B"] 1000
          = (["0xA11CE"], ["0xB0B"], 400)) as Hsplit by (vm_compute; reflexivity).
  cbv zeta in Htrack. cbn [db requested] in Htrack.
  rewrite Hsplit in Htrack.
  destruct Htrack as (_ & _ & _ & _ & _ & Hreq & Hnew & Hold).
  split; [done|]. split; [exact Hreq|]. split.
  - apply Hnew. by left.
  - apply Hold; [lia | by left].
Defined.

Lemma live_balances_only_from_epoch_witness :
  let fetch := fun addresses ty start_ts end_ts =>
    Graph.result (Sample.fetch_invest Sample.graph_events_bpt addresses ty
                    start_ts end_ts) in
  let aggregate :=
    EventAggregator._get_balancer_aggregated_events_data Sample.token_of_address
      Sample.price_one [] in
  let w := mk_world (mk_db ∅ []) [] in
  let live := fun _ : list ChecksumEvmAddress =>
    Ok [("0xA11CE",
         [BalancerPoolBalance.mk Sample.pool
            [BalancerPoolTokenBalance.mk (EvmToken.mk "0xDA1" []) (Balance.mk 3 4) 1]
            (Balance.mk 1 4)])] in
  (150 ≠ 0
   /\ run (get_events_history 8 "balancer_events" (fun d => d) fetch aggregate
             live ["0xA11CE"] false 150 1000) w
      = run (get_events_history 8 "balancer_events" (fun d => d) fetch aggregate
               (fun _ => Raise RemoteError) ["0xA11CE"] false 150 1000) w)
  /\ match (run (get_events_history 8 "balancer_events" (fun d => d) fetch
                   aggregate live ["0xA11CE"] false 150 1000) w).2 with
     | Ok r =>
         BalancerPoolEventsBalance.profit_loss_amounts
           <$> PyDict.get_or [] r "0xA11CE" = [[-5; 0]]
     | _ => False
     end.
Proof.
  intros fetch aggregate w live. split.
  - split; [done|].
    exact (proj1 (live_balances_only_from_epoch 8 "balancer_events" (fun d => d)
                    fetch aggregate live ["0xA11CE"] false 150 1000 w)
             ltac:(done) (fun _ => Raise RemoteError)).
  - vm_compute. reflexivity.
Defined.
End SyncFacts.

(** ** Price resolution *)

Module PricesFacts.
Import Graph Prices PyDictFacts GraphFacts.

Lemma suppress_RemoteError_result {A} (m : fetch A) dflt :
  result (suppress_RemoteError m dflt)
  = match result m with
    | Raise RemoteError => Ok dflt
    | o => o
    end.
Proof.
  unfold suppress_RemoteError. destruct (result m) as [a|e|] eqn:E; try done.
  by destruct e.
Qed.

Lemma suppress_RemoteError_log {A} (m : fetch A) dflt :
  log (suppress_RemoteError m dflt) = log m.
Proof.
  unfold suppress_RemoteError. destruct (result m) as [a|e|]; try done.
  by destruct e.
Qed.

Section facts.
Variable Raw : Type.
Variable GRAPH_QUERY_LIMIT : nat.
Variable graph_token_prices : token_price_params.t -> response Raw.
Variable graph_uniswap : option (token_day_params.t -> response Raw).
Variable deserialize_token_price : Raw -> option (ChecksumEvmAddress * Price).
Variable deserialize_token_day_data : Raw -> option (ChecksumEvmAddress * Price).
Variable has_oracle : EvmToken.t -> bool.
Variable query_usd_price_or_use_default : EvmToken.t -> Timestamp -> FVal -> Price.
Variable now : Timestamp.
Variable midnight_epoch_of : Timestamp -> Z.
Variable lower : ChecksumEvmAddress -> ChecksumEvmAddress.

Abbreviation L := GRAPH_QUERY_LIMIT.
Abbreviation price_at :=
  (_get_token_price_at_timestamp_zero_if_error Raw L graph_uniswap
     deserialize_token_day_data has_oracle query_usd_price_or_use_default now
     midnight_epoch_of lower).
Abbreviation uniswap :=
  (_get_unknown_token_to_prices_uniswap_graph Raw L graph_uniswap
     deserialize_token_day_data now midnight_epoch_of lower).
Abbreviation balancer :=
  (_get_unknown_token_to_prices_balancer_graph Raw L graph_token_prices
     deserialize_token_price lower).
Abbreviation unknown_prices :=
  (_get_unknown_token_to_prices_graph Raw L graph_token_prices graph_uniswap
     deserialize_token_price deserialize_token_day_data now midnight_epoch_of lower).
Abbreviation day_loop :=
  (token_day_datas_loop Raw L graph_uniswap deserialize_token_day_data).

(** The secondary AMM is the only source the day-data fetch talks to. *)
Lemma token_day_datas_loop_log fuel : forall pv acc,
  token_price_queries (log (day_loop fuel pv acc)) = []
  /\ (graph_uniswap = None -> result (day_loop (S fuel) pv acc) = Raise AttributeError).
Proof.
  induction fuel as [|fuel IH]; intros pv acc.
  - split; [done|]. intros Hnone. simpl. unfold query_token_day_datas.
    by rewrite Hnone.
  - split.
    + change (day_loop (S fuel) pv acc)
        with (query_token_day_datas Raw graph_uniswap pv ≫= fun raw =>
                let acc' := foldl (add_price Raw deserialize_token_day_data) acc raw in
                if decide (length raw < L)%nat then mret acc'
                else day_loop fuel
                       (token_day_params.mk (token_day_params.limit pv)
                          (token_day_params.offset pv + L)
                          (token_day_params.token_ids pv)
                          (token_day_params.datetime pv)) acc').
      rewrite fetch_bind_log. unfold query_token_day_datas.
      destruct graph_uniswap as [query|]; [|done]. simpl.
      destruct (query pv) as [| |rows]; simpl; try done.
      case_decide; [done|]. apply IH.
    + intros Hnone. simpl. unfold query_token_day_datas. by rewrite Hnone.
Qed.

Lemma uniswap_no_price_query fuel addresses ts :
  token_price_queries (log (uniswap fuel addresses ts)) = [].
Proof. unfold _get_unknown_token_to_prices_uniswap_graph. apply token_day_datas_loop_log. Qed.

Lemma price_at_result fuel token ts :
  result (price_at fuel token ts)
  = if has_oracle token then Ok (query_usd_price_or_use_default token ts ZERO)
    else match result (uniswap fuel [EvmToken.evm_address token] (Some ts)) with
         | Ok prices => Ok (PyDict.get_or ZERO_PRICE prices (EvmToken.evm_address token))
         | Raise RemoteError => Ok ZERO_PRICE
         | Raise e => Raise e
         | Diverge => Diverge
         end.
Proof.
  unfold _get_token_price_at_timestamp_zero_if_error.
  destruct (has_oracle token); [done|].
  rewrite fetch_bind_result, suppress_RemoteError_result.
  destruct (result (uniswap _ _ _)) as [prices|e|]; try done. by destruct e.
Qed.

Lemma price_at_log fuel token ts :
  log (price_at fuel token ts)
  = if has_oracle token then []
    else log (uniswap fuel [EvmToken.evm_address token] (Some ts)).
Proof.
  unfold _get_token_price_at_timestamp_zero_if_error.
  destruct (has_oracle token); [done|].
  rewrite fetch_bind_log, suppress_RemoteError_result, suppress_RemoteError_log.
  destruct (result (uniswap _ _ _)) as [prices|e|]; simpl;
    rewrite ?app_nil_r; try done.
  destruct e; simpl; by rewrite ?app_nil_r.
Qed.

Lemma unknown_prices_result fuel unknown_tokens :
  let addresses := foldl (set_add id) [] (EvmToken.evm_address <$> unknown_tokens) in
  result (unknown_prices fuel unknown_tokens)
  = match result (balancer fuel addresses) with
    | Ok bal =>
        match graph_uniswap with
        | None => Ok bal
        | Some _ =>
            match result (uniswap fuel
                            (filter (fun a => PyDict.get bal a = None) addresses)
                            None) with
            | Ok uni => Ok (dict_merge bal uni)
            | Raise RemoteError => Ok (dict_merge bal [])
            | Raise e => Raise e
            | Diverge => Diverge
            end
        end
    | Raise e => Raise e
    | Diverge => Diverge
    end.
Proof.
  intros addresses. unfold _get_unknown_token_to_prices_graph. fold addresses.
  rewrite fetch_bind_result.
  destruct (result (balancer fuel addresses)) as [bal| |]; try done.
  rewrite fetch_bind_result.
  destruct graph_uniswap as [query|]; [|done].
  rewrite fetch_bind_result, suppress_RemoteError_result.
  destruct (result (_get_unknown_token_to_prices_uniswap_graph _ _ _ _ _ _ _ _ _ _))
    as [uni|e|]; try done.
  by destruct e.
Qed.

Lemma unknown_prices_messages fuel unknown_tokens prices :
  result (unknown_prices fuel unknown_tokens) = Ok prices ->
  forall t, t ∈ unknown_tokens ->
    PyDict.get prices (EvmToken.evm_address t) = None ->
    AddError (MissingPrice (EvmToken.evm_address t))
      ∈ log (unknown_prices fuel unknown_tokens).
Proof.
  unfold _get_unknown_token_to_prices_graph.
  set (addresses := foldl (set_add id) [] (EvmToken.evm_address <$> unknown_tokens)).
  rewrite fetch_bind_result, fetch_bind_log.
  destruct (result (balancer fuel addresses)) as [bal| |]; try done.
  rewrite fetch_bind_result, fetch_bind_log.
  set (m := match graph_uniswap with None => _ | Some _ => _ end).
  destruct (result m) as [prices'| |]; try done. simpl.
  intros [= <-] t Ht Hnone.
  apply elem_of_app. right. apply elem_of_app. right.
  unfold missing_price_messages. apply list_elem_of_fmap. exists t.
  split; [done|]. by apply list_elem_of_filter.
Qed.
Lemma dict_merge_nil (d : list (ChecksumEvmAddress * Price)) : dict_merge d [] = d.
Proof. done. Qed.

(** [{**a, **b}]: the value of [b] where it has one, else that of [a]. *)
Lemma dict_merge_get (b : list (ChecksumEvmAddress * Price)) : forall a k,
  NoDup (PyDict.keys b) ->
  PyDict.get (dict_merge a b) k
  = match PyDict.get b k with
    | Some v => Some v
    | None => PyDict.get a k
    end.
Proof.
  unfold dict_merge.
  induction b as [|[k' v] b IH]; intros a k Hnd; [done|].
  change (PyDict.keys ((k', v) :: b)) with (k' :: PyDict.keys b) in Hnd.
  apply NoDup_cons in Hnd as [Hnin Hnd]. apply get_None_keys in Hnin.
  cbn [foldl]. rewrite IH by done. cbn [fst snd PyDict.get]. rewrite get_set.
  destruct (decide (k' = k)) as [->|Hne]; [by rewrite Hnin | done].
Qed.

Lemma set_NoDup (d : list (ChecksumEvmAddress * Price)) k v :
  NoDup (PyDict.keys d) -> NoDup (PyDict.keys (PyDict.set d k v)).
Proof.
  intros Hnd. destruct (decide (k ∈ PyDict.keys d)) as [Hin|Hnin].
  - by rewrite keys_set_present.
  - rewrite keys_set_absent by done.
    apply NoDup_app. split_and!; [done | | apply NoDup_singleton].
    intros y Hy Heq. apply list_elem_of_singleton in Heq. by subst y.
Qed.

Lemma foldl_add_price_NoDup deserialize rows : forall d,
  NoDup (PyDict.keys d) ->
  NoDup (PyDict.keys (foldl (add_price Raw deserialize) d rows)).
Proof.
  induction rows as [|raw rows IH]; intros d Hnd; [done|].
  simpl. apply IH. unfold add_price.
  destruct (deserialize raw) as [[a p]|]; [by apply set_NoDup | done].
Qed.

Lemma day_loop_unfold fuel pv acc :
  day_loop (S fuel) pv acc
  = (query_token_day_datas Raw graph_uniswap pv ≫= fun raw =>
       let acc' := foldl (add_price Raw deserialize_token_day_data) acc raw in
       if decide (length raw < L)%nat then mret acc'
       else day_loop fuel
              (token_day_params.mk (token_day_params.limit pv)
                 (token_day_params.offset pv + L)
                 (token_day_params.token_ids pv)
                 (token_day_params.datetime pv)) acc').
Proof. done. Qed.

Lemma query_token_day_datas_result pv rows :
  result (query_token_day_datas Raw graph_uniswap pv) = Ok rows ->
  log (query_token_day_datas Raw graph_uniswap pv) = [QueryTokenDayDatas pv].
Proof.
  unfold query_token_day_datas. destruct graph_uniswap as [query|]; [|done].
  by destruct (query pv).
Qed.

(** The dictionary of a fetch of daily prices has every token once. *)
Lemma day_loop_NoDup fuel : forall pv acc uni,
  result (day_loop fuel pv acc) = Ok uni ->
  NoDup (PyDict.keys acc) -> NoDup (PyDict.keys uni).
Proof.
  induction fuel as [|fuel IH]; intros pv acc uni; [done|].
  rewrite day_loop_unfold, fetch_bind_result.
  destruct (result (query_token_day_datas Raw graph_uniswap pv)) as [rows| |];
    [|done|done].
  cbv zeta. case_decide.
  - intros [= <-] Hnd. by apply foldl_add_price_NoDup.
  - intros Hrun Hnd. eapply IH; [exact Hrun|]. by apply foldl_add_price_NoDup.
Qed.

(** Every query of a fetch of daily prices asks for the tokens and the day
    of the first one, and the first one is sent when the subgraph is
    there. *)
Lemma day_loop_queries fuel : forall pv acc,
  Forall (fun q => token_day_params.token_ids q = token_day_params.token_ids pv
                   /\ token_day_params.datetime q = token_day_params.datetime pv)
    (token_day_queries (log (day_loop fuel pv acc)))
  /\ (graph_uniswap ≠ None ->
        head (token_day_queries (log (day_loop (S fuel) pv acc))) = Some pv).
Proof.
  induction fuel as [|fuel IH]; intros pv acc.
  - split; [by apply Forall_nil|]. intros Hsome.
    rewrite day_loop_unfold, fetch_bind_log. unfold query_token_day_datas.
    destruct graph_uniswap as [query|]; [|done].
    by destruct (query pv).
  - split.
    + rewrite day_loop_unfold, fetch_bind_log. unfold query_token_day_datas.
      destruct graph_uniswap as [query|]; [|by apply Forall_nil].
      destruct (query pv) as [| |rows]; simpl;
        [by repeat constructor | by repeat constructor |].
      apply Forall_cons. split; [done|]. case_decide; [by apply Forall_nil|].
      destruct (IH (token_day_params.mk (token_day_params.limit pv)
                      (token_day_params.offset pv + L)
                      (token_day_params.token_ids pv)
                      (token_day_params.datetime pv))
                  (foldl (add_price Raw deserialize_token_day_data) acc rows))
        as [Hall _].
      exact Hall.
    + intros Hsome. rewrite day_loop_unfold, fetch_bind_log.
      unfold query_token_day_datas.
      destruct graph_uniswap as [query|]; [|done].
      by destruct (query pv).
Qed.

(** The fetch of the protocol's own prices sends no query to the secondary
    AMM. *)
Lemma token_prices_loop_no_day_query fuel : forall pv acc,
  token_day_queries
    (log (token_prices_loop Raw L graph_token_prices deserialize_token_price
            fuel pv acc)) = [].
Proof.
  induction fuel as [|fuel IH]; intros pv acc; [done|].
  change (token_prices_loop Raw L graph_token_prices deserialize_token_price
            (S fuel) pv acc)
    with (query_token_prices Raw graph_token_prices pv ≫= fun raw =>
            let acc' := foldl (add_price Raw deserialize_token_price) acc raw in
            if decide (length raw < L)%nat then mret acc'
            else token_prices_loop Raw L graph_token_prices deserialize_token_price
                   fuel
                   (token_price_params.mk (token_price_params.limit pv)
                      (token_price_params.offset pv + L)
                      (token_price_params.token_ids pv)) acc').
  rewrite fetch_bind_log. unfold query_token_prices.
  destruct (graph_token_prices pv) as [| |rows]; simpl; try done.
  case_decide; [done|]. apply IH.
Qed.

Lemma token_day_queries_app l1 l2 :
  token_day_queries (l1 ++ l2) = token_day_queries l1 ++ token_day_queries l2.
Proof. unfold token_day_queries. apply omap_app. Qed.

Lemma missing_price_messages_no_day_query unknown_tokens prices :
  token_day_queries (missing_price_messages unknown_tokens prices) = [].
Proof.
  unfold missing_price_messages.
  induction (filter _ unknown_tokens) as [|t l IH]; [done|]. exact IH.
Qed.

(** The queries that the resolution of the current prices sends to the
    secondary AMM are those of the fetch of the daily prices of the tokens
    that the protocol's own prices have left unresolved. *)
Lemma unknown_prices_day_queries fuel unknown_tokens bal :
  let addresses := foldl (set_add id) [] (EvmToken.evm_address <$> unknown_tokens) in
  result (balancer fuel addresses) = Ok bal ->
  token_day_queries (log (unknown_prices fuel unknown_tokens))
  = match graph_uniswap with
    | None => []
    | Some _ =>
        token_day_queries
          (log (uniswap fuel (filter (fun a => PyDict.get bal a = None) addresses)
                  None))
    end.
Proof.
  intros addresses Hbal. unfold _get_unknown_token_to_prices_graph. fold addresses.
  rewrite fetch_bind_log, Hbal, token_day_queries_app.
  unfold _get_unknown_token_to_prices_balancer_graph at 1.
  rewrite token_prices_loop_no_day_query. cbn [app].
  rewrite fetch_bind_log.
  destruct graph_uniswap as [query|] eqn:Hg.
  - rewrite fetch_bind_log, fetch_bind_result, suppress_RemoteError_result,
      suppress_RemoteError_log.
    set (m := _get_unknown_token_to_prices_uniswap_graph _ _ _ _ _ _ _ _ _ _).
    destruct (result m) as [uni|e|]; [| |by rewrite ?app_nil_r].
    + cbn [result mret fetch_ret log].
      by rewrite !token_day_queries_app, missing_price_messages_no_day_query,
        !app_nil_r.
    + destruct e; cbn [result mret fetch_ret log];
        by rewrite ?token_day_queries_app, ?missing_price_messages_no_day_query,
          ?app_nil_r.
  - cbn [result mret fetch_ret log]. rewrite token_day_queries_app.
    by rewrite missing_price_messages_no_day_query.
Qed.

Lemma unknown_prices_with_amm fuel unknown_tokens bal :
  let addresses := foldl (set_add id) [] (EvmToken.evm_address <$> unknown_tokens) in
  let still := filter (fun a => PyDict.get bal a = None) addresses in
  graph_uniswap ≠ None ->
  result (balancer fuel addresses) = Ok bal ->
  result (unknown_prices fuel unknown_tokens)
  = match result (uniswap fuel still None) with
    | Ok uni => Ok (dict_merge bal uni)
    | Raise RemoteError => Ok bal
    | Raise e => Raise e
    | Diverge => Diverge
    end
  /\ token_day_queries (log (unknown_prices fuel unknown_tokens))
     = token_day_queries (log (uniswap fuel still None)).
Proof.
  intros addresses still Hsome Hbal.
  pose proof (unknown_prices_result fuel unknown_tokens) as Hres.
  pose proof (unknown_prices_day_queries fuel unknown_tokens bal Hbal) as Hq.
  cbv zeta in Hres, Hq. fold addresses in Hres, Hq. rewrite Hbal in Hres.
  fold still in Hres, Hq. revert Hres Hq Hsome.
  destruct graph_uniswap as [query|]; [|done]. intros Hres Hq _. by split.
Qed.

Lemma unknown_prices_without_amm fuel unknown_tokens bal :
  let addresses := foldl (set_add id) [] (EvmToken.evm_address <$> unknown_tokens) in
  graph_uniswap = None ->
  result (balancer fuel addresses) = Ok bal ->
  result (unknown_prices fuel unknown_tokens) = Ok bal
  /\ token_day_queries (log (unknown_prices fuel unknown_tokens)) = [].
Proof.
  intros addresses Hnone Hbal.
  pose proof (unknown_prices_result fuel unknown_tokens) as Hres.
  pose proof (unknown_prices_day_queries fuel unknown_tokens bal Hbal) as Hq.
  cbv zeta in Hres, Hq. fold addresses in Hres, Hq. rewrite Hbal in Hres.
  revert Hres Hq Hnone.
  destruct graph_uniswap as [query|]; [done|]. intros Hres Hq _. by split.
Qed.

(** C9 (amended).  A historical price is the oracle query (with default
    zero) when the token has an oracle; otherwise it comes from the
    secondary AMM's daily price alone: the protocol's own price query is
    not sent, the lookup does what the fetch of the daily price of the
    token does, returns the price found (zero when there is none), a
    [RemoteError] of the secondary AMM is suppressed and gives the zero
    price, and any other failure propagates.  For the current prices of
    tokens without an oracle the protocol's own price query comes first and
    its failure propagates to the caller.  When the secondary AMM is not
    there the protocol's prices are the result.  When it is there it is
    asked next, for the tokens still unresolved and no other: its prices are
    merged over the protocol's, its [RemoteError] is caught and leaves the
    protocol's prices, and any other failure propagates.  Every token left
    without a price gets a message for the user and no entry in the
    result. *)
Theorem price_resolution_chain fuel token ts unknown_tokens :
  let addresses := foldl (set_add id) [] (EvmToken.evm_address <$> unknown_tokens) in
  let still_unknown := fun bal : list (ChecksumEvmAddress * Price) =>
    filter (fun a => PyDict.get bal a = None) addresses in
  (has_oracle token = true ->
     price_at fuel token ts
     = Fetch [] (Ok (query_usd_price_or_use_default token ts ZERO)))
  /\ (has_oracle token = false ->
        token_price_queries (log (price_at fuel token ts)) = []
        /\ log (price_at fuel token ts)
           = log (uniswap fuel [EvmToken.evm_address token] (Some ts))
        /\ result (price_at fuel token ts)
           = match result (uniswap fuel [EvmToken.evm_address token] (Some ts)) with
             | Ok prices =>
                 Ok (PyDict.get_or ZERO_PRICE prices (EvmToken.evm_address token))
             | Raise RemoteError => Ok ZERO_PRICE
             | Raise e => Raise e
             | Diverge => Diverge
             end)
  /\ (forall e, result (balancer fuel addresses) = Raise e ->
        result (unknown_prices fuel unknown_tokens) = Raise e)
  /\ (forall bal, result (balancer fuel addresses) = Ok bal ->
        (graph_uniswap = None ->
           result (unknown_prices fuel unknown_tokens) = Ok bal
           /\ token_day_queries (log (unknown_prices fuel unknown_tokens)) = [])
        /\ (graph_uniswap ≠ None ->
              token_day_queries (log (unknown_prices fuel unknown_tokens))
              = token_day_queries (log (uniswap fuel (still_unknown bal) None))
              /\ Forall (fun q => token_day_params.token_ids q
                                  = lower <$> still_unknown bal)
                   (token_day_queries (log (unknown_prices fuel unknown_tokens)))
              /\ (fuel ≠ 0%nat ->
                    head (token_day_queries
                            (log (unknown_prices fuel unknown_tokens)))
                    = Some (token_day_params.mk L 0 (lower <$> still_unknown bal)
                              (midnight_epoch_of now)))
              /\ (forall uni,
                    result (uniswap fuel (still_unknown bal) None) = Ok uni ->
                    result (unknown_prices fuel unknown_tokens)
                    = Ok (dict_merge bal uni)
                    /\ forall a,
                         PyDict.get (dict_merge bal uni) a
                         = match PyDict.get uni a with
                           | Some p => Some p
                           | None => PyDict.get bal a
                           end)
              /\ (result (uniswap fuel (still_unknown bal) None) = Raise RemoteError ->
                    result (unknown_prices fuel unknown_tokens) = Ok bal)
              /\ (forall e, e ≠ RemoteError ->
                    result (uniswap fuel (still_unknown bal) None) = Raise e ->
                    result (unknown_prices fuel unknown_tokens) = Raise e)))
  /\ (forall prices, result (unknown_prices fuel unknown_tokens) = Ok prices ->
        forall t, t ∈ unknown_tokens ->
          PyDict.get prices (EvmToken.evm_address t) = None ->
          AddError (MissingPrice (EvmToken.evm_address t))
            ∈ log (unknown_prices fuel unknown_tokens)).
Proof.
  intros addresses still_unknown.
  split_and!.
  - intros Horacle. unfold _get_token_price_at_timestamp_zero_if_error.
    by rewrite Horacle.
  - intros Horacle. split_and!.
    + rewrite price_at_log, Horacle. apply uniswap_no_price_query.
    + by rewrite price_at_log, Horacle.
    + by rewrite price_at_result, Horacle.
  - intros e He. pose proof (unknown_prices_result fuel unknown_tokens) as Hres.
    cbv zeta in Hres. fold addresses in Hres. by rewrite Hres, He.
  - intros bal Hbal. split.
    + intros Hnone. by apply unknown_prices_without_amm.
    + intros Hsome.
      destruct (unknown_prices_with_amm fuel unknown_tokens bal Hsome Hbal)
        as [Hres Hq].
      fold addresses in Hres, Hq. fold (still_unknown bal) in Hres, Hq.
      split_and!.
      * done.
      * rewrite Hq. unfold _get_unknown_token_to_prices_uniswap_graph.
        destruct (day_loop_queries fuel
                    (token_day_params.mk L 0 (lower <$> still_unknown bal)
                       (midnight_epoch_of (default now None))) []) as [Hall _].
        eapply Forall_impl; [exact Hall|]. by intros q [? _].
      * intros Hfuel. rewrite Hq. destruct fuel as [|fuel']; [done|].
        unfold _get_unknown_token_to_prices_uniswap_graph.
        by apply day_loop_queries.
      * intros uni Huni. rewrite Huni in Hres. split; [done|]. intros a.
        apply dict_merge_get.
        eapply day_loop_NoDup; [exact Huni | apply NoDup_nil_2].
      * intros Huni. by rewrite Huni in Hres.
      * intros e Hne Huni. rewrite Huni in Hres. by destruct e.
  - apply unknown_prices_messages.
Qed.
End facts.

Lemma price_resolution_chain_witness :
  let unknown_prices :=
    _get_unknown_token_to_prices_graph nat 2 Sample.graph_token_prices
      (Some Sample.graph_uniswap_dai) Sample.deserialize_token_price
      Sample.deserialize_token_day_data 0 (fun ts => ts) id in
  let tokens := [Sample.weth; Sample.token_of_address "0xDA1"] in
  (result (_get_unknown_token_to_prices_balancer_graph nat 2
             Sample.graph_token_prices Sample.deserialize_token_price id
             5%nat ["0xE7H"; "0xDA1"]) = Ok [("0xE7H", 5)]
   /\ result (_get_unknown_token_to_prices_uniswap_graph nat 2
                (Some Sample.graph_uniswap_dai) Sample.deserialize_token_day_data
                0 (fun ts => ts) id 5%nat ["0xDA1"] None) = Ok [("0xDA1", 3)])
  /\ result (unknown_prices 5%nat tokens) = Ok [("0xE7H", 5); ("0xDA1", 3)]
  /\ head (token_day_queries (log (unknown_prices 5%nat tokens)))
     = Some (token_day_params.mk 2 0 ["0xDA1"] 0).
Proof.
  intros unknown_prices tokens. subst unknown_prices tokens.
  assert (result (_get_unknown_token_to_prices_balancer_graph nat 2
                    Sample.graph_token_prices Sample.deserialize_token_price id
                    5%nat ["0xE7H"; "0xDA1"]) = Ok [("0xE7H", 5)]) as Hbal
    by (vm_compute; reflexivity).
  assert (result (_get_unknown_token_to_prices_uniswap_graph nat 2
                    (Some Sample.graph_uniswap_dai)
                    Sample.deserialize_token_day_data
                    0 (fun ts => ts) id 5%nat ["0xDA1"] None) = Ok [("0xDA1", 3)])
    as Huni by (vm_compute; reflexivity).
  pose proof (price_resolution_chain nat 2 Sample.graph_token_prices
                (Some Sample.graph_uniswap_dai) Sample.deserialize_token_price
                Sample.deserialize_token_day_data Sample.no_oracle
                Sample.oracle_price 0 (fun ts => ts) id 5%nat Sample.weth 100
                [Sample.weth; Sample.token_of_address "0xDA1"])
    as (_ & _ & _ & Hchain & _).
  destruct (Hchain [("0xE7H", 5)] Hbal) as [_ Hamm].
  destruct (Hamm ltac:(done)) as (_ & _ & Hhead & Hmerge & _).
  split; [by split|]. split.
  - exact (proj1 (Hmerge [("0xDA1", 3)] Huni)).
  - exact (Hhead ltac:(done)).
Defined.

(** A token without an oracle whose price only the protocol's own price
    query knows: the chain of the claim finds the price 5, the historical
    lookup returns zero without having asked.  And when the protocol's own
    price query fails, the resolution of the current prices does not catch
    the failure: it raises [RemoteError]. *)
Lemma historical_price_skips_the_protocol_price_query :
  result (_get_token_price_at_timestamp_zero_if_error nat 2
            (Some Sample.graph_uniswap_empty) (fun _ => None) Sample.no_oracle
            Sample.oracle_price 0 (fun ts => ts) id 5%nat Sample.weth 100)
  = Ok 0
  /\ spec_price nat 2 Sample.graph_token_prices (Some Sample.graph_uniswap_empty)
       Sample.deserialize_token_price (fun _ => None) Sample.no_oracle
       Sample.oracle_price 0 (fun ts => ts) id 5%nat Sample.weth 100 = 5
  /\ result (_get_unknown_token_to_prices_graph nat 2 Sample.graph_token_prices_down
               (Some Sample.graph_uniswap_empty) Sample.deserialize_token_price
               (fun _ => None) 0 (fun ts => ts) id 5%nat [Sample.weth])
     = Raise RemoteError.
Proof. vm_compute. by split_and!. Qed.
End PricesFacts.

(** ** More on the per-pool balances *)

Module BalanceAggregatorLaws.
Import BalanceAggregator PyDictFacts BalanceAggregatorFacts.

(** Appending to the list stored under a key of a dictionary of lists. *)
Lemma mjoin_set_present {K V} `{EqDecision K} (d : list (K * list V)) k l v :
  PyDict.get d k = Some l ->
  mjoin (PyDict.set d k (l ++ [v])).*2 ≡ₚ mjoin d.*2 ++ [v].
Proof.
  induction d as [|[k' l'] d IH]; csimpl; [done|].
  case_decide; subst.
  - intros [= ->]. csimpl. by rewrite <- !app_assoc, (comm (++) [v]).
  - intros Hget. csimpl. by rewrite IH, app_assoc.
Qed.

Lemma mjoin_set_absent {K V} `{EqDecision K} (d : list (K * list V)) k l :
  PyDict.get d k = None ->
  mjoin (PyDict.set d k l).*2 = mjoin d.*2 ++ l.
Proof.
  induction d as [|[k' l'] d IH]; csimpl; [by rewrite app_nil_r|].
  case_decide; [done|]. intros Hget. csimpl. by rewrite IH, app_assoc.
Qed.

Lemma mjoin_getitem_default_append {K V} `{EqDecision K} (d : list (K * list V)) k v :
  mjoin (PyDict.set (PyDict.getitem_default [] d k).2 k
           (PyDict.get_or [] d k ++ [v])).*2
  ≡ₚ mjoin d.*2 ++ [v].
Proof.
  unfold PyDict.getitem_default, PyDict.get_or.
  destruct (PyDict.get d k) as [l|] eqn:Hget; simpl.
  - by apply mjoin_set_present.
  - rewrite (mjoin_set_present (PyDict.set d k []) k [] v) by apply get_set_eq.
    by rewrite mjoin_set_absent, app_nil_r.
Qed.

Lemma StronglySorted_filter {A} (R : relation A) (P : A -> Prop)
    `{!forall x, Decision (P x)} l :
  StronglySorted R l -> StronglySorted R (filter P l).
Proof.
  induction 1 as [|x l Hl IH Hx]; [constructor|].
  rewrite filter_cons. case_decide; [|done].
  constructor; [done|]. apply Forall_forall. intros y Hy.
  apply list_elem_of_filter in Hy as [_ Hy]. by eapply Forall_forall in Hx.
Qed.

Section facts.
Variable MAXT : nat.

Abbreviation pool_of e := (BalancerEvent.pool_address_token e).

Lemma event_step_events d e :
  pool_addr_to_events (event_step MAXT d e)
  = PyDict.set (PyDict.getitem_default [] (pool_addr_to_events d) (pool_of e)).2
      (pool_of e) (PyDict.get_or [] (pool_addr_to_events d) (pool_of e) ++ [e]).
Proof.
  unfold event_step.
  pose proof (getitem_default_fst [] (pool_addr_to_events d) (pool_of e)) as H1.
  destruct (PyDict.getitem_default [] _ _) as [evs d_ev].
  destruct (PyDict.getitem_default (zero_amounts MAXT) _ _) as [pla d_pl].
  destruct (PyDict.getitem_default ZERO _ _) as [usd d_usd]. simpl in *.
  by subst evs.
Qed.

Lemma foldl_event_step_events es : forall d,
  mjoin (pool_addr_to_events (foldl (event_step MAXT) d es)).*2
  ≡ₚ mjoin (pool_addr_to_events d).*2 ++ es.
Proof.
  induction es as [|e es IH]; intros d; simpl; [by rewrite app_nil_r|].
  rewrite IH, event_step_events, mjoin_getitem_default_append.
  by rewrite <- app_assoc.
Qed.

Lemma balance_step_events d b d' :
  balance_step MAXT d b = Ok d' -> pool_addr_to_events d' = pool_addr_to_events d.
Proof.
  unfold balance_step.
  destruct (PyDict.getitem_default (zero_amounts MAXT) _ _) as [x d_pl0].
  destruct (for_each _ _ _) as [[d_pl d_usd]| |]; simpl; [|done|done].
  by intros [= <-].
Qed.

Lemma for_each_balance_step_events bs : forall d d',
  for_each (balance_step MAXT) bs d = Ok d' ->
  pool_addr_to_events d' = pool_addr_to_events d.
Proof.
  induction bs as [|b bs IH]; intros d d'; simpl; [by intros [= <-]|].
  destruct (balance_step MAXT d b) as [d1| |] eqn:Hstep; simpl; [|done|done].
  intros Hrun. rewrite (IH _ _ Hrun). by eapply balance_step_events.
Qed.

(** The entries of a result: one per key of the dictionary of events. *)
Lemma calculate_entries address events pool_balances out :
  _calculate_pool_events_balances MAXT address events pool_balances = Ok out ->
  BalancerPoolEventsBalance.events <$> out
  = (pool_addr_to_events (foldl (event_step MAXT) (mk_dicts [] [] []) events)).*2
  /\ forall r, r ∈ out ->
       BalancerPoolEventsBalance.events r
       = events_of (BalancerPoolEventsBalance.pool_address_token r) events.
Proof.
  unfold _calculate_pool_events_balances.
  set (d0 := foldl (event_step MAXT) (mk_dicts [] [] []) events).
  destruct (for_each (balance_step MAXT) pool_balances d0) as [d'| |] eqn:Hrun;
    simpl; [|done|done].
  intros [= <-]. apply for_each_balance_step_events in Hrun.
  rewrite Hrun. split.
  - rewrite <- list_fmap_compose. apply list_fmap_ext. by intros _ [p evs] _.
  - intros r Hr. apply list_elem_of_fmap in Hr as ([p evs] & -> & Hin). simpl.
    destruct (foldl_event_step_keys MAXT events (mk_dicts [] [] [])) as [Hnd _];
      [apply NoDup_nil_2|]. fold d0 in Hnd.
    apply (elem_of_get _ _ _ Hnd) in Hin.
    pose proof (foldl_event_step_ev MAXT events (mk_dicts [] [] []) p) as Hevs.
    fold d0 in Hevs. unfold PyDict.get_or in Hevs at 1.
    rewrite Hin in Hevs. simpl in Hevs. done.
Qed.

Lemma for_each_balance_step_overflow bs : forall d,
  lengths_ok MAXT d ->
  Exists (fun b =>
     (MAXT < length (BalancerPoolBalance.underlying_tokens_balance b))%nat) bs ->
  for_each (balance_step MAXT) bs d = Raise IndexError.
Proof.
  induction bs as [|b bs IH]; intros d Hok Hex; [by apply Exists_nil in Hex|].
  simpl.
  destruct (decide (length (BalancerPoolBalance.underlying_tokens_balance b)
                    <= MAXT)%nat) as [Hle|Hgt].
  - destruct (balance_step_ok MAXT d b Hok Hle) as (d1 & -> & Hok1 & _). simpl.
    apply IH; [done|]. apply Exists_cons in Hex as [?|?]; [lia | done].
  - unfold balance_step.
    set (pool := BalancerPoolBalance.pool_token b).
    pose proof (getitem_default_snd_get_or (zero_amounts MAXT)
      (pool_addr_to_profit_loss_amounts d) pool pool) as H0.
    destruct (PyDict.getitem_default (zero_amounts MAXT) _ pool) as [x d_pl0].
    simpl in H0. unfold enumerate.
    rewrite (token_loop_overflow MAXT pool); [done | | lia | lia].
    rewrite H0. apply Hok.
Qed.

(** X1.  A live pool balance with more underlying token balances than
    [POOL_MAX_NUMBER_TOKENS] makes the call fail with [IndexError], whatever
    the events are: the item assignment of line 163 runs past the end of the
    profit/loss vector. *)
Theorem pool_balance_over_the_token_limit_raises_IndexError
    address events pool_balances :
  Exists (fun b =>
     (MAXT < length (BalancerPoolBalance.underlying_tokens_balance b))%nat)
    pool_balances ->
  _calculate_pool_events_balances MAXT address events pool_balances
  = Raise IndexError.
Proof.
  intros Hex. unfold _calculate_pool_events_balances.
  rewrite for_each_balance_step_overflow; [done | | done].
  apply foldl_event_step_lengths, lengths_ok_empty.
Qed.

(** X2.  The entries of a result share out the events given: every event is
    in exactly one entry, the one of its pool, and within an entry the
    events keep the order they came in. *)
Theorem pool_events_balances_share_out_the_events
    address events pool_balances out :
  _calculate_pool_events_balances MAXT address events pool_balances = Ok out ->
  mjoin (BalancerPoolEventsBalance.events <$> out) ≡ₚ events
  /\ Forall (fun r =>
       BalancerPoolEventsBalance.events r `sublist_of` events
       /\ Forall (fun e => pool_of e = BalancerPoolEventsBalance.pool_address_token r)
            (BalancerPoolEventsBalance.events r)) out.
Proof.
  intros Hout. destruct (calculate_entries _ _ _ _ Hout) as [Hall Hof]. split.
  - rewrite Hall. by rewrite foldl_event_step_events.
  - apply Forall_forall. intros r Hr. rewrite (Hof r Hr). split.
    + apply sublist_filter.
    + apply Forall_forall. intros e He.
      by apply list_elem_of_filter in He as [? _].
Qed.
End facts.

Lemma pool_balance_over_the_token_limit_raises_IndexError_witness :
  _calculate_pool_events_balances 1 "0xA11CE" [Sample.mint_event]
    [BalancerPoolBalance.mk Sample.pool
       [BalancerPoolTokenBalance.mk (EvmToken.mk "0xDA1" []) (Balance.mk 3 4) 1;
        BalancerPoolTokenBalance.mk (EvmToken.mk "0xE7H" []) (Balance.mk 1 2) 2]
       (Balance.mk 1 6)]
  = Raise IndexError.
Proof.
  apply pool_balance_over_the_token_limit_raises_IndexError.
  apply Exists_cons_hd. simpl. lia.
Defined.

Lemma pool_events_balances_share_out_the_events_witness :
  let out :=
    [BalancerPoolEventsBalance.mk "0xA11CE" Sample.pool
       [Sample.mint_event; Sample.mint_event] [-10; 0] (-14)] in
  _calculate_pool_events_balances 8 "0xA11CE"
    [Sample.mint_event; Sample.mint_event] [] = Ok out
  /\ mjoin (BalancerPoolEventsBalance.events <$> out)
     ≡ₚ [Sample.mint_event; Sample.mint_event].
Proof.
  intros out.
  assert (_calculate_pool_events_balances 8 "0xA11CE"
            [Sample.mint_event; Sample.mint_event] [] = Ok out) as Hout
    by (vm_compute; reflexivity).
  split; [exact Hout|].
  exact (proj1 (pool_events_balances_share_out_the_events 8 _ _ _ _ Hout)).
Defined.
End BalanceAggregatorLaws.

(** ** More on the aggregation *)

Module EventAggregatorLaws.
Import EventAggregator Aggregated PyDictFacts.
Import BalanceAggregatorFacts EventAggregatorFacts.

Lemma for_each_preserves {A S} (body : S -> A -> outcome S) (I : S -> Prop) l :
  (forall s a s', a ∈ l -> I s -> body s a = Ok s' -> I s') ->
  forall s s', I s -> for_each body l s = Ok s' -> I s'.
Proof.
  induction l as [|a l IH]; intros Hbody s s' HI Hrun.
  - by inversion Hrun; subst.
  - apply for_each_Ok_inv in Hrun as (s1 & Hstep & Hrun).
    eapply (IH (fun s a s' Ha => Hbody s a s' (list_elem_of_further _ _ _ Ha)));
      [|exact Hrun].
    eapply Hbody; [by left | done | done].
Qed.

Lemma list_bind_bind {A B C} (f : A -> list B) (g : B -> list C) (l : list A) :
  (l ≫= f) ≫= g = l ≫= (fun a => f a ≫= g).
Proof.
  induction l as [|a l IH]; [done|]. by rewrite !bind_cons, bind_app, IH.
Qed.

Lemma omap_bind_option_list {A B} (f : A -> option B) (l : list A) :
  l ≫= (fun a => option_list (f a)) = omap f l.
Proof.
  induction l as [|a l IH]; [done|]. rewrite bind_cons, IH. simpl.
  by destruct (f a).
Qed.

Lemma list_bind_singleton {A} (l : list A) : l ≫= (fun x => [x]) = l.
Proof. induction l as [|a l IH]; [done|]. rewrite bind_cons, IH. done. Qed.

Lemma Forall2_eq_inv {A} (l k : list A) : Forall2 eq l k -> l = k.
Proof. induction 1; congruence. Qed.

Section facts.
Variable token_of_address : ChecksumEvmAddress -> EvmToken.t.
Variable token_price_at :
  EvmToken.t -> Timestamp -> list message * outcome Price.
Variable db_pools : list EvmToken.t.

Abbreviation price_of := (invest_price token_of_address token_price_at).
Abbreviation lookup_of := (invest_lookup token_of_address token_price_at).
Abbreviation made := (lookups_made token_of_address token_price_at).
Abbreviation step := (invest_step token_of_address token_price_at).
Abbreviation agg_step := (bpt_step token_of_address token_price_at).
Abbreviation addr_step := (address_step token_of_address token_price_at).
Abbreviation by_type :=
  (_get_balancer_aggregated_events_data_by_event_type token_of_address token_price_at).
Abbreviation pool_of := BalancerBPTEvent.pool_address_token.
Abbreviation message_of := (missing_price_message token_of_address).
Abbreviation initial_state := (Aggregated.initial_state db_pools).
Abbreviation pools_ok := (Aggregated.pools_ok db_pools).
Abbreviation item :=
  (BalancerBPTEventType * BalancerEventsData.t * BalancerBPTEvent.t)%type.

(** *** The amounts of a group *)

Lemma group_loop_amounts tm ty b l : forall g g',
  for_each (step (Some tm) ty b) l g = Ok g' ->
  forall idx,
    nth idx (g_amounts g') 0
    = nth idx (g_amounts g) 0
      + Zsum (BalancerInvestEvent.amount
                <$> filter (fun i => PyDict.get tm (BalancerInvestEvent.token_address i)
                                     = Some idx) l).
Proof.
  induction l as [|i l IH]; intros g g' Hrun idx.
  - inversion Hrun; subst. simpl. lia.
  - apply for_each_Ok_inv in Hrun as (g1 & Hstep & Hrun).
    rewrite (IH _ _ Hrun idx). unfold invest_step in Hstep.
    destruct (PyDict.get tm _) as [tidx|] eqn:Hidx; [|done].
    destruct (g_amounts g !! tidx) as [old|] eqn:Hold; [|done].
    assert (g_amounts g1
            = <[tidx := old + BalancerInvestEvent.amount i]> (g_amounts g)) as ->.
    { destruct (is_missing_token_price g); [by inversion Hstep|].
      destruct (token_price_at _ _) as [ms [p| |]]; simpl in Hstep; [|done|done].
      case_decide; by inversion Hstep. }
    rewrite nth_insert by (by eapply lookup_lt_Some).
    apply nth_lookup_Some with (d := 0) in Hold.
    rewrite filter_cons. destruct (decide (idx = tidx)) as [->|Hne].
    + rewrite decide_True by done. rewrite fmap_cons, Zsum_cons. lia.
    + rewrite decide_False by congruence. lia.
Qed.

(** *** The message of a group *)

Lemma invest_step_messages tm ty b g i g' :
  step tm ty b g i = Ok g' ->
  (is_missing_token_price g = true ->
     is_missing_token_price g' = true /\ g_msgs g' = g_msgs g)
  /\ (is_missing_token_price g = false ->
        is_missing_token_price g' = bool_decide (price_of i = ZERO)
        /\ g_msgs g'
           = g_msgs g ++ (lookup_of i).1
             ++ if decide (price_of i = ZERO) then [message_of ty b i] else []).
Proof.
  unfold invest_step, invest_price, invest_lookup, missing_price_message.
  intros Hstep.
  destruct tm as [tm|]; [|done].
  destruct (PyDict.get tm _) as [tidx|]; [|done].
  destruct (g_amounts g !! tidx) as [old|]; [|done].
  destruct (is_missing_token_price g) eqn:Hm.
  - inversion Hstep; subst; simpl. by split.
  - split; [done|]. intros _.
    destruct (token_price_at _ _) as [ms [p| |]]; simpl in Hstep; [|done|done].
    cbn [fst snd].
    destruct (decide (p = ZERO)) as [Hz|Hz]; inversion Hstep; subst; simpl.
    + done.
    + rewrite bool_decide_eq_false_2 by done. by rewrite app_nil_r.
Qed.

Lemma group_loop_messages tm ty b l : forall g g',
  for_each (step tm ty b) l g = Ok g' ->
  g_msgs g'
  = g_msgs g
    ++ if is_missing_token_price g then []
       else (made l ≫= fun i => (lookup_of i).1)
            ++ option_list (message_of ty b
                              <$> head (filter (fun i => price_of i = ZERO) l)).
Proof.
  induction l as [|i l IH]; intros g g' Hrun.
  - inversion Hrun; subst. destruct (is_missing_token_price g'); by rewrite app_nil_r.
  - apply for_each_Ok_inv in Hrun as (g1 & Hstep & Hrun).
    rewrite (IH _ _ Hrun).
    apply invest_step_messages in Hstep as [Hmiss Hok].
    rewrite filter_cons. cbn [lookups_made].
    destruct (is_missing_token_price g) eqn:Hm.
    + destruct (Hmiss eq_refl) as [-> ->]. done.
    + destruct (Hok eq_refl) as [-> ->].
      destruct (decide (price_of i = ZERO)) as [Hz|Hz].
      * rewrite bool_decide_eq_true_2 by done. rewrite bind_cons.
        change (@nil BalancerInvestEvent.t ≫= _) with (@nil message).
        simpl. by rewrite !app_nil_r.
      * rewrite bool_decide_eq_false_2 by done. rewrite bind_cons.
        by rewrite !app_nil_r, <- !app_assoc.
Qed.

(** The price lookups that a group makes have returned when its loop
    returns. *)
Lemma group_loop_lookups tm ty b l : forall g g',
  for_each (step tm ty b) l g = Ok g' ->
  is_missing_token_price g = false ->
  Forall (fun i => failure (lookup_of i).2 = None) (made l).
Proof.
  induction l as [|i l IH]; intros g g' Hrun Hm; [by apply Forall_nil|].
  apply for_each_Ok_inv in Hrun as (g1 & Hstep & Hrun).
  apply invest_step_inv in Hstep as (_ & _ & Hok).
  destruct (Hok Hm) as (Hret & _ & Hzero).
  cbn [lookups_made]. apply Forall_cons. split; [by rewrite Hret|].
  case_decide as Hz; [by apply Forall_nil|].
  eapply IH; [exact Hrun|].
  destruct (is_missing_token_price g1); [|done]. by destruct Hz, Hzero as [-> _].
Qed.

(** *** One BPT event *)

Lemma bpt_step_lookups ty events st b st' :
  index_ok st ->
  agg_step ty (group_invest_events (attr_invest_events ty events)) st b = Ok st' ->
  Forall (fun i => failure (lookup_of i).2 = None) (made (invest_group ty events b)).
Proof.
  intros Hok. rewrite bpt_step_unfold by done.
  destruct (invest_group ty events b) as [|first rest] eqn:Egroup; [done|].
  cbv zeta.
  destruct (match PyDict.get _ _ with Some _ => _ | None => _ end)
    as [index_map pools].
  destruct (for_each _ _ _) as [g| |] eqn:Hloop; [|done|done].
  intros _. by eapply group_loop_lookups.
Qed.

Lemma bpt_step_content ty events st b st' :
  index_ok st ->
  agg_step ty (group_invest_events (attr_invest_events ty events)) st b = Ok st' ->
  msgs st'
  = msgs st ++ group_messages token_of_address token_price_at (ty, events, b)
  /\ (pool_addr_to_token_addr_to_index st', balancer_pools st')
     = match PyDict.get (pool_addr_to_token_addr_to_index st) (pool_of b) with
       | Some _ => (pool_addr_to_token_addr_to_index st, balancer_pools st)
       | None =>
           (PyDict.set (pool_addr_to_token_addr_to_index st) (pool_of b)
              (token_addr_to_index (pool_of b)),
            balancer_pools st ++ [pool_of b])
       end
  /\ exists ev,
       balancer_events st' = balancer_events st ++ [ev]
       /\ BalancerEvent.pool_address_token ev = pool_of b
       /\ content (ty, events, b) ev.
Proof.
  intros Hok. rewrite bpt_step_unfold by done.
  unfold content, group_messages, group_message. cbn [fst snd].
  destruct (invest_group ty events b) as [|first rest] eqn:Egroup; [done|].
  cbv zeta. set (pool := pool_of b).
  destruct (match PyDict.get _ pool with Some _ => _ | None => _ end)
    as [index_map pools].
  destruct (for_each _ _ _) as [g| |] eqn:Hloop; [|done|done]. simpl.
  intros [= <-]. simpl.
  pose proof (group_loop_messages _ _ _ _ _ _ Hloop) as Hmsgs.
  pose proof (group_loop_amounts _ _ _ _ _ _ Hloop) as Hamounts.
  apply group_loop_inv in Hloop as (Hlen & _). simpl in Hlen, Hmsgs, Hamounts.
  split; [done|]. split; [done|]. eexists. split; [done|]. simpl.
  split; [done|]. split; [|done].
  rewrite length_replicate in Hlen.
  unfold amounts_of.
  apply (list_eq_same_length _ _ (length (EvmToken.underlying_tokens pool)));
    [by rewrite length_fmap, length_seq | done |].
  intros idx x y Hidx Hx Hy.
  apply nth_lookup_Some with (d := 0) in Hx.
  rewrite list_lookup_fmap, lookup_seq_lt in Hy by done. simpl in Hy.
  inversion Hy; subst. rewrite Hamounts.
  change (replicate ?n ZERO) with (BalanceAggregator.zero_amounts n).
  rewrite nth_zero_amounts. unfold amount_at. lia.
Qed.

(** *** The whole aggregation *)

(** A part of the state that every BPT event extends by what a function of
    the event describes is, in the end, extended by what the function
    describes for the events in turn. *)
Lemma aggregated_state_appends {B C} (out : state -> list B) (f : item -> list C)
    (R : C -> B -> Prop) data st :
  (forall ty events s b s',
     index_ok s ->
     agg_step ty (group_invest_events (attr_invest_events ty events)) s b = Ok s' ->
     exists bs, out s' = out s ++ bs /\ Forall2 R (f (ty, events, b)) bs) ->
  aggregated_state token_of_address token_price_at db_pools data = Ok st ->
  exists bs, out st = out initial_state ++ bs
             /\ Forall2 R (bpt_events_in_order data ≫= f) bs.
Proof.
  intros Hstep Hrun. rewrite aggregated_state_unfold in Hrun.
  eapply (for_each_appends _ out index_ok
            (fun ty => data.*2 ≫= (fun events =>
               attr_bpt_events ty events ≫= (fun b => f (ty, events, b)))) R)
    in Hrun; [| |apply index_ok_initial].
  - destruct Hrun as (_ & bs & Hout & HR). exists bs. split; [done|].
    rewrite bpt_events_in_order_bind, list_bind_bind.
    erewrite list_bind_ext; [exact HR| |done].
    intros ty. rewrite list_bind_bind. apply list_bind_ext; [|done].
    intros events. unfold in_order_of. rewrite list_bind_bind.
    apply list_bind_ext; [|done]. intros b. simpl. by rewrite app_nil_r.
  - intros s ty s' _ Hs Hty.
    unfold _get_balancer_aggregated_events_data_by_event_type in Hty.
    eapply (for_each_appends _ out index_ok
              (fun events => attr_bpt_events ty events ≫= (fun b => f (ty, events, b)))
              R) in Hty; [done| |done].
    intros s1 events s1' _ Hs1 Hev. unfold address_step in Hev.
    eapply (for_each_appends _ out index_ok (fun b => f (ty, events, b)) R) in Hev;
      [done| |done].
    intros s2 b s2' _ Hs2 Hb. split.
    + by destruct (bpt_step_inv _ _ _ _ _ _ _ Hs2 Hb).
    + by eapply Hstep.
Qed.

Lemma keys_of_db_pools (l : list EvmToken.t) : forall d p,
  p ∈ PyDict.keys
        (foldl (fun d db_pool => PyDict.set d db_pool (token_addr_to_index db_pool)) d l)
  <-> p ∈ PyDict.keys d \/ p ∈ l.
Proof.
  induction l as [|x l IH]; intros d p; simpl.
  - split; [by left|]. intros [?|H]; [done | by apply elem_of_nil in H].
  - rewrite IH. destruct (decide (x ∈ PyDict.keys d)) as [Hin|Hnin].
    + rewrite keys_set_present by done. rewrite elem_of_cons.
      split; [tauto|]. intros [?|[->|?]]; tauto.
    + rewrite keys_set_absent by done. rewrite elem_of_app, list_elem_of_singleton,
        elem_of_cons. tauto.
Qed.

Lemma pools_ok_initial : pools_ok initial_state.
Proof.
  split; [apply index_ok_initial|]. unfold initial_state. simpl. split_and!.
  - apply NoDup_nil_2.
  - intros p. rewrite keys_of_db_pools. split.
    + intros [H|?]; [by apply elem_of_nil in H | by left].
    + intros [?|H]; [by right | by apply elem_of_nil in H].
  - intros p H. by apply elem_of_nil in H.
  - intros ev H. by apply elem_of_nil in H.
Qed.

Lemma pools_ok_step ty events st b st' :
  pools_ok st ->
  agg_step ty (group_invest_events (attr_invest_events ty events)) st b = Ok st' ->
  pools_ok st'.
Proof.
  intros (Hidx & Hnd & Hkeys & Hnew & Hevs) Hstep.
  destruct (bpt_step_inv _ _ _ _ _ _ _ Hidx Hstep) as [Hidx' _].
  destruct (bpt_step_content _ _ _ _ _ Hidx Hstep)
    as (_ & Hupd & ev & Hout & Hpool & _).
  split; [done|].
  destruct (PyDict.get (pool_addr_to_token_addr_to_index st) (pool_of b)) eqn:Hget;
    inversion Hupd as [[Hi Hp]]; rewrite ?Hi, ?Hp, Hout.
  - assert (pool_of b ∈ PyDict.keys (pool_addr_to_token_addr_to_index st)) as Hin.
    { destruct (decide (pool_of b ∈ PyDict.keys (pool_addr_to_token_addr_to_index st)))
        as [?|Hn]; [done|]. apply get_None_keys in Hn. congruence. }
    split_and!; [done | done | |].
    + intros p Hp'. destruct (Hnew p Hp') as (? & ev' & ? & ?). split; [done|].
      exists ev'. split; [|done]. apply elem_of_app. by left.
    + intros ev' Hev'. apply elem_of_app in Hev' as [?|Heq]; [by apply Hevs|].
      apply list_elem_of_singleton in Heq. subst ev'. by rewrite Hpool.
  - apply get_None_keys in Hget.
    rewrite keys_set_absent by done.
    assert ((pool_of b ∉ db_pools) /\ (pool_of b ∉ balancer_pools st)) as [Hndb Hnp].
    { split; intros ?; apply Hget, Hkeys; tauto. }
    split_and!.
    + apply NoDup_app. split_and!; [done | | apply NoDup_singleton].
      intros x Hx Heq. apply list_elem_of_singleton in Heq. by subst x.
    + intros p. rewrite !elem_of_app, Hkeys. tauto.
    + intros p Hp'. apply elem_of_app in Hp' as [Hp'|Heq].
      * destruct (Hnew p Hp') as (? & ev' & ? & ?). split; [done|].
        exists ev'. split; [|done]. apply elem_of_app. by left.
      * apply list_elem_of_singleton in Heq. subst p. split; [done|].
        exists ev. split; [|done]. apply elem_of_app. right. by left.
    + intros ev' Hev'. apply elem_of_app in Hev' as [?|Heq].
      * apply elem_of_app. left. by apply Hevs.
      * apply list_elem_of_singleton in Heq. subst ev'.
        rewrite Hpool. apply elem_of_app. right. by left.
Qed.

Lemma aggregated_state_pools_ok data st :
  aggregated_state token_of_address token_price_at db_pools data = Ok st ->
  pools_ok st.
Proof.
  rewrite aggregated_state_unfold. intros Hrun.
  eapply (for_each_preserves _ pools_ok); [|apply pools_ok_initial|exact Hrun].
  intros s ty s' _ Hs Hty.
  eapply (for_each_preserves _ pools_ok); [|exact Hs|exact Hty].
  intros s1 events s1' _ Hs1 Hev.
  eapply (for_each_preserves _ pools_ok); [|exact Hs1|exact Hev].
  intros s2 b s2' _ Hs2 Hb. by eapply pools_ok_step.
Qed.

(** An aggregation that returns has made no price lookup that fails. *)
Lemma aggregated_lookups_made data evs :
  _get_balancer_aggregated_events_data token_of_address token_price_at db_pools data
  = Ok evs ->
  Forall (fun x => Forall (fun i => failure (lookup_of i).2 = None)
                     (made (invest_group x.1.1 x.1.2 x.2)))
    (bpt_events_in_order data).
Proof.
  unfold _get_balancer_aggregated_events_data.
  destruct (aggregated_state _ _ _ data) as [st| |] eqn:Hrun; [|done|done].
  intros _.
  eapply (aggregated_state_appends balancer_events (fun x => [x])
            (fun x _ => Forall (fun i => failure (lookup_of i).2 = None)
                          (made (invest_group x.1.1 x.1.2 x.2)))) in Hrun.
  - destruct Hrun as (bs & _ & HR). rewrite list_bind_singleton in HR.
    induction HR; [by apply Forall_nil | by apply Forall_cons].
  - intros ty events s b s' Hs Hstep.
    destruct (bpt_step_inv _ _ _ _ _ _ _ Hs Hstep) as (_ & ev & Hout & _).
    exists [ev]. split; [done|].
    apply Forall2_cons_2; [|apply Forall2_nil_2].
    by eapply bpt_step_lookups.
Qed.

(** X3.  The [BalancerEvent] built for a pool-token event holds, per
    underlying token of the pool, the sum of the amounts that the investment
    events of its group move of that token; its LP amount is the amount of
    the pool-token event and its timestamp that of the first investment
    event of the group. *)
Theorem aggregated_events_hold_the_amounts_of_their_group data evs :
  _get_balancer_aggregated_events_data token_of_address token_price_at db_pools data
  = Ok evs ->
  Forall2 content (bpt_events_in_order data) evs.
Proof.
  unfold _get_balancer_aggregated_events_data.
  destruct (aggregated_state _ _ _ data) as [st| |] eqn:Hrun; [|done|done].
  simpl. intros [= <-].
  eapply (aggregated_state_appends balancer_events (fun x => [x]) content) in Hrun.
  - destruct Hrun as (bs & Hout & HR). simpl in Hout. rewrite Hout.
    by rewrite list_bind_singleton in HR.
  - intros ty events s b s' Hs Hstep.
    destruct (bpt_step_content _ _ _ _ _ Hs Hstep) as (_ & _ & ev & Hout & _ & Hc).
    exists [ev]. split; [done|]. apply Forall2_cons_2; [done | apply Forall2_nil_2].
Qed.

(** X4.  The messages that a successful aggregation leaves are, in the
    order of the events and for every group: the messages of the price
    lookups that the group makes (one lookup per investment event, up to and
    including the first without a price), and then, when the group has an
    investment event without a price, the one message about the first such
    event; and nothing else. *)
Theorem aggregation_leaves_the_lookup_messages_and_one_per_unpriced_group data st :
  aggregated_state token_of_address token_price_at db_pools data = Ok st ->
  msgs st
  = bpt_events_in_order data ≫= group_messages token_of_address token_price_at.
Proof.
  intros Hrun.
  eapply (aggregated_state_appends msgs
            (group_messages token_of_address token_price_at) eq)
    in Hrun.
  - destruct Hrun as (bs & Hout & HR). simpl in Hout. rewrite Hout.
    by apply Forall2_eq_inv in HR.
  - intros ty events s b s' Hs Hstep.
    destruct (bpt_step_content _ _ _ _ _ Hs Hstep) as (Hmsgs & _).
    eexists. split; [exact Hmsgs|]. by apply Forall_Forall2_diag, Forall_true.
Qed.

(** X5.  A pool is entered into the token database ([add_evm_token_to_db])
    when and only when it is the pool of an event built and not one of the
    Balancer pools that the database already lists, and never twice in one
    aggregation. *)
Theorem new_pools_are_entered_exactly_once data st :
  aggregated_state token_of_address token_price_at db_pools data = Ok st ->
  NoDup (balancer_pools st)
  /\ forall p,
       p ∈ balancer_pools st
       <-> (p ∉ db_pools)
           /\ exists ev, ev ∈ balancer_events st
                         /\ BalancerEvent.pool_address_token ev = p.
Proof.
  intros Hrun. apply aggregated_state_pools_ok in Hrun
    as (_ & Hnd & Hkeys & Hnew & Hevs).
  split; [done|]. intros p. split; [apply Hnew|].
  intros (Hndb & ev & Hev & <-). apply Hevs, Hkeys in Hev. tauto.
Qed.
End facts.

Lemma aggregated_events_hold_the_amounts_of_their_group_witness :
  let ev := BalancerEvent.mk 1%N 3 "0xA11CE" 100 MINT Sample.pool
              (Balance.mk 100 100) [60; 40] in
  _get_balancer_aggregated_events_data Sample.token_of_address Sample.price_one []
    Sample.paired = Ok [ev]
  /\ Forall2 content (bpt_events_in_order Sample.paired) [ev].
Proof.
  intros ev.
  assert (_get_balancer_aggregated_events_data Sample.token_of_address
            Sample.price_one [] Sample.paired = Ok [ev]) as Hrun
    by (vm_compute; reflexivity).
  split; [exact Hrun|].
  exact (aggregated_events_hold_the_amounts_of_their_group Sample.token_of_address
           Sample.price_one [] Sample.paired [ev] Hrun).
Defined.

Lemma aggregation_leaves_the_lookup_messages_and_one_per_unpriced_group_witness :
  let ev := BalancerEvent.mk 1%N 3 "0xA11CE" 100 MINT Sample.pool
              (Balance.mk 100 0) [60; 40] in
  let st := mk_state [Sample.pool] [ev]
              [(Sample.pool, [("0xDA1", 0%nat); ("0xE7H", 1%nat)])]
              [UNISWAP_REMOTE_ERROR_MSG;
               MissingPriceAt "0xE7H" 100 MINT "0xP001" 1%N] in
  aggregated_state Sample.token_of_address SamplePages.price_uniswap_down []
    Sample.paired = Ok st
  /\ msgs st
     = bpt_events_in_order Sample.paired
         ≫= group_messages Sample.token_of_address SamplePages.price_uniswap_down.
Proof.
  intros ev st.
  assert (aggregated_state Sample.token_of_address SamplePages.price_uniswap_down []
            Sample.paired = Ok st) as Hrun by (vm_compute; reflexivity).
  split; [exact Hrun|].
  exact (aggregation_leaves_the_lookup_messages_and_one_per_unpriced_group Sample.token_of_address
           SamplePages.price_uniswap_down [] Sample.paired st Hrun).
Defined.

Lemma new_pools_are_entered_exactly_once_witness :
  let ev := BalancerEvent.mk 1%N 3 "0xA11CE" 100 MINT Sample.pool
              (Balance.mk 100 100) [60; 40] in
  let st := mk_state [Sample.pool] [ev; ev]
              [(Sample.pool, [("0xDA1", 0%nat); ("0xE7H", 1%nat)])] [] in
  aggregated_state Sample.token_of_address Sample.price_one []
    (Sample.paired ++ Sample.paired) = Ok st
  /\ NoDup (balancer_pools st)
  /\ forall p,
       p ∈ balancer_pools st
       <-> (p ∉ [])
           /\ exists ev, ev ∈ balancer_events st
                         /\ BalancerEvent.pool_address_token ev = p.
Proof.
  intros ev st.
  assert (aggregated_state Sample.token_of_address Sample.price_one []
            (Sample.paired ++ Sample.paired) = Ok st) as Hrun
    by (vm_compute; reflexivity).
  split; [exact Hrun|].
  exact (new_pools_are_entered_exactly_once Sample.token_of_address
           Sample.price_one [] (Sample.paired ++ Sample.paired) st Hrun).
Defined.
End EventAggregatorLaws.

(** ** More on the paginated fetches *)

Module GraphLaws.
Import Graph Paging PyDictFacts EventAggregatorFacts GraphFacts.

(** *** A page fed into a dictionary of sets: failures and provenance *)

Section pages.
Context {Raw E K : Type} `{EqDecision K}.
Variable deserialize : Raw -> option E.
Variable addr : E -> ChecksumEvmAddress.
Variable key : E -> K.
Variable add :
  list (ChecksumEvmAddress * list E) * option E -> Raw ->
  outcome (list (ChecksumEvmAddress * list E) * option E).
Hypothesis add_eq : forall st raw,
  add st raw
  = match deserialize raw with
    | None => Raise RemoteError
    | Some e =>
        let '(events, d) := PyDict.getitem_default [] st.1 (addr e) in
        Ok (PyDict.set d (addr e) (set_add key events e), Some e)
    end.

Lemma add_outcome st raw :
  (exists st', add st raw = Ok st') \/ add st raw = Raise RemoteError.
Proof.
  rewrite add_eq. destruct (deserialize raw) as [e|]; [|by right].
  destruct (PyDict.getitem_default [] st.1 (addr e)). left. by eexists.
Qed.

Lemma page_outcome page : forall st,
  (exists st', for_each add page st = Ok st')
  \/ for_each add page st = Raise RemoteError.
Proof.
  induction page as [|raw page IH]; intros st; [left; by eexists|].
  rewrite for_each_cons.
  destruct (add_outcome st raw) as [[st1 ->]| ->]; [apply IH | by right].
Qed.

(** After a page that is not empty the loop variable is bound. *)
Lemma page_binds_the_loop_variable page st st' :
  for_each add page st = Ok st' -> page ≠ [] -> is_Some st'.2.
Proof.
  intros Hrun Hne.
  destruct (page_inv deserialize addr key add add_eq _ _ _ Hrun)
    as (_ & _ & Hcov & ->).
  destruct (last page) as [raw|] eqn:Hlast; [|by apply last_None in Hlast].
  apply last_Some_elem_of in Hlast. rewrite Forall_forall in Hcov.
  destruct (Hcov raw Hlast) as (e & -> & _). by eexists.
Qed.

Lemma add_sound st raw st' x :
  add st raw = Ok st' -> holds st'.1 x -> holds st.1 x \/ deserialize raw = Some x.
Proof.
  intros Hadd (a & events & Hget & Hx).
  apply (add_inv deserialize addr key add add_eq) in Hadd as (e & He & _ & Hd).
  rewrite Hd, get_set in Hget. case_decide as Ha.
  - inversion Hget; subst events.
    apply set_add_elem_of in Hx as [Hx| ->]; [|by right]. left.
    unfold PyDict.get_or in Hx.
    destruct (PyDict.get st.1 (addr e)) as [l|] eqn:Hl; simpl in Hx;
      [|by apply elem_of_nil in Hx].
    by exists (addr e), l.
  - left. by exists a, events.
Qed.

Lemma page_sound page : forall st st' x,
  for_each add page st = Ok st' -> holds st'.1 x ->
  holds st.1 x \/ exists raw, raw ∈ page /\ deserialize raw = Some x.
Proof.
  induction page as [|raw page IH]; intros st st' x Hrun Hx.
  - inversion Hrun; subst. by left.
  - apply for_each_Ok_inv in Hrun as (st1 & Hstep & Hrun).
    destruct (IH _ _ _ Hrun Hx) as [H1|(raw' & Hin & Hd)].
    + destruct (add_sound _ _ _ _ Hstep H1) as [?|?]; [by left|].
      right. exists raw. split; [by left | done].
    + right. exists raw'. split; [by right | done].
Qed.
End pages.

Lemma holds_nil {E} (e : E) : ¬ holds [] e.
Proof. by intros (a & events & Hget & _). Qed.

Lemma holds_sorted {E} (R : E -> E -> Prop) `{!RelDecision R}
    (d : list (ChecksumEvmAddress * list E)) a events e :
  PyDict.get (prod_map id (merge_sort R) <$> d) a = Some events -> e ∈ events ->
  holds d e.
Proof.
  rewrite sorted_entries_get. destruct (PyDict.get d a) as [l|] eqn:Hl; [|done].
  intros [= <-] He. rewrite merge_sort_Permutation in He. by exists a, l.
Qed.

Lemma omap_nil_of_not_elem_of {A B} (f : A -> option B) (l : list A) :
  (forall x, x ∈ l -> f x = None) -> omap f l = [].
Proof.
  induction l as [|x l IH]; intros Hnone; [done|]. simpl.
  rewrite (Hnone x) by (by left). apply IH. intros ? ?. apply Hnone. by right.
Qed.

(** *** The loops *)

Section loops.
Variable Raw : Type.
Variable GRAPH_QUERY_LIMIT : nat.
Variable GRAPH_QUERY_SKIP_LIMIT : nat.
Variable graph_events_bpt : BalancerBPTEventType -> bpt_params.t -> response Raw.
Variable graph_events_invest :
  BalancerInvestEventType -> invest_params.t -> response Raw.
Variable deserialize_bpt_event :
  Raw -> BalancerBPTEventType -> option BalancerBPTEvent.t.
Variable deserialize_invest_event :
  Raw -> BalancerInvestEventType -> option BalancerInvestEvent.t.
Variable getitem_id : Raw -> option Raw.
Variable deserialize_transaction_id : Raw -> option (EVMTxHash * Z).
Context {KB KI : Type} `{EqDecision KB} `{EqDecision KI}.
Variable bpt_key : BalancerBPTEvent.t -> KB.
Variable invest_key : BalancerInvestEvent.t -> KI.
Variable lower : ChecksumEvmAddress -> ChecksumEvmAddress.

Abbreviation L := GRAPH_QUERY_LIMIT.
Abbreviation S_ := GRAPH_QUERY_SKIP_LIMIT.
Abbreviation add_bpt := (add_bpt_event Raw deserialize_bpt_event bpt_key).
Abbreviation add_invest :=
  (add_invest_event Raw deserialize_invest_event invest_key).
Abbreviation bloop :=
  (bpt_loop Raw L S_ graph_events_bpt deserialize_bpt_event bpt_key).
Abbreviation bnext := (bpt_next L S_).
Abbreviation bfetch :=
  (_get_address_to_bpt_events_graph Raw L S_ graph_events_bpt
     deserialize_bpt_event bpt_key lower).
Abbreviation iloop :=
  (invest_loop Raw L S_ graph_events_bpt graph_events_invest
     deserialize_bpt_event deserialize_invest_event getitem_id deserialize_transaction_id
     bpt_key invest_key lower).
Abbreviation inext := (invest_next L S_).
Abbreviation ifetch :=
  (_get_address_to_invest_events_graph Raw L S_ graph_events_bpt
     graph_events_invest deserialize_bpt_event deserialize_invest_event
     getitem_id deserialize_transaction_id bpt_key invest_key lower).
Abbreviation txs_of := (transactions_of Raw getitem_id deserialize_transaction_id).
Abbreviation turn :=
  (invest_turn Raw L S_ graph_events_invest deserialize_invest_event).
Abbreviation bpt_page ty :=
  (page_inv (fun raw => deserialize_bpt_event raw ty) BalancerBPTEvent.address
     bpt_key (add_bpt ty) (add_bpt_eq _ deserialize_bpt_event bpt_key ty)).

(** **** Failures *)

Lemma full_page_is_not_empty (rows : list Raw) :
  (0 < L)%nat -> ¬ (length rows < L)%nat -> rows ≠ [].
Proof. intros HL Hfull ->. simpl in Hfull. lia. Qed.

Lemma bpt_loop_raises fuel : (0 < L)%nat -> forall ty pv acc last e,
  result (bloop fuel ty pv acc last) = Raise e -> e = RemoteError.
Proof.
  intros HL. induction fuel as [|fuel IH]; intros ty pv acc last e; [done|].
  rewrite bpt_loop_result.
  destruct (graph_events_bpt ty pv) as [| |rows]; [by intros [= <-]..|].
  destruct (page_outcome (fun raw => deserialize_bpt_event raw ty)
              BalancerBPTEvent.address bpt_key (add_bpt ty)
              (add_bpt_eq _ deserialize_bpt_event bpt_key ty) rows (acc, last))
    as [[st Hpage]|Hpage]; rewrite Hpage; [|by intros [= <-]].
  case_decide as Hshort; [done|].
  destruct (page_binds_the_loop_variable (fun raw => deserialize_bpt_event raw ty)
              BalancerBPTEvent.address bpt_key (add_bpt ty)
              (add_bpt_eq _ deserialize_bpt_event bpt_key ty) _ _ _ Hpage)
    as [x Hx]; [by apply full_page_is_not_empty|].
  rewrite Hx. unfold bpt_next. case_decide; apply IH.
Qed.

(** What a row does to the gathering of the transaction ids when it
    raises [e]: it has no id, or its id does not deserialize. *)
Abbreviation id_raises raw e :=
  (e = KeyError /\ getitem_id raw = None
   \/ e = DeserializationError
      /\ exists raw_id, getitem_id raw = Some raw_id
                        /\ deserialize_transaction_id raw_id = None).

Lemma transactions_of_raises rows e :
  txs_of rows = Raise e -> exists raw, raw ∈ rows /\ id_raises raw e.
Proof.
  unfold transactions_of. generalize (@nil EVMTxHash).
  induction rows as [|raw rows IH]; intros acc; [done|].
  rewrite for_each_cons.
  destruct (getitem_id raw) as [raw_id|] eqn:Hid; simpl.
  - destruct (deserialize_transaction_id raw_id) as [[tx li]|] eqn:Hraw; simpl.
    + intros Hrun. destruct (IH _ Hrun) as (raw' & Hin & Hwhy).
      exists raw'. split; [by right | done].
    + intros [= <-]. exists raw. split; [by left|]. right. split; [done|].
      by exists raw_id.
  - intros [= <-]. exists raw. split; [by left|]. by left.
Qed.

Lemma invest_loop_raises fuel fuel_bpt addresses :
  (0 < L)%nat -> forall ty pv acc last e,
  result (iloop fuel fuel_bpt ty addresses pv acc last) = Raise e ->
  e = RemoteError
  \/ exists pv' rows raw,
       QueryInvest ty pv' ∈ log (iloop fuel fuel_bpt ty addresses pv acc last)
       /\ graph_events_invest ty pv' = Rows rows /\ raw ∈ rows
       /\ id_raises raw e.
Proof.
  intros HL. induction fuel as [|fuel IH]; intros ty pv acc last e; [done|].
  rewrite invest_loop_result, invest_loop_log.
  destruct (graph_events_invest ty pv) as [| |rows] eqn:Hq;
    [intros [= <-]; by left..|].
  destruct (txs_of rows) as [txs|e'|] eqn:Htxs; [| |done].
  2:{ intros [= <-]. destruct (transactions_of_raises _ _ Htxs) as (raw & ? & ?).
      right. exists pv, rows, raw. split; [by left | done]. }
  rewrite bpt_fetch_result.
  destruct (result (bloop fuel_bpt _ _ _ _)) as [mints|e'|] eqn:Hb; [| |done].
  2:{ intros [= <-]. left. by eapply bpt_loop_raises. }
  destruct (page_outcome (fun raw => deserialize_invest_event raw ty)
              BalancerInvestEvent.address invest_key (add_invest ty)
              (add_invest_eq _ deserialize_invest_event invest_key ty) rows (acc, last))
    as [[st Hpage]|Hpage]; rewrite Hpage; [|intros [= <-]; by left].
  case_decide as Hshort; [done|].
  destruct (page_binds_the_loop_variable (fun raw => deserialize_invest_event raw ty)
              BalancerInvestEvent.address invest_key (add_invest ty)
              (add_invest_eq _ deserialize_invest_event invest_key ty) _ _ _ Hpage)
    as [x Hx]; [by apply full_page_is_not_empty|].
  rewrite Hx.
  assert (exists pv', inext pv (Some x) = Ok pv') as [pv' ->]
    by (unfold invest_next; case_decide; by eexists).
  intros Hrun. destruct (IH _ _ _ _ _ Hrun) as [?|(pv1 & rows1 & raw & Hin & ?)];
    [by left|].
  right. exists pv1, rows1, raw. split; [|done].
  right. apply elem_of_app. by right.
Qed.

(** X6.  A fetch of pool-token events whose pages hold at least one row when
    full fails with [RemoteError] and nothing else: a failed query, a result
    without its key and a row that does not deserialize all end in it. *)
Theorem bpt_fetch_raises_only_RemoteError fuel addresses txs ty e :
  (0 < L)%nat ->
  result (_get_address_to_bpt_events_graph Raw L S_ graph_events_bpt
            deserialize_bpt_event bpt_key lower fuel addresses txs ty) = Raise e ->
  e = RemoteError.
Proof.
  intros HL. rewrite bpt_fetch_result.
  destruct (result (bloop _ _ _ _ _)) as [d|e'|] eqn:Hrun; [done| |done].
  intros [= <-]. by eapply bpt_loop_raises.
Qed.

(** X7.  A fetch of investment events fails with [RemoteError], except for
    what line 414 raises outside any [try]: the [KeyError] of a row of a
    page that has no id, and the [DeserializationError] of a row whose id
    does not deserialize, leave the fetch as they are. *)
Theorem invest_fetch_raises_RemoteError_KeyError_or_DeserializationError
    fuel fuel_bpt addresses ty start_ts end_ts e :
  (0 < L)%nat ->
  result (ifetch fuel fuel_bpt addresses ty start_ts end_ts) = Raise e ->
  e = RemoteError
  \/ exists pv rows raw,
       QueryInvest ty pv ∈ log (ifetch fuel fuel_bpt addresses ty start_ts end_ts)
       /\ graph_events_invest ty pv = Rows rows /\ raw ∈ rows
       /\ (e = KeyError /\ getitem_id raw = None
           \/ e = DeserializationError
              /\ exists raw_id, getitem_id raw = Some raw_id
                                /\ deserialize_transaction_id raw_id = None).
Proof.
  intros HL. rewrite invest_fetch_result, invest_fetch_log.
  destruct (result (iloop _ _ _ _ _ _ _)) as [d|e'|] eqn:Hrun; [done| |done].
  intros [= <-]. by eapply invest_loop_raises.
Qed.

(** **** Where the events of a result come from *)

Lemma bpt_loop_sound fuel : forall ty pv acc last out x,
  result (bloop fuel ty pv acc last) = Ok out -> holds out x ->
  holds acc x
  \/ exists pv' rows raw,
       QueryBPT ty pv' ∈ log (bloop fuel ty pv acc last)
       /\ graph_events_bpt ty pv' = Rows rows /\ raw ∈ rows
       /\ deserialize_bpt_event raw ty = Some x.
Proof.
  induction fuel as [|fuel IH]; intros ty pv acc last out x; [done|].
  rewrite bpt_loop_result, bpt_loop_log.
  destruct (graph_events_bpt ty pv) as [| |rows] eqn:Hq; try done.
  destruct (for_each _ rows _) as [st| |] eqn:Hpage; try done.
  pose proof (page_sound (fun raw => deserialize_bpt_event raw ty)
                BalancerBPTEvent.address bpt_key (add_bpt ty)
                (add_bpt_eq _ deserialize_bpt_event bpt_key ty) rows _ _ x Hpage)
    as Hsound. simpl in Hsound.
  assert (holds st.1 x ->
          holds acc x
          \/ exists raw, raw ∈ rows /\ deserialize_bpt_event raw ty = Some x)
    as Hst by done.
  case_decide as Hshort.
  - intros [= <-] Hx. destruct (Hst Hx) as [?|(raw & ? & ?)]; [by left|].
    right. exists pv, rows, raw. split; [by left | done].
  - destruct (bpt_next _ _ _ _) as [pv1| |] eqn:Hnext; try done.
    intros Hrun Hx.
    destruct (IH _ _ _ _ _ _ Hrun Hx) as [H1|(pv' & rows' & raw & Hin & ?)].
    + destruct (Hst H1) as [?|(raw & ? & ?)]; [by left|].
      right. exists pv, rows, raw. split; [by left | done].
    + right. exists pv', rows', raw. split; [by right | done].
Qed.

Lemma invest_loop_sound fuel fuel_bpt addresses : forall ty pv acc last out x,
  result (iloop fuel fuel_bpt ty addresses pv acc last) = Ok out -> holds out.1 x ->
  holds acc x
  \/ exists pv' rows raw,
       QueryInvest ty pv' ∈ log (iloop fuel fuel_bpt ty addresses pv acc last)
       /\ graph_events_invest ty pv' = Rows rows /\ raw ∈ rows
       /\ deserialize_invest_event raw ty = Some x.
Proof.
  induction fuel as [|fuel IH]; intros ty pv acc last out x; [done|].
  rewrite invest_loop_result, invest_loop_log.
  destruct (graph_events_invest ty pv) as [| |rows] eqn:Hq; try done.
  destruct (txs_of rows) as [txs| |]; try done.
  destruct (result (bfetch _ _ _ _)) as [mints| |]; try done.
  destruct (for_each _ rows _) as [st| |] eqn:Hpage; try done.
  pose proof (page_sound (fun raw => deserialize_invest_event raw ty)
                BalancerInvestEvent.address invest_key (add_invest ty)
                (add_invest_eq _ deserialize_invest_event invest_key ty)
                rows _ _ x Hpage) as Hsound. simpl in Hsound.
  assert (holds st.1 x ->
          holds acc x
          \/ exists raw, raw ∈ rows /\ deserialize_invest_event raw ty = Some x)
    as Hst by done.
  case_decide as Hshort.
  - intros [= <-] Hx. destruct (Hst Hx) as [?|(raw & ? & ?)]; [by left|].
    right. exists pv, rows, raw. split; [by left | done].
  - destruct (invest_next _ _ _ _) as [pv1| |] eqn:Hnext; try done.
    intros Hrun Hx.
    destruct (IH _ _ _ _ _ _ Hrun Hx) as [H1|(pv' & rows' & raw & Hin & ?)].
    + destruct (Hst H1) as [?|(raw & ? & ?)]; [by left|].
      right. exists pv, rows, raw. split; [by left | done].
    + right. exists pv', rows', raw. split; [|done].
      right. apply elem_of_app. by right.
Qed.

(** X8.  A fetch invents nothing: every pool-token event of its result, and
    every investment event of the result of a fetch of investment events, is
    the deserialization of a row of a page that the fetch asked for. *)
Theorem fetched_events_come_from_the_pages
    fuel fuel_bpt addresses txs bty ity start_ts end_ts :
  (forall out a events e,
     result (bfetch fuel addresses txs bty) = Ok out ->
     PyDict.get out a = Some events -> e ∈ events ->
     exists pv rows raw,
       QueryBPT bty pv ∈ log (bfetch fuel addresses txs bty)
       /\ graph_events_bpt bty pv = Rows rows /\ raw ∈ rows
       /\ deserialize_bpt_event raw bty = Some e)
  /\ (forall out a events e,
        result (ifetch fuel fuel_bpt addresses ity start_ts end_ts) = Ok out ->
        PyDict.get out.1 a = Some events -> e ∈ events ->
        exists pv rows raw,
          QueryInvest ity pv
            ∈ log (ifetch fuel fuel_bpt addresses ity start_ts end_ts)
          /\ graph_events_invest ity pv = Rows rows /\ raw ∈ rows
          /\ deserialize_invest_event raw ity = Some e).
Proof.
  split.
  - intros out a events e. rewrite bpt_fetch_result, bpt_fetch_log.
    destruct (result (bloop _ _ _ _ _)) as [d| |] eqn:Hrun; try done.
    intros [= <-] Hget He.
    destruct (bpt_loop_sound _ _ _ _ _ _ e Hrun) as [H0|?]; [|by apply holds_nil in H0|done].
    by eapply holds_sorted.
  - intros out a events e. rewrite invest_fetch_result, invest_fetch_log.
    destruct (result (iloop _ _ _ _ _ _ _)) as [r| |] eqn:Hrun; try done.
    intros [= <-] Hget He. simpl in Hget.
    destruct (invest_loop_sound _ _ _ _ _ _ _ _ e Hrun) as [H0|?];
      [|by apply holds_nil in H0|done].
    by eapply holds_sorted.
Qed.

(** **** The paging rule of the investment events *)

Lemma invest_queries_app l1 l2 :
  invest_queries (l1 ++ l2) = invest_queries l1 ++ invest_queries l2.
Proof. apply omap_app. Qed.

Lemma bpt_fetch_no_invest_query fuel addresses txs ty :
  invest_queries (log (bfetch fuel addresses txs ty)) = [].
Proof.
  rewrite bpt_fetch_log. apply omap_nil_of_not_elem_of.
  intros [| ity ipv | | | |] Hin; try done.
  by apply (bpt_loop_log_no_invest _ L S_ graph_events_bpt deserialize_bpt_event bpt_key)
    in Hin.
Qed.

(** The investment queries of one turn of the loop. *)
Lemma invest_loop_queries fuel fuel_bpt ty addresses pv acc last :
  invest_queries (log (iloop (S fuel) fuel_bpt ty addresses pv acc last))
  = pv ::
    match graph_events_invest ty pv with
    | Rows rows =>
        match txs_of rows with
        | Ok txs =>
            match result (bfetch fuel_bpt addresses txs (mint_or_burn_type ty)) with
            | Ok mints =>
                match for_each (add_invest ty) rows (acc, last) with
                | Ok st =>
                    if decide (length rows < L)%nat then []
                    else match inext pv st.2 with
                         | Ok pv' =>
                             invest_queries
                               (log (iloop fuel fuel_bpt ty addresses pv' st.1 st.2))
                         | _ => []
                         end
                | _ => []
                end
            | _ => []
            end
        | _ => []
        end
    | _ => []
    end.
Proof.
  rewrite invest_loop_log. cbn [invest_queries omap list_omap].
  change (list_omap ?f ?l) with (omap f l). f_equal.
  destruct (graph_events_invest ty pv) as [| |rows]; try done.
  destruct (txs_of rows) as [txs| |]; try done.
  fold (invest_queries
          (log (bfetch fuel_bpt addresses txs (mint_or_burn_type ty)) ++
           match result (bfetch fuel_bpt addresses txs (mint_or_burn_type ty)) with
           | Ok mints =>
               match for_each (add_invest ty) rows (acc, last) with
               | Ok st =>
                   if decide (length rows < L)%nat then []
                   else match inext pv st.2 with
                        | Ok pv' => log (iloop fuel fuel_bpt ty addresses pv' st.1 st.2)
                        | _ => []
                        end
               | _ => []
               end
           | _ => []
           end)).
  rewrite invest_queries_app, bpt_fetch_no_invest_query. simpl.
  destruct (result (bfetch _ _ _ _)) as [mints| |]; try done.
  destruct (for_each _ rows _) as [st| |]; try done.
  case_decide; [done|]. by destruct (invest_next _ _ _ _).
Qed.

Lemma invest_next_turn ty pv rows acc last st pv' :
  graph_events_invest ty pv = Rows rows ->
  for_each (add_invest ty) rows (acc, last) = Ok st ->
  ¬ (length rows < L)%nat ->
  invest_next L S_ pv st.2 = Ok pv' ->
  turn ty pv pv'.
Proof.
  intros Hq Hpage Hfull Hnext. exists rows. split; [done|]. split; [lia|].
  destruct (page_inv (fun raw => deserialize_invest_event raw ty)
              BalancerInvestEvent.address invest_key (add_invest ty)
              (add_invest_eq _ deserialize_invest_event invest_key ty)
              rows _ _ Hpage) as (_ & _ & _ & Hlast).
  unfold invest_next in Hnext. case_decide as Hoff.
  - destruct st.2 as [e|] eqn:He; [|done]. inversion Hnext; subst pv'. simpl.
    split_and!; try done. intros _. split; [done|].
    intros raw Hraw. rewrite Hraw in Hlast. by exists e.
  - inversion Hnext; subst pv'. simpl. by split_and!.
Qed.

(** X9.  The queries of a fetch of investment events start at the given
    parameters; each query follows the one before by the paging rule; and a
    page shorter than the limit is the last one. *)
Theorem invest_requests_follow_the_paging_rule fuel fuel_bpt addresses :
  forall ty pv acc last,
  let qs := invest_queries (log (iloop fuel fuel_bpt ty addresses pv acc last)) in
  (forall p, head qs = Some p -> p = pv)
  /\ (forall i p q, qs !! i = Some p -> qs !! S i = Some q -> turn ty p q)
  /\ (forall i p rows,
        qs !! i = Some p -> graph_events_invest ty p = Rows rows ->
        (length rows < L)%nat -> qs !! S i = None).
Proof.
  induction fuel as [|fuel IH]; intros ty pv acc last; [done|].
  cbv zeta. rewrite invest_loop_queries.
  assert (forall tl : list invest_params.t, tl = [] ->
    (forall p, head (pv :: tl) = Some p -> p = pv)
    /\ (forall i p q, (pv :: tl) !! i = Some p -> (pv :: tl) !! S i = Some q ->
          turn ty p q)
    /\ (forall i p rows, (pv :: tl) !! i = Some p ->
          graph_events_invest ty p = Rows rows ->
          (length rows < L)%nat -> (pv :: tl) !! S i = None)) as Hone.
  { intros tl ->. split_and!; [by intros p [= <-] | by intros [|[|i]] | by intros [|[|i]]]. }
  destruct (graph_events_invest ty pv) as [| |rows] eqn:Hq; [by apply Hone..|].
  destruct (txs_of rows) as [txs| |]; [|by apply Hone..].
  destruct (result (bfetch _ _ _ _)) as [mints| |]; [|by apply Hone..].
  destruct (for_each _ rows _) as [st| |] eqn:Hpage; [|by apply Hone..].
  case_decide as Hshort; [by apply Hone|].
  destruct (invest_next _ _ _ _) as [pv'| |] eqn:Hnext; [|by apply Hone..].
  destruct (IH ty pv' st.1 st.2) as (Hhead & Hturn & Hend).
  split_and!.
  - by intros p [= <-].
  - intros [|i] p q Hp Hq'; simpl in Hp, Hq'.
    + inversion Hp; subst p.
      assert (q = pv') as ->.
      { apply Hhead. by destruct (invest_queries _). }
      by eapply invest_next_turn.
    + by eapply Hturn.
  - intros [|i] p rows' Hp Hq' Hlen; simpl in Hp.
    + inversion Hp; subst p. rewrite Hq in Hq'. inversion Hq'; subst rows'. done.
    + simpl. by eapply Hend.
Qed.

(** **** The pool-token events of a fetch of investment events *)

Lemma invest_loop_last_page fuel fuel_bpt addresses : forall ty pv acc last out,
  result (iloop fuel fuel_bpt ty addresses pv acc last) = Ok out ->
  exists pv' rows txs,
    list.last (invest_queries (log (iloop fuel fuel_bpt ty addresses pv acc last)))
    = Some pv'
    /\ graph_events_invest ty pv' = Rows rows
    /\ (length rows < L)%nat
    /\ txs_of rows = Ok txs
    /\ result (bfetch fuel_bpt addresses txs (mint_or_burn_type ty)) = Ok out.2.
Proof.
  induction fuel as [|fuel IH]; intros ty pv acc last out; [done|].
  rewrite invest_loop_result, invest_loop_queries.
  destruct (graph_events_invest ty pv) as [| |rows] eqn:Hq; try done.
  destruct (txs_of rows) as [txs| |] eqn:Htxs; try done.
  destruct (result (bfetch _ _ _ _)) as [mints| |] eqn:Hmints; try done.
  destruct (for_each _ rows _) as [st| |] eqn:Hpage; try done.
  case_decide as Hshort.
  - intros [= <-]. exists pv, rows, txs. by split_and!.
  - destruct (invest_next _ _ _ _) as [pv1| |] eqn:Hnext; try done.
    intros Hrun. destruct (IH _ _ _ _ _ Hrun) as (pv' & rows' & txs' & Hlast & ?).
    exists pv', rows', txs'. split; [|done].
    rewrite last_cons, Hlast. done.
Qed.

(** X10.  The pool-token events that a fetch of investment events returns
    are those of the transactions of its last page alone: line 415 assigns
    [address_to_mint_events] anew on every page, so the pool-token events
    fetched for the pages before are dropped. *)
Theorem invest_fetch_returns_the_pool_token_events_of_its_last_page
    fuel fuel_bpt addresses ty start_ts end_ts out :
  result (ifetch fuel fuel_bpt addresses ty start_ts end_ts) = Ok out ->
  exists pv rows txs,
    list.last (invest_queries
                 (log (ifetch fuel fuel_bpt addresses ty start_ts end_ts)))
    = Some pv
    /\ graph_events_invest ty pv = Rows rows
    /\ (length rows < L)%nat
    /\ txs_of rows = Ok txs
    /\ result (bfetch fuel_bpt addresses txs (mint_or_burn_type ty)) = Ok out.2.
Proof.
  rewrite invest_fetch_result, invest_fetch_log.
  destruct (result (iloop _ _ _ _ _ _ _)) as [r| |] eqn:Hrun; try done.
  intros [= <-]. simpl. by eapply invest_loop_last_page.
Qed.
End loops.

Lemma bpt_fetch_raises_only_RemoteError_witness :
  result (_get_address_to_bpt_events_graph nat 2 2 (fun _ _ => Rows [99%nat])
            Sample.deserialize_bpt_event Sample.bpt_key id 5 ["0xA11CE"] [] MINT)
  = Raise RemoteError.
Proof.
  destruct (result _) as [d|e|] eqn:Hrun;
    [by vm_compute in Hrun | | by vm_compute in Hrun].
  f_equal.
  apply (bpt_fetch_raises_only_RemoteError nat 2 2 (fun _ _ => Rows [99%nat])
           Sample.deserialize_bpt_event Sample.bpt_key id 5 ["0xA11CE"] [] MINT e);
    [lia | exact Hrun].
Defined.

Lemma invest_fetch_raises_RemoteError_KeyError_or_DeserializationError_witness :
  result (_get_address_to_invest_events_graph nat 2 2 Sample.graph_events_bpt
            (fun _ _ => Rows [4%nat]) Sample.deserialize_bpt_event
            Sample.deserialize_invest_event Sample.getitem_id
            Sample.deserialize_transaction_id
            Sample.bpt_key Sample.invest_key id 5 5 ["0xA11CE"] ADD_LIQUIDITY 0 1000)
  = Raise KeyError.
Proof.
  destruct (result _) as [d|e|] eqn:Hrun;
    [by vm_compute in Hrun | | by vm_compute in Hrun].
  f_equal.
  destruct (invest_fetch_raises_RemoteError_KeyError_or_DeserializationError nat 2 2
              Sample.graph_events_bpt (fun _ _ => Rows [4%nat])
              Sample.deserialize_bpt_event Sample.deserialize_invest_event
              Sample.getitem_id Sample.deserialize_transaction_id Sample.bpt_key
              Sample.invest_key
              id 5 5 ["0xA11CE"] ADD_LIQUIDITY 0 1000 e)
    as [He|(pv & rows & raw & _ & _ & _ & [[He _]|[He _]])];
    [lia | exact Hrun | | exact He |]; subst e; by vm_compute in Hrun.
Defined.

Lemma fetched_events_come_from_the_pages_witness :
  exists pv rows raw,
    QueryInvest ADD_LIQUIDITY pv
      ∈ log (Sample.fetch_invest Sample.graph_events_bpt ["0xA11CE"]
               ADD_LIQUIDITY 0 1000)
    /\ Sample.graph_events_invest ADD_LIQUIDITY pv = Rows rows /\ raw ∈ rows
    /\ Sample.deserialize_invest_event raw ADD_LIQUIDITY = Some Sample.add_later.
Proof.
  eapply (proj2 (fetched_events_come_from_the_pages nat 2 2 Sample.graph_events_bpt
                   Sample.graph_events_invest Sample.deserialize_bpt_event
                   Sample.deserialize_invest_event
                   Sample.getitem_id Sample.deserialize_transaction_id
                   Sample.bpt_key Sample.invest_key id 5 5 ["0xA11CE"] [] MINT
                   ADD_LIQUIDITY 0 1000)
            ([("0xA11CE", [Sample.add_dai; Sample.add_eth; Sample.add_later])],
             [("0xA11CE", [Sample.mint_later])])
            "0xA11CE" [Sample.add_dai; Sample.add_eth; Sample.add_later]).
  - vm_compute. reflexivity.
  - vm_compute. reflexivity.
  - set_solver.
Defined.

Lemma invest_requests_follow_the_paging_rule_witness :
  let p0 := invest_params.mk 2 0 ["0xA11CE"] 0 1000 in
  let p1 := invest_params.mk 2 2 ["0xA11CE"] 0 1000 in
  let p2 := invest_params.mk 2 0 ["0xA11CE"] 200 1000 in
  let turn := invest_turn nat 2 2 Sample.graph_events_invest
                Sample.deserialize_invest_event ADD_LIQUIDITY in
  invest_queries
    (log (invest_loop nat 2 2 Sample.graph_events_bpt Sample.graph_events_invest
            Sample.deserialize_bpt_event Sample.deserialize_invest_event

            Sample.getitem_id Sample.deserialize_transaction_id Sample.bpt_key Sample.invest_key id
            5 5 ADD_LIQUIDITY ["0xA11CE"] p0 [] None))
  = [p0; p1; p2]
  /\ turn p0 p1 /\ turn p1 p2.
Proof.
  intros p0 p1 p2 turn.
  pose proof (invest_requests_follow_the_paging_rule nat 2 2 Sample.graph_events_bpt
                Sample.graph_events_invest Sample.deserialize_bpt_event
                Sample.deserialize_invest_event
                Sample.getitem_id Sample.deserialize_transaction_id
                Sample.bpt_key Sample.invest_key id 5 5 ["0xA11CE"] ADD_LIQUIDITY
                p0 [] None) as Hrule.
  cbv zeta in Hrule.
  assert (invest_queries
            (log (invest_loop nat 2 2 Sample.graph_events_bpt
                    Sample.graph_events_invest Sample.deserialize_bpt_event
                    Sample.deserialize_invest_event
                    Sample.getitem_id Sample.deserialize_transaction_id Sample.bpt_key
                    Sample.invest_key id 5 5 ADD_LIQUIDITY ["0xA11CE"] p0 [] None))
          = [p0; p1; p2]) as Hqs by (vm_compute; reflexivity).
  rewrite Hqs in Hrule. destruct Hrule as (_ & Hturn & _).
  split; [exact Hqs|]. split.
  - apply (Hturn 0%nat); reflexivity.
  - apply (Hturn 1%nat); reflexivity.
Defined.

Lemma invest_fetch_returns_the_pool_token_events_of_its_last_page_witness :
  let out := ([("0xA11CE", [Sample.add_dai; Sample.add_eth; Sample.add_later])],
              [("0xA11CE", [Sample.mint_later])]) in
  result (Sample.fetch_invest Sample.graph_events_bpt ["0xA11CE"] ADD_LIQUIDITY
            0 1000) = Ok out
  /\ exists pv rows txs,
       last (invest_queries
               (log (Sample.fetch_invest Sample.graph_events_bpt ["0xA11CE"]
                       ADD_LIQUIDITY 0 1000))) = Some pv
       /\ Sample.graph_events_invest ADD_LIQUIDITY pv = Rows rows
       /\ (length rows < 2)%nat
       /\ transactions_of nat
       Sample.getitem_id Sample.deserialize_transaction_id rows = Ok txs
       /\ result (_get_address_to_bpt_events_graph nat 2 2 Sample.graph_events_bpt
                    Sample.deserialize_bpt_event Sample.bpt_key id 5 ["0xA11CE"]
                    txs MINT) = Ok out.2.
Proof.
  intros out.
  assert (result (Sample.fetch_invest Sample.graph_events_bpt ["0xA11CE"]
                    ADD_LIQUIDITY 0 1000) = Ok out) as Hrun
    by (vm_compute; reflexivity).
  split; [exact Hrun|].
  exact (invest_fetch_returns_the_pool_token_events_of_its_last_page nat 2 2
           Sample.graph_events_bpt Sample.graph_events_invest
           Sample.deserialize_bpt_event Sample.deserialize_invest_event

           Sample.getitem_id Sample.deserialize_transaction_id Sample.bpt_key Sample.invest_key id
           5 5 ["0xA11CE"] ADD_LIQUIDITY 0 1000 out Hrun).
Defined.

Lemma bpt_requests_follow_the_paging_rule_witness :
  let p0 := bpt_params.mk 1 0 IdZero ["0xA11CE"] [] in
  let p1 := bpt_params.mk 1 1 IdZero ["0xA11CE"] [] in
  let p2 := bpt_params.mk 1 0 (IdOf 2 2) ["0xA11CE"] [] in
  let turn := bpt_turn nat 1 1 SamplePages.graph_events_bpt
                Sample.deserialize_bpt_event MINT in
  bpt_queries
    (log (bpt_loop nat 1 1 SamplePages.graph_events_bpt Sample.deserialize_bpt_event
            Sample.bpt_key 5 MINT p0 [] None))
  = [p0; p1; p2]
  /\ turn p0 p1 /\ turn p1 p2.
Proof.
  intros p0 p1 p2 turn.
  pose proof (bpt_requests_follow_the_paging_rule nat 1 1 SamplePages.graph_events_bpt
                Sample.deserialize_bpt_event Sample.bpt_key 5 MINT p0 [] None)
    as Hrule.
  cbv zeta in Hrule.
  assert (bpt_queries
            (log (bpt_loop nat 1 1 SamplePages.graph_events_bpt
                    Sample.deserialize_bpt_event Sample.bpt_key 5 MINT p0 [] None))
          = [p0; p1; p2]) as Hqs by (vm_compute; reflexivity).
  rewrite Hqs in Hrule. destruct Hrule as (_ & Hturn & _).
  split; [exact Hqs|]. split.
  - apply (Hturn 0%nat); reflexivity.
  - apply (Hturn 1%nat); reflexivity.
Defined.
End GraphLaws.

(** ** More on the live balances and the prices *)

Module PricesLaws.
Import Graph Prices Pages PyDictFacts.
Import BalanceAggregatorFacts EventAggregatorFacts GraphFacts PricesFacts.

Lemma for_each_raises_only {A S} (body : S -> A -> outcome S) (e0 : exn) l :
  (forall s a e, body s a = Raise e -> e = e0) ->
  forall s e, for_each body l s = Raise e -> e = e0.
Proof.
  intros Hbody. induction l as [|a l IH]; intros s e; [done|].
  rewrite for_each_cons. destruct (body s a) as [s1|e1|] eqn:Hstep; simpl.
  - apply IH.
  - intros [= <-]. by eapply Hbody.
  - done.
Qed.

Lemma rows_of_cons {P R} (graph : P -> response R) pv qs :
  rows_of graph (pv :: qs)
  = match graph pv with Rows rows => rows | _ => [] end ++ rows_of graph qs.
Proof. done. Qed.

Lemma foldl_set_add_id {A} `{EqDecision A} (l : list A) : forall s x,
  x ∈ foldl (set_add id) s l <-> x ∈ s \/ x ∈ l.
Proof.
  induction l as [|a l IH]; intros s x; simpl.
  - split; [by left|]. intros [?|H]; [done | by apply elem_of_nil in H].
  - rewrite IH, elem_of_cons. split.
    + intros [Hx|?]; [|tauto].
      apply set_add_elem_of in Hx as [?|?]; tauto.
    + intros [?|[->|?]]; [left; by apply set_add_mono | | tauto].
      left. pose proof (set_add_present id s a) as Hex.
      apply Exists_exists in Hex as (y & Hy & Heq). simpl in Heq. by subst y.
Qed.

Lemma set_add_id_NoDup {A} `{EqDecision A} (s : list A) x :
  NoDup s -> NoDup (set_add id s x).
Proof.
  intros Hnd. rewrite <- (list_fmap_id (set_add id s x)).
  apply set_add_NoDup. by rewrite list_fmap_id.
Qed.

(** *** The pool shares *)

Section pool_shares.
Variable Raw : Type.
Variable GRAPH_QUERY_LIMIT : nat.
Variable graph_pool_shares : pool_share_params.t -> response Raw.
Variable deserialize_pool_share :
  Raw -> option (ChecksumEvmAddress * BalancerPoolBalance.t).
Variable has_oracle : EvmToken.t -> bool.
Variable token_of_address : ChecksumEvmAddress -> EvmToken.t.
Variable lower : ChecksumEvmAddress -> ChecksumEvmAddress.

Abbreviation L := GRAPH_QUERY_LIMIT.
Abbreviation add_share :=
  (add_pool_share Raw deserialize_pool_share has_oracle token_of_address).
Abbreviation ploop :=
  (pool_shares_loop Raw L graph_pool_shares deserialize_pool_share has_oracle
     token_of_address).
Abbreviation protocol_balance :=
  (_get_protocol_balance_graph Raw L graph_pool_shares deserialize_pool_share
     has_oracle token_of_address lower).
Abbreviation next_shares pv :=
  (pool_share_params.mk (pool_share_params.limit pv)
     (pool_share_params.offset pv + L)
     (pool_share_params.addresses pv) (pool_share_params.balance pv)).
Abbreviation shares_of := (pool_shares_of Raw deserialize_pool_share).
Abbreviation tokens_of := (share_tokens Raw deserialize_pool_share token_of_address).

Lemma pool_shares_loop_result fuel pv pb :
  result (ploop (S fuel) pv pb)
  = match graph_pool_shares pv with
    | QueryFailed | MissingKey => Raise RemoteError
    | Rows rows =>
        match for_each add_share rows pb with
        | Ok pb' =>
            if decide (length rows < L)%nat then Ok pb'
            else result (ploop fuel (next_shares pv) pb')
        | Raise e => Raise e
        | Diverge => Diverge
        end
    end.
Proof.
  simpl. unfold query_pool_shares.
  destruct (graph_pool_shares pv) as [| |rows]; try done. simpl.
  rewrite !fetch_bind_result. simpl.
  destruct (for_each _ rows _) as [pb'| |]; simpl; try done.
  by case_decide.
Qed.

(** The loop folds the rows of all its pages into the protocol balance. *)
Lemma pool_shares_loop_run fuel : forall pv pb pb',
  result (ploop fuel pv pb) = Ok pb' ->
  for_each add_share
    (rows_of graph_pool_shares (pool_share_queries (log (ploop fuel pv pb)))) pb
  = Ok pb'.
Proof.
  induction fuel as [|fuel IH]; intros pv pb pb'; [done|].
  rewrite pool_shares_loop_result, pool_shares_loop_log.
  cbn [pool_share_queries omap list_omap].
  change (list_omap ?f ?l) with (omap f l).
  rewrite rows_of_cons.
  destruct (graph_pool_shares pv) as [| |rows]; try done.
  destruct (for_each _ rows _) as [pb1| |] eqn:Hpage; try done.
  rewrite for_each_app, Hpage. simpl.
  case_decide; [by intros [= <-]|]. apply IH.
Qed.

Lemma pool_shares_loop_raises fuel : forall pv pb e,
  result (ploop fuel pv pb) = Raise e -> e = RemoteError.
Proof.
  induction fuel as [|fuel IH]; intros pv pb e; [done|].
  rewrite pool_shares_loop_result.
  destruct (graph_pool_shares pv) as [| |rows]; [by intros [= <-]..|].
  destruct (for_each _ rows _) as [pb1|e1|] eqn:Hpage; [| |done].
  - case_decide; [done | apply IH].
  - intros [= <-]. eapply (for_each_raises_only add_share RemoteError); [|exact Hpage].
    intros s a e'. unfold add_pool_share.
    destruct (deserialize_pool_share a) as [[address pool]|]; [|by intros [= <-]].
    by destruct (PyDict.getitem_default _ _ _).
Qed.

Lemma classify_tokens tokens : forall sets t,
  let sets' := foldl (classify_token has_oracle token_of_address) sets tokens in
  (NoDup sets.1 -> NoDup sets'.1)
  /\ (NoDup sets.2 -> NoDup sets'.2)
  /\ (t ∈ sets'.1
      <-> t ∈ sets.1 \/ has_oracle t = true /\ t ∈ token_of_address <$> tokens)
  /\ (t ∈ sets'.2
      <-> t ∈ sets.2 \/ has_oracle t = false /\ t ∈ token_of_address <$> tokens).
Proof.
  induction tokens as [|a tokens IH]; intros sets t; csimpl.
  - split_and!; try done.
    + split; [by left|]. intros [?|[_ H]]; [done | by apply elem_of_nil in H].
    + split; [by left|]. intros [?|[_ H]]; [done | by apply elem_of_nil in H].
  - destruct (IH (classify_token has_oracle token_of_address sets a) t)
      as (Hnd1 & Hnd2 & Hk & Hu).
    unfold classify_token in *.
    destruct (has_oracle (token_of_address a)) eqn:Ha; csimpl in *.
    + split_and!.
      * intros ?. by apply Hnd1, set_add_id_NoDup.
      * done.
      * rewrite Hk, ?fmap_cons, elem_of_cons. split.
        -- intros [Hin|[? ?]]; [|tauto].
           apply set_add_elem_of in Hin as [?| ->]; tauto.
        -- intros [?|[Ht [->|?]]]; [left; by apply set_add_mono | | tauto].
           left. pose proof (set_add_present id sets.1 (token_of_address a)) as Hex.
           apply Exists_exists in Hex as (y & Hy & Heq). simpl in Heq. by subst y.
      * rewrite Hu, ?fmap_cons, elem_of_cons. split; [tauto|].
        intros [?|[Ht [->|?]]]; [tauto | congruence | tauto].
    + split_and!.
      * done.
      * intros ?. by apply Hnd2, set_add_id_NoDup.
      * rewrite Hk, ?fmap_cons, elem_of_cons. split; [tauto|].
        intros [?|[Ht [->|?]]]; [tauto | congruence | tauto].
      * rewrite Hu, ?fmap_cons, elem_of_cons. split.
        -- intros [Hin|[? ?]]; [|tauto].
           apply set_add_elem_of in Hin as [?| ->]; tauto.
        -- intros [?|[Ht [->|?]]]; [left; by apply set_add_mono | | tauto].
           left. pose proof (set_add_present id sets.2 (token_of_address a)) as Hex.
           apply Exists_exists in Hex as (y & Hy & Heq). simpl in Heq. by subst y.
Qed.

(** What a list of rows, folded into a protocol balance, leaves in it. *)
Lemma add_pool_shares rows : forall pb pb',
  for_each add_share rows pb = Ok pb' ->
  (forall a,
     PyDict.get_or [] (ProtocolBalance.address_to_pool_balances pb') a
     = PyDict.get_or [] (ProtocolBalance.address_to_pool_balances pb) a
       ++ shares_of a rows)
  /\ (NoDup (ProtocolBalance.known_tokens pb) ->
        NoDup (ProtocolBalance.known_tokens pb'))
  /\ (NoDup (ProtocolBalance.unknown_tokens pb) ->
        NoDup (ProtocolBalance.unknown_tokens pb'))
  /\ (forall t,
        t ∈ ProtocolBalance.known_tokens pb'
        <-> t ∈ ProtocolBalance.known_tokens pb
            \/ has_oracle t = true /\ t ∈ tokens_of rows)
  /\ (forall t,
        t ∈ ProtocolBalance.unknown_tokens pb'
        <-> t ∈ ProtocolBalance.unknown_tokens pb
            \/ has_oracle t = false /\ t ∈ tokens_of rows).
Proof.
  induction rows as [|raw rows IH]; intros pb pb' Hrun.
  - inversion Hrun; subst. split_and!; try done.
    + intros a. by rewrite app_nil_r.
    + intros t. split; [by left|]. intros [?|[_ H]]; [done | by apply elem_of_nil in H].
    + intros t. split; [by left|]. intros [?|[_ H]]; [done | by apply elem_of_nil in H].
  - apply for_each_Ok_inv in Hrun as (pb1 & Hstep & Hrun).
    destruct (IH _ _ Hrun) as (Hd & Hnk & Hnu & Hk & Hu).
    unfold add_pool_share in Hstep.
    unfold pool_shares_of, share_tokens. rewrite bind_cons. cbn [omap list_omap].
    change (list_omap ?f ?l) with (omap f l).
    fold (shares_of) (tokens_of).
    destruct (deserialize_pool_share raw) as [[address pool]|] eqn:Hraw; [|done].
    pose proof (getitem_default_fst [] (ProtocolBalance.address_to_pool_balances pb)
                  address) as H1.
    pose proof (getitem_default_snd_get_or []
                  (ProtocolBalance.address_to_pool_balances pb) address) as H2.
    destruct (PyDict.getitem_default [] _ address) as [pools d]. simpl in H1, H2.
    inversion Hstep as [Hpb1]. clear Hstep.
    pose proof (fun t => classify_tokens
                  (EvmToken.underlying_tokens (BalancerPoolBalance.pool_token pool))
                  (ProtocolBalance.known_tokens pb, ProtocolBalance.unknown_tokens pb) t)
      as Hc. cbv zeta in Hc. simpl in Hc.
    rewrite <- Hpb1 in Hd, Hnk, Hnu, Hk, Hu. simpl in Hd, Hnk, Hnu, Hk, Hu.
    split_and!.
    + intros a. rewrite Hd, get_or_set, H2. subst pools.
      destruct (decide (address = a)) as [Ha|Ha]; [|done].
      subst a. by rewrite <- app_assoc.
    + intros Hnd. apply Hnk. by apply (Hc (token_of_address "")).
    + intros Hnd. apply Hnu. by apply (Hc (token_of_address "")).
    + intros t. rewrite Hk. destruct (Hc t) as (_ & _ & -> & _).
      rewrite elem_of_app. tauto.
    + intros t. rewrite Hu. destruct (Hc t) as (_ & _ & _ & ->).
      rewrite elem_of_app. tauto.
Qed.

(** X13.  The live balances list, per address and in the order of the pages,
    the pool share of every row of every page asked for: unlike the events,
    rows that come twice are kept twice. *)
Theorem protocol_balance_lists_every_pool_share fuel addresses pb :
  result (protocol_balance fuel addresses) = Ok pb ->
  forall a,
    PyDict.get_or [] (ProtocolBalance.address_to_pool_balances pb) a
    = shares_of a
        (rows_of graph_pool_shares
           (pool_share_queries (log (protocol_balance fuel addresses)))).
Proof.
  intros Hrun a. apply pool_shares_loop_run, add_pool_shares in Hrun as (Hd & _).
  by rewrite Hd.
Qed.

(** X14.  The tokens that the fetch of the live balances hands on for
    pricing are the underlying tokens of the pools of its rows, each one
    once: those with an oracle as known tokens, the others as unknown
    tokens. *)
Theorem protocol_balance_classifies_the_tokens_by_oracle fuel addresses pb :
  result (protocol_balance fuel addresses) = Ok pb ->
  let tokens :=
    tokens_of (rows_of graph_pool_shares
                 (pool_share_queries (log (protocol_balance fuel addresses)))) in
  NoDup (ProtocolBalance.known_tokens pb)
  /\ NoDup (ProtocolBalance.unknown_tokens pb)
  /\ forall t,
       (t ∈ ProtocolBalance.known_tokens pb <-> has_oracle t = true /\ t ∈ tokens)
       /\ (t ∈ ProtocolBalance.unknown_tokens pb
           <-> has_oracle t = false /\ t ∈ tokens).
Proof.
  intros Hrun. apply pool_shares_loop_run, add_pool_shares in Hrun
    as (_ & Hnk & Hnu & Hk & Hu). simpl in *.
  split; [apply Hnk, NoDup_nil_2|]. split; [apply Hnu, NoDup_nil_2|].
  intros t. rewrite Hk, Hu. split; split; try tauto.
  - intros [H|?]; [by apply elem_of_nil in H | done].
  - intros [H|?]; [by apply elem_of_nil in H | done].
Qed.
End pool_shares.

(** *** The prices of the tokens with an oracle *)

Section known_prices.
Variable find_usd_price : EvmToken.t -> Price.

Abbreviation known_prices := (_get_known_token_to_prices find_usd_price).
Abbreviation known_step :=
  (fun (d : list (ChecksumEvmAddress * Price)) token =>
     if decide (find_usd_price token = ZERO_PRICE) then d
     else PyDict.set d (EvmToken.evm_address token) (find_usd_price token)).

Lemma known_prices_fold l : forall d msgs,
  foldl (fun (acc : fetch (list (ChecksumEvmAddress * Price))) token =>
           token_to_prices ← acc;
           let usd_price := find_usd_price token in
           if decide (usd_price = ZERO_PRICE) then
             _ ← tell (AddError (MissingPrice (EvmToken.evm_address token)));
             mret token_to_prices
           else mret (PyDict.set token_to_prices (EvmToken.evm_address token) usd_price))
    (Fetch msgs (Ok d)) l
  = Fetch (msgs ++ ((fun t => AddError (MissingPrice (EvmToken.evm_address t)))
                      <$> filter (fun t => find_usd_price t = ZERO_PRICE) l))
      (Ok (foldl known_step d l)).
Proof.
  induction l as [|t l IH]; intros d msgs; [by simpl; rewrite app_nil_r|].
  cbn [foldl].
  match goal with
  | |- foldl _ ?m l = _ =>
      assert (m = Fetch (msgs ++ if decide (find_usd_price t = ZERO_PRICE)
                                 then [AddError (MissingPrice (EvmToken.evm_address t))]
                                 else [])
                    (Ok (known_step d t))) as ->
  end.
  { unfold mbind, fetch_bind, tell, mret, fetch_ret. cbn [result log].
    case_decide; cbn [result log]; by rewrite ?app_nil_r. }
  rewrite IH, filter_cons.
  case_decide; [by rewrite fmap_cons, <- app_assoc | by rewrite app_nil_r].
Qed.

Lemma known_prices_run known_tokens :
  known_prices known_tokens
  = Fetch ((fun t => AddError (MissingPrice (EvmToken.evm_address t)))
             <$> filter (fun t => find_usd_price t = ZERO_PRICE) known_tokens)
      (Ok (foldl known_step [] known_tokens)).
Proof. apply (known_prices_fold known_tokens [] []). Qed.

Lemma known_step_get l : forall d a p,
  PyDict.get (foldl known_step d l) a = Some p ->
  PyDict.get d a = Some p
  \/ exists t, t ∈ l /\ EvmToken.evm_address t = a /\ find_usd_price t = p
                /\ p ≠ ZERO_PRICE.
Proof.
  induction l as [|t l IH]; intros d a p; simpl; [by left|].
  intros Hget. destruct (IH _ _ _ Hget) as [Hd|(t' & ? & ? & ? & ?)].
  - case_decide as Hz; [by left|]. rewrite get_set in Hd. case_decide as Ha.
    + inversion Hd; subst. right. exists t. split; [by left | done].
    + by left.
  - right. exists t'. split; [by right | done].
Qed.

Lemma known_step_priced l : forall d t,
  (t ∈ l /\ find_usd_price t ≠ ZERO_PRICE
   \/ is_Some (PyDict.get d (EvmToken.evm_address t))) ->
  is_Some (PyDict.get (foldl known_step d l) (EvmToken.evm_address t)).
Proof.
  induction l as [|x l IH]; intros d t; simpl.
  - intros [[H _]|?]; [by apply elem_of_nil in H | done].
  - intros [[Hin Hnz]|Hd]; apply IH.
    + apply elem_of_cons in Hin as [->|?]; [|by left]. right.
      rewrite decide_False by done. rewrite get_set_eq. by eexists.
    + right. case_decide; [done|]. rewrite get_set. by case_decide.
Qed.

(** X15.  The prices of the known tokens: the call asks no subgraph and
    never fails; it returns a price for the tokens whose oracle price is not
    zero, and that price; and it leaves one message for every token whose
    oracle price is zero. *)
Theorem known_token_prices_are_the_nonzero_oracle_prices known_tokens :
  exists prices,
    result (known_prices known_tokens) = Ok prices
    /\ log (known_prices known_tokens)
       = (fun t => AddError (MissingPrice (EvmToken.evm_address t)))
           <$> filter (fun t => find_usd_price t = ZERO_PRICE) known_tokens
    /\ (forall a p, PyDict.get prices a = Some p ->
          p ≠ ZERO_PRICE
          /\ exists t, t ∈ known_tokens /\ EvmToken.evm_address t = a
                        /\ find_usd_price t = p)
    /\ (forall t, t ∈ known_tokens -> find_usd_price t ≠ ZERO_PRICE ->
          is_Some (PyDict.get prices (EvmToken.evm_address t))).
Proof.
  rewrite known_prices_run. eexists. split; [done|]. split; [done|]. split.
  - intros a p Hget. apply known_step_get in Hget as [?|(t & ? & ? & ? & ?)]; [done|].
    split; [done|]. by exists t.
  - intros t Hin Hnz. apply known_step_priced. by left.
Qed.
End known_prices.

(** *** The prices of the tokens without an oracle *)

Section token_prices.
Variable Raw : Type.
Variable GRAPH_QUERY_LIMIT : nat.
Variable graph_token_prices : token_price_params.t -> response Raw.
Variable uniswap_query : token_day_params.t -> response Raw.
Variable deserialize_token_price : Raw -> option (ChecksumEvmAddress * Price).
Variable deserialize_token_day_data : Raw -> option (ChecksumEvmAddress * Price).
Variable now : Timestamp.
Variable midnight_epoch_of : Timestamp -> Z.
Variable lower : ChecksumEvmAddress -> ChecksumEvmAddress.

Abbreviation L := GRAPH_QUERY_LIMIT.
Abbreviation tloop :=
  (token_prices_loop Raw L graph_token_prices deserialize_token_price).
Abbreviation dloop :=
  (token_day_datas_loop Raw L (Some uniswap_query) deserialize_token_day_data).
Abbreviation balancer :=
  (_get_unknown_token_to_prices_balancer_graph Raw L graph_token_prices
     deserialize_token_price lower).
Abbreviation uniswap :=
  (_get_unknown_token_to_prices_uniswap_graph Raw L (Some uniswap_query)
     deserialize_token_day_data now midnight_epoch_of lower).
Abbreviation next_prices pv :=
  (token_price_params.mk (token_price_params.limit pv)
     (token_price_params.offset pv + L) (token_price_params.token_ids pv)).
Abbreviation next_days pv :=
  (token_day_params.mk (token_day_params.limit pv)
     (token_day_params.offset pv + L) (token_day_params.token_ids pv)
     (token_day_params.datetime pv)).

Lemma token_prices_loop_turn fuel pv acc :
  tloop (S fuel) pv acc
  = match graph_token_prices pv with
    | QueryFailed =>
        Fetch [QueryTokenPrices pv; AddError SUBGRAPH_REMOTE_ERROR_MSG]
          (Raise RemoteError)
    | MissingKey => Fetch [QueryTokenPrices pv] (Raise RemoteError)
    | Rows rows =>
        let acc' := foldl (add_price Raw deserialize_token_price) acc rows in
        if decide (length rows < L)%nat then Fetch [QueryTokenPrices pv] (Ok acc')
        else
          let r := tloop fuel (next_prices pv) acc' in
          Fetch (QueryTokenPrices pv :: log r) (result r)
    end.
Proof.
  simpl. unfold query_token_prices.
  destruct (graph_token_prices pv) as [| |rows]; try done.
  unfold mbind, fetch_bind. simpl. by case_decide.
Qed.

Lemma token_day_datas_loop_turn fuel pv acc :
  dloop (S fuel) pv acc
  = match uniswap_query pv with
    | QueryFailed =>
        Fetch [QueryTokenDayDatas pv; AddError UNISWAP_REMOTE_ERROR_MSG]
          (Raise RemoteError)
    | MissingKey => Fetch [QueryTokenDayDatas pv] (Raise RemoteError)
    | Rows rows =>
        let acc' := foldl (add_price Raw deserialize_token_day_data) acc rows in
        if decide (length rows < L)%nat then Fetch [QueryTokenDayDatas pv] (Ok acc')
        else
          let r := dloop fuel (next_days pv) acc' in
          Fetch (QueryTokenDayDatas pv :: log r) (result r)
    end.
Proof.
  simpl. unfold query_token_day_datas.
  destruct (uniswap_query pv) as [| |rows]; try done.
  unfold mbind, fetch_bind. simpl. by case_decide.
Qed.

Lemma token_prices_loop_run fuel : forall pv acc,
  let m := tloop fuel pv acc in
  let qs := token_price_queries (log m) in
  (forall prices, result m = Ok prices ->
     prices = foldl (add_price Raw deserialize_token_price) acc
                (rows_of graph_token_prices qs))
  /\ (forall e, result m = Raise e -> e = RemoteError)
  /\ (forall p, head qs = Some p -> p = pv)
  /\ (forall i p q, qs !! i = Some p -> qs !! S i = Some q -> q = next_prices p).
Proof.
  induction fuel as [|fuel IH]; intros pv acc; [done|].
  cbv zeta. rewrite token_prices_loop_turn.
  destruct (graph_token_prices pv) as [| |rows] eqn:Hq.
  - split_and!; [done | by intros e [= <-] | by intros p [= <-] | by intros [|[|i]]].
  - split_and!; [done | by intros e [= <-] | by intros p [= <-] | by intros [|[|i]]].
  - cbv zeta. case_decide as Hshort.
    + split_and!; [|done | by intros p [= <-] | by intros [|[|i]]].
      intros prices [= <-]. cbn. rewrite Hq. by rewrite app_nil_r.
    + destruct (IH (next_prices pv)
                  (foldl (add_price Raw deserialize_token_price) acc rows))
        as (Hres & Hraise & Hhead & Hnext).
      cbn [log result token_price_queries omap list_omap].
      change (list_omap ?f ?l) with (omap f l).
      fold (token_price_queries
              (log (tloop fuel (next_prices pv)
                      (foldl (add_price Raw deserialize_token_price) acc rows)))).
      split_and!.
      * intros prices Hp. rewrite rows_of_cons, Hq, foldl_app. by apply Hres.
      * done.
      * by intros p [= <-].
      * intros [|i] p q Hp Hq'; simpl in Hp, Hq'.
        -- inversion Hp; subst p. apply Hhead. by destruct (token_price_queries _).
        -- by eapply Hnext.
Qed.

Lemma token_day_datas_loop_run fuel : forall pv acc,
  let m := dloop fuel pv acc in
  let qs := token_day_queries (log m) in
  (forall prices, result m = Ok prices ->
     prices = foldl (add_price Raw deserialize_token_day_data) acc
                (rows_of uniswap_query qs))
  /\ (forall e, result m = Raise e -> e = RemoteError)
  /\ (forall p, head qs = Some p -> p = pv)
  /\ (forall i p q, qs !! i = Some p -> qs !! S i = Some q -> q = next_days p).
Proof.
  induction fuel as [|fuel IH]; intros pv acc; [done|].
  cbv zeta. rewrite token_day_datas_loop_turn.
  destruct (uniswap_query pv) as [| |rows] eqn:Hq.
  - split_and!; [done | by intros e [= <-] | by intros p [= <-] | by intros [|[|i]]].
  - split_and!; [done | by intros e [= <-] | by intros p [= <-] | by intros [|[|i]]].
  - cbv zeta. case_decide as Hshort.
    + split_and!; [|done | by intros p [= <-] | by intros [|[|i]]].
      intros prices [= <-]. cbn. rewrite Hq. by rewrite app_nil_r.
    + destruct (IH (next_days pv)
                  (foldl (add_price Raw deserialize_token_day_data) acc rows))
        as (Hres & Hraise & Hhead & Hnext).
      cbn [log result token_day_queries omap list_omap].
      change (list_omap ?f ?l) with (omap f l).
      fold (token_day_queries
              (log (dloop fuel (next_days pv)
                      (foldl (add_price Raw deserialize_token_day_data) acc rows)))).
      split_and!.
      * intros prices Hp. rewrite rows_of_cons, Hq, foldl_app. by apply Hres.
      * done.
      * by intros p [= <-].
      * intros [|i] p q Hp Hq'; simpl in Hp, Hq'.
        -- inversion Hp; subst p. apply Hhead. by destruct (token_day_queries _).
        -- by eapply Hnext.
Qed.

(** X16.  The fetch of the prices of the protocol folds every row of every
    page it asked for into the dictionary, in order, a later price of a
    token replacing an earlier one and a row that does not deserialize being
    skipped; it fails with [RemoteError] alone; and each of its queries
    repeats the one before with the offset grown by the page size, whatever
    the skip limit is. *)
Theorem balancer_prices_fold_the_rows_of_all_pages fuel unknown_token_addresses :
  let m := balancer fuel unknown_token_addresses in
  let qs := token_price_queries (log m) in
  (forall prices, result m = Ok prices ->
     prices = foldl (add_price Raw deserialize_token_price) []
                (rows_of graph_token_prices qs))
  /\ (forall e, result m = Raise e -> e = RemoteError)
  /\ (forall i p q, qs !! i = Some p -> qs !! S i = Some q -> q = next_prices p).
Proof.
  unfold _get_unknown_token_to_prices_balancer_graph.
  destruct (token_prices_loop_run fuel
              (token_price_params.mk L 0 (lower <$> unknown_token_addresses)) [])
    as (? & ? & _ & ?).
  by split_and!.
Qed.

(** X17.  Once its subgraph is there, the fetch of the daily prices of the
    secondary AMM folds every row of every page it asked for into the
    dictionary, in order, a later price of a token replacing an earlier one
    and a row that does not deserialize being skipped; it fails with
    [RemoteError] alone; its first query asks for the midnight of the day of
    the timestamp given, or of now, at offset 0; and each next query repeats
    the one before with the offset grown by the page size. *)
Theorem uniswap_prices_fold_the_rows_of_all_pages
    fuel unknown_token_addresses timestamp :
  let m := uniswap fuel unknown_token_addresses timestamp in
  let qs := token_day_queries (log m) in
  (forall prices, result m = Ok prices ->
     prices = foldl (add_price Raw deserialize_token_day_data) []
                (rows_of uniswap_query qs))
  /\ (forall e, result m = Raise e -> e = RemoteError)
  /\ (forall p, head qs = Some p ->
        p = token_day_params.mk L 0 (lower <$> unknown_token_addresses)
              (midnight_epoch_of (default now timestamp)))
  /\ (forall i p q, qs !! i = Some p -> qs !! S i = Some q -> q = next_days p).
Proof.
  unfold _get_unknown_token_to_prices_uniswap_graph.
  apply token_day_datas_loop_run.
Qed.
End token_prices.

(** *** The update of the prices *)

Section update.
Variables known_token_to_prices unknown_token_to_prices
  : list (ChecksumEvmAddress * Price).

Abbreviation update_token :=
  (update_token_balance known_token_to_prices unknown_token_to_prices).
Abbreviation update_pool :=
  (update_pool_balance known_token_to_prices unknown_token_to_prices).
Abbreviation update d :=
  (_update_tokens_prices_in_address_to_pool_balances d
     known_token_to_prices unknown_token_to_prices).
Abbreviation usd_value_of :=
  (fun t => Balance.usd_value (BalancerPoolTokenBalance.user_balance t)).

Lemma update_token_balance_idempotent t :
  update_token (update_token t) = update_token t.
Proof.
  unfold update_token_balance.
  destruct (decide (PyDict.get_or _ known_token_to_prices
                      (EvmToken.evm_address (BalancerPoolTokenBalance.token t))
                    ≠ ZERO_PRICE)) as [Hp|Hp]; simpl.
  - by rewrite decide_True.
  - by rewrite decide_False.
Qed.

Lemma update_pool_balance_idempotent b :
  update_pool (update_pool b) = update_pool b.
Proof.
  unfold update_pool_balance. simpl.
  rewrite <- !list_fmap_compose.
  assert (forall l : list BalancerPoolTokenBalance.t,
            update_token ∘ update_token <$> l = update_token <$> l) as ->; [|done].
  intros l. apply list_fmap_ext.
  intros _ t _. apply update_token_balance_idempotent.
Qed.

Lemma foldl_usd_value (l : list BalancerPoolTokenBalance.t) : forall z,
  foldl (fun total t => total + usd_value_of t) z l = z + Zsum (usd_value_of <$> l).
Proof.
  induction l as [|t l IH]; intros z; simpl; [lia|].
  rewrite IH. refold_fmap. lia.
Qed.

Lemma update_pool_balance_adds_up b : adds_up (update_pool b).
Proof.
  unfold adds_up, update_pool_balance. simpl.
  rewrite foldl_usd_value. exact (Z.add_0_l _).
Qed.

Lemma update_get d a :
  PyDict.get (update d) a = fmap (M := list) update_pool <$> PyDict.get d a.
Proof.
  unfold _update_tokens_prices_in_address_to_pool_balances.
  induction d as [|[a' v] d IH]; simpl; [done|].
  case_decide; [done | apply IH].
Qed.

(** X18.  Updating the prices a second time with the same prices changes
    nothing: a token whose price was found keeps it, and a token whose price
    was not found is left as it was both times. *)
Theorem updating_the_prices_twice_changes_nothing d :
  _update_tokens_prices_in_address_to_pool_balances
    (_update_tokens_prices_in_address_to_pool_balances d
       known_token_to_prices unknown_token_to_prices)
    known_token_to_prices unknown_token_to_prices
  = _update_tokens_prices_in_address_to_pool_balances d
      known_token_to_prices unknown_token_to_prices.
Proof.
  unfold _update_tokens_prices_in_address_to_pool_balances.
  rewrite <- list_fmap_compose. apply list_fmap_ext.
  intros _ [a pools] _. simpl. unfold prod_map. simpl. f_equal.
  rewrite <- list_fmap_compose. apply list_fmap_ext.
  intros _ b _. apply update_pool_balance_idempotent.
Qed.

(** X19.  After the update of the prices every pool balance is worth the sum
    of its token balances; the addresses, the pools, the tokens and all the
    amounts are as before; and a token whose price (the known one first,
    then the unknown one) is not zero has that price and is worth its amount
    times the price, while a token with no price keeps the price and the
    value it had. *)
Theorem updated_pool_balances_add_up d :
  PyDict.keys (update d) = PyDict.keys d
  /\ forall a,
       Forall2 (fun b b' =>
           adds_up b'
           /\ BalancerPoolBalance.pool_token b' = BalancerPoolBalance.pool_token b
           /\ Balance.amount (BalancerPoolBalance.user_balance b')
              = Balance.amount (BalancerPoolBalance.user_balance b)
           /\ Forall2 (fun t t' =>
                 let price :=
                   price_of_token known_token_to_prices unknown_token_to_prices
                     (EvmToken.evm_address (BalancerPoolTokenBalance.token t)) in
                 BalancerPoolTokenBalance.token t' = BalancerPoolTokenBalance.token t
                 /\ Balance.amount (BalancerPoolTokenBalance.user_balance t')
                    = Balance.amount (BalancerPoolTokenBalance.user_balance t)
                 /\ (price ≠ ZERO_PRICE ->
                       BalancerPoolTokenBalance.usd_price t' = price
                       /\ usd_value_of t'
                          = Balance.amount (BalancerPoolTokenBalance.user_balance t)
                            * price)
                 /\ (price = ZERO_PRICE -> t' = t))
               (BalancerPoolBalance.underlying_tokens_balance b)
               (BalancerPoolBalance.underlying_tokens_balance b'))
         (PyDict.get_or [] d a) (PyDict.get_or [] (update d) a).
Proof.
  split.
  - unfold _update_tokens_prices_in_address_to_pool_balances, PyDict.keys.
    rewrite <- list_fmap_compose. apply list_fmap_ext. by intros _ [a v] _.
  - intros a. unfold PyDict.get_or. rewrite update_get.
    destruct (PyDict.get d a) as [pools|]; simpl; [|constructor].
    apply Forall2_fmap_r, Forall_Forall2_diag, Forall_forall. intros b _.
    split; [apply update_pool_balance_adds_up|]. split; [done|]. split; [done|].
    simpl. apply Forall2_fmap_r, Forall_Forall2_diag, Forall_forall. intros t _.
    cbv zeta. unfold update_token_balance, price_of_token, compose.
    destruct (decide (PyDict.get_or _ known_token_to_prices
                        (EvmToken.evm_address (BalancerPoolTokenBalance.token t))
                      ≠ ZERO_PRICE)) as [Hp|Hp]; simpl.
    + by split_and!.
    + split_and!; [done | done | done | done].
Qed.
End update.

(** *** [get_balances] *)

Section balances.
Variable Raw : Type.
Variable GRAPH_QUERY_LIMIT : nat.
Variable graph_pool_shares : pool_share_params.t -> response Raw.
Variable graph_token_prices : token_price_params.t -> response Raw.
Variable graph_uniswap : option (token_day_params.t -> response Raw).
Variable deserialize_pool_share :
  Raw -> option (ChecksumEvmAddress * BalancerPoolBalance.t).
Variable deserialize_token_price : Raw -> option (ChecksumEvmAddress * Price).
Variable deserialize_token_day_data : Raw -> option (ChecksumEvmAddress * Price).
Variable has_oracle : EvmToken.t -> bool.
Variable token_of_address : ChecksumEvmAddress -> EvmToken.t.
Variable find_usd_price : EvmToken.t -> Price.
Variable now : Timestamp.
Variable midnight_epoch_of : Timestamp -> Z.
Variable lower : ChecksumEvmAddress -> ChecksumEvmAddress.

Abbreviation L := GRAPH_QUERY_LIMIT.
Abbreviation balances :=
  (get_balances Raw L graph_pool_shares graph_token_prices graph_uniswap
     deserialize_pool_share deserialize_token_price deserialize_token_day_data
     has_oracle token_of_address find_usd_price now midnight_epoch_of lower).

(** X20.  [get_balances] fails with [RemoteError] and nothing else, also
    when the subgraph of the secondary AMM was not there at start-up: the
    fetch of the pool shares and that of the protocol's prices end in
    [RemoteError] on any failure, the prices of the oracle never fail, and
    the secondary AMM is asked only when it is there and its [RemoteError]
    is caught. *)
Theorem get_balances_raises_only_RemoteError fuel addresses e :
  result (get_balances Raw L graph_pool_shares graph_token_prices graph_uniswap
            deserialize_pool_share deserialize_token_price
            deserialize_token_day_data has_oracle token_of_address find_usd_price
            now midnight_epoch_of lower fuel addresses) = Raise e ->
  e = RemoteError.
Proof.
  unfold get_balances. rewrite fetch_bind_result.
  destruct (result (_get_protocol_balance_graph _ _ _ _ _ _ _ _ _))
    as [pb|e1|] eqn:Hpb; [| |done].
  2:{ intros [= <-]. by eapply pool_shares_loop_raises. }
  rewrite fetch_bind_result, known_prices_run. cbn [result].
  rewrite fetch_bind_result.
  pose proof (unknown_prices_result Raw L graph_token_prices graph_uniswap
                deserialize_token_price deserialize_token_day_data now
                midnight_epoch_of lower fuel (ProtocolBalance.unknown_tokens pb))
    as Hres. cbv zeta in Hres. rewrite Hres. clear Hres.
  set (addresses' := foldl (set_add id) [] _).
  destruct (result (_get_unknown_token_to_prices_balancer_graph _ _ _ _ _ _ _))
    as [bal|e1|] eqn:Hbal; [| |done].
  2:{ intros [= <-]. unfold _get_unknown_token_to_prices_balancer_graph in Hbal.
      by apply (token_prices_loop_run Raw L graph_token_prices
                  deserialize_token_price) in Hbal. }
  destruct graph_uniswap as [query|]; [|done].
  destruct (result (_get_unknown_token_to_prices_uniswap_graph _ _ _ _ _ _ _ _ _ _))
    as [uni|e1|] eqn:Huni; [done| |done].
  unfold _get_unknown_token_to_prices_uniswap_graph in Huni.
  apply (token_day_datas_loop_run Raw L query deserialize_token_day_data) in Huni.
  by subst e1.
Qed.
End balances.

Lemma protocol_balance_lists_every_pool_share_witness :
  let fetch :=
    _get_protocol_balance_graph nat 2 SamplePages.graph_pool_shares
      SamplePages.deserialize_pool_share SamplePages.has_oracle
      Sample.token_of_address id 5 ["0xA11CE"] in
  let share :=
    BalancerPoolBalance.mk Sample.pool
      [BalancerPoolTokenBalance.mk SamplePages.dai (Balance.mk 3 0) 0;
       BalancerPoolTokenBalance.mk Sample.weth (Balance.mk 2 0) 0]
      (Balance.mk 1 0) in
  let pb := ProtocolBalance.mk [("0xA11CE", [share])] [SamplePages.dai] [Sample.weth] in
  result fetch = Ok pb
  /\ PyDict.get_or [] (ProtocolBalance.address_to_pool_balances pb) "0xA11CE"
     = pool_shares_of nat SamplePages.deserialize_pool_share "0xA11CE"
         (rows_of SamplePages.graph_pool_shares (pool_share_queries (log fetch))).
Proof.
  intros fetch share pb.
  assert (result fetch = Ok pb) as Hrun by (vm_compute; reflexivity).
  split; [exact Hrun|].
  exact (protocol_balance_lists_every_pool_share nat 2 SamplePages.graph_pool_shares
           SamplePages.deserialize_pool_share SamplePages.has_oracle
           Sample.token_of_address id 5 ["0xA11CE"] pb Hrun "0xA11CE").
Defined.

Lemma protocol_balance_classifies_the_tokens_by_oracle_witness :
  let fetch :=
    _get_protocol_balance_graph nat 2 SamplePages.graph_pool_shares
      SamplePages.deserialize_pool_share SamplePages.has_oracle
      Sample.token_of_address id 5 ["0xA11CE"] in
  let share :=
    BalancerPoolBalance.mk Sample.pool
      [BalancerPoolTokenBalance.mk SamplePages.dai (Balance.mk 3 0) 0;
       BalancerPoolTokenBalance.mk Sample.weth (Balance.mk 2 0) 0]
      (Balance.mk 1 0) in
  let pb := ProtocolBalance.mk [("0xA11CE", [share])] [SamplePages.dai] [Sample.weth] in
  let tokens :=
    share_tokens nat SamplePages.deserialize_pool_share Sample.token_of_address
      (rows_of SamplePages.graph_pool_shares (pool_share_queries (log fetch))) in
  result fetch = Ok pb
  /\ NoDup (ProtocolBalance.known_tokens pb)
  /\ NoDup (ProtocolBalance.unknown_tokens pb)
  /\ forall t,
       (t ∈ ProtocolBalance.known_tokens pb
        <-> SamplePages.has_oracle t = true /\ t ∈ tokens)
       /\ (t ∈ ProtocolBalance.unknown_tokens pb
           <-> SamplePages.has_oracle t = false /\ t ∈ tokens).
Proof.
  intros fetch share pb tokens.
  assert (result fetch = Ok pb) as Hrun by (vm_compute; reflexivity).
  split; [exact Hrun|].
  exact (protocol_balance_classifies_the_tokens_by_oracle nat 2
           SamplePages.graph_pool_shares SamplePages.deserialize_pool_share
           SamplePages.has_oracle Sample.token_of_address id 5 ["0xA11CE"] pb Hrun).
Defined.

Lemma balancer_prices_fold_the_rows_of_all_pages_witness :
  let fetch :=
    _get_unknown_token_to_prices_balancer_graph nat 2 Sample.graph_token_prices
      Sample.deserialize_token_price id 5 ["0xE7H"] in
  result fetch = Ok [("0xE7H", 5)]
  /\ [("0xE7H", 5)]
     = foldl (add_price nat Sample.deserialize_token_price) []
         (rows_of Sample.graph_token_prices (token_price_queries (log fetch))).
Proof.
  intros fetch.
  assert (result fetch = Ok [("0xE7H", 5)]) as Hrun by (vm_compute; reflexivity).
  split; [exact Hrun|].
  exact (proj1 (balancer_prices_fold_the_rows_of_all_pages nat 2
                  Sample.graph_token_prices Sample.deserialize_token_price id 5
                  ["0xE7H"]) _ Hrun).
Defined.

Lemma uniswap_prices_fold_the_rows_of_all_pages_witness :
  let fetch :=
    _get_unknown_token_to_prices_uniswap_graph nat 2
      (Some (fun _ : token_day_params.t => Rows [0%nat]))
      Sample.deserialize_token_price
      50 (fun ts => ts) id 5 ["0xE7H"] None in
  result fetch = Ok [("0xE7H", 5)]
  /\ head (token_day_queries (log fetch))
     = Some (token_day_params.mk 2 0 ["0xE7H"] 50).
Proof.
  intros fetch. split; [vm_compute; reflexivity|].
  destruct (head (token_day_queries (log fetch))) as [p|] eqn:Hhead;
    [|by vm_compute in Hhead].
  f_equal.
  exact (proj1 (proj2 (proj2 (uniswap_prices_fold_the_rows_of_all_pages nat 2
                  (fun _ : token_day_params.t => Rows [0%nat])
                  Sample.deserialize_token_price 50 (fun ts => ts) id 5
                  ["0xE7H"] None))) p Hhead).
Defined.

Lemma get_balances_raises_only_RemoteError_witness :
  result (get_balances nat 2 (fun _ => QueryFailed) Sample.graph_token_prices None
            SamplePages.deserialize_pool_share Sample.deserialize_token_price
            (fun _ => None) SamplePages.has_oracle Sample.token_of_address
            SamplePages.find_usd_price 0 (fun ts => ts) id 5 ["0xA11CE"])
  = Raise RemoteError.
Proof.
  destruct (result _) as [d|e|] eqn:Hrun;
    [by vm_compute in Hrun | | by vm_compute in Hrun].
  f_equal.
  exact (get_balances_raises_only_RemoteError nat 2 (fun _ => QueryFailed)
           Sample.graph_token_prices None SamplePages.deserialize_pool_share
           Sample.deserialize_token_price (fun _ => None) SamplePages.has_oracle
           Sample.token_of_address SamplePages.find_usd_price 0 (fun ts => ts) id
           5 ["0xA11CE"] e Hrun).
Defined.
End PricesLaws.

(** ** More on the synchronization *)

Module SyncLaws.
Import Sync EventOrder PyDictFacts EventAggregatorFacts SyncFacts.
Import BalanceAggregatorLaws PricesLaws.

(** *** The order of the stored events *)

Lemma insert_sorted_Sorted {A} (R : relation A) `{!RelDecision R} `{!Total R} x l :
  Sorted R l -> Sorted R (insert_sorted R x l).
Proof.
  induction 1 as [|y l Hl IH Hy]; simpl.
  - by repeat constructor.
  - case_decide as Hxy.
    + by repeat constructor.
    + constructor; [done|]. destruct Hy as [|z l' Hyz]; simpl.
      * constructor. by destruct (total R x y).
      * case_decide; constructor; [by destruct (total R x y) | done].
Qed.

Lemma stable_sort_Sorted {A} (R : relation A) `{!RelDecision R} `{!Total R} l :
  Sorted R (stable_sort R l).
Proof.
  induction l as [|x l IH]; simpl; [constructor|]. by apply insert_sorted_Sorted.
Qed.

Lemma Forall_dict_set {K V} `{EqDecision K} (P : K * V -> Prop)
    (d : list (K * V)) k v :
  Forall P d -> P (k, v) -> Forall P (PyDict.set d k v).
Proof.
  intros Hd Hv. induction d as [|[k' v'] d IH]; simpl.
  - by apply Forall_singleton.
  - apply Forall_cons in Hd as [H1 H2]. case_decide; subst.
    + by apply Forall_cons.
    + apply Forall_cons. split; [done | by apply IH].
Qed.

Lemma foldl_dict_set {K V} `{EqDecision K} (f : K -> V) (l : list K) : forall d,
  let d' := foldl (fun d k => PyDict.set d k (f k)) d l in
  (NoDup (PyDict.keys d) -> NoDup (PyDict.keys d'))
  /\ forall a,
       (a ∈ PyDict.keys d' <-> a ∈ PyDict.keys d \/ a ∈ l)
       /\ PyDict.get d' a = if decide (a ∈ l) then Some (f a) else PyDict.get d a.
Proof.
  induction l as [|k l IH]; intros d; simpl.
  - split; [done|]. intros a. split.
    + split; [by left|]. intros [?|H]; [done | by apply elem_of_nil in H].
    + destruct (decide (a ∈ [])) as [H|]; [by apply elem_of_nil in H | done].
  - destruct (IH (PyDict.set d k (f k))) as [Hnd Hall]. split.
    + intros Hd. apply Hnd.
      destruct (decide (k ∈ PyDict.keys d)).
      * by rewrite keys_set_present.
      * rewrite keys_set_absent by done.
        apply NoDup_app. split_and!; [done | | apply NoDup_singleton].
        intros y Hy Heq. apply list_elem_of_singleton in Heq. by subst y.
    + intros a. destruct (Hall a) as [Hk Hg]. split.
      * rewrite Hk, elem_of_cons. destruct (decide (k ∈ PyDict.keys d)).
        -- rewrite keys_set_present by done. split; [tauto|].
           intros [?|[->|?]]; tauto.
        -- rewrite keys_set_absent by done.
           rewrite elem_of_app, list_elem_of_singleton. tauto.
      * rewrite Hg, get_set.
        destruct (decide (a ∈ l)) as [Hin|Hnin].
        -- rewrite decide_True; [done | by right].
        -- destruct (decide (k = a)) as [->|Hne].
           ++ rewrite decide_True; [done | by left].
           ++ rewrite decide_False; [done|].
              intros [?|?]%elem_of_cons; [congruence | done].
Qed.

Section facts.
Variable POOL_MAX_NUMBER_TOKENS : nat.
Variable BALANCER_EVENTS_PREFIX : string.
Variable delete_balancer_events_data : DB -> DB.
Variable fetch_invest_events :
  list ChecksumEvmAddress -> BalancerInvestEventType -> Timestamp -> Timestamp ->
  outcome (list (ChecksumEvmAddress * list BalancerInvestEvent.t)
           * list (ChecksumEvmAddress * list BalancerBPTEvent.t)).
Variable aggregate :
  list (ChecksumEvmAddress * BalancerEventsData.t) -> outcome (list BalancerEvent.t).

Abbreviation history :=
  (get_events_history POOL_MAX_NUMBER_TOKENS BALANCER_EVENTS_PREFIX
     delete_balancer_events_data fetch_invest_events aggregate).
Abbreviation balances :=
  (_get_address_to_pool_events_balances POOL_MAX_NUMBER_TOKENS
     BALANCER_EVENTS_PREFIX fetch_invest_events aggregate).
Abbreviation events_data := (_get_address_to_events_data fetch_invest_events).
Abbreviation split := (split_addresses BALANCER_EVENTS_PREFIX).
Abbreviation range_of db0 a :=
  (get_used_query_range db0 (entry_name BALANCER_EVENTS_PREFIX a)).
Abbreviation calc_all := (calculate_all POOL_MAX_NUMBER_TOKENS).
Abbreviation calculate :=
  (BalanceAggregator._calculate_pool_events_balances POOL_MAX_NUMBER_TOKENS).
Abbreviation reset_db reset_db_data w :=
  (mk_world (if reset_db_data : bool then delete_balancer_events_data (db w)
             else db w) (requested w)).

(** The outcome of a request, read off the database it leaves. *)
Lemma history_outcome get_balances addresses reset_db_data from_ts to_ts w w' o :
  run (history get_balances addresses reset_db_data from_ts to_ts) w = (w', o) ->
  is_ok o = false
  \/ o = match read_db_events (db w') addresses from_ts to_ts with
         | [] => Ok []
         | db_events =>
             match (if decide (from_ts = 0) then get_balances addresses
                    else Ok []) with
             | Ok address_to_pool_balances =>
                 calc_all db_events address_to_pool_balances
             | Raise e => Raise e
             | Diverge => Diverge
             end
         end.
Proof.
  rewrite (history_run POOL_MAX_NUMBER_TOKENS), pool_events_balances_run.
  destruct (split _ addresses to_ts) as [[new_addresses existing_addresses] min_to].
  cbv zeta. destruct (match new_addresses with [] => _ | _ => _ end)
    as [w1 [data_new| |]]; [|intros [= <- <-]; by left..].
  destruct (if decide _ then _ else _) as [w2 [data_existing| |]];
    [|intros [= <- <-]; by left..].
  destruct (match dict_update _ _ with [] => _ | _ => _ end) as [w3 [[]| |]];
    [|intros [= <- <-]; by left..].
  intros [= <- <-]. by right.
Qed.

Lemma read_db_events_spec db0 from_ts to_ts addresses :
  let d := read_db_events db0 addresses from_ts to_ts in
  NoDup (PyDict.keys d)
  /\ (forall a, a ∈ PyDict.keys d
        <-> a ∈ addresses /\ get_balancer_events db0 from_ts to_ts a ≠ [])
  /\ Forall (fun kv =>
       kv.2 = stable_sort event_le (get_balancer_events db0 from_ts to_ts kv.1)) d.
Proof.
  unfold read_db_events.
  set (body := fun d address => _).
  assert (forall l d,
    NoDup (PyDict.keys d) ->
    Forall (fun kv =>
      kv.2 = stable_sort event_le (get_balancer_events db0 from_ts to_ts kv.1)) d ->
    NoDup (PyDict.keys (foldl body d l))
    /\ (forall a, a ∈ PyDict.keys (foldl body d l)
          <-> a ∈ PyDict.keys d
              \/ a ∈ l /\ get_balancer_events db0 from_ts to_ts a ≠ [])
    /\ Forall (fun kv =>
         kv.2 = stable_sort event_le (get_balancer_events db0 from_ts to_ts kv.1))
         (foldl body d l)) as Hgen.
  { induction l as [|x l IH]; intros d Hnd Hall; simpl.
    - split; [done|]. split; [|done]. intros a. split; [by left|].
      intros [?|[H _]]; [done | by apply elem_of_nil in H].
    - assert (NoDup (PyDict.keys (body d x))
              /\ (forall a, a ∈ PyDict.keys (body d x)
                    <-> a ∈ PyDict.keys d
                        \/ a = x /\ get_balancer_events db0 from_ts to_ts x ≠ [])
              /\ Forall (fun kv =>
                   kv.2 = stable_sort event_le
                            (get_balancer_events db0 from_ts to_ts kv.1)) (body d x))
        as (Hnd1 & Hk1 & Hall1).
      { unfold body.
        destruct (get_balancer_events db0 from_ts to_ts x) as [|e evs] eqn:Hev.
        - split; [done|]. split; [|done]. intros a. split; [by left|].
          intros [?|[_ ?]]; done.
        - destruct (decide (x ∈ PyDict.keys d)) as [Hin|Hnin].
          + rewrite keys_set_present by done. split; [done|]. split.
            * intros a. split; [by left|]. intros [?|[-> _]]; done.
            * apply Forall_dict_set; [done|]. simpl. by rewrite Hev.
          + rewrite keys_set_absent by done. split.
            * apply NoDup_app. split_and!; [done | | apply NoDup_singleton].
              intros y Hy Heq. apply list_elem_of_singleton in Heq. by subst y.
            * split.
              -- intros a. rewrite elem_of_app, list_elem_of_singleton.
                 split; [intros [?| ->]; [by left | by right]|].
                 intros [?|[-> _]]; [by left | by right].
              -- apply Forall_dict_set; [done|]. simpl. by rewrite Hev. }
      destruct (IH _ Hnd1 Hall1) as (Hnd' & Hk' & Hall').
      split; [done|]. split; [|done].
      intros a. rewrite Hk', Hk1, elem_of_cons. split.
      + intros [[?|[-> ?]]|[? ?]]; [by left | right; split; [by left | done] |].
        right. split; [by right | done].
      + intros [?|[[->|?] ?]]; [by left; left | left; by right | by right]. }
  destruct (Hgen addresses []) as (Hnd & Hk & Hall);
    [apply NoDup_nil_2 | done |].
  split; [done|]. split; [|done]. intros a. rewrite Hk. split; [|by right].
  intros [H|?]; [by apply elem_of_nil in H | done].
Qed.

Lemma calculate_all_spec pbs d : forall acc r,
  for_each (fun d '(address, db_events) =>
              pool_events_balances ←
                calculate address db_events (PyDict.get_or [] pbs address);
              Ok (PyDict.set d address pool_events_balances)) d acc = Ok r ->
  (forall a entries, PyDict.get r a = Some entries ->
     PyDict.get acc a = Some entries
     \/ exists db_events,
          (a, db_events) ∈ d
          /\ calculate a db_events (PyDict.get_or [] pbs a) = Ok entries)
  /\ forall a, a ∈ PyDict.keys r <-> a ∈ PyDict.keys acc \/ a ∈ PyDict.keys d.
Proof.
  induction d as [|[address db_events] d IH]; intros acc r Hrun.
  - inversion Hrun; subst. split; [by left|]. intros a. split; [by left|].
    intros [?|H]; [done | by apply elem_of_nil in H].
  - apply for_each_Ok_inv in Hrun as (acc1 & Hstep & Hrun).
    destruct (calculate address db_events _) as [entries1| |] eqn:Hcalc;
      simpl in Hstep; [|done|done].
    inversion Hstep; subst acc1. clear Hstep.
    destruct (IH _ _ Hrun) as [Hget Hkeys]. split.
    + intros a entries Ha. destruct (Hget a entries Ha) as [Hacc|(evs & Hin & Hc)].
      * rewrite get_set in Hacc. case_decide as Heq; [|by left].
        inversion Hacc; subst. right. exists db_events. split; [by left | done].
      * right. exists evs. split; [by right | done].
    + intros a. rewrite Hkeys.
      change (PyDict.keys ((address, db_events) :: d)) with (address :: PyDict.keys d).
      rewrite elem_of_cons.
      destruct (decide (address ∈ PyDict.keys acc)) as [Hin|Hnin].
      * rewrite keys_set_present by done. split; [tauto|].
        intros [?|[->|?]]; tauto.
      * rewrite keys_set_absent by done.
        rewrite elem_of_app, list_elem_of_singleton. tauto.
Qed.

(** X21.  In what a request returns, the events of every pool are in the
    order of (timestamp, log index), as the comment of line 172 says: the
    stored events are sorted before they are shared out over the pools. *)
Theorem history_reports_the_events_of_a_pool_in_order
    get_balances addresses reset_db_data from_ts to_ts w w' r :
  run (history get_balances addresses reset_db_data from_ts to_ts) w = (w', Ok r) ->
  forall a entries entry,
    PyDict.get r a = Some entries -> entry ∈ entries ->
    StronglySorted event_le (BalancerPoolEventsBalance.events entry).
Proof.
  intros Hrun a entries entry Hget Hentry.
  apply history_outcome in Hrun as [?|Hout]; [done|].
  destruct (read_db_events_spec (db w') from_ts to_ts addresses) as (_ & _ & Hsorted).
  destruct (read_db_events (db w') addresses from_ts to_ts) as [|x l] eqn:Hd.
  { inversion Hout; subst r. done. }
  destruct (if decide (from_ts = 0) then get_balances addresses else Ok [])
    as [pbs| |]; [|done..].
  symmetry in Hout. apply calculate_all_spec in Hout as [Hfrom _].
  destruct (Hfrom a entries Hget) as [?|(db_events & Hin & Hcalc)]; [done|].
  rewrite Forall_forall in Hsorted. specialize (Hsorted _ Hin). simpl in Hsorted.
  apply calculate_entries in Hcalc as [_ Hof]. rewrite (Hof _ Hentry).
  apply StronglySorted_filter, Sorted_StronglySorted; [apply _|].
  rewrite Hsorted. apply stable_sort_Sorted; apply _.
Qed.

(** X22.  What a request returns has one entry for every address asked for
    that has a stored event in the window, and no other: an address without
    such an event is left out, not given an empty list. *)
Theorem history_reports_the_addresses_with_stored_events
    get_balances addresses reset_db_data from_ts to_ts w w' r :
  run (history get_balances addresses reset_db_data from_ts to_ts) w = (w', Ok r) ->
  forall a,
    a ∈ PyDict.keys r
    <-> a ∈ addresses /\ get_balancer_events (db w') from_ts to_ts a ≠ [].
Proof.
  intros Hrun a.
  apply history_outcome in Hrun as [?|Hout]; [done|].
  destruct (read_db_events_spec (db w') from_ts to_ts addresses) as (_ & Hkeys & _).
  rewrite <- Hkeys.
  destruct (read_db_events (db w') addresses from_ts to_ts) as [|x l] eqn:Hd.
  { by inversion Hout; subst r. }
  destruct (if decide (from_ts = 0) then get_balances addresses else Ok [])
    as [pbs| |]; [|done..].
  symmetry in Hout. apply calculate_all_spec in Hout as [_ Hk].
  rewrite Hk. split; [|by right]. intros [H|?]; [by apply elem_of_nil in H | done].
Qed.

(** X23.  When no stored event of the addresses falls into the window, the
    request returns the empty dictionary without asking for the live
    balances, also from timestamp 0: it ends the same with any
    [get_balances], one that fails included. *)
Theorem history_without_stored_events_asks_no_live_balance
    get_balances get_balances' addresses reset_db_data from_ts to_ts w w' o :
  run (history get_balances addresses reset_db_data from_ts to_ts) w = (w', o) ->
  read_db_events (db w') addresses from_ts to_ts = [] ->
  run (history get_balances' addresses reset_db_data from_ts to_ts) w = (w', o)
  /\ forall r, o = Ok r -> r = [].
Proof.
  rewrite !(history_run POOL_MAX_NUMBER_TOKENS), !pool_events_balances_run.
  destruct (split _ addresses to_ts) as [[new_addresses existing_addresses] min_to].
  cbv zeta. destruct (match new_addresses with [] => _ | _ => _ end)
    as [w1 [data_new| |]]; [|by intros [= <- <-]..].
  destruct (if decide _ then _ else _) as [w2 [data_existing| |]];
    [|by intros [= <- <-]..].
  destruct (match dict_update _ _ with [] => _ | _ => _ end) as [w3 [[]| |]];
    [|by intros [= <- <-]..].
  intros [= <- <-] Hd. rewrite Hd. split; [done|]. by intros r [= <-].
Qed.

(** *** The events data of a batch *)

(** X24.  The events data of a batch hold one entry for every address that
    has an add-liquidity or a remove-liquidity event, with its four lists of
    events, and no entry for any other address: an address with pool-token
    events alone is left out. *)
Theorem events_data_holds_the_addresses_with_invest_events
    addresses from_ts to_ts w w' data :
  run (events_data addresses from_ts to_ts) w = (w', Ok data) ->
  exists adds removes,
    fetch_invest_events addresses ADD_LIQUIDITY from_ts to_ts = Ok adds
    /\ fetch_invest_events addresses REMOVE_LIQUIDITY from_ts to_ts = Ok removes
    /\ NoDup (PyDict.keys data)
    /\ forall a,
         (a ∈ PyDict.keys data
          <-> a ∈ PyDict.keys adds.1 \/ a ∈ PyDict.keys removes.1)
         /\ (a ∈ PyDict.keys data ->
               PyDict.get data a
               = Some (BalancerEventsData.mk
                         (PyDict.get_or [] adds.1 a) (PyDict.get_or [] removes.1 a)
                         (PyDict.get_or [] adds.2 a) (PyDict.get_or [] removes.2 a))).
Proof.
  rewrite events_data_run. cbv zeta.
  destruct (fetch_invest_events addresses ADD_LIQUIDITY from_ts to_ts)
    as [adds| |]; [|done..].
  destruct (fetch_invest_events addresses REMOVE_LIQUIDITY from_ts to_ts)
    as [removes| |]; [|done..].
  intros [= _ <-]. exists adds, removes. split; [done|]. split; [done|].
  unfold events_data_of.
  set (addresses_with_events := foldl (Graph.set_add id) [] _).
  destruct (foldl_dict_set
              (fun address =>
                 BalancerEventsData.mk
                   (PyDict.get_or [] adds.1 address) (PyDict.get_or [] removes.1 address)
                   (PyDict.get_or [] adds.2 address) (PyDict.get_or [] removes.2 address))
              addresses_with_events []) as [Hnd Hall].
  split; [apply Hnd, NoDup_nil_2|]. intros a. destruct (Hall a) as [Hk Hg].
  assert (a ∈ addresses_with_events
          <-> a ∈ PyDict.keys adds.1 \/ a ∈ PyDict.keys removes.1) as Hin.
  { unfold addresses_with_events. rewrite foldl_set_add_id, elem_of_app.
    split; [|tauto]. intros [H|?]; [by apply elem_of_nil in H | done]. }
  split.
  - rewrite Hk, Hin. split; [|tauto]. intros [H|?]; [by apply elem_of_nil in H | done].
  - intros Ha. apply Hk in Ha as [H|Ha]; [by apply elem_of_nil in H|].
    rewrite Hg. by rewrite decide_True.
Qed.

(** *** A second request up to the same timestamp *)

Lemma batch_ranges batch from_ts to_ts v v' data name :
  run (events_data batch from_ts to_ts) v = (v', Ok data) ->
  used_query_ranges (db v') !! name
  = if decide (name ∈ entry_name "balancer_events" <$> batch)
    then Some (from_ts, to_ts)
    else used_query_ranges (db v) !! name.
Proof.
  intros Hrun. apply events_data_world in Hrun as [_ Hok].
  destruct (Hok eq_refl) as [-> _]. apply update_used_query_range_lookup.
Qed.

(** After a request up to [to_timestamp] has returned, the ledger covers
    every address of the request up to [to_timestamp] at least. *)
Lemma history_covers get_balances addresses from_ts to_ts w w' r :
  BALANCER_EVENTS_PREFIX = "balancer_events" ->
  run (history get_balances addresses false from_ts to_ts) w = (w', Ok r) ->
  forall a, a ∈ addresses ->
    exists rng, range_of (db w') a = Some rng /\ to_ts <= rng.2.
Proof.
  intros Hprefix.
  rewrite (history_run POOL_MAX_NUMBER_TOKENS), pool_events_balances_run.
  cbn [db requested].
  pose proof (split_addresses_spec BALANCER_EVENTS_PREFIX (db w) addresses to_ts)
    as Hsplit.
  destruct (split (db w) addresses to_ts)
    as [[new_addresses existing_addresses] min_to].
  destruct Hsplit as (Hnew & Hex & Hmin & Hle & _). cbv zeta.
  set (w0 := mk_world (db w) (requested w)).
  destruct (match new_addresses with [] => (w0, Ok []) | _ => _ end)
    as [w1 [data_new| |]] eqn:Hs1; [|done..].
  destruct (if decide _ then _ else _) as [w2 [data_existing| |]] eqn:Hs2; [|done..].
  destruct (match dict_update _ _ with [] => _ | _ => _ end)
    as [w3 [[]| |]] eqn:Hs3; [|done..].
  intros [= <- _] a Ha.
  assert (used_query_ranges (db w3) = used_query_ranges (db w2)) as Hw3.
  { destruct (dict_update _ _); [by inversion Hs3|].
    destruct (aggregate _); by inversion Hs3. }
  unfold get_used_query_range in *. rewrite Hw3. rewrite Hprefix in *.
  set (name := entry_name "balancer_events" a).
  assert (used_query_ranges (db w0) !! name = used_query_ranges (db w) !! name)
    as Hw0 by done.
  assert (exists rng,
            used_query_ranges (db w1) !! name = Some rng
            /\ (rng.2 = to_ts \/ used_query_ranges (db w) !! name = Some rng))
    as (rng1 & Hrng1 & Hfrom1).
  { destruct (used_query_ranges (db w) !! name) as [r0|] eqn:Hr0.
    - destruct new_addresses as [|n l].
      + inversion Hs1; subst w1. exists r0. split; [by rewrite Hw0 | by right].
      + rewrite (batch_ranges _ _ _ _ _ _ name Hs1), Hw0.
        destruct (decide (name ∈ entry_name "balancer_events" <$> n :: l)).
        * eexists. split; [done|]. by left.
        * exists r0. split; [done|]. by right.
    - assert (a ∈ new_addresses) as Hanew.
      { rewrite Hnew. by apply list_elem_of_filter. }
      destruct new_addresses as [|n l]; [by apply elem_of_nil in Hanew|].
      rewrite (batch_ranges _ _ _ _ _ _ name Hs1). rewrite decide_True.
      + eexists. split; [done|]. by left.
      + apply list_elem_of_fmap. by exists a. }
  assert (rng1.2 ≠ to_ts ->
          a ∈ existing_addresses /\ used_query_ranges (db w) !! name = Some rng1)
    as Hold.
  { intros Hne. destruct Hfrom1 as [?|Hold]; [done|]. split; [|done].
    rewrite Hex. apply list_elem_of_filter. split; [|done].
    fold name. by rewrite Hold. }
  destruct (decide (existing_addresses ≠ [] /\ to_ts > min_to)) as [Hcond|Hcond].
  - rewrite (batch_ranges _ _ _ _ _ _ name Hs2).
    destruct (decide (name ∈ entry_name "balancer_events" <$> existing_addresses))
      as [Hnames|Hnames].
    + eexists. split; [done|]. simpl. lia.
    + exists rng1. split; [done|].
      destruct (decide (rng1.2 = to_ts)) as [->|Hne]; [lia|].
      exfalso. apply Hnames. apply list_elem_of_fmap. exists a.
      split; [done|]. by apply Hold.
  - inversion Hs2; subst w2. exists rng1. split; [done|].
    destruct (decide (rng1.2 = to_ts)) as [->|Hne]; [lia|].
    destruct (Hold Hne) as [Haex Hr0].
    pose proof (Hle a rng1 Haex Hr0) as Hlow.
    destruct (decide (to_ts > min_to)) as [Hgt|?]; [|lia].
    exfalso. apply Hcond. split; [|done]. intros ->. by apply elem_of_nil in Haex.
Qed.

(** X25.  When the prefix constant of [.types] is the prefix that the ledger
    is written with, a second request for the same addresses up to the same
    timestamp fetches no event from the subgraph and leaves the database as
    it is: the addresses are all covered, so no batch is requested, the
    ledger is not written and no event is stored. *)
Theorem second_request_to_the_same_timestamp_fetches_nothing
    get_balances get_balances' addresses from_ts from_ts' to_ts w w' r :
  BALANCER_EVENTS_PREFIX = "balancer_events" ->
  run (history get_balances addresses false from_ts to_ts) w = (w', Ok r) ->
  (run (history get_balances' addresses false from_ts' to_ts) w').1 = w'.
Proof.
  intros Hprefix Hrun.
  pose proof (history_covers _ _ _ _ _ _ _ Hprefix Hrun) as Hcov.
  rewrite (history_run POOL_MAX_NUMBER_TOKENS), pool_events_balances_run.
  cbn [db requested].
  pose proof (split_addresses_spec BALANCER_EVENTS_PREFIX (db w') addresses to_ts)
    as Hsplit.
  destruct (split (db w') addresses to_ts)
    as [[new_addresses existing_addresses] min_to].
  destruct Hsplit as (Hnew & Hex & Hmin & Hle & Hwit). cbv zeta.
  assert (new_addresses = []) as ->.
  { rewrite Hnew. apply elem_of_nil_inv. intros a Ha.
    apply list_elem_of_filter in Ha as [Hnone Ha].
    destruct (Hcov a Ha) as (rng & Hrng & _). congruence. }
  assert (min_to = to_ts) as ->.
  { destruct Hwit as [?|(a & rng & Ha & Hrng & ->)]; [done|].
    assert (a ∈ addresses) as Ha'.
    { rewrite Hex in Ha. by apply list_elem_of_filter in Ha as [_ ?]. }
    destruct (Hcov a Ha') as (rng' & Hrng' & Hge).
    rewrite Hrng in Hrng'. inversion Hrng'; subst rng'.
    specialize (Hle a rng Ha Hrng). lia. }
  rewrite decide_False by lia. simpl. by destruct w'.
Qed.
End facts.

(** *** Requests on the small subgraph *)

Lemma history_reports_the_events_of_a_pool_in_order_witness :
  let fetch := fun addresses ty start_ts end_ts =>
    Graph.result (Sample.fetch_invest Sample.graph_events_bpt addresses ty
                    start_ts end_ts) in
  let aggregate :=
    EventAggregator._get_balancer_aggregated_events_data Sample.token_of_address
      Sample.price_one [] in
  let w := mk_world (mk_db ∅ []) [] in
  let out :=
    run (get_events_history 8 "balancer_events" (fun d => d) fetch aggregate
           (fun _ => Ok []) ["0xA11CE"] false 150 1000) w in
  is_ok out.2 = true
  /\ match out.2 with
     | Ok r =>
         match PyDict.get r "0xA11CE" with
         | Some (entry :: _) =>
             StronglySorted event_le (BalancerPoolEventsBalance.events entry)
         | _ => False
         end
     | _ => False
     end.
Proof.
  intros fetch aggregate w out.
  split; [vm_compute; reflexivity|].
  destruct out.2 as [r| |] eqn:Hres; [|by vm_compute in Hres|by vm_compute in Hres].
  assert (out = (out.1, Ok r)) as Hrun by (rewrite <- Hres; apply surjective_pairing).
  assert (Hr := Hres). vm_compute in Hr. injection Hr as Hr.
  destruct (PyDict.get r "0xA11CE") as [[|entry l]|] eqn:Hget;
    [by rewrite <- Hr in Hget; vm_compute in Hget | |
     by rewrite <- Hr in Hget; vm_compute in Hget].
  exact (history_reports_the_events_of_a_pool_in_order 8 "balancer_events"
           (fun d => d) fetch aggregate (fun _ => Ok []) ["0xA11CE"] false 150 1000
           w out.1 r Hrun "0xA11CE" (entry :: l) entry Hget
           ltac:(apply list_elem_of_here)).
Defined.

Lemma history_reports_the_addresses_with_stored_events_witness :
  let fetch := fun addresses ty start_ts end_ts =>
    Graph.result (Sample.fetch_invest Sample.graph_events_bpt addresses ty
                    start_ts end_ts) in
  let aggregate :=
    EventAggregator._get_balancer_aggregated_events_data Sample.token_of_address
      Sample.price_one [] in
  let w := mk_world (mk_db ∅ []) [] in
  let out :=
    run (get_events_history 8 "balancer_events" (fun d => d) fetch aggregate
           (fun _ => Ok []) ["0xA11CE"; "0xB0B"] false 150 1000) w in
  is_ok out.2 = true
  /\ match out.2 with
     | Ok r =>
         ("0xA11CE" ∈ PyDict.keys r
          <-> "0xA11CE" ∈ ["0xA11CE"; "0xB0B"]
              /\ get_balancer_events (db out.1) 150 1000 "0xA11CE" ≠ [])
         /\ ("0xB0B" ∈ PyDict.keys r
             <-> "0xB0B" ∈ ["0xA11CE"; "0xB0B"]
                 /\ get_balancer_events (db out.1) 150 1000 "0xB0B" ≠ [])
     | _ => False
     end.
Proof.
  intros fetch aggregate w out.
  split; [vm_compute; reflexivity|].
  destruct out.2 as [r| |] eqn:Hres; [|by vm_compute in Hres|by vm_compute in Hres].
  assert (out = (out.1, Ok r)) as Hrun by (rewrite <- Hres; apply surjective_pairing).
  split;
    exact (history_reports_the_addresses_with_stored_events 8 "balancer_events"
             (fun d => d) fetch aggregate (fun _ => Ok []) ["0xA11CE"; "0xB0B"]
             false 150 1000 w out.1 r Hrun _).
Defined.

Lemma history_without_stored_events_asks_no_live_balance_witness :
  let fetch := fun addresses ty start_ts end_ts =>
    Graph.result (Sample.fetch_invest Sample.graph_events_bpt addresses ty
                    start_ts end_ts) in
  let aggregate :=
    EventAggregator._get_balancer_aggregated_events_data Sample.token_of_address
      Sample.price_one [] in
  let w := mk_world (mk_db ∅ []) [] in
  let out :=
    run (get_events_history 8 "balancer_events" (fun d => d) fetch aggregate
           (fun _ => Ok []) ["0xB0B"] false 0 1000) w in
  read_db_events (db out.1) ["0xB0B"] 0 1000 = []
  /\ run (get_events_history 8 "balancer_events" (fun d => d) fetch aggregate
            (fun _ => Raise RemoteError) ["0xB0B"] false 0 1000) w
     = (out.1, out.2)
  /\ forall r, out.2 = Ok r -> r = [].
Proof.
  intros fetch aggregate w out.
  assert (read_db_events (db out.1) ["0xB0B"] 0 1000 = []) as Hd
    by (vm_compute; reflexivity).
  split; [exact Hd|].
  exact (history_without_stored_events_asks_no_live_balance 8 "balancer_events"
           (fun d => d) fetch aggregate (fun _ => Ok []) (fun _ => Raise RemoteError)
           ["0xB0B"] false 0 1000 w out.1 out.2 (surjective_pairing out) Hd).
Defined.

Lemma events_data_holds_the_addresses_with_invest_events_witness :
  let fetch := fun addresses ty start_ts end_ts =>
    Graph.result (Sample.fetch_invest Sample.graph_events_bpt addresses ty
                    start_ts end_ts) in
  let w := mk_world (mk_db ∅ []) [] in
  let out := run (_get_address_to_events_data fetch ["0xA11CE"; "0xB0B"] 0 1000) w in
  is_ok out.2 = true
  /\ match out.2 with
     | Ok data =>
         PyDict.keys data = ["0xA11CE"]
         /\ exists adds removes,
              fetch ["0xA11CE"; "0xB0B"] ADD_LIQUIDITY 0 1000 = Ok adds
              /\ fetch ["0xA11CE"; "0xB0B"] REMOVE_LIQUIDITY 0 1000 = Ok removes
              /\ NoDup (PyDict.keys data)
              /\ forall a,
                   (a ∈ PyDict.keys data
                    <-> a ∈ PyDict.keys adds.1 \/ a ∈ PyDict.keys removes.1)
                   /\ (a ∈ PyDict.keys data ->
                         PyDict.get data a
                         = Some (BalancerEventsData.mk
                                   (PyDict.get_or [] adds.1 a)
                                   (PyDict.get_or [] removes.1 a)
                                   (PyDict.get_or [] adds.2 a)
                                   (PyDict.get_or [] removes.2 a)))
     | _ => False
     end.
Proof.
  intros fetch w out.
  split; [vm_compute; reflexivity|].
  destruct out.2 as [data| |] eqn:Hres;
    [|by vm_compute in Hres|by vm_compute in Hres].
  assert (out = (out.1, Ok data)) as Hrun
    by (rewrite <- Hres; apply surjective_pairing).
  split.
  - assert (Hr := Hres). vm_compute in Hr. injection Hr as Hr. by rewrite <- Hr.
  - exact (events_data_holds_the_addresses_with_invest_events fetch
             ["0xA11CE"; "0xB0B"] 0 1000 w out.1 data Hrun).
Defined.

Lemma second_request_to_the_same_timestamp_fetches_nothing_witness :
  let fetch := fun addresses ty start_ts end_ts =>
    Graph.result (Sample.fetch_invest Sample.graph_events_bpt addresses ty
                    start_ts end_ts) in
  let aggregate :=
    EventAggregator._get_balancer_aggregated_events_data Sample.token_of_address
      Sample.price_one [] in
  let w := mk_world (mk_db ∅ []) [] in
  let out :=
    run (get_events_history 8 "balancer_events" (fun d => d) fetch aggregate
           (fun _ => Ok []) ["0xA11CE"; "0xB0B"] false 0 1000) w in
  is_ok out.2 = true
  /\ length (requested out.1) = 2%nat
  /\ (run (get_events_history 8 "balancer_events" (fun d => d) fetch aggregate
             (fun _ => Raise RemoteError) ["0xA11CE"; "0xB0B"] false 150 1000)
          out.1).1 = out.1.
Proof.
  intros fetch aggregate w out.
  split; [vm_compute; reflexivity|]. split; [vm_compute; reflexivity|].
  destruct out.2 as [r| |] eqn:Hres; [|by vm_compute in Hres|by vm_compute in Hres].
  assert (out = (out.1, Ok r)) as Hrun by (rewrite <- Hres; apply surjective_pairing).
  exact (second_request_to_the_same_timestamp_fetches_nothing 8 "balancer_events"
           (fun d => d) fetch aggregate (fun _ => Ok []) (fun _ => Raise RemoteError)
           ["0xA11CE"; "0xB0B"] 0 150 1000 w out.1 r eq_refl Hrun).
Defined.
End SyncLaws.

(** ** The start of the module *)

Module LifecycleLaws.
Import Graph Prices Lifecycle PricesFacts.
Import EventAggregator Aggregated EventAggregatorFacts EventAggregatorLaws.

Lemma urls_differ :
  BALANCER_SUBGRAPH ≠ BALANCER_EVENTS_SUBGRAPH
  /\ BALANCER_SUBGRAPH ≠ UNISWAP_SUBGRAPH
  /\ BALANCER_EVENTS_SUBGRAPH ≠ UNISWAP_SUBGRAPH.
Proof.
  split_and!; intros H; apply String.eqb_eq in H; vm_compute in H; discriminate H.
Qed.

Section facts.
Variable G : Type.
Variable Graph : string -> option G.
Variable Raw : Type.
Variable L : nat.
(** [graph.query] with the tokenPrices query and [graph_uniswap.query] with
    the tokenDayDatas query, for a subgraph that was reached. *)
Variable token_prices_of : G -> token_price_params.t -> response Raw.
Variable token_day_datas_of : G -> token_day_params.t -> response Raw.
Variable deserialize_token_price : Raw -> option (ChecksumEvmAddress * Price).
Variable deserialize_token_day_data : Raw -> option (ChecksumEvmAddress * Price).
Variable has_oracle : EvmToken.t -> bool.
Variable query_usd_price_or_use_default : EvmToken.t -> Timestamp -> Price -> Price.
Variable now : Timestamp.
Variable midnight_epoch_of : Timestamp -> Timestamp.
Variable lower : string -> string.

Abbreviation price_at m :=
  (_get_token_price_at_timestamp_zero_if_error Raw L
     (token_day_datas_of <$> graph_uniswap m) deserialize_token_day_data has_oracle
     query_usd_price_or_use_default now midnight_epoch_of lower).
Abbreviation unknown_prices m :=
  (_get_unknown_token_to_prices_graph Raw L (token_prices_of (graph m))
     (token_day_datas_of <$> graph_uniswap m) deserialize_token_price
     deserialize_token_day_data now midnight_epoch_of lower).
Abbreviation balancer m :=
  (_get_unknown_token_to_prices_balancer_graph Raw L (token_prices_of (graph m))
     deserialize_token_price lower).

(** X26.  The module needs the two subgraphs of the protocol and no more: it
    fails to start exactly when one of the two cannot be reached, stops at
    the first of them that fails and then leaves the secondary AMM alone;
    with both reached it starts, and holds the subgraph of the secondary AMM
    or [None], in which case the user is told. *)
Theorem init_needs_the_two_subgraphs_of_the_protocol :
  let out := __init__ G Graph in
  (out.2 = ModuleInitializationFailure
   <-> Graph BALANCER_SUBGRAPH = None \/ Graph BALANCER_EVENTS_SUBGRAPH = None)
  /\ (Graph BALANCER_SUBGRAPH = None -> Connect BALANCER_EVENTS_SUBGRAPH ∉ out.1)
  /\ (Connect UNISWAP_SUBGRAPH ∈ out.1 <-> out.2 ≠ ModuleInitializationFailure)
  /\ (InitError SUBGRAPH_REMOTE_ERROR_MSG ∈ out.1
      <-> out.2 = ModuleInitializationFailure)
  /\ forall m, out.2 = Initialized m ->
       Graph BALANCER_SUBGRAPH = Some (graph m)
       /\ Graph BALANCER_EVENTS_SUBGRAPH = Some (graph_events m)
       /\ Graph UNISWAP_SUBGRAPH = graph_uniswap m
       /\ (InitError UNISWAP_REMOTE_ERROR_MSG ∈ out.1 <-> graph_uniswap m = None).
Proof.
  pose proof urls_differ as (Hbe & Hbu & Heu).
  unfold __init__.
  destruct (Graph BALANCER_SUBGRAPH) as [g|];
    [destruct (Graph BALANCER_EVENTS_SUBGRAPH) as [ge|];
     [destruct (Graph UNISWAP_SUBGRAPH) as [gu|]|]|];
    cbn [fst snd]; rewrite ?elem_of_cons, ?elem_of_nil; split_and!;
    try (intros m Hm; try discriminate Hm; injection Hm as <-;
         cbn [graph graph_events graph_uniswap];
         rewrite ?elem_of_cons, ?elem_of_nil);
    intuition congruence.
Qed.

(** X27.  A module that started while the subgraph of the secondary AMM
    could not be reached does not return zero for the historical price of a
    token without an oracle: the lookup raises [AttributeError], which the
    suppression of [RemoteError] lets through, without a query and without a
    message. The lookup of the current prices checks for the missing
    subgraph and ends as the protocol's own price query does. *)
Theorem historical_price_without_the_uniswap_subgraph_raises_AttributeError
    m fuel token ts unknown_tokens :
  (__init__ G Graph).2 = Initialized m ->
  Graph UNISWAP_SUBGRAPH = None ->
  has_oracle token = false ->
  price_at m (S fuel) token ts = Fetch [] (Raise AttributeError)
  /\ result (unknown_prices m fuel unknown_tokens)
     = result (balancer m fuel
                 (foldl (set_add id) [] (EvmToken.evm_address <$> unknown_tokens))).
Proof.
  intros Hinit Hnone Horacle.
  assert (graph_uniswap m = None) as Hm.
  { revert Hinit. unfold __init__.
    destruct (Graph BALANCER_SUBGRAPH); [|done].
    destruct (Graph BALANCER_EVENTS_SUBGRAPH); [|done].
    rewrite Hnone. by intros [= <-]. }
  split.
  - unfold _get_token_price_at_timestamp_zero_if_error. by rewrite Horacle, Hm.
  - pose proof (unknown_prices_result Raw L (token_prices_of (graph m))
                  (token_day_datas_of <$> graph_uniswap m) deserialize_token_price
                  deserialize_token_day_data now midnight_epoch_of lower fuel
                  unknown_tokens) as Hres.
    cbv zeta in Hres. rewrite Hres, Hm.
    by destruct (result (balancer m fuel _)).
Qed.
End facts.

(** *** The aggregation of a module without the secondary AMM *)

Section aggregation.
Variable Raw : Type.
Variable L : nat.
Variable deserialize_token_day_data : Raw -> option (ChecksumEvmAddress * Price).
Variable has_oracle : EvmToken.t -> bool.
Variable query_usd_price_or_use_default : EvmToken.t -> Timestamp -> Price -> Price.
Variable now : Timestamp.
Variable midnight_epoch_of : Timestamp -> Timestamp.
Variable lower : string -> string.
Variable token_of_address : ChecksumEvmAddress -> EvmToken.t.
Variable db_pools : list EvmToken.t.

(** The price lookup of a module whose [graph_uniswap] is [None]. *)
Abbreviation lookup_without_amm fuel :=
  (Lookup.token_price_at Raw L None deserialize_token_day_data has_oracle
     query_usd_price_or_use_default now midnight_epoch_of lower fuel).
Abbreviation token_of i := (token_of_address (BalancerInvestEvent.token_address i)).

Lemma lookup_without_amm_fails fuel i f :
  failure (invest_lookup token_of_address (lookup_without_amm (S fuel)) i).2 = Some f ->
  f = Some AttributeError /\ has_oracle (token_of i) = false.
Proof.
  unfold invest_lookup, Lookup.token_price_at,
    _get_token_price_at_timestamp_zero_if_error. cbn [snd].
  destruct (has_oracle (token_of i)); [done|].
  by intros [= <-].
Qed.

Lemma lookup_without_amm_returns fuel i :
  failure (invest_lookup token_of_address (lookup_without_amm (S fuel)) i).2 = None ->
  has_oracle (token_of i) = true.
Proof.
  unfold invest_lookup, Lookup.token_price_at,
    _get_token_price_at_timestamp_zero_if_error. cbn [snd].
  by destruct (has_oracle (token_of i)).
Qed.

(** X28.  In a module started while the subgraph of the secondary AMM could
    not be reached, the aggregation returns only when every investment
    event whose price it looks up (those of a group up to the first without
    a price) moves a token with an oracle.  When the investment events of
    the groups move tokens of their pool, it fails either with
    [RemoteError], for a pool-token event without investment events, or
    with [AttributeError], and then some investment event moves a token
    without an oracle. *)
Theorem aggregation_without_the_uniswap_subgraph_needs_oracles fuel data :
  let aggregate :=
    _get_balancer_aggregated_events_data token_of_address
      (lookup_without_amm (S fuel)) db_pools in
  (forall evs, aggregate data = Ok evs ->
     Forall (fun x =>
        Forall (fun i => has_oracle (token_of i) = true)
          (lookups_made token_of_address (lookup_without_amm (S fuel))
             (invest_group x.1.1 x.1.2 x.2)))
       (bpt_events_in_order data))
  /\ (tokens_known data -> is_ok (aggregate data) = false ->
        has_orphan data /\ aggregate data = Raise RemoteError
        \/ aggregate data = Raise AttributeError
           /\ Exists (fun x =>
                 Exists (fun i => has_oracle (token_of i) = false)
                   (invest_group x.1.1 x.1.2 x.2))
               (bpt_events_in_order data)).
Proof.
  intros aggregate. split.
  - intros evs Hevs. apply aggregated_lookups_made in Hevs.
    eapply Forall_impl; [exact Hevs|]. intros x Hx. cbv beta in Hx.
    eapply Forall_impl; [exact Hx|]. intros i Hi.
    by apply (lookup_without_amm_returns fuel i).
  - intros Htok Hfail.
    destruct (aggregated_ok_or_fails token_of_address (lookup_without_amm (S fuel))
                db_pools data Htok) as [[evs Hevs]|(f & Hf & [[-> Horph]|Hlookup])].
    + fold aggregate in Hevs. by rewrite Hevs in Hfail.
    + left. split; [done | by apply failure_Raise].
    + right. unfold lookup_fails in Hlookup.
      assert (f = Some AttributeError) as ->.
      { apply Exists_exists in Hlookup as (x & _ & Hex).
        apply Exists_exists in Hex as (i & _ & Hi).
        by apply (lookup_without_amm_fails fuel i) in Hi as [-> _]. }
      split; [by apply failure_Raise|].
      eapply Exists_impl; [exact Hlookup|]. intros x Hx. cbv beta in Hx.
      eapply Exists_impl; [exact Hx|]. intros i Hi.
      by apply (lookup_without_amm_fails fuel i) in Hi as [_ ?].
Qed.
End aggregation.

Lemma aggregation_without_the_uniswap_subgraph_needs_oracles_witness :
  (tokens_known Sample.paired /\ well_paired Sample.paired)
  /\ _get_balancer_aggregated_events_data Sample.token_of_address
       SamplePages.price_without_uniswap [] Sample.paired
     = Raise AttributeError.
Proof.
  assert (tokens_known Sample.paired) as Htok.
  { unfold tokens_known, tokens_in_pool. by_decide. }
  assert (well_paired Sample.paired) as Hpair.
  { unfold well_paired. by_decide. }
  split; [by split|].
  destruct (proj2 (aggregation_without_the_uniswap_subgraph_needs_oracles nat 2
                     (fun _ => None) SamplePages.has_oracle Sample.oracle_price 0
                     (fun ts => ts) id Sample.token_of_address [] 4%nat Sample.paired)
              Htok ltac:(vm_compute; reflexivity))
    as [[Horph _]|[Hraise _]]; [|exact Hraise].
  destruct (well_paired_no_orphan Sample.paired Hpair Horph).
Defined.

Lemma historical_price_without_the_uniswap_subgraph_raises_AttributeError_witness :
  let Graph := fun url : string =>
    if decide (url = UNISWAP_SUBGRAPH) then None else Some url in
  let m := mk BALANCER_SUBGRAPH BALANCER_EVENTS_SUBGRAPH None in
  ((__init__ string Graph).2 = Initialized m
   /\ Graph UNISWAP_SUBGRAPH = None
   /\ Sample.no_oracle Sample.weth = false)
  /\ _get_token_price_at_timestamp_zero_if_error nat 2
       ((fun _ => Sample.graph_uniswap_empty) <$> graph_uniswap m) (fun _ => None)
       Sample.no_oracle Sample.oracle_price 0 (fun ts => ts) id 5%nat Sample.weth 100
     = Fetch [] (Raise AttributeError)
  /\ result (_get_unknown_token_to_prices_graph nat 2 Sample.graph_token_prices
               ((fun _ => Sample.graph_uniswap_empty) <$> graph_uniswap m)
               Sample.deserialize_token_price (fun _ => None) 0 (fun ts => ts) id
               5%nat [Sample.weth])
     = result (_get_unknown_token_to_prices_balancer_graph nat 2
                 Sample.graph_token_prices Sample.deserialize_token_price id 5%nat
                 (foldl (set_add id) [] (EvmToken.evm_address <$> [Sample.weth]))).
Proof.
  intros Graph m.
  assert ((__init__ string Graph).2 = Initialized m) as Hinit
    by (vm_compute; reflexivity).
  assert (Graph UNISWAP_SUBGRAPH = None) as Hnone by (vm_compute; reflexivity).
  split; [by split_and!|].
  exact (historical_price_without_the_uniswap_subgraph_raises_AttributeError
           string Graph nat 2 (fun _ => Sample.graph_token_prices)
           (fun _ => Sample.graph_uniswap_empty) Sample.deserialize_token_price
           (fun _ => None) Sample.no_oracle Sample.oracle_price 0 (fun ts => ts) id
           m 4%nat Sample.weth 100 [Sample.weth] Hinit Hnone eq_refl).
Defined.
End LifecycleLaws.
